(* ===== verification/_CoqProject ===== *)
-Q . S2P
Prelude.v
RustStr.v
External.v
Octets.v
StoreTypes.v
Store.v
Contract.v
Instances.v
Headers.v
Ece.v
EceTheorems.v
MemoryStore.v
MemoryProofs.v
MemoryRuns.v
MemoryTheorems.v
Vapid.v
VapidTheorems.v
Hub.v
HubTheorems.v
Bridge.v
Transport.v
Shutdown.v
Config.v
App.v
Notify.v
Client.v
GcpAuth.v
BigtableWire.v
BigtableService.v
Bigtable.v
BigtableTheorems.v
BigtableRows.v
Fcm.v
Apns.v
Subscription.v
Session.v
Response.v
Worlds.v
Delivery.v
Demo.v
PlatformDemo.v
GcpTheorems.v
PlatformTheorems.v
BigtableRuns.v
BigtableDemo.v
BigtableScans.v
BigtableContents.v
BigtableExamples.v
NotifyTheorems.v
Cluster.v
SessionTheorems.v
Endpoint.v
EndpointTheorems.v
Registration.v
RegistrationTheorems.v
Receipts.v
ReceiptsTheorems.v
Internal.v
InternalTheorems.v
Telemetry.v
Server.v
Main.v
ServerTheorems.v
TelemetryTheorems.v
Calls.v
System.v
Concurrency.v
Scenarios.v
Typing.v
TaskExamples.v
Handoff.v
BigtableRepr.v
BigtableUpdates.v
BigtableRpcs.v
BigtableInterleave.v
BigtableOps.v
BigtableCalls.v
BigtableSweeps.v
BigtableRefines.v
BigtableTalk.v
