(* ===== verification/Prelude.v ===== *)
(** * A verification library for webpush-service

    The service stores encrypted Web Push messages and delivers them: an
    application server posts a message to a push resource, the service
    stores it, and hands it to the user agent over a WebSocket session, on
    this node or another, or to a mobile platform through a bridge. Receipts
    of acknowledged, expired or discarded messages wait in a queue until an
    application server reads them from a stream.

    ** Parts and files

    - Foundations. [Prelude]: results, the state and error monads [ST] and
      [EST], list and map lemmas, the hint database [push]. [RustStr] and
      [Octets]: the string and slice operations of the Rust standard library.
      [External]: third-party code as type classes with its documented laws
      (base64, JSON, HTTP header maps, HKDF, AES-GCM, P-256, HMAC, channels,
      HTTP clients); [Instances], [Demo], [PlatformDemo] and [BigtableDemo]
      instantiate every class, so that each theorem with hypotheses is
      applied to a concrete input in the lemma named after it.
    - Storage (crates/webpush-store). [StoreTypes]: data, clock, random ids and
      receipt numbers. [Store]: the trait as the class [Store], the abstract
      state [AStore], and the contract of the trait as [StoreLaws] over it.
      [MemoryStore] with [MemoryProofs], [MemoryRuns] and [MemoryTheorems]: the
      in-memory adapter implements the contract, so that every theorem about
      the server holds over it. [BigtableWire] and [Bigtable]: the Bigtable
      adapter, over the documented behaviour of the service in
      [BigtableService]. [BigtableTheorems], [BigtableRows], [BigtableRuns],
      [BigtableScans] and [BigtableExamples]: its reads,
      rows and operations with every version of a cell in view.
      [BigtableContents]: the same primitives under one clock that does not go
      back, where only the newest versions count. [BigtableRepr]
      and [BigtableUpdates]: the table that represents an
      [AStore], and what one row more or less means. [BigtableOps],
      [BigtableCalls] and [BigtableSweeps]: every operation from such a table.
      [BigtableRefines], [BigtableTalk]: runs of the adapter are runs of the
      contract, with concrete runs. [BigtableRpcs] and [BigtableInterleave]:
      the calls to the service one by one, those of different tasks in any
      order, any of them failing, with a concrete run in [BigtableTalk].
      [Contract]: the executable contract of
      contract.rs; both adapters pass it ([BigtableExamples]).
    - Cryptography (crates/webpush-crypto). [Ece], [EceTheorems]: the aes128gcm
      coding and Web Push encryption. [Vapid], [VapidTheorems]: application
      server credentials.
    - Platforms (crates/webpush-bridge, -fcm, -apns, -gcp-auth). [Bridge],
      [Client], [GcpAuth], [Fcm], [Apns]; [GcpTheorems] and
      [PlatformTheorems].
    - Server (crates/webpush-server). [Config] (config.rs), [App] (app.rs),
      [Hub] (hub.rs), [Notify] (notify.rs), [Headers] (headers.rs), [Response]
      (error.rs), [Subscription] (subscription.rs), [Session] (session.rs),
      [Endpoint] (endpoint.rs), [Registration] (registration.rs), [Receipts]
      (receipts.rs), [Internal] (internal.rs, maintenance.rs), [Transport]
      (transport.rs), [Shutdown] (shutdown.rs), [Telemetry] (telemetry.rs),
      [Server] (lib.rs), [Main] (main.rs), with a theorem file for each that
      states properties of its own; [Worlds] and [Delivery] carry the storage
      contract to handlers, [Cluster] is about the listeners of a cluster and
      their routes, and [Scenarios] follows one message from push to receipt,
      and two registrations of one channel at the same time.
    - Many tasks over one store. [Calls]: the store calls of a handler whatever
      the others do, with every answer an oracle's. [System]: what each task
      may call, and the runs of any number of tasks, of a store ([system])
      and of the contract ([contract]). [Concurrency] follows the receipts
      through such runs, [Typing] the forms of ids, channels and tokens;
      [TaskExamples] is two sessions that acknowledge one message. [Handoff]
      follows one message through such runs, from the request that stores it
      to the session that is opened meanwhile.

    ** How the model reads the code

    A handler is a computation over [App.World]: environment, store, hub,
    channels, spawned tasks, requests to other nodes, bridges. [?] is the bind
    of [EST], which keeps the world reached when an error is returned. Where
    the code waits ([select!], a stream of frames, a timer), the model is
    given the sequence of outcomes, and theorems quantify over all of them. A
    request to another system is answered by an oracle. The server's theorems
    are about any store with [StoreLaws]; a lock or a conditional write makes
    a store operation one step, and [FaultLaws] says what a failed one may
    have done.

    ** What the theorems show

    - Storage: refinement of the contract by the memory adapter, what its
      maps and indexes agree on along every run, and what more they do when no
      channel is created while it exists, receipts owed exactly once. For Bigtable:
      refinement of the contract by every run from well-formed arguments
      ([bigtable_refines]), merging of read streams, the round trip of a row,
      and what conditional deletes and route changes do when clocks differ.
    - Concurrency: whatever the order of the store calls of all tasks, a
      message is answered by at most one receipt, and only well-formed values
      reach the store, for a store whose operations are single steps, as those
      of the memory adapter are; for Bigtable, at most one receipt whatever the
      order of the calls to the service, with tasks that stop or fail within
      an operation ([interleaved_receipts]); what two overlapping
      registrations do.
    - Delivery: what an accepted push has stored, the status a push gets, no
      message sent twice on a connection, the backlog read in order, an
      acknowledgement settling one message; what the hub tells its listeners;
      which node an event goes to, that the handlers of a push and of a session
      opened at the same time on another node do not miss each other in any
      order of their store calls ([handoff_loses_nothing]), and what a late
      cleanup of a route does.
    - Receipts: a stream writes each receipt once and drains its backlog.
    - Cryptography: the round trip of encryption, the exact bodies that
      decrypt, exact limits, distinct nonces, the exact tokens that verify,
      and that the record loop ends.
    - Platforms: which requests a delivery makes and what its outcome means.
    - The process: validated settings, routes per role, permits that are
      never lost or exceeded, gauges that follow the connections, the order
      of a shutdown, from the signal to the last task or the timeout.

    ** Fuel

    [Ece.decrypt_loop] runs with one more step than the body has octets;
    every record takes at least one, and [decrypt_loop_total] shows that it
    never runs out. [Vapid.parse_params] likewise consumes its input
    ([parse_params_total]). [RustStr.replace_str] is given the length of the
    string, and each step drops a character of it. Sessions, streams and loops
    recurse on the list of events they are given.

    ** Not modelled

    Of telemetry.rs: the recorder, the subscriber, and the counters inside
    single handlers, which nothing reads. Logs, except those of the shutdown.
    The bytes of connections, TLS, HTTP and WebSocket framing, routing and
    extraction, which are axum, hyper and rustls. Reading TOML and serde's
    derived decoders, which are parameters.
    Timers: when a tick or a timeout comes is an event, and the jitter of a
    session's lifetime, a product of floating-point numbers, is part of that.
    Panics, except those of a loop whose interval is zero
    ([InternalTheorems.zero_interval_panics]).

    Runs of many tasks ([System.system]) take a store call as one step, and a
    task whose call fails as one that stops; [System.fresh_for] holds of each
    of their calls: ids drawn or inserted are unused, receipt numbers do not
    run out, and a subscription is only created for a channel that has none,
    so two registrations of one channel do not overlap in them.
    [registration_race] is of registrations that do overlap, and
    [memory_reachable_consistent] of the memory adapter's state then.

    The memory adapter holds its lock for a call, but the calls of the
    Bigtable adapter that write several rows are not atomic, and
    [BigtableRefines.rows_run], the runs of [bigtable_refines], takes each as
    one step too, under one clock that does not go back. Of what two such
    calls do at once, and of what a call leaves that failed half way, the
    receipts are shown ([interleaved_receipts]), with no clock and no law of
    reads; which indexes of a message or a subscription are left behind is
    not. [set_route_takes_over] says what becomes of a route when a node's
    clock is behind. Collection of Bigtable cells by age is not modelled. *)
From stdpp Require Export base tactics option list gmap strings sorting pretty.
From Stdlib Require Export NArith ZArith Lia.
From Stdlib Require Import Ascii.

Declare Scope push_scope.
Delimit Scope push_scope with push.
Create HintDb push discriminated.

(** ** Results

    [result E A] is Rust's [Result<A, E>]. *)
Inductive result (E A : Type) : Type :=
| Ok (a : A)
| Err (e : E).
Arguments Ok {E A} _.
Arguments Err {E A} _.

#[export] Instance result_ret E : MRet (result E) := fun A a => Ok a.
#[export] Instance result_bind E : MBind (result E) := fun A B f r =>
  match r with Ok a => f a | Err e => Err e end.
#[export] Instance result_fmap E : FMap (result E) := fun A B f r =>
  match r with Ok a => Ok (f a) | Err e => Err e end.

(** [Option::ok_or]. *)
Definition ok_or {E A} (e : E) (o : option A) : result E A :=
  match o with Some a => Ok a | None => Err e end.

(** [Result::ok]. *)
Definition result_ok {E A} (r : result E A) : option A :=
  match r with Ok a => Some a | Err _ => None end.

(** [Result::map_err]. *)
Definition map_err {E F A} (f : E -> F) (r : result E A) : result F A :=
  match r with Ok a => Ok a | Err e => Err (f e) end.

Definition is_ok {E A} (r : result E A) : bool :=
  match r with Ok _ => true | Err _ => false end.

(** ** State passing

    [ST W A] threads a world [W] through a computation that cannot fail;
    [EST W E A] is the same for one that may return an error, with [?] as
    its bind: the world reached so far is kept when an error is returned. *)
Definition ST (W A : Type) : Type := W -> A * W.
Definition EST (W E A : Type) : Type := W -> result E A * W.
#[global] Typeclasses Opaque ST EST.

#[export] Instance st_ret W : MRet (ST W) := fun A a w => (a, w).
#[export] Instance st_bind W : MBind (ST W) := fun A B f m w =>
  let '(a, w') := m w in f a w'.
#[export] Instance est_ret W E : MRet (EST W E) := fun A a w => (Ok a, w).
#[export] Instance est_bind W E : MBind (EST W E) := fun A B f m w =>
  match m w with
  | (Ok a, w') => f a w'
  | (Err e, w') => (Err e, w')
  end.

Definition throw {W E A} (e : E) : EST W E A := fun w => (Err e, w).
Definition lift_result {W E A} (r : result E A) : EST W E A := fun w => (r, w).
Definition lift_st {W E A} (m : ST W A) : EST W E A := fun w =>
  let '(a, w') := m w in (Ok a, w').

(** Run a computation and look at its outcome instead of propagating it. *)
Definition try {W E A} (m : EST W E A) : ST W (result E A) := m.

(** A sequential loop: [for x in l { ... }] collecting the results. *)
Fixpoint st_mapM {W A B} (f : A -> ST W B) (l : list A) : ST W (list B) :=
  match l with
  | [] => mret []
  | x :: l => y ← f x; ys ← st_mapM f l; mret (y :: ys)
  end.

Fixpoint est_forM {W E A} (f : A -> EST W E unit) (l : list A) : EST W E unit :=
  match l with
  | [] => mret ()
  | x :: l => _ ← f x; est_forM f l
  end.

(** ** Machine integers *)
Definition u64_max : N := 2 ^ 64 - 1.
Definition u32_max : N := 2 ^ 32 - 1.
(** Wrap-around at 64 bits, what release builds compute. *)
Definition wrap64 (n : N) : N := n mod 2 ^ 64.
(** [u32::try_from]. *)
Definition u32_try_from (n : N) : option N :=
  if decide (n <= u32_max)%N then Some n else None.
(** [u16::try_from]. *)
Definition u16_try_from (n : N) : option N :=
  if decide (n < 2 ^ 16)%N then Some n else None.
(** [u64::saturating_sub] and [u64::saturating_add]. *)
Definition sat_sub (a b : N) : N := (a - b)%N.
Definition sat_add (a b : N) : N := N.min (a + b) u64_max.

(** ** Iteration order of hash maps

    Rust leaves the order in which a [HashMap] is iterated unspecified. Code
    that iterates over one is therefore modelled over an arbitrary order. *)
Class HashOrder : Type := {
  hm_list : forall {K V} `{Countable K}, gmap K V -> list (K * V);
  hm_list_perm : forall {K V} `{Countable K} (m : gmap K V),
    hm_list m ≡ₚ map_to_list m;
}.

(** One such order, used by the concrete examples. *)
Definition default_order : HashOrder := {|
  hm_list := fun K V _ _ m => map_to_list m;
  hm_list_perm := fun K V _ _ m => reflexivity _;
|}.

Definition hm_values `{HashOrder} {K V} `{Countable K} (m : gmap K V) : list V :=
  (hm_list m).*2.
Definition hm_keys `{HashOrder} {K V} `{Countable K} (m : gmap K V) : list K :=
  (hm_list m).*1.

(** ** Tactics *)

(** Split every [match] and [if] of the goal and the hypotheses. *)
Ltac case_all := repeat (case_match || case_decide); simplify_eq/=.

(** Split every [if] of the goal. *)
Ltac case_ifs := repeat match goal with
  | |- context [if ?b then _ else _] => destruct b eqn:?
  end.

(** Rewrite the conditions that are hypotheses. *)
Ltac use_ifs := repeat match goal with
  | H : ?b = _ |- context [if ?b then _ else _] => rewrite H
  end.

(** Turn boolean facts into propositions. *)
Ltac bools := repeat match goal with
  | H : _ && _ = true |- _ => apply andb_true_iff in H as [? ?]
  | H : _ || _ = false |- _ => apply orb_false_iff in H as [? ?]
  | H : negb _ = true |- _ => apply negb_true_iff in H
  | H : negb _ = false |- _ => apply negb_false_iff in H
  | H : bool_decide _ = true |- _ => apply bool_decide_eq_true in H
  | H : bool_decide _ = false |- _ => apply bool_decide_eq_false in H
  end.

(** Unfold the monads. *)
Ltac unfold_monad :=
  unfold mbind, mret, fmap, st_bind, st_ret, est_bind, est_ret,
    result_bind, result_ret, lift_st, lift_result, throw, try in *.

(** Destruct every hypothesis of the form [exists]/[/\]. *)
Ltac destruct_ex := repeat match goal with
  | H : exists _, _ |- _ => destruct H
  | H : _ /\ _ |- _ => destruct H
  | H : is_Some _ |- _ => destruct H
  end.

(** ** Shared lemmas *)
Section hash_order.
Context `{HashOrder} {K V : Type} `{Countable K}.
Implicit Types (m : gmap K V).

Lemma elem_of_hm_list m k v : (k, v) ∈ hm_list m <-> m !! k = Some v.
Proof. rewrite hm_list_perm. apply elem_of_map_to_list. Qed.

Lemma elem_of_hm_values m v : v ∈ hm_values m <-> exists k, m !! k = Some v.
Proof.
  unfold hm_values. rewrite list_elem_of_fmap. split.
  - intros ([k w] & -> & Hin). exists k. by apply elem_of_hm_list.
  - intros [k Hk]. exists (k, v). split; [done|]. by apply elem_of_hm_list.
Qed.

Lemma elem_of_hm_keys m k : k ∈ hm_keys m <-> is_Some (m !! k).
Proof.
  unfold hm_keys. rewrite list_elem_of_fmap. split.
  - intros ([k' w] & -> & Hin). exists w. by apply elem_of_hm_list.
  - intros [v Hk]. exists (k, v). split; [done|]. by apply elem_of_hm_list.
Qed.

Lemma NoDup_hm_keys m : NoDup (hm_keys m).
Proof. unfold hm_keys. rewrite hm_list_perm. apply NoDup_fst_map_to_list. Qed.

Lemma hm_values_perm m : hm_values m ≡ₚ (map_to_list m).*2.
Proof. unfold hm_values. by rewrite hm_list_perm. Qed.
End hash_order.

#[export] Hint Resolve NoDup_hm_keys : push.

(** [Vec::truncate]. *)
Fixpoint truncate {A} (n : N) (l : list A) : list A :=
  match l with
  | [] => []
  | x :: l => if (n =? 0)%N then [] else x :: truncate (N.pred n) l
  end.

Lemma truncate_take {A} (n : N) (l : list A) : truncate n l = take (N.to_nat n) l.
Proof.
  revert n. induction l as [|x l IH]; intros n; [by rewrite take_nil|]. cbn.
  destruct (N.eqb_spec n 0) as [->|Hn]; [done|]. rewrite IH, N2Nat.inj_pred.
  by destruct (N.to_nat n) eqn:E; [lia|].
Qed.

Lemma option_bind_Some {A B} (f : A -> option B) (o : option A) (b : B) :
  o ≫= f = Some b <-> exists a, o = Some a /\ f a = Some b.
Proof. destruct o; naive_solver. Qed.

Lemma est_bind_Ok {W E A B} (f : A -> EST W E B) (m : EST W E A) w b w' :
  (m ≫= f) w = (Ok b, w') <->
  exists a w1, m w = (Ok a, w1) /\ f a w1 = (Ok b, w').
Proof.
  unfold mbind, est_bind. destruct (m w) as [[a|e] w1]; [naive_solver|].
  split; [done|]. intros (a & w2 & ? & _). simplify_eq.
Qed.

(** ** Filters of lists and of the values of a map *)
Lemma filter_ext_in {A} (P Q : A -> Prop) `{!forall x, Decision (P x), !forall x, Decision (Q x)} (l : list A) :
  (forall x, x ∈ l -> P x <-> Q x) -> filter P l = filter Q l.
Proof.
  induction l as [|x l IH]; intros Heq; [done|]. rewrite !filter_cons.
  rewrite IH by (intros; apply Heq; by right). specialize (Heq x ltac:(by left)).
  repeat case_decide; naive_solver.
Qed.

Lemma filter_split {A} (P Q R : A -> Prop)
    `{!forall x, Decision (P x), !forall x, Decision (Q x), !forall x, Decision (R x)} (l : list A) :
  (forall x, x ∈ l -> R x <-> P x \/ Q x) ->
  filter R l ≡ₚ filter P l ++ filter Q (filter (fun x => ~ P x) l).
Proof.
  induction l as [|x l IH]; intros Heq; [done|]. rewrite !filter_cons.
  specialize (IH ltac:(intros; apply Heq; by right)). specialize (Heq x ltac:(by left)).
  repeat case_decide; try tauto; rewrite ?filter_cons; repeat case_decide; try tauto; simpl;
    rewrite <- ?Permutation_middle; by rewrite ?IH.
Qed.

Lemma filter_none {A} (P : A -> Prop) `{!forall x, Decision (P x)} (l : list A) :
  (forall x, x ∈ l -> ~ P x) -> filter P l = [].
Proof.
  intros Hno. induction l as [|x l IH]; [done|]. rewrite filter_cons.
  case_decide; [by destruct (Hno x ltac:(by left))|]. apply IH. intros y ?. apply Hno. by right.
Qed.

Lemma filter_fmap {A B} (f : A -> B) (P : B -> Prop) `{!forall x, Decision (P x)} (l : list A) :
  filter P (f <$> l) = f <$> filter (fun x => P (f x)) l.
Proof.
  induction l as [|x l IH]; [done|]. rewrite fmap_cons, !filter_cons, IH. by case_decide.
Qed.

Lemma map_filter_values {K} `{Countable K} {V} (P : V -> Prop) `{!forall x, Decision (P x)}
    (m : gmap K V) :
  (map_to_list (filter (fun kv => P kv.2) m)).*2 ≡ₚ filter P (map_to_list m).*2.
Proof.
  rewrite map_filter_alt, map_to_list_to_map.
  - by rewrite filter_fmap.
  - apply (sublist_NoDup _ (map_to_list m).*1); [apply NoDup_fst_map_to_list|].
    apply fmap_sublist, sublist_filter.
Qed.

Lemma elem_of_values {K} `{Countable K} {V} (m : gmap K V) v :
  v ∈ (map_to_list m).*2 <-> exists k, m !! k = Some v.
Proof.
  rewrite list_elem_of_fmap. split.
  - intros ([k w] & -> & Hin). exists k. by apply elem_of_map_to_list.
  - intros [k Hk]. exists (k, v). split; [done|]. by apply elem_of_map_to_list.
Qed.

Lemma elem_of_values_delete {K} `{Countable K} {V} (m : gmap K V) i v :
  v ∈ (map_to_list (delete i m)).*2 <-> exists k, i <> k /\ m !! k = Some v.
Proof. rewrite elem_of_values. by setoid_rewrite lookup_delete_Some. Qed.
