(* ===== verification/RustStr.v ===== *)
(** * The string operations of the Rust standard library

    A Rust [str] is modelled by the sequence of its UTF-8 bytes, a [string].
    Functions of [str] that take a predicate on characters are only used by
    the code with ASCII characters, and an ASCII character never occurs inside
    a multi-byte sequence, so scanning bytes and scanning characters agree.
    White space is ASCII white space: the strings that are trimmed come from
    HTTP header values, which [HeaderValue::to_str] limits to visible ASCII,
    space and tab. *)
From stdpp Require Import pretty.
From Stdlib Require Import Ascii.
From S2P Require Import Prelude.

(** ** Character classes *)
Definition code (c : ascii) : N := N_of_ascii c.
Definition between (lo hi : N) (c : ascii) : bool :=
  ((lo <=? code c) && (code c <=? hi))%N.
Definition char_is (n : N) (c : ascii) : bool := (code c =? n)%N.
(** [u8::is_ascii_digit] *)
Definition is_ascii_digit : ascii -> bool := between 48 57.
(** [u8::is_ascii_alphanumeric] *)
Definition is_ascii_alphanumeric (c : ascii) : bool :=
  is_ascii_digit c || between 65 90 c || between 97 122 c.
(** [u8::is_ascii_hexdigit] *)
Definition is_ascii_hexdigit (c : ascii) : bool :=
  is_ascii_digit c || between 65 70 c || between 97 102 c.
(** [char::is_ascii_whitespace]: space, tab, line feed, form feed, carriage
    return (not vertical tab). *)
Definition is_ascii_whitespace (c : ascii) : bool :=
  char_is 32 c || char_is 9 c || char_is 10 c || char_is 12 c || char_is 13 c.
(** The ASCII part of [char::is_whitespace], which [str::trim] uses. *)
Definition is_whitespace (c : ascii) : bool :=
  is_ascii_whitespace c || char_is 11 c.
(** [u8::to_ascii_lowercase] *)
Definition ascii_lower (c : ascii) : ascii :=
  if between 65 90 c then ascii_of_N (code c + 32) else c.

(** ** Strings as sequences of characters *)
Fixpoint str_all (p : ascii -> bool) (s : string) : bool :=
  match s with
  | EmptyString => true
  | String c s => p c && str_all p s
  end.

(** [s.len()] *)
Definition str_len (s : string) : N := N.of_nat (String.length s).
(** [s.is_empty()] *)
Definition str_is_empty (s : string) : bool :=
  match s with EmptyString => true | _ => false end.

Fixpoint str_map (f : ascii -> ascii) (s : string) : string :=
  match s with
  | EmptyString => EmptyString
  | String c s => String (f c) (str_map f s)
  end.

(** [to_ascii_lowercase] and [eq_ignore_ascii_case] *)
Definition to_ascii_lowercase (s : string) : string := str_map ascii_lower s.
Definition eq_ignore_ascii_case (a b : string) : bool :=
  bool_decide (to_ascii_lowercase a = to_ascii_lowercase b).

(** [strip_prefix] and [starts_with] with a string pattern *)
Fixpoint strip_prefix (p s : string) : option string :=
  match p, s with
  | EmptyString, _ => Some s
  | String a p, String b s => if decide (a = b) then strip_prefix p s else None
  | String _ _, EmptyString => None
  end.
Definition starts_with (p s : string) : bool :=
  match strip_prefix p s with Some _ => true | None => false end.

(** [s.split_at(i)] at the first character satisfying [p], or the end:
    [s.find(p)] with [&s[..end]] and [&s[end..]]. *)
Fixpoint break_at (p : ascii -> bool) (s : string) : string * string :=
  match s with
  | EmptyString => (EmptyString, EmptyString)
  | String c s' =>
      if p c then (EmptyString, s)
      else let '(a, b) := break_at p s' in (String c a, b)
  end.

(** [split_once] with a character pattern *)
Definition split_once (p : ascii -> bool) (s : string) : option (string * string) :=
  match break_at p s with
  | (a, String _ b) => Some (a, b)
  | (_, EmptyString) => None
  end.

(** [trim_start_matches], [trim_end_matches] and [trim_matches] *)
Fixpoint trim_start_matches (p : ascii -> bool) (s : string) : string :=
  match s with
  | EmptyString => EmptyString
  | String c s' => if p c then trim_start_matches p s' else s
  end.
Fixpoint trim_end_matches (p : ascii -> bool) (s : string) : string :=
  match s with
  | EmptyString => EmptyString
  | String c s' =>
      match trim_end_matches p s' with
      | EmptyString => if p c then EmptyString else String c EmptyString
      | t => String c t
      end
  end.
Definition trim_matches (p : ascii -> bool) (s : string) : string :=
  trim_end_matches p (trim_start_matches p s).
Definition trim : string -> string := trim_matches is_whitespace.
Definition trim_start : string -> string := trim_start_matches is_whitespace.

(** [split] on a character: always at least one part *)
Fixpoint split (sep : ascii -> bool) (s : string) : list string :=
  match s with
  | EmptyString => [EmptyString]
  | String c s' =>
      if sep c then EmptyString :: split sep s'
      else match split sep s' with
           | [] => [String c EmptyString]
           | w :: ws => String c w :: ws
           end
  end.

(** [split_ascii_whitespace]: the non-empty parts *)
Definition split_ascii_whitespace (s : string) : list string :=
  filter (fun w => str_is_empty w = false) (split is_ascii_whitespace s).

(** [s.rsplit(sep).next()]: the part after the last separator *)
Definition rsplit_first (sep : ascii -> bool) (s : string) : string :=
  List.last (split sep s) EmptyString.

(** [contains] with a string pattern *)
Fixpoint str_contains (p s : string) : bool :=
  starts_with p s ||
  match s with EmptyString => false | String _ s' => str_contains p s' end.

(** [replace] of one character by a string *)
Fixpoint str_replace (c : ascii) (by_ : string) (s : string) : string :=
  match s with
  | EmptyString => EmptyString
  | String a s' =>
      if decide (a = c) then by_ +:+ str_replace c by_ s'
      else String a (str_replace c by_ s')
  end.

(** [slice.join(sep)] *)
Fixpoint str_join (sep : string) (l : list string) : string :=
  match l with
  | [] => EmptyString
  | [s] => s
  | s :: l => s +:+ sep +:+ str_join sep l
  end.

(** ** Numbers *)

(** The value of a digit in radix 16, [char::to_digit(16)]. *)
Definition hex_digit_val (c : ascii) : option N :=
  if is_ascii_digit c then Some (code c - 48)%N
  else if between 97 102 c then Some (code c - 87)%N
  else if between 65 70 c then Some (code c - 55)%N
  else None.
Definition digit_val (radix : N) (c : ascii) : option N :=
  d ← hex_digit_val c; if decide (d < radix)%N then Some d else None.

Fixpoint parse_digits (radix : N) (s : string) (acc : N) : option N :=
  match s with
  | EmptyString => Some acc
  | String c s =>
      d ← digit_val radix c;
      let acc' := (acc * radix + d)%N in
      if decide (acc' <= u64_max)%N then parse_digits radix s acc' else None
  end.

(** [u64::from_str_radix]: an optional [+], then at least one digit; [None]
    for anything else and on overflow. *)
Definition from_str_radix (radix : N) (s : string) : option N :=
  let digits := default s (strip_prefix "+" s) in
  if str_is_empty digits then None else parse_digits radix digits 0.
(** [str::parse::<u64>] *)
Definition parse_u64 : string -> option N := from_str_radix 10.

(** [n.to_string()] *)
Definition to_string (n : N) : string := pretty n.

(** [{:x}] digits, and [{:0w x}] for a number below [16 ^ w]. *)
Definition hex_char (d : N) : ascii :=
  if (d <? 10)%N then ascii_of_N (48 + d) else ascii_of_N (87 + d).
Fixpoint hex_w (w : nat) (n : N) : string :=
  match w with
  | O => EmptyString
  | S w => String (hex_char ((n / 16 ^ N.of_nat w) mod 16)) (hex_w w n)
  end.
(** [{:016x}] of a [u64] and [{:02x}] of a [u8]. *)
Definition hex16 (n : N) : string := hex_w 16 n.
Definition hex2 (n : N) : string := hex_w 2 n.

(** [{:?}] of a string. Characters beyond ASCII are printed as they are,
    though Rust also escapes those that Unicode calls unprintable. *)
Definition debug_char (c : ascii) : string :=
  let backslash := ascii_of_N 92 in
  let two (d : string) := String backslash d in
  if char_is 34 c || char_is 92 c then two (String c EmptyString)
  else if char_is 9 c then two "t"
  else if char_is 10 c then two "n"
  else if char_is 13 c then two "r"
  else if char_is 0 c then two "0"
  else if (code c <? 16)%N then two ("u{" +:+ hex_w 1 (code c) +:+ "}")
  else if (code c <? 32)%N || char_is 127 c then two ("u{" +:+ hex2 (code c) +:+ "}")
  else String c EmptyString.
Fixpoint debug_chars (s : string) : string :=
  match s with EmptyString => EmptyString | String c s => debug_char c +:+ debug_chars s end.
Definition debug_str (s : string) : string :=
  let quote := String (ascii_of_N 34) EmptyString in quote +:+ debug_chars s +:+ quote.

(** ** Lexicographic byte order, [Ord for str] *)
Fixpoint str_ltb (a b : string) : bool :=
  match a, b with
  | _, EmptyString => false
  | EmptyString, String _ _ => true
  | String x a, String y b =>
      (code x <? code y)%N || ((code x =? code y)%N && str_ltb a b)
  end.
Definition str_leb (a b : string) : bool := negb (str_ltb b a).

(** ** Lemmas: concatenation *)
Lemma app_nil s : "" +:+ s = s.
Proof. done. Qed.
Lemma app_cons c a b : String c a +:+ b = String c (a +:+ b).
Proof. done. Qed.
Lemma app_nil_r_str s : s +:+ "" = s.
Proof. induction s; [done|]. rewrite ?app_cons. by f_equal. Qed.
Lemma app_assoc_str a b c : (a +:+ b) +:+ c = a +:+ (b +:+ c).
Proof. induction a; [done|]. rewrite ?app_cons. by f_equal. Qed.
Lemma app_inj_l a b c : a +:+ b = a +:+ c -> b = c.
Proof. induction a; [done|]. rewrite ?app_cons. naive_solver. Qed.
Lemma length_app_str a b :
  String.length (a +:+ b) = String.length a + String.length b.
Proof. induction a; [done|]. rewrite ?app_cons. simpl. lia. Qed.
Lemma str_len_app a b : str_len (a +:+ b) = (str_len a + str_len b)%N.
Proof. unfold str_len. rewrite length_app_str. lia. Qed.
Lemma app_inj_len a b x y :
  String.length a = String.length b -> a +:+ x = b +:+ y -> a = b /\ x = y.
Proof.
  revert b. induction a as [|c a IH]; intros [|d b]; simpl; try done.
  rewrite ?app_cons. intros [=] [=]. destruct (IH b); naive_solver.
Qed.

Lemma str_all_app p a b : str_all p (a +:+ b) = str_all p a && str_all p b.
Proof. induction a; [done|]. rewrite ?app_cons. simpl. rewrite IHa. apply andb_assoc. Qed.
Lemma str_all_impl (p q : ascii -> bool) s :
  (forall c, p c = true -> q c = true) -> str_all p s = true -> str_all q s = true.
Proof. intros ?. induction s; simpl; rewrite ?andb_true_iff; naive_solver. Qed.

(** ** Lemmas: prefixes *)
Lemma strip_prefix_Some p s r : strip_prefix p s = Some r <-> s = p +:+ r.
Proof.
  revert s. induction p as [|a p IH]; intros [|b s]; simpl; rewrite ?app_nil, ?app_cons.
  1-3: naive_solver.
  case_decide; rewrite ?IH; naive_solver.
Qed.
Lemma strip_prefix_app p s : strip_prefix p (p +:+ s) = Some s.
Proof. by apply strip_prefix_Some. Qed.
Lemma starts_with_spec p s : starts_with p s = true <-> exists r, s = p +:+ r.
Proof.
  unfold starts_with. destruct (strip_prefix p s) as [r|] eqn:E.
  - apply strip_prefix_Some in E. naive_solver.
  - split; [done|]. intros [r ->]. by rewrite strip_prefix_app in E.
Qed.
Lemma starts_with_app p s : starts_with p (p +:+ s) = true.
Proof. apply starts_with_spec. by eexists. Qed.

(** ** Lemmas: splitting *)
Lemma break_at_app p s : (break_at p s).1 +:+ (break_at p s).2 = s.
Proof.
  induction s as [|c s IH]; simpl; [done|]. destruct (p c); [done|].
  destruct (break_at p s); simpl in *. rewrite ?app_cons. by f_equal.
Qed.
Lemma break_at_all p s : str_all (fun c => negb (p c)) (break_at p s).1 = true.
Proof.
  induction s as [|c s IH]; simpl; [done|]. destruct (p c) eqn:E; [done|].
  destruct (break_at p s); simpl in *. by rewrite E, IH.
Qed.
Lemma break_at_stop p a c b :
  str_all (fun c => negb (p c)) a = true -> p c = true ->
  break_at p (a +:+ String c b) = (a, String c b).
Proof.
  intros Ha Hc. induction a as [|x a IH]; simpl in *.
  - rewrite ?app_nil; simpl. by rewrite Hc.
  - rewrite ?app_cons. simpl. apply andb_true_iff in Ha as [Hx Ha].
    apply negb_true_iff in Hx. rewrite Hx, IH; done.
Qed.
Lemma break_at_none p a :
  str_all (fun c => negb (p c)) a = true -> break_at p a = (a, "").
Proof.
  induction a as [|x a IH]; simpl; [done|]. intros [Hx Ha]%andb_true_iff.
  apply negb_true_iff in Hx. by rewrite Hx, IH.
Qed.
Lemma split_once_app p a c b :
  str_all (fun c => negb (p c)) a = true -> p c = true ->
  split_once p (a +:+ String c b) = Some (a, b).
Proof. intros. unfold split_once. by rewrite break_at_stop. Qed.
Lemma break_at_head p s a c b : break_at p s = (a, String c b) -> p c = true.
Proof.
  revert a. induction s as [|d s IH]; intros a; simpl; [done|].
  destruct (p d) eqn:Ed; [naive_solver|].
  destruct (break_at p s) as [u v]. intros [= <- ->]. by eapply IH.
Qed.
Lemma split_once_Some p s a b :
  split_once p s = Some (a, b) ->
  exists c, p c = true /\ s = a +:+ String c b /\ str_all (fun c => negb (p c)) a = true.
Proof.
  unfold split_once. pose proof (break_at_app p s) as Happ.
  pose proof (break_at_all p s) as Hall. pose proof (break_at_head p s) as Hhd.
  destruct (break_at p s) as [x [|c y]]; intros; simplify_eq/=. exists c. naive_solver.
Qed.

(** ** Lemmas: order *)
Lemma code_inj a b : code a = code b -> a = b.
Proof.
  unfold code. intros H. apply (f_equal ascii_of_N) in H.
  by rewrite !ascii_N_embedding in H.
Qed.
Lemma code_ascii n : (n < 256)%N -> code (ascii_of_N n) = n.
Proof. apply N_ascii_embedding. Qed.

Lemma str_ltb_cons x a y b :
  str_ltb (String x a) (String y b) = true <->
  (code x < code y)%N \/ (x = y /\ str_ltb a b = true).
Proof.
  simpl. rewrite orb_true_iff, andb_true_iff, N.ltb_lt, N.eqb_eq.
  split; intros [|[H ?]]; auto; right; subst; auto using code_inj.
Qed.
Lemma str_ltb_nil_l b : str_ltb "" b = true <-> b <> "".
Proof. destruct b; simpl; naive_solver. Qed.
Lemma str_ltb_nil_r a : str_ltb a "" = false.
Proof. by destruct a. Qed.
Lemma str_ltb_irrefl a : str_ltb a a = false.
Proof.
  induction a as [|x a IH]; [done|]. apply not_true_iff_false.
  rewrite str_ltb_cons, IH. intros [?|[_ ?]]; [lia|done].
Qed.
Lemma str_ltb_trans a b c :
  str_ltb a b = true -> str_ltb b c = true -> str_ltb a c = true.
Proof.
  revert b c. induction a as [|x a IH]; intros [|y b] [|z c];
    rewrite ?str_ltb_nil_r, ?str_ltb_nil_l, ?str_ltb_cons; try done.
  intros [?|[ -> Hab]] [?|[-> Hbc]]; [left; lia|left; lia|left; lia|right; eauto].
Qed.
Lemma str_ltb_total a b : str_ltb a b = true \/ a = b \/ str_ltb b a = true.
Proof.
  revert b. induction a as [|x a IH]; intros [|y b];
    rewrite ?str_ltb_nil_r, ?str_ltb_nil_l, ?str_ltb_cons; auto.
  destruct (N.lt_trichotomy (code x) (code y)) as [?|[E%code_inj|?]]; auto.
  subst. destruct (IH b) as [?|[->|?]]; auto.
Qed.
Lemma str_ltb_asymm a b : str_ltb a b = true -> str_ltb b a = false.
Proof.
  intros Hab. apply not_true_iff_false. intros Hba.
  pose proof (str_ltb_trans _ _ _ Hab Hba) as Haa. by rewrite str_ltb_irrefl in Haa.
Qed.
Lemma str_leb_le a b : str_leb a b = true <-> str_ltb a b = true \/ a = b.
Proof.
  unfold str_leb. rewrite negb_true_iff. split.
  - destruct (str_ltb_total a b) as [?|[?|E]]; auto. by rewrite E.
  - intros [?| ->]; [by apply str_ltb_asymm|apply str_ltb_irrefl].
Qed.
#[export] Instance str_leb_total : Total (fun a b => str_leb a b = true).
Proof.
  intros a b. rewrite !str_leb_le.
  destruct (str_ltb_total a b) as [?|[?|?]]; auto.
Qed.
#[export] Instance str_leb_trans : Transitive (fun a b => str_leb a b = true).
Proof.
  intros a b c. rewrite !str_leb_le. intros [?| ->] [?| ->]; eauto using str_ltb_trans.
Qed.
#[export] Instance str_leb_antisym : AntiSymm (=) (fun a b => str_leb a b = true).
Proof.
  intros a b. rewrite !str_leb_le. intros [Hab|?] [Hba|?]; auto.
  apply str_ltb_asymm in Hab. congruence.
Qed.

(** A range from [p ++ [c]] up to [p ++ [c + 1]] holds exactly the strings
    that start with [p ++ [c]]. *)
Lemma prefix_range p c d s :
  code d = (code c + 1)%N ->
  (str_leb (p +:+ String c "") s = true /\ str_ltb s (p +:+ String d "") = true) <->
  starts_with (p +:+ String c "") s = true.
Proof.
  intros Hcd. rewrite str_leb_le, starts_with_spec. revert s.
  induction p as [|x p IH]; intros s; rewrite ?app_nil, ?app_cons.
  - destruct s as [|y s].
    { rewrite str_ltb_nil_r. split; [naive_solver|]. intros [r Hr]. done. }
    rewrite !str_ltb_cons, str_ltb_nil_l, str_ltb_nil_r. split.
    + intros [[[?|[ -> ?]]|[= -> <-]] [?|[ -> ?]]]; try done; [lia|eexists..]; done.
    + intros [r [= -> ->]]. split; [|left; lia]. destruct r; naive_solver.
  - destruct s as [|y s].
    { rewrite str_ltb_nil_r. split; [naive_solver|]. intros [r Hr]. done. }
    rewrite !str_ltb_cons. specialize (IH s). split.
    + intros [[[?|[Exy ?]]|[= Exy ?]] [?|[Eyx ?]]]; subst; try lia;
        first [ exists ""; by rewrite app_nil_r_str
              | destruct (proj1 IH) as [r Hr]; [auto|exists r; by rewrite Hr] ].
    + intros [r [= -> ->]]. destruct (proj2 IH) as [Hl Hr]; [by exists r|].
      destruct Hl as [?|Hl]; [by auto|].
      split; [right; change (String x (p +:+ String c "") =
        String x ((p +:+ String c "") +:+ r)); by rewrite <-Hl|right; done].
Qed.

(** ** Lemmas: numbers *)
Lemma digit_val_pretty d :
  (d < 10)%N -> digit_val 10 (pretty_N_char d) = Some d.
Proof.
  intros. assert (d = 0 \/ d = 1 \/ d = 2 \/ d = 3 \/ d = 4 \/ d = 5 \/ d = 6
    \/ d = 7 \/ d = 8 \/ d = 9)%N as Hd by lia.
  destruct_or! Hd; subst; vm_compute; done.
Qed.
Lemma parse_digits_pretty n s :
  (n <= u64_max)%N ->
  parse_digits 10 (pretty_N_go n s) 0 = parse_digits 10 s n.
Proof.
  revert s. induction (N.lt_wf_0 n) as [n _ IH]. intros s Hn.
  destruct (decide (n = 0)%N) as [->|Hne]; [by rewrite pretty_N_go_0|].
  rewrite pretty_N_go_step by lia.
  assert (n / 10 < n)%N by (apply N.div_lt; lia).
  rewrite IH by lia.
  simpl. rewrite digit_val_pretty by (apply N.mod_lt; lia). simpl.
  replace (n / 10 * 10 + n mod 10)%N with n
    by (rewrite N.mul_comm; by apply N.div_mod).
  by rewrite decide_True.
Qed.
Lemma pretty_go_not_plus n s :
  (0 < n)%N -> strip_prefix "+" (pretty_N_go n s) = None.
Proof.
  revert s. induction (N.lt_wf_0 n) as [n _ IH]. intros s Hn.
  rewrite pretty_N_go_step by lia.
  destruct (decide (n / 10 = 0)%N) as [E|Hne].
  - rewrite E, pretty_N_go_0. simpl. unfold pretty_N_char. by repeat case_match.
  - apply IH; [by apply N.div_lt|by apply N.neq_0_lt_0].
Qed.
Lemma pretty_go_nonempty n s : (0 < n)%N -> pretty_N_go n s <> "".
Proof.
  revert s. induction (N.lt_wf_0 n) as [n _ IH]. intros s Hn.
  rewrite pretty_N_go_step by lia.
  destruct (decide (n / 10 = 0)%N) as [E|Hne].
  - by rewrite E, pretty_N_go_0.
  - apply IH; [by apply N.div_lt|by apply N.neq_0_lt_0].
Qed.

(** Printing a [u64] in decimal and parsing it gives it back. *)
Lemma parse_to_string n : (n <= u64_max)%N -> parse_u64 (to_string n) = Some n.
Proof.
  intros Hn. unfold parse_u64, from_str_radix, to_string, pretty, pretty_N.
  case_decide as H0; [by subst|].
  rewrite pretty_go_not_plus by lia. simpl.
  destruct (pretty_N_go n "") eqn:E; [by apply pretty_go_nonempty in E; [|lia]|].
  cbn [str_is_empty]. by rewrite <-E, parse_digits_pretty.
Qed.

Lemma hex_char_val d : (d < 16)%N -> hex_digit_val (hex_char d) = Some d.
Proof.
  intros. assert (d = 0 \/ d = 1 \/ d = 2 \/ d = 3 \/ d = 4 \/ d = 5 \/ d = 6
    \/ d = 7 \/ d = 8 \/ d = 9 \/ d = 10 \/ d = 11 \/ d = 12 \/ d = 13 \/ d = 14
    \/ d = 15)%N as Hd by lia.
  destruct_or! Hd; subst; vm_compute; done.
Qed.
Lemma hex_char_code d e :
  (d < 16)%N -> (e < 16)%N -> (code (hex_char d) < code (hex_char e) <-> d < e)%N.
Proof.
  intros. unfold hex_char.
  destruct (N.ltb_spec d 10), (N.ltb_spec e 10); rewrite !code_ascii; lia.
Qed.
Lemma hex_char_lower d : (d < 16)%N ->
  is_ascii_digit (hex_char d) || between 97 102 (hex_char d) = true.
Proof.
  intros. unfold hex_char, is_ascii_digit, between.
  destruct (N.ltb_spec d 10); rewrite code_ascii by lia;
    repeat match goal with |- context [N.leb ?a ?b] => destruct (N.leb_spec a b) end;
    done || lia.
Qed.
Lemma length_hex_w w n : String.length (hex_w w n) = w.
Proof. induction w; simpl; auto. Qed.
Lemma hex_w_all w n :
  str_all (fun c => is_ascii_digit c || between 97 102 c) (hex_w w n) = true.
Proof.
  induction w; simpl; [done|]. rewrite IHw, hex_char_lower; [done|]. by apply N.mod_lt.
Qed.

Lemma pow16_pos w : (0 < 16 ^ N.of_nat w)%N.
Proof. apply N.neq_0_lt_0. by apply N.pow_nonzero. Qed.
Lemma pow16_succ w : (16 ^ N.of_nat (S w) = 16 * 16 ^ N.of_nat w)%N.
Proof. by rewrite Nat2N.inj_succ, N.pow_succ_r'. Qed.
(** The leading digit and the rest of a number below [16 ^ (w + 1)]. *)
Lemma hex_split w n :
  (n mod 16 ^ N.of_nat (S w) =
   (n / 16 ^ N.of_nat w) mod 16 * 16 ^ N.of_nat w + n mod 16 ^ N.of_nat w)%N.
Proof.
  rewrite pow16_succ, (N.mul_comm 16), N.Div0.mod_mul_r by apply pow16_pos. lia.
Qed.

(** Fixed-width hexadecimal sorts like the number it denotes. *)
Lemma hex_w_ltb w a b x y :
  (a < 16 ^ N.of_nat w)%N -> (b < 16 ^ N.of_nat w)%N ->
  str_ltb (hex_w w a +:+ x) (hex_w w b +:+ y) = true <->
  (a < b)%N \/ (a = b /\ str_ltb x y = true).
Proof.
  intros Ha Hb.
  enough (str_ltb (hex_w w a +:+ x) (hex_w w b +:+ y) = true <->
    (a mod 16 ^ N.of_nat w < b mod 16 ^ N.of_nat w)%N \/
    ((a mod 16 ^ N.of_nat w = b mod 16 ^ N.of_nat w)%N /\ str_ltb x y = true)) as E.
  { by rewrite !N.mod_small in E. }
  clear Ha Hb. induction w as [|w IH].
  { cbn [hex_w]. rewrite !app_nil. simpl. rewrite !N.mod_1_r. naive_solver lia. }
  cbn [hex_w]. rewrite ?app_cons, str_ltb_cons, IH, !hex_split.
  pose proof (pow16_pos w) as Hp.
  set (p := (16 ^ N.of_nat w)%N) in *.
  pose proof (N.mod_lt (a / p) 16 ltac:(done)) as Hda.
  pose proof (N.mod_lt (b / p) 16 ltac:(done)) as Hdb.
  pose proof (N.mod_lt a p ltac:(lia)) as Hra.
  pose proof (N.mod_lt b p ltac:(lia)) as Hrb.
  set (da := ((a / p) mod 16)%N) in *. set (db := ((b / p) mod 16)%N) in *.
  set (ra := (a mod p)%N) in *. set (rb := (b mod p)%N) in *.
  pose proof (hex_char_code da db Hda Hdb) as Hab.
  pose proof (hex_char_code db da Hdb Hda) as Hba.
  clearbody da db ra rb p. rewrite Hab. split.
  - intros [?|[E Hr]]; [left; nia|].
    assert (da = db) as -> by (rewrite E in *; lia). destruct Hr as [?|[-> ?]]; [left; lia|auto].
  - assert (da < db \/ da = db \/ db < da)%N as [?|[->|?]] by lia; [auto| |].
    + intros [?|[? ?]]; right; split; auto; [left; lia|right; split; [lia|done]].
    + intros [?|[? ?]]; nia.
Qed.

Lemma parse_digits_hex w n acc s :
  (acc * 16 ^ N.of_nat w + n mod 16 ^ N.of_nat w <= u64_max)%N ->
  parse_digits 16 (hex_w w n +:+ s) acc =
  parse_digits 16 s (acc * 16 ^ N.of_nat w + n mod 16 ^ N.of_nat w).
Proof.
  revert acc. induction w as [|w IH]; intros acc Hle.
  { cbn [hex_w]. rewrite app_nil, N.mul_1_r, N.mod_1_r, N.add_0_r. done. }
  rewrite hex_split, pow16_succ in *. cbn [hex_w]. rewrite ?app_cons. cbn [parse_digits].
  pose proof (N.mod_lt (n / 16 ^ N.of_nat w) 16 ltac:(done)) as Hd.
  unfold digit_val. rewrite hex_char_val by done. cbn.
  rewrite decide_True by done. cbn.
  set (d := ((n / 16 ^ N.of_nat w) mod 16)%N) in *.
  pose proof (pow16_pos w) as Hp.
  set (p := (16 ^ N.of_nat w)%N) in *. set (r := (n mod p)%N) in *.
  clearbody d p r.
  assert (acc * (16 * p) + (d * p + r) = (acc * 16 + d) * p + r)%N as E by lia.
  rewrite E in *. clear E. set (q := (acc * 16 + d)%N) in *.
  assert (q <= q * p)%N by (clearbody q; nia).
  rewrite decide_True by lia. by rewrite IH.
Qed.
Lemma hex_not_plus w n s : strip_prefix "+" (hex_w (S w) n +:+ s) = None.
Proof.
  cbn [hex_w]. rewrite ?app_cons. cbn. case_decide as E; [|done].
  pose proof (N.mod_lt (n / 16 ^ N.of_nat w) 16 ltac:(done)) as Hd.
  pose proof (hex_char_val _ Hd) as Hv. rewrite <-E in Hv. done.
Qed.

(** Printing a [u64] as [{:016x}] and reading it with [from_str_radix]. *)
Lemma parse_hex16 n : (n <= u64_max)%N -> from_str_radix 16 (hex16 n) = Some n.
Proof.
  intros Hn. unfold from_str_radix, hex16.
  rewrite <-(app_nil_r_str (hex_w 16 n)), hex_not_plus. cbn [default str_is_empty hex_w].
  change (parse_digits 16 (hex_w 16 n +:+ "") 0 = Some n).
  assert (n mod 16 ^ N.of_nat 16 = n)%N as E by (apply N.mod_small; unfold u64_max in Hn; simpl; lia).
  rewrite parse_digits_hex; rewrite E; [done|lia].
Qed.

(** ** Splitting and trimming *)
Lemma split_cons p s : exists w ws, split p s = w :: ws.
Proof.
  induction s as [|c s (w & ws & IH)]; cbn; [eauto|]. rewrite IH. destruct (p c); eauto.
Qed.

Lemma split_join n s :
  (n < 256)%N -> str_join (String (ascii_of_N n) EmptyString) (split (char_is n) s) = s.
Proof.
  intros Hn. induction s as [|c s IH]; [done|]. cbn [split].
  destruct (split_cons (char_is n) s) as (w & ws & Hs). rewrite Hs in *.
  destruct (char_is n c) eqn:Hc.
  - apply N.eqb_eq in Hc.
    assert (ascii_of_N n = c) as Hcn by (apply code_inj; by rewrite code_ascii).
    change (String (ascii_of_N n) (str_join (String (ascii_of_N n) EmptyString) (w :: ws)) = String c s).
    by rewrite IH, Hcn.
  - rewrite <- IH. destruct ws; done.
Qed.

Lemma substring_app a b : String.substring 0 (String.length a) (a +:+ b) = a.
Proof.
  induction a as [|c a IH]; [by destruct b|]. rewrite app_cons.
  cbn [String.length String.substring]. by rewrite IH.
Qed.

Lemma trim_start_id p c s : p c = false -> trim_start_matches p (String c s) = String c s.
Proof. cbn. by intros ->. Qed.

Lemma trim_end_app p a b :
  b <> EmptyString -> str_all (fun c => negb (p c)) b = true ->
  trim_end_matches p (a +:+ b) = a +:+ b.
Proof.
  intros Hne Hb. assert (Hid : trim_end_matches p b = b).
  { clear Hne. induction b as [|c b IH]; [done|]. cbn in *.
    apply andb_true_iff in Hb as [Hc%negb_true_iff Hb]. rewrite IH by done.
    destruct b; [by rewrite Hc|done]. }
  induction a as [|c a IH]; [done|]. rewrite app_cons. cbn [trim_end_matches]. rewrite IH.
  destruct a; [|done]. cbn. by destruct b.
Qed.

(** ** The part after the last separator *)
Lemma split_all p s : str_all (fun c => negb (p c)) s = true -> split p s = [s].
Proof.
  induction s as [|c s IH]; [done|]. cbn. intros [Hc%negb_true_iff Hs]%andb_true_iff.
  by rewrite Hc, IH.
Qed.
Lemma rsplit_first_app p a c s :
  p c = true -> str_all (fun c => negb (p c)) s = true -> rsplit_first p (a +:+ String c s) = s.
Proof.
  intros Hc Hs. unfold rsplit_first.
  assert (exists w ws, split p (a +:+ String c s) = w :: ws ++ [s]) as (w & ws & ->).
  { induction a as [|x a (w & ws & IH)].
    - rewrite app_nil. cbn. rewrite Hc, (split_all _ _ Hs). by exists "", [].
    - rewrite app_cons. cbn [split]. rewrite IH. destruct (p x); [by exists "", (w :: ws)|by eexists _, ws]. }
  rewrite app_comm_cons. apply last_last.
Qed.

(** A common prefix does not change the order. *)
Lemma str_ltb_prefix p a b : str_ltb (p +:+ a) (p +:+ b) = str_ltb a b.
Proof.
  induction p as [|c p IH]; [by rewrite !app_nil|]. rewrite !app_cons. rewrite <- IH. apply eq_iff_eq_true.
  rewrite str_ltb_cons. split; [intros [?|[_ ?]]; [lia|done]|auto].
Qed.
