(* ===== verification/External.v ===== *)
(** * Interfaces of the third-party code the service calls

    Each class lists the functions of a crate that the sources use; the class
    [...Laws] next to it holds the documented behaviour the service relies
    on. Developments that need a law say so; the witnesses instantiate the
    classes with concrete functions ([Instances.v]). *)
From Stdlib Require Import Ascii.
From Stdlib Require Export Strings.Byte.
From S2P Require Import Prelude RustStr.

(** [bytes::Bytes], [Vec<u8>], [&[u8]] and arrays of octets. *)
Abbreviation Bytes := (list byte) (only parsing).

#[export] Instance byte_eq_dec : EqDecision byte := Byte.byte_eq_dec.

(** [str::as_bytes] and its inverse on valid UTF-8. *)
Definition as_bytes : string -> Bytes := String.list_byte_of_string.
Definition of_bytes : Bytes -> string := String.string_of_list_byte.

Lemma of_as_bytes s : of_bytes (as_bytes s) = s.
Proof. apply String.string_of_list_byte_of_string. Qed.
Lemma as_of_bytes b : as_bytes (of_bytes b) = b.
Proof. apply String.list_byte_of_string_of_list_byte. Qed.
#[export] Instance as_bytes_inj : Inj (=) (=) as_bytes.
Proof. intros s s' H. by rewrite <- (of_as_bytes s), H, of_as_bytes. Qed.

(** ** Boxed errors: only their text can be looked at. *)
Abbreviation BoxError := string (only parsing).

(** ** The [base64] crate: [URL_SAFE_NO_PAD] (RFC 4648 section 5) *)
Class Base64 : Type := {
  b64_encode : Bytes -> string;
  b64_decode : string -> option Bytes;
}.

(** The base64url alphabet: letters, digits, [-] and [_]. *)
Definition b64_char (c : ascii) : bool :=
  is_ascii_alphanumeric c || char_is 45 c || char_is 95 c.

Class Base64Laws `{Base64} : Prop := {
  b64_decode_encode : forall b, b64_decode (b64_encode b) = Some b;
  b64_encode_alphabet : forall b, str_all b64_char (b64_encode b) = true;
  b64_encode_length : forall b,
    String.length (b64_encode b) = (length b * 4 + 2) / 3;
}.

(** ** Cryptographic primitives ([hkdf], [sha2], [aes-gcm], [p256], [ring]) *)

(** [Hkdf::<Sha256>::new(Some(salt), ikm).expand(info, &mut out)] with an
    output of [len] octets, and AES-128-GCM with an empty associated data. *)
Class Aead : Type := {
  hkdf_sha256 : forall (salt ikm info : Bytes) (len : nat), Bytes;
  aes_gcm_encrypt : forall (key nonce plaintext : Bytes), option Bytes;
  aes_gcm_decrypt : forall (key nonce ciphertext : Bytes), option Bytes;
}.

Class AeadLaws `{Aead} : Prop := {
  hkdf_length : forall salt ikm info len, length (hkdf_sha256 salt ikm info len) = len;
  (** Encryption only fails for plaintexts of gigabytes. *)
  aes_gcm_encrypt_some : forall key nonce pt,
    (N.of_nat (length pt) < 2 ^ 36)%N -> is_Some (aes_gcm_encrypt key nonce pt);
  aes_gcm_decrypt_encrypt : forall key nonce pt ct,
    aes_gcm_encrypt key nonce pt = Some ct -> aes_gcm_decrypt key nonce ct = Some pt;
  aes_gcm_length : forall key nonce pt ct,
    aes_gcm_encrypt key nonce pt = Some ct -> length ct = length pt + 16;
}.

(** P-256: keys, ECDH and ES256 signatures. *)
Class P256 : Type := {
  PublicKey : Type;
  SecretKey : Type;
  Signature : Type;
  public_from_sec1 : Bytes -> option PublicKey;
  to_uncompressed : PublicKey -> Bytes;
  secret_from_bytes : Bytes -> option SecretKey;
  public_key : SecretKey -> PublicKey;
  diffie_hellman : SecretKey -> PublicKey -> Bytes;
  signature_from_slice : Bytes -> option Signature;
  es256_verify : PublicKey -> Bytes -> Signature -> bool;
}.

Class P256Laws `{P256} : Prop := {
  to_uncompressed_length : forall k, length (to_uncompressed k) = 65;
  to_uncompressed_tag : forall k, head (to_uncompressed k) = Some x04;
  public_from_uncompressed : forall k, public_from_sec1 (to_uncompressed k) = Some k;
  (** Both sides of the key agreement compute the same secret. *)
  ecdh_comm : forall a b,
    diffie_hellman a (public_key b) = diffie_hellman b (public_key a);
}.

(** [ring]: HMAC-SHA256 and SHA-256. *)
Class Hmac : Type := {
  hmac_sha256 : forall (key msg : Bytes), Bytes;
  sha256 : Bytes -> Bytes;
}.

(** ** [serde_json] *)

(** [serde_json::Value]. A number is a [u64], a negative [i64], or a float,
    which the sources never look into. *)
Inductive Number : Type :=
| PosInt (n : N)
| NegInt (n : Z)
| Float (text : string).

Inductive Value : Type :=
| Null
| Bool (b : bool)
| Num (n : Number)
| Str (s : string)
| Array (l : list Value)
| Object (fields : list (string * Value)).

(** [value[key]]: [Null] for a missing key or a value that is no object. *)
Definition value_get (v : Value) (key : string) : Value :=
  match v with
  | Object fields => default Null (list_find (fun kv => kv.1 = key) fields ≫= fun p => Some p.2.2)
  | _ => Null
  end.
Definition as_u64 (v : Value) : option N :=
  match v with Num (PosInt n) => Some n | _ => None end.
Definition as_str (v : Value) : option string :=
  match v with Str s => Some s | _ => None end.

(** [serde_json::Map] keeps its keys sorted; [json] is [json!] of an object. *)
Fixpoint obj_insert (k : string) (v : Value) (l : list (string * Value)) : list (string * Value) :=
  match l with
  | [] => [(k, v)]
  | (k', v') :: l' =>
      if decide (k = k') then (k, v) :: l'
      else if str_ltb k k' then (k, v) :: l
      else (k', v') :: obj_insert k v l'
  end.
Definition json (l : list (string * Value)) : Value :=
  Object (foldl (fun o kv => obj_insert kv.1 kv.2 o) [] l).
Definition value_set (v : Value) (k : string) (x : Value) : Value :=
  match v with Object l => Object (obj_insert k x l) | _ => v end.
Definition Num_ (n : N) : Value := Num (PosInt n).

(** Parsing and printing text. *)
Class Json : Type := {
  json_parse : Bytes -> option Value;
  json_print : Value -> string;
}.

(** ** The [http] crate: header maps

    [get_all] yields the values of a header in order; [to_str] succeeds on
    visible ASCII, space and tab only. *)
Class Http : Type := {
  HeaderMap : Type;
  HeaderValue : Type;
  get_all : HeaderMap -> string -> list HeaderValue;
  to_str : HeaderValue -> option string;
}.

(** [httpdate::fmt_http_date] of a time in milliseconds since the epoch. *)
Class HttpDate : Type := { fmt_http_date : N -> string }.
