(* ===== verification/Octets.v ===== *)
(** * Octet strings

    Slices of octets as the sources take them apart ([split_first_chunk],
    [split_at_checked]), big-endian integers and the exclusive or. *)
From S2P Require Import Prelude RustStr External.

(** The octet of a number below 256 ([x as u8] for such a number). *)
Definition byte_of (n : N) : byte := default x00 (Byte.of_N n).

(** [<[u8]>::split_first_chunk::<n>] and [split_at_checked(n)]. *)
Definition split_at_checked (n : nat) (b : Bytes) : option (Bytes * Bytes) :=
  if decide (n <= length b) then Some (take n b, drop n b) else None.

(** [uN::from_be_bytes] and [uN::to_be_bytes] for [w] octets. *)
Definition from_be_bytes (b : Bytes) : N :=
  foldl (fun acc x => acc * 256 + Byte.to_N x)%N 0%N b.
Fixpoint to_be_bytes (w : nat) (n : N) : Bytes :=
  match w with
  | O => []
  | S w => byte_of (n / 256 ^ N.of_nat w mod 256) :: to_be_bytes w n
  end.

(** [a ^ b] on octets. *)
Definition byte_xor (a b : byte) : byte := byte_of (N.lxor (Byte.to_N a) (Byte.to_N b)).

(** [iter().rposition(p)] *)
Fixpoint rposition {A} (p : A -> bool) (l : list A) : option nat :=
  match l with
  | [] => None
  | x :: l =>
      match rposition p l with
      | Some i => Some (S i)
      | None => if p x then Some 0 else None
      end
  end.

(** ** Lemmas *)
Lemma byte_bound a : (Byte.to_N a < 256)%N.
Proof. pose proof (Byte.to_N_bounded a). lia. Qed.

Lemma byte_of_to_N a : byte_of (Byte.to_N a) = a.
Proof. unfold byte_of. by rewrite Byte.of_to_N. Qed.

Lemma to_N_byte_of n : (n < 256)%N -> Byte.to_N (byte_of n) = n.
Proof.
  intros Hn. unfold byte_of. destruct (Byte.of_N n) as [x|] eqn:Hx; cbn.
  - by apply Byte.to_of_N.
  - apply Byte.of_N_None_iff in Hx. lia.
Qed.

Lemma byte_of_inj a b : (a < 256)%N -> (b < 256)%N -> byte_of a = byte_of b -> a = b.
Proof. intros Ha Hb Heq. by rewrite <- (to_N_byte_of a), <- (to_N_byte_of b), Heq. Qed.

Lemma length_to_be_bytes w n : length (to_be_bytes w n) = w.
Proof. induction w; cbn; congruence. Qed.

Lemma from_be_bytes_app b x : from_be_bytes (b ++ [x]) = (from_be_bytes b * 256 + Byte.to_N x)%N.
Proof. unfold from_be_bytes. by rewrite foldl_app. Qed.

Lemma to_be_bytes_S w n : to_be_bytes (S w) n = to_be_bytes w (n / 256) ++ [byte_of (n mod 256)].
Proof.
  revert n. induction w as [|w IH]; intros n.
  - cbn. by rewrite N.div_1_r.
  - change (to_be_bytes (S (S w)) n) with
      (byte_of (n / 256 ^ N.of_nat (S w) mod 256) :: to_be_bytes (S w) n).
    rewrite IH at 1. cbn [to_be_bytes app]. f_equal. f_equal. f_equal.
    rewrite N.Div0.div_div. f_equal. rewrite Nat2N.inj_succ, N.pow_succ_r'. lia.
Qed.

Lemma from_to_be_bytes w n : (n < 256 ^ N.of_nat w)%N -> from_be_bytes (to_be_bytes w n) = n.
Proof.
  revert n. induction w as [|w IH]; intros n Hn; [cbn in *; lia|].
  rewrite to_be_bytes_S, from_be_bytes_app, IH, to_N_byte_of.
  - rewrite N.mul_comm. symmetry. by apply N.div_mod.
  - by apply N.mod_lt.
  - apply N.Div0.div_lt_upper_bound. rewrite Nat2N.inj_succ, N.pow_succ_r' in Hn. lia.
Qed.

Lemma split_at_checked_app n a b : length a = n -> split_at_checked n (a ++ b) = Some (a, b).
Proof.
  intros <-. unfold split_at_checked. rewrite decide_True by (rewrite length_app; lia).
  by rewrite take_app_length, drop_app_length.
Qed.

Lemma split_at_checked_Some n b x y :
  split_at_checked n b = Some (x, y) <-> b = x ++ y /\ length x = n.
Proof.
  split; [|intros [-> ?]; by apply split_at_checked_app].
  unfold split_at_checked. case_decide; [|done]. intros [= <- <-].
  rewrite take_drop, length_take. split; [done|lia].
Qed.

Lemma lxor_256 a b : (a < 256)%N -> (b < 256)%N -> (N.lxor a b < 256)%N.
Proof.
  intros Ha Hb. destruct (decide (N.lxor a b = 0)%N) as [->|Hz]; [lia|].
  change 256%N with (2 ^ 8)%N in *. apply N.log2_lt_pow2; [lia|].
  pose proof (N.log2_lxor a b).
  assert (forall n, (n < 2 ^ 8)%N -> (N.log2 n < 8)%N) as Hlog.
  { intros n Hn. destruct (decide (n = 0)%N) as [->|]; [done|]. apply N.log2_lt_pow2; lia. }
  pose proof (Hlog a Ha). pose proof (Hlog b Hb). lia.
Qed.

Lemma byte_xor_inj a b c : byte_xor a b = byte_xor a c -> b = c.
Proof.
  intros Heq. apply byte_of_inj in Heq; [|apply lxor_256; apply byte_bound..].
  rewrite <- (byte_of_to_N b), <- (byte_of_to_N c). f_equal.
  by rewrite <- (N.lxor_0_l (Byte.to_N b)), <- (N.lxor_nilpotent (Byte.to_N a)), N.lxor_assoc, Heq,
    <- N.lxor_assoc, N.lxor_nilpotent, N.lxor_0_l.
Qed.

Lemma rposition_last {A} (p : A -> bool) l x :
  p x = true -> rposition p (l ++ [x]) = Some (length l).
Proof. intros Hp. induction l as [|y l IH]; cbn; [by rewrite Hp|]. by rewrite IH. Qed.
