(* ===== verification/StoreTypes.v ===== *)
(** * The data of the storage crate, its clock, ids and sequence numbers

    [crates/webpush-store/src/lib.rs]: the records and enums every other
    component works with, and the free functions that read the clock and the
    random number generator. *)
From Stdlib Require Import Ascii.
From S2P Require Import Prelude RustStr External.

(** ** Data *)

Record BridgeAddress : Type := {
  ba_bridge : string;
  ba_app_id : string;
  ba_token : string;
}.

Record UserAgent : Type := {
  ua_uaid : string;
  ua_bridge : option BridgeAddress;
  ua_last_seen : N;
}.

Inductive Recipient : Type :=
| RUserAgent (uaid : string)
| RReceipts (rsub : string).

Record Subscription : Type := {
  sub_uaid : string;
  sub_channel_id : string;
  sub_push : string;
  sub_vapid : option Bytes;
}.

Inductive Urgency : Type := VeryLow | Low | Normal | High.

Record Message : Type := {
  m_id : string;
  m_uaid : string;
  m_channel_id : string;
  m_push : string;
  m_topic : option string;
  m_body : Bytes;
  m_ctype : option string;
  m_cenc : option string;
  m_ttl : N;
  m_urgency : Urgency;
  m_accepted : N;
  m_expiry : N;
  m_rsub : option string;
}.

Record Receipt : Type := {
  r_rsub : string;
  r_msg_id : string;
  r_status : N;
}.

#[export] Instance bridge_address_eq_dec : EqDecision BridgeAddress.
Proof. solve_decision. Defined.
#[export] Instance user_agent_eq_dec : EqDecision UserAgent.
Proof. solve_decision. Defined.
#[export] Instance recipient_eq_dec : EqDecision Recipient.
Proof. solve_decision. Defined.
#[export] Instance subscription_eq_dec : EqDecision Subscription.
Proof. solve_decision. Defined.
#[export] Instance urgency_eq_dec : EqDecision Urgency.
Proof. solve_decision. Defined.
#[export] Instance message_eq_dec : EqDecision Message.
Proof. solve_decision. Defined.
#[export] Instance receipt_eq_dec : EqDecision Receipt.
Proof. solve_decision. Defined.

#[export] Program Instance recipient_countable : Countable Recipient :=
  inj_countable'
    (fun r => match r with RUserAgent u => inl u | RReceipts s => inr s end)
    (fun x => match x with inl u => RUserAgent u | inr s => RReceipts s end) _.
Next Obligation. by intros []. Qed.

(** The fields a message has under its topic slot, and its owner. *)
Definition m_owner (m : Message) : string * string := (m_uaid m, m_channel_id m).
Definition m_slot (m : Message) : option (string * string * string) :=
  (fun t => (m_uaid m, m_channel_id m, t)) <$> m_topic m.

(** Derived order of [Urgency]. *)
Definition urgency_rank (u : Urgency) : N :=
  match u with VeryLow => 0 | Low => 1 | Normal => 2 | High => 3 end.

(** [Urgency::parse] *)
Definition urgency_parse (s : string) : option Urgency :=
  if decide (s = "very-low") then Some VeryLow
  else if decide (s = "low") then Some Low
  else if decide (s = "normal") then Some Normal
  else if decide (s = "high") then Some High
  else None.
(** [Urgency::as_str] *)
Definition urgency_as_str (u : Urgency) : string :=
  match u with
  | VeryLow => "very-low"
  | Low => "low"
  | Normal => "normal"
  | High => "high"
  end.

(** ** Clock, randomness and the sequence counter

    The process reads the wall clock and the operating system's random number
    generator; both are given by arbitrary streams. [env_last_seq] is the
    static [LAST] of [next_seq], and [env_instant] the monotonic clock behind
    [Instant::now], in nanoseconds. *)
Record Env : Type := {
  env_clock : nat -> N;
  env_ticks : nat;
  env_random : nat -> byte;
  env_drawn : nat;
  env_instant : nat -> N;
  env_instants : nat;
  env_last_seq : N;
}.

(** [now_ms]: milliseconds since the epoch, saturating at [u64::MAX]. The
    stream gives the [u128] of [as_millis]; a clock before 1970 panics and is
    not part of the model. *)
Definition now_ms : ST Env N := fun e =>
  (N.min (env_clock e (env_ticks e)) u64_max,
   {| env_clock := env_clock e; env_ticks := S (env_ticks e);
      env_random := env_random e; env_drawn := env_drawn e;
      env_instant := env_instant e; env_instants := env_instants e;
      env_last_seq := env_last_seq e |}).

(** [Instant::now()] *)
Definition instant_now : ST Env N := fun e =>
  (env_instant e (env_instants e),
   {| env_clock := env_clock e; env_ticks := env_ticks e;
      env_random := env_random e; env_drawn := env_drawn e;
      env_instant := env_instant e; env_instants := S (env_instants e);
      env_last_seq := env_last_seq e |}).

(** [random_bytes::<N>]: the next octets of the generator. *)
Definition random_bytes (n : nat) : ST Env Bytes := fun e =>
  (env_random e <$> seq (env_drawn e) n,
   {| env_clock := env_clock e; env_ticks := env_ticks e;
      env_random := env_random e; env_drawn := env_drawn e + n;
      env_instant := env_instant e; env_instants := env_instants e;
      env_last_seq := env_last_seq e |}).

Definition set_last_seq (n : N) (e : Env) : Env :=
  {| env_clock := env_clock e; env_ticks := env_ticks e;
     env_random := env_random e; env_drawn := env_drawn e;
     env_instant := env_instant e; env_instants := env_instants e;
     env_last_seq := n |}.

(** [next_seq]: the clock in microseconds, bumped past the last number issued.
    The multiplication and the increment wrap as in a release build. *)
Definition next_seq : ST Env N := fun e =>
  let '(ms, e) := now_ms e in
  let now := wrap64 (ms * 1000) in
  let next := fun last => N.max now (wrap64 (last + 1)) in
  let prev := env_last_seq e in
  (next prev, set_last_seq (next prev) e).

(** [new_uaid] *)
Definition new_uaid : ST Env string :=
  b ← random_bytes 16;
  mret (foldl (fun s x => s +:+ hex2 (Byte.to_N x)) EmptyString b).

(** [is_uaid] *)
Definition is_uaid (s : string) : bool :=
  (str_len s =? 32)%N && str_all (fun c => is_ascii_digit c || between 97 102 c) s.

(** [new_id] *)
Definition new_id `{Base64} : ST Env string :=
  b ← random_bytes 16; mret (b64_encode b).

#[global] Arguments now_ms : simpl never.
#[global] Arguments next_seq : simpl never.
#[global] Arguments random_bytes : simpl never.
#[global] Arguments new_uaid : simpl never.
#[global] Arguments new_id : simpl never.

(** ** Lemmas *)

Lemma urgency_parse_as_str u : urgency_parse (urgency_as_str u) = Some u.
Proof. by destruct u. Qed.
Lemma urgency_parse_Some s u : urgency_parse s = Some u <-> s = urgency_as_str u.
Proof.
  split; [|by intros ->; apply urgency_parse_as_str].
  unfold urgency_parse. intros. by case_all.
Qed.

(** Everything but the position in a stream or the counter is preserved. *)
Record env_extends (e e' : Env) : Prop := {
  ext_clock : env_clock e' = env_clock e;
  ext_random : env_random e' = env_random e;
  ext_instant : env_instant e' = env_instant e;
  ext_ticks : env_ticks e <= env_ticks e';
  ext_drawn : env_drawn e <= env_drawn e';
  ext_instants : env_instants e <= env_instants e';
}.
#[export] Instance env_extends_preorder : PreOrder env_extends.
Proof.
  split; [intros e; split; done || lia|]. intros e1 e2 e3 [] []. split; congruence || lia.
Qed.

(** Sequence numbers stay clear of the end of the 64-bit range. *)
Definition clock_sane (e : Env) : Prop := forall i, (env_clock e i * 1000 < 2 ^ 64)%N.

Lemma next_seq_spec e n e' :
  next_seq e = (n, e') -> (env_last_seq e < u64_max)%N ->
  (env_last_seq e < n)%N /\ env_last_seq e' = n /\ env_extends e e'.
Proof.
  unfold next_seq, now_ms. cbn [env_last_seq]. intros [= <- <-] Hlt.
  assert (wrap64 (env_last_seq e + 1) = env_last_seq e + 1)%N as ->
    by (apply N.mod_small; unfold u64_max in *; lia).
  split_and!; [lia|done|split; simpl; done || lia].
Qed.

Definition lower_hex (c : ascii) : bool := is_ascii_digit c || between 97 102 c.
Lemma fold_hex2 l acc :
  let s := foldl (fun s x => s +:+ hex2 (Byte.to_N x)) acc l in
  str_len s = (str_len acc + 2 * N.of_nat (length l))%N /\
  (str_all lower_hex acc = true -> str_all lower_hex s = true).
Proof.
  revert acc. induction l as [|x l IH]; intros acc; simpl; [split; [lia|done]|].
  destruct (IH (acc +:+ hex2 (Byte.to_N x))) as [Hl Ha].
  rewrite Hl, str_len_app. split.
  - unfold str_len at 2. unfold hex2. rewrite length_hex_w. lia.
  - intros Hacc. apply Ha. rewrite str_all_app, Hacc. apply hex_w_all.
Qed.

(** A fresh user agent id passes [is_uaid]. *)
Lemma new_uaid_is_uaid e : is_uaid (new_uaid e).1 = true.
Proof.
  change ((new_uaid e).1) with (foldl (fun s x => s +:+ hex2 (Byte.to_N x)) EmptyString
    (env_random e <$> seq (env_drawn e) 16)).
  set (l := env_random e <$> seq (env_drawn e) 16).
  assert (length l = 16) as Hlen by (subst l; by rewrite length_fmap, length_seq).
  clearbody l. destruct (fold_hex2 l EmptyString) as [Hl Ha].
  unfold is_uaid. rewrite Hl, Hlen. by apply Ha.
Qed.

Ltac env_step :=
  done || apply Nat.le_refl || apply Nat.le_add_r || apply Nat.le_succ_diag_r.

(** Drawing an id moves the generator on and nothing else. *)
Lemma new_id_env `{Base64} e :
  env_extends e (new_id e).2 /\ env_last_seq (new_id e).2 = env_last_seq e.
Proof. split; [split|]; env_step. Qed.
Lemma new_uaid_env e :
  env_extends e (new_uaid e).2 /\ env_last_seq (new_uaid e).2 = env_last_seq e.
Proof. split; [split|]; env_step. Qed.
Lemma now_ms_env e : env_extends e (now_ms e).2 /\ env_last_seq (now_ms e).2 = env_last_seq e.
Proof. split; [split|]; env_step. Qed.
