(* ===== verification/Store.v ===== *)
(** * The [Store] trait and its contract

    [Store S] is the trait of [crates/webpush-store/src/lib.rs]: the
    operations of a storage adapter with state [S], as computations over the
    process environment and that state. [AStore] is the state the contract
    speaks about (user agents, subscriptions, messages, receipt queues,
    routes) without any adapter's indexes, and [StoreLaws] says what every
    operation does to it: the guarantees listed on the trait and checked by
    [contract::check]. The server's theorems use [StoreLaws] only. *)
From S2P Require Import Prelude RustStr External StoreTypes.

(** ** The trait *)
Abbreviation SM S A := (EST (Env * S) BoxError A) (only parsing).

Class Store (S : Type) : Type := {
  create_user_agent : UserAgent -> SM S unit;
  user_agent : string -> SM S (option UserAgent);
  touch_user_agent : string -> N -> SM S bool;
  update_bridge_token : string -> string -> SM S bool;
  delete_user_agent : string -> SM S (list (N * Receipt));
  expire_user_agents : N -> SM S (N * list (N * Receipt));
  subscriptions : string -> SM S (list Subscription);
  channel : string -> string -> SM S (option Subscription);
  create_subscription : string -> string -> option Bytes -> SM S Subscription;
  subscription_by_push : string -> SM S (option Subscription);
  delete_subscription : string -> string -> SM S (list (N * Receipt));
  insert_message : Message -> SM S unit;
  pending : string -> N -> N -> SM S (list Message);
  message : string -> SM S (option Message);
  delete_message : string -> option (string * string) -> SM S (option Message);
  create_receipt_sub : SM S string;
  receipt_sub_exists : string -> SM S bool;
  delete_receipt_sub : string -> SM S bool;
  enqueue_receipt : Receipt -> SM S (option N);
  queued_receipts : string -> SM S (list (N * Receipt));
  delete_receipt : string -> N -> SM S unit;
  reap : N -> SM S (list (N * Receipt));
  set_route : Recipient -> string -> SM S (option string);
  route : Recipient -> SM S (option string);
  clear_route : Recipient -> string -> SM S bool;
}.

(** ** The abstract state *)
Record AStore : Type := {
  a_uas : gmap string UserAgent;
  a_subs : gmap (string * string) Subscription;
  a_msgs : gmap string Message;
  a_queues : gmap string (gmap N Receipt);
  a_routes : gmap Recipient string;
}.

(** Every entry sits under its own key; a push resource belongs to one
    subscription and a topic slot holds one message. *)
Record a_wf (a : AStore) : Prop := {
  wf_uas : forall k ua, a_uas a !! k = Some ua -> ua_uaid ua = k;
  wf_subs : forall k sub, a_subs a !! k = Some sub -> (sub_uaid sub, sub_channel_id sub) = k;
  wf_push : forall k1 k2 s1 s2, a_subs a !! k1 = Some s1 -> a_subs a !! k2 = Some s2 ->
    sub_push s1 = sub_push s2 -> k1 = k2;
  wf_msgs : forall k m, a_msgs a !! k = Some m -> m_id m = k;
  wf_slot : forall k1 k2 m1 m2 sl, a_msgs a !! k1 = Some m1 -> a_msgs a !! k2 = Some m2 ->
    m_slot m1 = Some sl -> m_slot m2 = Some sl -> k1 = k2;
  wf_queues : forall k q seq r, a_queues a !! k = Some q -> q !! seq = Some r -> r_rsub r = k;
}.

(** ** Receipts owed for deleted messages *)
Definition receipt_for (status : N) (m : Message) : option Receipt :=
  (fun rsub => {| r_rsub := rsub; r_msg_id := m_id m; r_status := status |}) <$> m_rsub m.

(** The 410 receipt of [m], dropped if its receipt subscription is gone. *)
Definition owed_410 (qs : gmap string (gmap N Receipt)) (m : Message) : option Receipt :=
  r ← receipt_for 410 m;
  match qs !! r_rsub r with Some _ => Some r | None => None end.

Definition enqueue (qs : gmap string (gmap N Receipt)) (sr : N * Receipt)
  : gmap string (gmap N Receipt) :=
  alter <[ sr.1 := sr.2 ]> (r_rsub sr.2) qs.
Definition enqueue_all : gmap string (gmap N Receipt) -> list (N * Receipt) ->
    gmap string (gmap N Receipt) := foldl enqueue.

(** Numbers can still be issued [n] times before the 64-bit range ends. *)
Definition seq_room (n : nat) (e : Env) : Prop :=
  (env_last_seq e + N.of_nat n < u64_max)%N /\
  forall i, (env_clock e i * 1000 + N.of_nat n < u64_max)%N.

(** [rs] were numbered upwards from the last number issued in [e], and [e']
    has issued the last of them. *)
Definition numbered (e : Env) (rs : list (N * Receipt)) (e' : Env) : Prop :=
  StronglySorted N.lt (env_last_seq e :: rs.*1) /\
  List.last rs.*1 (env_last_seq e) = env_last_seq e'.

(** [rs] are exactly the 410 receipts of the messages of [a] that satisfy
    [P]; those messages are gone, and the receipts are queued. *)
Record removes (P : Message -> bool) (e : Env) (a : AStore) (rs : list (N * Receipt))
    (e' : Env) (a' : AStore) : Prop := {
  rm_msgs : a_msgs a' = filter (fun km => P km.2 = false) (a_msgs a);
  rm_receipts :
    rs.*2 ≡ₚ omap (owed_410 (a_queues a))
      (filter (fun m => P m = true) (map_to_list (a_msgs a)).*2);
  rm_numbers : numbered e rs e';
  rm_queues : a_queues a' = enqueue_all (a_queues a) rs;
  rm_routes : a_routes a' = a_routes a;
}.

(** A message replaces the stored message in its topic slot. *)
Definition a_insert_message (m : Message) (msgs : gmap string Message) : gmap string Message :=
  <[ m_id m := m ]>
    match m_slot m with
    | None => msgs
    | Some sl => filter (fun km => m_slot km.2 <> Some sl) msgs
    end.

(** Delivery order: by acceptance time, ties by id. *)
Definition msg_leb (a b : Message) : bool :=
  (m_accepted a <? m_accepted b)%N ||
  ((m_accepted a =? m_accepted b)%N && str_leb (m_id a) (m_id b)).
Definition msg_le (a b : Message) : Prop := msg_leb a b = true.
#[export] Instance msg_le_dec : RelDecision msg_le.
Proof. intros a b. unfold msg_le. apply _. Defined.

#[export] Instance msg_leb_total : Total msg_le.
Proof.
  intros a b. unfold msg_le, msg_leb. rewrite !orb_true_iff, !andb_true_iff, !N.ltb_lt, !N.eqb_eq.
  destruct (total (fun a b => str_leb a b = true) (m_id a) (m_id b)) as [?|?];
    destruct (N.lt_total (m_accepted a) (m_accepted b)) as [?|[?|?]]; auto.
Qed.
#[export] Instance msg_leb_trans : Transitive msg_le.
Proof.
  intros a b c. unfold msg_le, msg_leb. rewrite !orb_true_iff, !andb_true_iff, !N.ltb_lt, !N.eqb_eq.
  intros [?|[? ?]] [?|[? ?]]; try (left; lia). right. split; [lia|]. by eapply str_leb_trans.
Qed.

(** Whether a message is the given owner's, if one is given. *)
Definition owned_by (owner : option (string * string)) (m : Message) : bool :=
  match owner with None => true | Some o => bool_decide (m_owner m = o) end.

(** ** The contract *)
Definition set_a_uas x a := {| a_uas := x; a_subs := a_subs a; a_msgs := a_msgs a;
  a_queues := a_queues a; a_routes := a_routes a |}.
Definition set_a_subs x a := {| a_uas := a_uas a; a_subs := x; a_msgs := a_msgs a;
  a_queues := a_queues a; a_routes := a_routes a |}.
Definition set_a_msgs x a := {| a_uas := a_uas a; a_subs := a_subs a; a_msgs := x;
  a_queues := a_queues a; a_routes := a_routes a |}.
Definition set_a_queues x a := {| a_uas := a_uas a; a_subs := a_subs a; a_msgs := a_msgs a;
  a_queues := x; a_routes := a_routes a |}.
Definition set_a_routes x a := {| a_uas := a_uas a; a_subs := a_subs a; a_msgs := a_msgs a;
  a_queues := a_queues a; a_routes := x |}.

(** Whose messages go when user agent [u] is deleted: those on its
    subscriptions. *)
Definition of_user_agent (a : AStore) (u : string) (m : Message) : bool :=
  bool_decide (m_uaid m = u) && bool_decide (is_Some (a_subs a !! m_owner m)).
Definition stale (a : AStore) (cutoff : N) (u : string) : bool :=
  match a_uas a !! u with Some ua => (ua_last_seen ua <? cutoff)%N | None => false end.

(** No sequence number was issued. *)
Definition quiet (e e' : Env) : Prop := env_last_seq e' = env_last_seq e.
Lemma seq_room_quiet n e e' : env_extends e e' -> quiet e e' -> seq_room n e -> seq_room n e'.
Proof. intros He Hq [? ?]. split; [by rewrite Hq|]. intros i. by rewrite (ext_clock _ _ He). Qed.

Section laws.
Context {S : Type} `{Store S} `{Base64}.
Context (view : S -> AStore) (inv : Env * S -> Prop).

(** [m] keeps the adapter's invariant and, when it succeeds from a state
    satisfying [pre], ends in a state and with a result satisfying [post]. *)
Definition meets {A} (m : SM S A) (pre : Env -> AStore -> Prop)
    (post : Env -> AStore -> A -> Env -> AStore -> Prop) : Prop :=
  forall e s r e' s', inv (e, s) -> pre e (view s) -> m (e, s) = (Ok r, (e', s')) ->
    inv (e', s') /\ env_extends e e' /\ post e (view s) r e' (view s').

Definition no_pre (_ : Env) (_ : AStore) : Prop := True.
(** [m] does not change the abstract state and returns [f] of it. *)
Definition reads {A} (m : SM S A) (f : AStore -> A) : Prop :=
  meets m no_pre (fun e a r e' a' => quiet e e' /\ a' = a /\ r = f a).
(** [m] changes the abstract state to [f] of it and returns [g] of it. *)
Definition writes {A} (m : SM S A) (pre : AStore -> Prop)
    (f : AStore -> AStore) (g : AStore -> A) : Prop :=
  meets m (fun _ a => pre a) (fun e a r e' a' =>
    quiet e e' /\ a' = f a /\ r = g a).

(** Deleting queues at most one receipt per message. *)
Definition room (e : Env) (a : AStore) : Prop := seq_room (size (a_msgs a)) e.

Record StoreLaws : Prop := {
  law_wf e s : inv (e, s) -> a_wf (view s);
  law_env e e' s : inv (e, s) -> env_extends e e' -> quiet e e' -> inv (e', s);
  law_create_user_agent ua : writes (create_user_agent ua) (fun _ => True)
    (fun a => set_a_uas (<[ ua_uaid ua := ua ]> (a_uas a)) a) (fun _ => ());
  law_user_agent u : reads (user_agent u) (fun a => a_uas a !! u);
  law_touch_user_agent u now : meets (touch_user_agent u now) no_pre
    (fun e a r e' a' => quiet e e' /\ match a_uas a !! u with
      | None => r = false /\ a' = a
      | Some ua => r = true /\ exists seen,
          (seen = now \/ seen = ua_last_seen ua /\ now <= seen)%N /\
          a' = set_a_uas (<[ u := {| ua_uaid := ua_uaid ua; ua_bridge := ua_bridge ua;
                                     ua_last_seen := seen |} ]> (a_uas a)) a
      end);
  law_update_bridge_token u t : meets (update_bridge_token u t) no_pre
    (fun e a r e' a' => quiet e e' /\ match a_uas a !! u with
      | Some {| ua_uaid := i; ua_bridge := Some b; ua_last_seen := seen |} =>
          let b := {| ba_bridge := ba_bridge b; ba_app_id := ba_app_id b; ba_token := t |} in
          r = true /\
          a' = set_a_uas (<[ u := {| ua_uaid := i; ua_bridge := Some b;
                                     ua_last_seen := seen |} ]> (a_uas a)) a
      | _ => r = false /\ a' = a
      end);
  law_delete_user_agent u : meets (delete_user_agent u) room
    (fun e a rs e' a' => removes (of_user_agent a u) e a rs e' a' /\
      a_uas a' = delete u (a_uas a) /\
      a_subs a' = filter (fun ks => ks.1.1 <> u) (a_subs a));
  law_expire_user_agents cutoff : meets (expire_user_agents cutoff) room
    (fun e a r e' a' =>
      removes (fun m => stale a cutoff (m_uaid m) && of_user_agent a (m_uaid m) m)
        e a r.2 e' a' /\
      a_uas a' = filter (fun ku => stale a cutoff ku.1 = false) (a_uas a) /\
      a_subs a' = filter (fun ks => stale a cutoff ks.1.1 = false) (a_subs a) /\
      r.1 = N.of_nat (size (filter (fun ku => stale a cutoff ku.1 = true) (a_uas a))));
  law_subscriptions u : meets (subscriptions u) no_pre
    (fun e a r e' a' => quiet e e' /\ a' = a /\
      r ≡ₚ filter (fun s => sub_uaid s = u) (map_to_list (a_subs a)).*2);
  law_channel u c : reads (channel u c) (fun a => a_subs a !! (u, c));
  law_create_subscription u c v : meets (create_subscription u c v)
    (fun e a => a_subs a !! (u, c) = None /\
      forall k s, a_subs a !! k = Some s -> sub_push s <> (new_id e).1)
    (fun e a sub e' a' => quiet e e' /\
      sub = {| sub_uaid := u; sub_channel_id := c; sub_push := (new_id e).1; sub_vapid := v |} /\
      a' = set_a_subs (<[ (u, c) := sub ]> (a_subs a)) a);
  law_subscription_by_push p : meets (subscription_by_push p) no_pre
    (fun e a r e' a' => quiet e e' /\ a' = a /\
      forall sub, r = Some sub <-> sub_push sub = p /\
        a_subs a !! (sub_uaid sub, sub_channel_id sub) = Some sub);
  law_delete_subscription u c : meets (delete_subscription u c) room
    (fun e a rs e' a' => match a_subs a !! (u, c) with
      | None => rs = [] /\ a' = a /\ quiet e e'
      | Some _ => removes (fun m => bool_decide (m_owner m = (u, c))) e a rs e' a' /\
          a_uas a' = a_uas a /\ a_subs a' = delete (u, c) (a_subs a)
      end);
  law_insert_message m : writes (insert_message m) (fun a => a_msgs a !! m_id m = None)
    (fun a => set_a_msgs (a_insert_message m (a_msgs a)) a) (fun _ => ());
  law_pending u now limit : meets (pending u now limit) no_pre
    (fun e a ms e' a' => quiet e e' /\ a' = a /\ exists all,
      StronglySorted msg_le all /\
      all ≡ₚ filter (fun m => m_uaid m = u /\ (now < m_expiry m)%N)
        (map_to_list (a_msgs a)).*2 /\
      ms = truncate limit all);
  law_message id : reads (message id) (fun a => a_msgs a !! id);
  law_delete_message id owner : writes (delete_message id owner) (fun _ => True)
    (fun a => match m ← a_msgs a !! id; if owned_by owner m then Some m else None with
              | Some _ => set_a_msgs (delete id (a_msgs a)) a
              | None => a
              end)
    (fun a => m ← a_msgs a !! id; if owned_by owner m then Some m else None);
  law_create_receipt_sub : meets create_receipt_sub
    (fun e a => a_queues a !! (new_id e).1 = None)
    (fun e a r e' a' => quiet e e' /\ r = (new_id e).1 /\ a' = set_a_queues (<[ r := ∅ ]> (a_queues a)) a);
  law_receipt_sub_exists r :
    reads (receipt_sub_exists r) (fun a => bool_decide (is_Some (a_queues a !! r)));
  law_delete_receipt_sub r : writes (delete_receipt_sub r) (fun _ => True)
    (fun a => set_a_queues (delete r (a_queues a)) a)
    (fun a => bool_decide (is_Some (a_queues a !! r)));
  law_enqueue_receipt rc : meets (enqueue_receipt rc) (fun e _ => seq_room 1 e)
    (fun e a o e' a' => match a_queues a !! r_rsub rc with
      | None => o = None /\ a' = a /\ quiet e e'
      | Some _ => exists seq, o = Some seq /\ numbered e [(seq, rc)] e' /\
          a' = set_a_queues (enqueue (a_queues a) (seq, rc)) a
      end);
  law_queued_receipts r : meets (queued_receipts r) no_pre
    (fun e a rs e' a' => quiet e e' /\ a' = a /\ StronglySorted N.lt rs.*1 /\
      rs ≡ₚ map_to_list (default ∅ (a_queues a !! r)));
  law_delete_receipt r seq : writes (delete_receipt r seq) (fun _ => True)
    (fun a => set_a_queues (alter (delete seq) r (a_queues a)) a) (fun _ => ());
  law_reap now : meets (reap now) room
    (fun e a rs e' a' => exists P,
      (forall m, P m = true -> (m_expiry m <= now)%N) /\
      (forall m, (m_expiry m <= now)%N -> m_rsub m <> None -> P m = true) /\
      removes P e a rs e' a' /\ a_uas a' = a_uas a /\ a_subs a' = a_subs a);
  law_set_route to node : writes (set_route to node) (fun _ => True)
    (fun a => set_a_routes (<[ to := node ]> (a_routes a)) a) (fun a => a_routes a !! to);
  law_route to : reads (route to) (fun a => a_routes a !! to);
  law_clear_route to node : writes (clear_route to node) (fun _ => True)
    (fun a => if decide (a_routes a !! to = Some node)
              then set_a_routes (delete to (a_routes a)) a else a)
    (fun a => bool_decide (a_routes a !! to = Some node));
}.

(** ** Failures

    A failed operation may or may not have taken effect: its reply was lost.
    A read that fails changed nothing. Only operations whose failure the
    server ignores need a law; the others end the request or the session. *)
Definition on_error {A} (m : SM S A) (f : AStore -> AStore) : Prop :=
  forall e s er e' s', inv (e, s) -> m (e, s) = (Err er, (e', s')) ->
    inv (e', s') /\ env_extends e e' /\ quiet e e' /\
    (view s' = view s \/ view s' = f (view s)).

Definition a_clear_route (to : Recipient) (node : string) (a : AStore) : AStore :=
  if decide (a_routes a !! to = Some node) then set_a_routes (delete to (a_routes a)) a else a.
Definition a_delete_receipt (r : string) (seq : N) (a : AStore) : AStore :=
  set_a_queues (alter (delete seq) r (a_queues a)) a.

Record FaultLaws : Prop := {
  fault_route to : on_error (route to) id;
  fault_clear_route to node : on_error (clear_route to node) (a_clear_route to node);
  fault_delete_receipt r seq : on_error (delete_receipt r seq) (a_delete_receipt r seq);
}.
End laws.
