(* ===== verification/Contract.v ===== *)
(** * The executable storage contract

    [crates/webpush-store/src/contract.rs]: the checks a storage adapter's
    tests run, over any adapter. A check stops at its first failure: an
    operation that failed, or a violated guarantee. The clock is taken to be
    more than five seconds past 1970. *)
From Stdlib Require Import Ascii.
From S2P Require Import Prelude RustStr External StoreTypes Store.

(** What a panic of the check says. *)
Inductive Failure : Type :=
| Backend (what : string) (e : BoxError)
| Violation (msg : string).
Definition violated {A} (r : result Failure A) : bool :=
  match r with Err (Violation _) => true | _ => false end.

Definition str_le (a b : string) : Prop := str_leb a b = true.
#[export] Instance str_le_dec : RelDecision str_le.
Proof. intros a b. unfold str_le. apply _. Defined.

Section contract.
Context {S : Type} `{ST_ : Store S} `{B64 : Base64}.
Abbreviation C X := (EST (Env * S) Failure X) (only parsing).

(** [ok] *)
Definition ok {A} (r : SM S A) (what : string) : C A := fun w =>
  let '(r, w) := r w in (map_err (Backend what) r, w).
(** [assert!] and [assert_eq!], and [expect] *)
Definition assert_ (b : bool) (msg : string) : C unit :=
  if b then mret () else throw (Violation msg).
Definition assert_eq {A} `{EqDecision A} (a b : A) (msg : string) : C unit :=
  assert_ (bool_decide (a = b)) msg.
Definition expect {A} (o : option A) (msg : string) : C A :=
  match o with Some a => mret a | None => throw (Violation msg) end.
Definition env {A} (m : ST Env A) : C A := fun '(e, s) => let '(a, e) := m e in (Ok a, (e, s)).

(** [message]: with [body] of [b"body"] *)
Definition message (uaid channel_id push : string) (accepted ttl_ms : N) : C Message :=
  id ← env new_id;
  mret {| m_id := id; m_uaid := uaid; m_channel_id := channel_id; m_push := push; m_topic := None;
          m_body := as_bytes "body"; m_ctype := Some "application/octet-stream";
          m_cenc := Some "aes128gcm"; m_ttl := default u32_max (u32_try_from (ttl_ms / 1000));
          m_urgency := Normal; m_accepted := accepted; m_expiry := accepted + ttl_ms;
          m_rsub := None |}.
(** The updates the checks make to such a message. *)
Definition with_rsub (rsub : string) (m : Message) : Message :=
  {| m_id := m_id m; m_uaid := m_uaid m; m_channel_id := m_channel_id m; m_push := m_push m;
     m_topic := m_topic m; m_body := m_body m; m_ctype := m_ctype m; m_cenc := m_cenc m;
     m_ttl := m_ttl m; m_urgency := m_urgency m; m_accepted := m_accepted m; m_expiry := m_expiry m;
     m_rsub := Some rsub |}.
Definition with_topic (topic : string) (urgency : Urgency) (body : Bytes) (m : Message) : Message :=
  {| m_id := m_id m; m_uaid := m_uaid m; m_channel_id := m_channel_id m; m_push := m_push m;
     m_topic := Some topic; m_body := body; m_ctype := m_ctype m; m_cenc := m_cenc m;
     m_ttl := m_ttl m; m_urgency := urgency; m_accepted := m_accepted m; m_expiry := m_expiry m;
     m_rsub := m_rsub m |}.

(** [channel_id] *)
Definition channel_id : C string :=
  id ← env new_id;
  let hex := foldl (fun s b => s +:+ hex2 (Byte.to_N b)) "" (as_bytes id) in
  let slice a b := String.substring a (b - a) hex in
  mret (slice 0 8 +:+ "-" +:+ slice 8 12 +:+ "-" +:+ slice 12 16 +:+ "-" +:+ slice 16 20 +:+ "-"
        +:+ slice 20 32).

(** [user_agent_seen] and [user_agent] *)
Definition user_agent_seen (seen : N) : C string :=
  uaid ← env new_uaid;
  _ ← ok (create_user_agent {| ua_uaid := uaid; ua_bridge := None; ua_last_seen := seen |})
    "create_user_agent";
  mret uaid.
Definition user_agent : C string := now ← env now_ms; user_agent_seen now.

(** [user_agents] *)
Definition user_agents : C unit :=
  uaid ← user_agent_seen 1000;
  _ ← assert_ (is_uaid uaid) "is_uaid";
  ua ← ok (Store.user_agent uaid) "user_agent";
  ua ← expect ua "stored user agent";
  _ ← assert_eq ua {| ua_uaid := uaid; ua_bridge := None; ua_last_seen := 1000 |} "user agent";
  touched ← ok (touch_user_agent uaid 5000) "touch_user_agent";
  _ ← assert_ touched "touched";
  ua ← ok (Store.user_agent uaid) "user_agent";
  ua ← expect ua "stored user agent";
  _ ← assert_eq (ua_last_seen ua) 5000%N "store contract: touch did not record last_seen";
  unknown ← env new_uaid;
  ua ← ok (Store.user_agent unknown) "user_agent";
  _ ← assert_eq ua None "unknown user agent";
  touched ← ok (touch_user_agent unknown 5000) "touch_user_agent";
  _ ← assert_ (negb touched) "store contract: touching an unknown user agent reported success";
  ua ← ok (Store.user_agent unknown) "user_agent";
  assert_eq ua None "store contract: touching an unknown user agent created it".

(** [bridged_user_agents] *)
Definition bridged_user_agents : C unit :=
  uaid ← env new_uaid;
  now ← env now_ms;
  let ua := {| ua_uaid := uaid;
               ua_bridge := Some {| ba_bridge := "fcm"; ba_app_id := "app.example"; ba_token := "token-1" |};
               ua_last_seen := now |} in
  _ ← ok (create_user_agent ua) "create_user_agent";
  got ← ok (Store.user_agent uaid) "user_agent";
  _ ← assert_eq got (Some ua) "user agent";
  updated ← ok (update_bridge_token uaid "token-2") "update_bridge_token";
  _ ← assert_ updated "updated";
  got ← ok (Store.user_agent uaid) "user_agent";
  got ← expect got "stored user agent";
  _ ← assert_eq (ba_token <$> ua_bridge got) (Some "token-2") "store contract: token not replaced";
  session ← user_agent;
  updated ← ok (update_bridge_token session "t") "update_bridge_token";
  _ ← assert_ (negb updated) "store contract: a session user agent was given a bridge token";
  unknown ← env new_uaid;
  updated ← ok (update_bridge_token unknown "t") "update_bridge_token";
  assert_ (negb updated) "store contract: an unknown user agent was given a bridge token".

Definition subscribe (uaid ch : string) : C Subscription :=
  ok (create_subscription uaid ch None) "create_subscription".
Definition insert (m : Message) : C unit := ok (insert_message m) "insert_message".

(** [delete_and_expire_user_agents] *)
Definition delete_and_expire_user_agents : C unit :=
  now ← env now_ms;
  uaid ← user_agent;
  a ← channel_id;
  b ← channel_id;
  sa ← subscribe uaid a;
  _ ← subscribe uaid b;
  subs ← ok (Store.subscriptions uaid) "subscriptions";
  let subs := merge_sort str_le (sub_channel_id <$> subs) in
  let want := merge_sort str_le [a; b] in
  _ ← assert_eq subs want "store contract: subscriptions must list every channel";
  rsub ← ok create_receipt_sub "create_receipt_sub";
  m ← message uaid a (sub_push sa) now 60000;
  let m := with_rsub rsub m in
  _ ← insert m;
  receipts ← ok (delete_user_agent uaid) "delete_user_agent";
  _ ← assert_eq ((fun sr => (r_msg_id sr.2, r_status sr.2)) <$> receipts) [(m_id m, 410%N)]
    "store contract: deleting a user agent must owe a 410 for its message";
  ua ← ok (Store.user_agent uaid) "user_agent";
  _ ← assert_eq ua None "deleted user agent";
  subs ← ok (Store.subscriptions uaid) "subscriptions";
  _ ← assert_eq subs [] "subscriptions of a deleted user agent";
  sub ← ok (subscription_by_push (sub_push sa)) "subscription_by_push";
  _ ← assert_eq sub None "store contract: a deleted user agent's push resource still resolves";
  got ← ok (Store.message (m_id m)) "message";
  _ ← assert_eq got None "message of a deleted user agent";
  stale ← user_agent_seen 10;
  fresh ← user_agent_seen 30;
  '(count, _) ← ok (expire_user_agents 20) "expire_user_agents";
  _ ← assert_ (1 <=? count)%N "store contract: expiry deleted nothing";
  ua ← ok (Store.user_agent stale) "user_agent";
  _ ← assert_eq ua None "store contract: a user agent seen before the cutoff survived expiry";
  ua ← ok (Store.user_agent fresh) "user_agent";
  _ ← assert_ (bool_decide (is_Some ua))
    "store contract: a user agent seen after the cutoff was expired";
  _ ← ok (delete_user_agent fresh) "delete_user_agent";
  mret ().

(** [routes] *)
Definition routes : C unit :=
  uaid ← env new_uaid;
  let to := RUserAgent uaid in
  r ← ok (route to) "route";
  _ ← assert_eq r None "route";
  r ← ok (set_route to "http://a:8081") "set_route";
  _ ← assert_eq r None "set_route";
  r ← ok (set_route to "http://b:8081") "set_route";
  _ ← assert_eq r (Some "http://a:8081") "store contract: set_route must return the previous node";
  cleared ← ok (clear_route to "http://a:8081") "clear_route";
  _ ← assert_ (negb cleared) "store contract: a node cleared a route it no longer holds";
  r ← ok (route to) "route";
  _ ← assert_eq r (Some "http://b:8081") "route";
  rid ← env new_id;
  let receipts := RReceipts rid in
  _ ← ok (set_route receipts "http://a:8081") "set_route";
  cleared ← ok (clear_route to "http://b:8081") "clear_route";
  _ ← assert_ cleared "clear_route";
  r ← ok (route to) "route";
  _ ← assert_eq r None "route";
  r ← ok (route receipts) "route";
  _ ← assert_eq r (Some "http://a:8081") "store contract: routes of different recipients interfere";
  _ ← ok (clear_route receipts "http://a:8081") "clear_route";
  mret ().

(** [subscriptions] *)
Definition subscriptions : C unit :=
  uaid ← user_agent;
  ch ← channel_id;
  let key := replicate 65 x04 in
  sub ← ok (channel uaid ch) "channel";
  _ ← assert_eq sub None "channel";
  sub ← ok (create_subscription uaid ch (Some key)) "create_subscription";
  _ ← assert_eq (sub_uaid sub, sub_channel_id sub) (uaid, ch) "subscription";
  _ ← assert_eq (sub_vapid sub) (Some key) "store contract: VAPID key not kept";
  _ ← assert_ (22 <=? str_len (sub_push sub))%N "store contract: push id shorter than 128 bits";
  _ ← assert_ (negb (str_contains uaid (sub_push sub)) && negb (str_contains ch (sub_push sub)))
    "store contract: push id reveals the user agent or channel";
  got ← ok (channel uaid ch) "channel";
  _ ← assert_eq got (Some sub) "channel";
  got ← ok (subscription_by_push (sub_push sub)) "subscription_by_push";
  _ ← assert_eq got (Some sub) "subscription_by_push";
  unknown ← env new_id;
  got ← ok (subscription_by_push unknown) "subscription_by_push";
  assert_eq got None "subscription_by_push".

(** [usize::MAX] *)
Definition no_limit : N := u64_max.

(** [pending_order_and_expiry] *)
Definition pending_order_and_expiry : C unit :=
  now ← env now_ms;
  uaid ← user_agent;
  a ← channel_id;
  b ← channel_id;
  sa ← subscribe uaid a;
  sb ← subscribe uaid b;
  second ← message uaid b (sub_push sb) (now - 1000) 60000;
  first ← message uaid a (sub_push sa) (now - 2000) 60000;
  expired ← message uaid a (sub_push sa) (now - 3000) 1000;
  _ ← est_forM insert [second; first; expired];
  other ← user_agent;
  so ← subscribe other a;
  m ← message other a (sub_push so) now 60000;
  _ ← insert m;
  got ← ok (pending uaid now no_limit) "pending";
  _ ← assert_eq got [first; second]
    "store contract: pending must return unexpired messages of the user agent, oldest first";
  got ← ok (pending uaid now 1) "pending";
  _ ← assert_eq got [first] "store contract: pending must honour the limit, keeping the oldest";
  got ← ok (Store.message (m_id first)) "message";
  assert_eq got (Some first) "message".

(** [topic_replacement] *)
Definition topic_replacement : C unit :=
  now ← env now_ms;
  uaid ← user_agent;
  a ← channel_id;
  b ← channel_id;
  sa ← subscribe uaid a;
  sb ← subscribe uaid b;
  rsub ← ok create_receipt_sub "create_receipt_sub";
  old ← message uaid a (sub_push sa) (now - 2000) 60000;
  let old := with_rsub rsub (with_topic "news" High (m_body old) old) in
  elsewhere ← message uaid b (sub_push sb) (now - 1500) 60000;
  let elsewhere := with_topic "news" (m_urgency elsewhere) (m_body elsewhere) elsewhere in
  new ← message uaid a (sub_push sa) (now - 1000) 30000;
  let new := with_topic "news" VeryLow (as_bytes "replacement") new in
  _ ← est_forM insert [old; elsewhere; new];
  got ← ok (Store.message (m_id old)) "message";
  _ ← assert_eq got None "store contract: a replaced message is still readable";
  got ← ok (Store.message (m_id new)) "message";
  _ ← assert_eq got (Some new) "message";
  got ← ok (pending uaid now no_limit) "pending";
  _ ← assert_eq got [elsewhere; new]
    "store contract: the same topic on another subscription must not be replaced";
  got ← ok (delete_message (m_id old) None) "delete_message";
  _ ← assert_eq got None "store contract: deleting a replaced message must not match its replacement";
  receipts ← ok (delete_subscription uaid a) "delete_subscription";
  assert_eq receipts [] "store contract: a replaced message produced a receipt".

(** [delete_message_ownership] *)
Definition delete_message_ownership : C unit :=
  now ← env now_ms;
  uaid ← user_agent;
  ch ← channel_id;
  sub ← subscribe uaid ch;
  m ← message uaid ch (sub_push sub) now 60000;
  _ ← insert m;
  stranger ← user_agent;
  got ← ok (delete_message (m_id m) (Some (stranger, ch))) "delete_message";
  _ ← assert_eq got None "store contract: another user agent deleted a message";
  other ← channel_id;
  got ← ok (delete_message (m_id m) (Some (uaid, other))) "delete_message";
  _ ← assert_eq got None "store contract: another channel deleted a message";
  got ← ok (delete_message (m_id m) (Some (uaid, ch))) "delete_message";
  _ ← assert_eq got (Some m) "delete_message";
  got ← ok (delete_message (m_id m) None) "delete_message";
  _ ← assert_eq got None "store contract: a message was deleted twice";
  got ← ok (Store.message (m_id m)) "message";
  assert_eq got None "message".

(** [receipt_queue] *)
Definition receipt_queue : C unit :=
  rsub ← ok create_receipt_sub "create_receipt_sub";
  there ← ok (receipt_sub_exists rsub) "receipt_sub_exists";
  _ ← assert_ there "receipt_sub_exists";
  let receipt msg_id status := {| r_rsub := rsub; r_msg_id := msg_id; r_status := status |} in
  let r1 := receipt "m1" 204%N in
  let r2 := receipt "m2" 410%N in
  s1 ← ok (enqueue_receipt r1) "enqueue_receipt";
  s1 ← expect s1 "queued";
  s2 ← ok (enqueue_receipt r2) "enqueue_receipt";
  s2 ← expect s2 "queued";
  _ ← assert_ (s1 <? s2)%N "store contract: receipt sequence numbers must increase";
  q ← ok (queued_receipts rsub) "queued_receipts";
  _ ← assert_eq q [(s1, r1); (s2, r2)] "queued_receipts";
  _ ← ok (delete_receipt rsub s1) "delete_receipt";
  q ← ok (queued_receipts rsub) "queued_receipts";
  _ ← assert_eq q [(s2, r2)] "queued_receipts";
  deleted ← ok (delete_receipt_sub rsub) "delete_receipt_sub";
  _ ← assert_ deleted "delete_receipt_sub";
  deleted ← ok (delete_receipt_sub rsub) "delete_receipt_sub";
  _ ← assert_ (negb deleted) "delete_receipt_sub";
  there ← ok (receipt_sub_exists rsub) "receipt_sub_exists";
  _ ← assert_ (negb there) "receipt_sub_exists";
  s3 ← ok (enqueue_receipt (receipt "m3" 204%N)) "enqueue_receipt";
  _ ← assert_eq s3 None "store contract: a receipt was queued for a deleted receipt subscription";
  q ← ok (queued_receipts rsub) "queued_receipts";
  assert_eq q [] "queued_receipts".

(** [delete_subscription_owes_410] *)
Definition delete_subscription_owes_410 : C unit :=
  now ← env now_ms;
  uaid ← user_agent;
  ch ← channel_id;
  keep ← channel_id;
  sub ← subscribe uaid ch;
  kept ← subscribe uaid keep;
  rsub ← ok create_receipt_sub "create_receipt_sub";
  with_receipt ← message uaid ch (sub_push sub) now 60000;
  let with_receipt := with_rsub rsub with_receipt in
  without ← message uaid ch (sub_push sub) now 60000;
  unrelated ← message uaid keep (sub_push kept) now 60000;
  _ ← est_forM insert [with_receipt; without; unrelated];
  receipts ← ok (delete_subscription uaid ch) "delete_subscription";
  _ ← assert_ (length receipts =? 1) "store contract: expected one 410 receipt";
  _ ← assert_eq ((fun sr => (r_msg_id sr.2, r_status sr.2)) <$> head receipts)
    (Some (m_id with_receipt, 410%N)) "receipt";
  got ← ok (channel uaid ch) "channel";
  _ ← assert_eq got None "channel";
  got ← ok (subscription_by_push (sub_push sub)) "subscription_by_push";
  _ ← assert_eq got None "subscription_by_push";
  got ← ok (pending uaid now no_limit) "pending";
  _ ← assert_eq got [unrelated]
    "store contract: deleting a subscription must delete its messages and only those";
  receipts ← ok (delete_subscription uaid ch) "delete_subscription";
  assert_eq receipts [] "store contract: deleting an unknown subscription produced receipts".

(** [reap_owes_410] *)
Definition reap_owes_410 : C unit :=
  now ← env now_ms;
  uaid ← user_agent;
  ch ← channel_id;
  sub ← subscribe uaid ch;
  rsub ← ok create_receipt_sub "create_receipt_sub";
  expired ← message uaid ch (sub_push sub) (now - 5000) 1000;
  let expired := with_rsub rsub expired in
  live ← message uaid ch (sub_push sub) now 60000;
  let live := with_rsub rsub live in
  _ ← est_forM insert [expired; live];
  receipts ← ok (reap now) "reap";
  let ours := filter (fun sr => r_rsub sr.2 = rsub) receipts in
  _ ← assert_ (length ours =? 1) "store contract: reap must owe exactly one 410 here";
  _ ← assert_eq ((fun sr => (r_msg_id sr.2, r_status sr.2)) <$> head ours)
    (Some (m_id expired, 410%N)) "receipt";
  got ← ok (Store.message (m_id expired)) "message";
  _ ← assert_eq got None "message";
  got ← ok (Store.message (m_id live)) "message";
  _ ← assert_eq got (Some live) "message";
  q ← ok (queued_receipts rsub) "queued_receipts";
  assert_ (length q =? 1) "store contract: the 410 must also be queued".

(** [check] *)
Definition check : C unit :=
  _ ← user_agents;
  _ ← bridged_user_agents;
  _ ← delete_and_expire_user_agents;
  _ ← subscriptions;
  _ ← pending_order_and_expiry;
  _ ← topic_replacement;
  _ ← delete_message_ownership;
  _ ← receipt_queue;
  _ ← delete_subscription_owes_410;
  _ ← reap_owes_410;
  routes.
End contract.
