(* ===== verification/Instances.v ===== *)
(** * Concrete third-party code

    Executable instances of the classes of [External.v], with proofs that
    they satisfy the laws. The examples and witnesses of the development run
    on them; no theorem depends on them. *)
From Stdlib Require Import Ascii.
From S2P Require Import Prelude RustStr External Octets StoreTypes Store.

(** ** base64url without padding, as RFC 4648 section 5 defines it *)
Definition b64_digit (n : N) : ascii :=
  ascii_of_N (if n <? 26 then 65 + n else if n <? 52 then 71 + n
              else if n <? 62 then n - 4 else if n =? 62 then 45 else 95)%N.
Definition b64_val (c : ascii) : option N :=
  let n := code c in
  if between 65 90 c then Some (n - 65)%N
  else if between 97 122 c then Some (n - 71)%N
  else if between 48 57 c then Some (n + 4)%N
  else if char_is 45 c then Some 62%N
  else if char_is 95 c then Some 63%N
  else None.

Lemma b64_val_digit n : (n < 64)%N -> b64_val (b64_digit n) = Some n.
Proof.
  intros Hn. assert (forallb (fun n => bool_decide (b64_val (b64_digit n) = Some n)) (N.of_nat <$> seq 0 64) = true) as Hall
    by (vm_compute; reflexivity).
  rewrite forallb_forall in Hall. specialize (Hall n). rewrite bool_decide_eq_true in Hall.
  apply Hall, list_elem_of_In, list_elem_of_fmap. exists (N.to_nat n).
  split; [lia|]. apply elem_of_seq. lia.
Qed.
Lemma b64_digit_char n : (n < 64)%N -> b64_char (b64_digit n) = true.
Proof.
  intros Hn. assert (forallb (fun n => b64_char (b64_digit n)) (N.of_nat <$> seq 0 64) = true) as Hall
    by (vm_compute; reflexivity).
  rewrite forallb_forall in Hall. specialize (Hall n).
  apply Hall, list_elem_of_In, list_elem_of_fmap. exists (N.to_nat n).
  split; [lia|]. apply elem_of_seq. lia.
Qed.

Fixpoint b64url_encode (l : Bytes) : string :=
  match l with
  | a :: b :: c :: l =>
      let a := Byte.to_N a in let b := Byte.to_N b in let c := Byte.to_N c in
      String (b64_digit (a / 4)) (String (b64_digit (a mod 4 * 16 + b / 16))
        (String (b64_digit (b mod 16 * 4 + c / 64)) (String (b64_digit (c mod 64))
          (b64url_encode l))))
  | [a; b] =>
      let a := Byte.to_N a in let b := Byte.to_N b in
      String (b64_digit (a / 4)) (String (b64_digit (a mod 4 * 16 + b / 16))
        (String (b64_digit (b mod 16 * 4)) EmptyString))
  | [a] =>
      let a := Byte.to_N a in
      String (b64_digit (a / 4)) (String (b64_digit (a mod 4 * 16)) EmptyString)
  | [] => EmptyString
  end%N.

Fixpoint b64url_decode (s : string) : option Bytes :=
  match s with
  | String w (String x (String y (String z s))) =>
      w ← b64_val w; x ← b64_val x; y ← b64_val y; z ← b64_val z; r ← b64url_decode s;
      Some (byte_of (w * 4 + x / 16) :: byte_of (x mod 16 * 16 + y / 4)
            :: byte_of (y mod 4 * 64 + z) :: r)
  | String w (String x (String y EmptyString)) =>
      w ← b64_val w; x ← b64_val x; y ← b64_val y;
      if (y mod 4 =? 0) then Some [byte_of (w * 4 + x / 16); byte_of (x mod 16 * 16 + y / 4)]
      else None
  | String w (String x EmptyString) =>
      w ← b64_val w; x ← b64_val x;
      if (x mod 16 =? 0) then Some [byte_of (w * 4 + x / 16)] else None
  | EmptyString => Some []
  | _ => None
  end%N.

#[export] Instance b64url : Base64 := {| b64_encode := b64url_encode; b64_decode := b64url_decode |}.

Lemma byte_of_eq a n : n = Byte.to_N a -> byte_of n = a.
Proof. intros ->. apply byte_of_to_N. Qed.

(** Induction over the groups of three octets. *)
Lemma group_ind (P : Bytes -> Prop) :
  P [] -> (forall a, P [a]) -> (forall a b, P [a; b]) ->
  (forall a b c l, P l -> P (a :: b :: c :: l)) -> forall l, P l.
Proof.
  intros H0 H1 H2 H3. fix IH 1. intros [|a [|b [|c l]]]; [apply H0|apply H1|apply H2|apply H3, IH].
Qed.

(** Digits: [n = q * k + r] with [r < k]. *)
Lemma pack (q r k : N) : (r < k)%N -> ((q * k + r) / k = q /\ (q * k + r) mod k = r)%N.
Proof.
  intros. split.
  - rewrite N.div_add_l, N.div_small by lia. lia.
  - rewrite N.add_comm, N.Div0.mod_add. by apply N.mod_small.
Qed.
Lemma unpack (n k : N) : k <> 0%N -> (n / k * k + n mod k = n)%N.
Proof. intros. rewrite N.mul_comm. symmetry. by apply N.div_mod. Qed.

(** The two halves of an octet at each of the three places it is cut. *)
Lemma cut4 a : (Byte.to_N a / 4 < 64 /\ Byte.to_N a mod 4 < 4)%N.
Proof.
  pose proof (byte_bound a). split; [apply N.Div0.div_lt_upper_bound; lia|by apply N.mod_lt].
Qed.
Lemma cut16 a : (Byte.to_N a / 16 < 16 /\ Byte.to_N a mod 16 < 16)%N.
Proof.
  pose proof (byte_bound a). split; [apply N.Div0.div_lt_upper_bound; lia|by apply N.mod_lt].
Qed.
Lemma cut64 a : (Byte.to_N a / 64 < 4 /\ Byte.to_N a mod 64 < 64)%N.
Proof.
  pose proof (byte_bound a). split; [apply N.Div0.div_lt_upper_bound; lia|by apply N.mod_lt].
Qed.

Ltac cuts a := destruct (cut4 a), (cut16 a), (cut64 a).
Ltac digit_lemmas lem := rewrite !lem by lia.

#[export] Instance b64url_laws : Base64Laws.
Proof.
  split.
  - cbn. intros b. induction b as [|a|a b|a b c l IH] using group_ind; cbn [b64url_encode b64url_decode].
    + done.
    + cuts a. digit_lemmas b64_val_digit. cbn -[N.div N.modulo N.mul N.add].
      rewrite N.Div0.mod_mul, N.div_mul by done. cbn -[N.div N.modulo N.mul N.add].
      f_equal. f_equal. apply byte_of_eq. by apply unpack.
    + cuts a; cuts b. digit_lemmas b64_val_digit. cbn -[N.div N.modulo N.mul N.add].
      rewrite N.Div0.mod_mul, N.div_mul by done. cbn -[N.div N.modulo N.mul N.add].
      destruct (pack (Byte.to_N a mod 4) (Byte.to_N b / 16) 16) as [-> ->]; [done|].
      f_equal. f_equal; [|f_equal]; apply byte_of_eq; by apply unpack.
    + cuts a; cuts b; cuts c. digit_lemmas b64_val_digit. cbn -[N.div N.modulo N.mul N.add].
      rewrite IH. cbn -[N.div N.modulo N.mul N.add].
      destruct (pack (Byte.to_N a mod 4) (Byte.to_N b / 16) 16) as [-> ->]; [done|].
      destruct (pack (Byte.to_N b mod 16) (Byte.to_N c / 64) 4) as [-> ->]; [done|].
      f_equal. f_equal; [|f_equal; [|f_equal]]; apply byte_of_eq; by apply unpack.
  - cbn. intros b. induction b as [|a|a b|a b c l IH] using group_ind; cbn [b64url_encode str_all].
    + done.
    + cuts a. digit_lemmas b64_digit_char. done.
    + cuts a; cuts b. digit_lemmas b64_digit_char. done.
    + cuts a; cuts b; cuts c. digit_lemmas b64_digit_char. done.
  - cbn [b64_encode b64url]. intros b. induction b as [|a|a b|a b c l IH] using group_ind;
      cbn [b64url_encode String.length length]; rewrite ?IH; try done.
    transitivity ((length l * 4 + 2) / 3 + 4); [lia|].
    rewrite <- (Nat.div_add (length l * 4 + 2) 4 3) by done. f_equal. lia.
Qed.

(** ** A process environment *)

(** A clock that starts at [ms] and advances for a second, and random octets
    that count up. *)
Definition demo_env (ms : N) : Env := {|
  env_clock := fun i => (ms + N.min (N.of_nat i) 1000)%N;
  env_ticks := 0;
  env_random := fun i => byte_of (N.of_nat i mod 256);
  env_drawn := 0;
  env_instant := fun i => N.of_nat i;
  env_instants := 0;
  env_last_seq := 0;
|}.

Lemma demo_seq_room ms n e :
  (forall i, env_clock e i = (ms + N.min (N.of_nat i) 1000)%N) ->
  (ms < 2 ^ 50)%N -> (N.of_nat n < 2 ^ 50)%N -> (env_last_seq e < 2 ^ 60)%N -> seq_room n e.
Proof.
  intros Hc Hms Hn Hl. change (2 ^ 50)%N with 1125899906842624%N in *.
  change (2 ^ 60)%N with 1152921504606846976%N in *.
  split; [|intros i; rewrite Hc]; change u64_max with 18446744073709551615%N; lia.
Qed.

(** ** Header maps as lists of lower-case names and values *)
Definition visible_ascii (c : ascii) : bool := between 32 126 c || char_is 9 c.
#[export] Instance list_http : Http := {|
  HeaderMap := list (string * string);
  HeaderValue := string;
  get_all := fun h name => (filter (fun kv => kv.1 = name) h).*2;
  to_str := fun v => if str_all visible_ascii v then Some v else None;
|}.

(** ** A cipher whose tag is its key

    Not secure, but lawful: a sealed record is the plaintext followed by 16
    octets of key and nonce. *)
Definition pad (n : nat) (b : Bytes) : Bytes := take n (b ++ replicate n x00).
Definition toy_tag (key nonce : Bytes) : Bytes :=
  pad 16 (zip_with byte_xor (pad 16 key) (pad 16 nonce)).

Lemma length_pad n b : length (pad n b) = n.
Proof. unfold pad. rewrite length_take, length_app, length_replicate. lia. Qed.

Lemma length_toy_tag key nonce : length (toy_tag key nonce) = 16.
Proof. apply length_pad. Qed.

#[export] Instance toy_aead : Aead := {|
  hkdf_sha256 := fun salt ikm info len => pad len (ikm ++ salt ++ info);
  aes_gcm_encrypt := fun key nonce pt => Some (pt ++ toy_tag key nonce);
  aes_gcm_decrypt := fun key nonce ct =>
    '(pt, tag) ← split_at_checked (length ct - 16) ct;
    if decide (tag = toy_tag key nonce) then Some pt else None;
|}.

#[export] Instance toy_aead_laws : AeadLaws.
Proof.
  split.
  - intros. apply length_pad.
  - intros. by eexists.
  - intros key nonce pt ct [= <-]. cbn -[toy_tag]. rewrite length_app, length_toy_tag.
    rewrite split_at_checked_app by lia. cbn. by rewrite decide_True.
  - intros key nonce pt ct [= <-]. by rewrite length_app, length_toy_tag.
Qed.

(** A key pair whose halves are the same 32 octets, and a key agreement that
    adds them octet by octet. *)
Definition toy_key : Type := { b : Bytes | length b = 32 }.
Definition to_key (b : Bytes) : toy_key := exist _ (pad 32 b) (length_pad 32 b).
Definition toy_uncompressed (k : toy_key) : Bytes := x04 :: proj1_sig k ++ replicate 32 x00.

#[export] Instance toy_p256 : P256 := {|
  PublicKey := toy_key;
  SecretKey := toy_key;
  Signature := Bytes;
  public_from_sec1 := fun b =>
    match b with
    | x04 :: b => if decide (length b = 64) then Some (to_key (take 32 b)) else None
    | _ => None
    end;
  to_uncompressed := toy_uncompressed;
  secret_from_bytes := fun b => if decide (length b = 32) then Some (to_key b) else None;
  public_key := fun k => k;
  diffie_hellman := fun a b => zip_with byte_xor (proj1_sig a) (proj1_sig b);
  signature_from_slice := fun b => if decide (length b = 64) then Some b else None;
  es256_verify := fun k msg s =>
    bool_decide (s = proj1_sig k ++ pad 32 msg);
|}.

Lemma pad_exact n b : length b = n -> pad n b = b.
Proof. intros <-. unfold pad. by rewrite take_app_length. Qed.
Lemma byte_xor_comm a b : byte_xor a b = byte_xor b a.
Proof. unfold byte_xor. by rewrite N.lxor_comm. Qed.
Lemma zip_xor_comm a b : zip_with byte_xor a b = zip_with byte_xor b a.
Proof.
  revert b. induction a as [|x a IH]; intros [|y b]; [done..|]. cbn. by rewrite byte_xor_comm, IH.
Qed.

#[export] Instance toy_p256_laws : P256Laws.
Proof.
  split.
  - intros [k Hk]. cbn. rewrite length_app, Hk. done.
  - done.
  - intros k. cbn -[take replicate]. pose proof (proj2_sig k) as Hk. cbn -[take replicate] in Hk.
    rewrite decide_True by (rewrite length_app, Hk; done). f_equal.
    apply (sig_eq_pi (fun b => length b = 32)). cbn -[take replicate pad].
    rewrite take_app_length' by done. by apply pad_exact.
  - intros a b. cbn. apply zip_xor_comm.
Qed.
