(* ===== verification/Headers.v ===== *)
(** * Request headers

    [crates/webpush-server/src/headers.rs]: the parsers of [TTL], [Urgency],
    [Topic], [Prefer] and [Link], and the shape of resource ids. *)
From Stdlib Require Import Ascii.
From S2P Require Import Prelude RustStr External StoreTypes.

(** [struct Invalid] *)
Inductive Invalid : Type := Invalid_.

(** [TTL_CEILING] *)
Definition TTL_CEILING : N := 2 ^ 31.

Definition lt_c : ascii := "<".
Definition gt_c : ascii := ">".
Definition quote_c : ascii := ascii_of_N 34.

(** [is_b64url] *)
Definition is_b64url (b : ascii) : bool :=
  is_ascii_alphanumeric b || char_is 45 b || char_is 95 b.

(** [is_id] *)
Definition is_id (s : string) : bool := (str_len s =? 22)%N && str_all is_b64url s.

(** [resource_id] *)
Definition resource_id (target origin prefix : string) : option string :=
  let path := default target (strip_prefix origin target) in
  id ← strip_prefix prefix path;
  if is_id id then Some id else None.

(** The loop of [split_outside]: [cur] is the slice [s[start..i]]. *)
Fixpoint split_outside_go (sep : ascii) (s cur : string) (parts : list string)
    (angle quote : bool) : list string :=
  match s with
  | EmptyString => parts ++ [cur]
  | String c s =>
      let cur' := cur +:+ String c EmptyString in
      if bool_decide (c = lt_c) && negb quote then
        split_outside_go sep s cur' parts true quote
      else if bool_decide (c = gt_c) && negb quote then
        split_outside_go sep s cur' parts false quote
      else if bool_decide (c = quote_c) && negb angle then
        split_outside_go sep s cur' parts angle (negb quote)
      else if bool_decide (c = sep) && negb angle && negb quote then
        split_outside_go sep s EmptyString (parts ++ [cur]) angle quote
      else split_outside_go sep s cur' parts angle quote
  end.

(** [split_outside] *)
Definition split_outside (s : string) (sep : ascii) : list string :=
  split_outside_go sep s EmptyString [] false false.

(** [struct Prefer] and its [Default]. *)
Record Prefer : Type := { respond_async : bool; wait : option N }.
Definition prefer_default : Prefer := {| respond_async := false; wait := None |}.

Section headers.
Context `{Http}.

(** [single] *)
Definition single (headers : HeaderMap) (name : string) : result Invalid (option string) :=
  match get_all headers name with
  | [] => Ok None
  | [value] =>
      value ← ok_or Invalid_ (to_str value);
      Ok (Some (trim_matches (fun c => char_is 32 c || char_is 9 c) value))
  | _ :: _ :: _ => Err Invalid_
  end.

(** [ttl] *)
Definition ttl (headers : HeaderMap) : result Invalid N :=
  v ← single headers "ttl";
  value ← ok_or Invalid_ v;
  if str_is_empty value || negb (str_all is_ascii_digit value) then Err Invalid_
  else Ok (match parse_u64 value with
           | Some n => N.min n TTL_CEILING
           | None => TTL_CEILING
           end).

(** [urgency] *)
Definition urgency (headers : HeaderMap) : result Invalid (option Urgency) :=
  v ← single headers "urgency";
  match v with
  | None => Ok None
  | Some v => u ← ok_or Invalid_ (urgency_parse v); Ok (Some u)
  end.

(** [topic] *)
Definition topic (headers : HeaderMap) : result Invalid (option string) :=
  v ← single headers "topic";
  match v with
  | None => Ok None
  | Some value =>
      if str_is_empty value || (32 <? str_len value)%N || negb (str_all is_b64url value)
      then Err Invalid_ else Ok (Some value)
  end.

(** One preference of a [Prefer] header: the body of the inner loop. *)
Definition prefer_one (out : Prefer) (pref : string) : Prefer :=
  let token := trim (hd EmptyString (split (char_is 59) pref)) in
  let '(name, value) :=
    match split_once (char_is 61) token with
    | Some (n, v) => (trim n, Some (trim_matches (char_is 34) (trim v)))
    | None => (token, None)
    end in
  if eq_ignore_ascii_case name "respond-async" then
    {| respond_async := true; wait := wait out |}
  else if eq_ignore_ascii_case name "wait" then
    {| respond_async := respond_async out; wait := value ≫= parse_u64 |}
  else out.

(** [prefer] *)
Definition prefer (headers : HeaderMap) : Prefer :=
  foldl (fun out value =>
    foldl prefer_one out (split (char_is 44) (default EmptyString (to_str value))))
    prefer_default (get_all headers "prefer").

(** Whether one parameter of a link names the relation type [rel]. *)
Definition rel_matches (rel p : string) : bool :=
  match split_once (char_is 61) p with
  | None => false
  | Some (name, val) =>
      eq_ignore_ascii_case (trim name) "rel" &&
      existsb (fun r => eq_ignore_ascii_case r rel)
        (split_ascii_whitespace (trim_matches (char_is 34) (trim val)))
  end.

(** The target of one link value, if it parses and has the relation type. *)
Definition link_target (rel l : string) : option string :=
  '(target, params) ← strip_prefix "<" (trim l) ≫= split_once (char_is 62);
  if existsb (rel_matches rel) (split_outside params ";") then Some target else None.

(** [link] *)
Definition link (headers : HeaderMap) (rel : string) : option string :=
  head (omap (link_target rel)
    (mjoin ((fun value => match to_str value with
                          | Some v => split_outside v ","
                          | None => []
                          end) <$> get_all headers "link"))).

(** [http_date] *)
Definition http_date `{HttpDate} (unix_ms : N) : string := fmt_http_date unix_ms.
End headers.

(** ** Decimal numbers without a bound *)
Fixpoint dec_go (s : string) (acc : N) : N :=
  match s with
  | EmptyString => acc
  | String c s => dec_go s (acc * 10 + (code c - 48))
  end.
Definition dec_val (s : string) : N := dec_go s 0.

Lemma dec_go_le s acc : (acc <= dec_go s acc)%N.
Proof. revert acc. induction s as [|c s IH]; intros acc; cbn; [lia|]. etrans; [|apply IH]. lia. Qed.

Lemma parse_digits_dec s acc :
  str_all is_ascii_digit s = true -> (acc <= u64_max)%N ->
  parse_digits 10 s acc =
    if decide (dec_go s acc <= u64_max)%N then Some (dec_go s acc) else None.
Proof.
  revert acc. induction s as [|c s IH]; intros acc Hd Hacc; cbn; [by rewrite decide_True|].
  cbn in Hd. apply andb_true_iff in Hd as [Hc Hd].
  unfold digit_val, hex_digit_val. rewrite Hc. cbn.
  unfold is_ascii_digit, between in Hc. apply andb_true_iff in Hc as [Hc1%N.leb_le Hc2%N.leb_le].
  rewrite decide_True by lia. cbn. case_decide as Hle; [by apply IH|].
  rewrite decide_False; [done|]. pose proof (dec_go_le s (acc * 10 + (code c - 48))). lia.
Qed.

Lemma digit_not_plus s : str_all is_ascii_digit s = true -> strip_prefix "+" s = None.
Proof.
  destruct s as [|c s]; [done|]. cbn. intros [Hc _]%andb_true_iff.
  case_decide as Heq; [|done]. by rewrite <- Heq in Hc.
Qed.

(** ** Pieces of a split *)

(** Scan a piece from the state [(angle, quote)]; [None] at a separator
    outside brackets and quotes. *)
Fixpoint scan (sep : ascii) (s : string) (angle quote : bool) : option (bool * bool) :=
  match s with
  | EmptyString => Some (angle, quote)
  | String c s =>
      if bool_decide (c = lt_c) && negb quote then scan sep s true quote
      else if bool_decide (c = gt_c) && negb quote then scan sep s false quote
      else if bool_decide (c = quote_c) && negb angle then scan sep s angle (negb quote)
      else if bool_decide (c = sep) && negb angle && negb quote then None
      else scan sep s angle quote
  end.

(** Pieces none of which holds a separator outside brackets and quotes, each
    but the last ending outside them. *)
Fixpoint pieces (sep : ascii) (angle quote : bool) (ps : list string) : Prop :=
  match ps with
  | [] => False
  | [w] => is_Some (scan sep w angle quote)
  | w :: ps => scan sep w angle quote = Some (false, false) /\ pieces sep false false ps
  end.

(** [split_outside_go] without its accumulators. *)
Definition add_char (c : ascii) (ps : list string) : list string :=
  match ps with [] => [] | w :: ps => String c w :: ps end.
Fixpoint split_pieces (sep : ascii) (s : string) (angle quote : bool) : list string :=
  match s with
  | EmptyString => [EmptyString]
  | String c s =>
      if bool_decide (c = lt_c) && negb quote then add_char c (split_pieces sep s true quote)
      else if bool_decide (c = gt_c) && negb quote then add_char c (split_pieces sep s false quote)
      else if bool_decide (c = quote_c) && negb angle then
        add_char c (split_pieces sep s angle (negb quote))
      else if bool_decide (c = sep) && negb angle && negb quote then
        EmptyString :: split_pieces sep s angle quote
      else add_char c (split_pieces sep s angle quote)
  end.

Lemma split_outside_go_eq sep s : forall cur parts a q,
  split_outside_go sep s cur parts a q =
    parts ++ match split_pieces sep s a q with [] => [] | w :: ws => (cur +:+ w) :: ws end.
Proof.
  induction s as [|c s IH]; intros cur parts a q; cbn; [by rewrite app_nil_r_str|].
  assert (Hstep : forall ps, match ps with [] => [] | w :: ws =>
      ((cur +:+ String c EmptyString) +:+ w) :: ws end =
    match add_char c ps with [] => [] | w :: ws => (cur +:+ w) :: ws end).
  { intros [|w ws]; [done|]. cbn. by rewrite app_assoc_str. }
  case_ifs; rewrite IH, ?Hstep; [done|done|done| |done].
  rewrite <- app_assoc, app_nil_r_str. cbn. do 2 f_equal. by destruct (split_pieces sep s a q).
Qed.

Lemma split_pieces_cons sep s a q : exists w ws, split_pieces sep s a q = w :: ws.
Proof.
  revert a q. induction s as [|c s IH]; intros a q; cbn; [by eauto|].
  case_ifs; try (edestruct IH as (w & ws & ->)); cbn; eauto.
Qed.

Lemma split_pieces_join sep s a q : str_join (String sep EmptyString) (split_pieces sep s a q) = s.
Proof.
  revert a q. induction s as [|c s IH]; intros a q; [done|]. cbn [split_pieces].
  assert (Hadd : forall ps, str_join (String sep EmptyString) ps = s -> ps <> [] ->
    str_join (String sep EmptyString) (add_char c ps) = String c s).
  { intros [|w [|w' ps]] <- Hps; [done..|]. done. }
  assert (Hne : forall a q, split_pieces sep s a q <> []).
  { intros a' q'. destruct (split_pieces_cons sep s a' q') as (w & ws & ->). done. }
  case_ifs; auto. bools. subst c. destruct (split_pieces_cons sep s a q) as (w & ws & Hps).
  rewrite <- (IH a q) at 2. by rewrite Hps.
Qed.

Lemma split_pieces_ok sep s a q : pieces sep a q (split_pieces sep s a q).
Proof.
  revert a q. induction s as [|c s IH]; intros a q; [by eexists|]. cbn [split_pieces].
  assert (Hadd : forall a' q' ps, pieces sep a' q' ps ->
    (forall w, scan sep (String c w) a q = scan sep w a' q') -> pieces sep a q (add_char c ps)).
  { intros a' q' [|w [|w' ps]] Hps Hc; [done|..]; cbn -[scan]; by rewrite Hc. }
  case_ifs; try (eapply Hadd; [apply IH|]; intros w; cbn [scan]; by use_ifs).
  bools. subst. destruct (split_pieces_cons sep s false false) as (w & ws & Hps). rewrite Hps.
  split; [done|]. rewrite <- Hps. apply IH.
Qed.

Lemma split_pieces_unique sep s : sep <> lt_c -> sep <> gt_c -> sep <> quote_c ->
  forall ps a q, pieces sep a q ps -> str_join (String sep EmptyString) ps = s ->
  split_pieces sep s a q = ps.
Proof.
  intros Hlt Hgt Hqu. induction s as [|c s IH]; intros ps a q Hps Hj.
  - destruct ps as [|[|] [|]]; done.
  - destruct ps as [|w ps]; [done|]. destruct w as [|d w].
    + destruct ps as [|w' ps]; [done|]. cbn in Hps. destruct Hps as [[= -> ->] Hps].
      injection Hj as <- Hj. cbn [split_pieces].
      rewrite (bool_decide_false (sep = lt_c)), (bool_decide_false (sep = gt_c)),
        (bool_decide_false (sep = quote_c)), bool_decide_true by done.
      cbn. f_equal. by apply IH.
    + assert (Hd : d = c /\ str_join (String sep EmptyString) (w :: ps) = s).
      { destruct ps; cbn in Hj; by injection Hj as -> <-. }
      destruct Hd as [-> Hj']. cbn [split_pieces].
      assert (Hsub : forall a' q', pieces sep a' q' (w :: ps) ->
        add_char c (split_pieces sep s a' q') = String c w :: ps).
      { intros a' q' Hp. by rewrite (IH _ _ _ Hp Hj'). }
      assert (Hpc : forall a' q', (scan sep (String c w) a q = scan sep w a' q') ->
        pieces sep a' q' (w :: ps)).
      { intros a' q' Hc. destruct ps; cbn -[scan] in Hps |- *; by rewrite <- Hc. }
      case_ifs; try (apply Hsub, Hpc; cbn [scan]; by use_ifs).
      exfalso. assert (scan sep (String c w) a q = None) as Hno by (cbn [scan]; by use_ifs).
      destruct ps; cbn -[scan] in Hps; rewrite Hno in Hps; [by destruct Hps|by destruct Hps].
Qed.

Lemma split_outside_pieces s sep : split_outside s sep = split_pieces sep s false false.
Proof.
  unfold split_outside. rewrite split_outside_go_eq. cbn.
  by destruct (split_pieces sep s false false).
Qed.

Lemma is_id_spec s :
  is_id s = true <-> str_len s = 22%N /\ str_all is_b64url s = true.
Proof. unfold is_id. by rewrite andb_true_iff, N.eqb_eq. Qed.

Section theorems.
Context `{Http}.

Definition blank (c : ascii) : bool := char_is 32 c || char_is 9 c.

Lemma single_Some h name v :
  single h name = Ok (Some v) <->
  exists hv s, get_all h name = [hv] /\ to_str hv = Some s /\ v = trim_matches blank s.
Proof.
  unfold single. destruct (get_all h name) as [|hv [|hv' l]]; [naive_solver| |naive_solver].
  cbn. destruct (to_str hv) as [s|] eqn:Hs; cbn; naive_solver.
Qed.

(** a request's TTL is accepted exactly when the header appears once, is
    text and is a non-empty run of digits, whatever its length; its value is
    that decimal number, or 2^31 when the number is larger, even when it
    does not fit 64 bits. Everything else is rejected. *)
Theorem ttl_spec h n :
  ttl h = Ok n <->
  exists hv s, get_all h "ttl" = [hv] /\ to_str hv = Some s /\
    let v := trim_matches blank s in
    v <> EmptyString /\ str_all is_ascii_digit v = true /\ n = N.min (dec_val v) (2 ^ 31).
Proof.
  assert (Hval : forall v, v <> EmptyString -> str_all is_ascii_digit v = true ->
    match parse_u64 v with Some n => N.min n TTL_CEILING | None => TTL_CEILING end
    = N.min (dec_val v) (2 ^ 31)).
  { intros v Hne Hd. unfold parse_u64, from_str_radix, TTL_CEILING.
    rewrite digit_not_plus by done. cbn [default].
    destruct v as [|c v]; [done|]. cbn [str_is_empty].
    rewrite parse_digits_dec by (done || unfold u64_max; lia).
    fold (dec_val (String c v)). case_decide as Hle; [done|].
    assert (2 ^ 31 < u64_max)%N by (vm_compute; reflexivity). lia. }
  assert (Hempty : forall v, str_is_empty v = true <-> v = EmptyString) by by intros [].
  unfold ttl, mbind at 1, result_bind.
  pose proof (single_Some h "ttl") as Hs. destruct (single h "ttl") as [[v|]|e] eqn:Hv; cbn.
  - destruct (proj1 (Hs v) eq_refl) as (hv & s & Hg & Ht & ->).
    destruct (str_is_empty (trim_matches blank s)) eqn:He; cbn.
    { apply Hempty in He. split; [done|]. intros (hv' & s' & ? & ? & Hne & _). congruence. }
    assert (trim_matches blank s <> EmptyString) as Hne by (intros Heq; by rewrite Heq in He).
    destruct (str_all is_ascii_digit (trim_matches blank s)) eqn:Hd; cbn.
    + rewrite Hval by done. split; [intros [= <-]; by eexists _, _|].
      intros (hv' & s' & ? & ? & _ & _ & ->). assert (hv' = hv) as -> by congruence. assert (s' = s) as -> by congruence. done.
    + split; [done|]. intros (hv' & s' & ? & ? & _ & Hd' & _). congruence.
  - split; [done|]. intros (hv & s & Hg & Ht & _).
    discriminate (proj2 (Hs (trim_matches blank s)) ltac:(eauto)).
  - split; [done|]. intros (hv & s & Hg & Ht & _).
    discriminate (proj2 (Hs (trim_matches blank s)) ltac:(eauto)).
Qed.
End theorems.

(** splitting a header list loses nothing and cuts at exactly the
    separators outside angle brackets and quoted strings: the pieces are the
    only ones that join back to the input such that none holds such a
    separator and each but the last ends outside brackets and quotes. *)
Theorem split_outside_spec s sep ps :
  sep <> lt_c -> sep <> gt_c -> sep <> quote_c ->
  split_outside s sep = ps <->
  str_join (String sep EmptyString) ps = s /\ pieces sep false false ps.
Proof.
  intros. rewrite split_outside_pieces. split.
  - intros <-. split; [apply split_pieces_join|apply split_pieces_ok].
  - intros [Hj Hp]. by apply split_pieces_unique.
Qed.

Lemma split_outside_spec_witness :
  split_outside "<a,b>; t,<c>" "," = ["<a,b>; t"; "<c>"].
Proof. apply split_outside_spec; [done..|]. split; [reflexivity|]. split; [reflexivity|by eexists]. Defined.

(** a link target names a resource exactly when it is the prefix and a
    well-formed id, as an absolute path or under the service's own origin;
    any other origin is refused. *)
Theorem resource_id_spec target origin prefix id :
  resource_id target origin prefix = Some id <->
  is_id id = true /\
  (target = origin +:+ prefix +:+ id \/
   strip_prefix origin target = None /\ target = prefix +:+ id).
Proof.
  unfold resource_id. destruct (strip_prefix origin target) as [path|] eqn:Ho; cbn.
  - pose proof Ho as Ho'. apply strip_prefix_Some in Ho' as ->. rewrite option_bind_Some. split.
    + intros (i & Hi & Hid). apply strip_prefix_Some in Hi as ->.
      destruct (is_id i) eqn:?; simplify_eq. auto.
    + intros [Hid [Heq|[? _]]]; [|done]. apply app_inj_l in Heq as ->. exists id.
      by rewrite strip_prefix_app, Hid.
  - rewrite option_bind_Some. split.
    + intros (i & Hi & Hid). apply strip_prefix_Some in Hi as ->.
      destruct (is_id i) eqn:?; simplify_eq. auto.
    + intros [Hid [->|[_ ->]]]; [by rewrite strip_prefix_app in Ho|]. exists id.
      by rewrite strip_prefix_app, Hid.
Qed.

(** The ids that [new_id] gives out have this form. *)
Lemma new_id_is_id `{Base64Laws} e : is_id (new_id e).1 = true.
Proof.
  change (new_id e).1 with (b64_encode (env_random e <$> seq (env_drawn e) 16)). unfold is_id, str_len.
  rewrite b64_encode_length, length_fmap, length_seq. exact (b64_encode_alphabet _).
Qed.
