(* ===== verification/Ece.v ===== *)
(** * The [aes128gcm] content coding and its use by Web Push

    [crates/webpush-crypto/src/ece.rs]: RFC 8188 bodies, their parsing,
    decryption record by record and single-record encryption, and the module
    [webpush] (RFC 8291) that derives the keying material. HKDF, AES-GCM and
    P-256 are the classes of [External.v]. *)
From S2P Require Import Prelude RustStr External Octets.

(** ** Data *)
Inductive Error : Type :=
| Truncated
| InvalidRecordSize
| Decrypt
| InvalidPadding
| InvalidKeyId
| InvalidPublicKey
| TooLarge.
#[export] Instance error_eq_dec : EqDecision Error.
Proof. solve_decision. Defined.

(** [fmt]: the text of an error. *)
Definition fmt (e : Error) : string :=
  match e with
  | Truncated => "aes128gcm body is truncated"
  | InvalidRecordSize => "aes128gcm record size is below 18"
  | Decrypt => "aes128gcm record failed authentication"
  | InvalidPadding => "aes128gcm record has an invalid padding delimiter"
  | InvalidKeyId => "key id is not an uncompressed P-256 public key"
  | InvalidPublicKey => "public key is not a point on P-256"
  | TooLarge => "plaintext does not fit a single record"
  end.
#[export] Instance fmt_inj : Inj (=) (=) fmt.
Proof. by intros [] []. Qed.

Record Header : Type := { h_salt : Bytes; h_rs : N; h_keyid : Bytes }.

Definition MIN_RS : N := 18.
Definition TAG_LEN : nat := 16.

(** ** Parsing *)

(** [parse_header] *)
Definition parse_header (body : Bytes) : result Error (Header * Bytes) :=
  '(salt, rest) ← ok_or Truncated (split_at_checked 16 body);
  '(rs, rest) ← ok_or Truncated (split_at_checked 4 rest);
  '(idlen, rest) ← ok_or Truncated (match rest with [] => None | x :: l => Some (x, l) end);
  '(keyid, data) ← ok_or Truncated (split_at_checked (N.to_nat (Byte.to_N idlen)) rest);
  let rs := from_be_bytes rs in
  if (rs <? MIN_RS)%N then Err InvalidRecordSize
  else Ok ({| h_salt := salt; h_rs := rs; h_keyid := keyid |}, data).

(** [record_nonce]: the last 8 of the 12 octets are xored. *)
Definition record_nonce (nonce : Bytes) (seq : N) : Bytes :=
  take 4 nonce ++ zip_with byte_xor (drop 4 nonce) (to_be_bytes 8 seq).

Definition cek_info : Bytes := as_bytes "Content-Encoding: aes128gcm" ++ [x00].
Definition nonce_info : Bytes := as_bytes "Content-Encoding: nonce" ++ [x00].

Section ece.
Context `{Aead}.

(** [derive_cek_nonce] *)
Definition derive_cek_nonce (ikm salt : Bytes) : Bytes * Bytes :=
  (hkdf_sha256 salt ikm cek_info 16, hkdf_sha256 salt ikm nonce_info 12).

(** [open_record] with the cipher given by its key *)
Definition open_record (cek nonce : Bytes) (seq : N) (record : Bytes)
  : result Error (Bytes * byte) :=
  pt ← ok_or Decrypt (aes_gcm_decrypt cek (record_nonce nonce seq) record);
  pos ← ok_or InvalidPadding (rposition (fun b => negb (bool_decide (b = x00))) pt);
  Ok (take pos pt, nth pos pt x00).

(** The loop of [decrypt]; [None] when the fuel runs out, which
    [decrypt_loop_total] excludes. *)
Fixpoint decrypt_loop (fuel : nat) (cek nonce : Bytes) (rs : nat) (data out : Bytes) (seq : N)
  : option (result Error Bytes) :=
  match fuel with
  | O => None
  | S fuel =>
      match data with
      | [] => Some (Err Truncated)
      | _ =>
          let record := take (length data `min` rs) data in
          let rest := drop (length data `min` rs) data in
          match open_record cek nonce seq record with
          | Err e => Some (Err e)
          | Ok (pt, delimiter) =>
              let out := out ++ pt in
              match (Byte.to_N delimiter), bool_decide (rest = []) with
              | 2%N, true => Some (Ok out)
              | 1%N, false => decrypt_loop fuel cek nonce rs rest out (seq + 1)
              | _, _ => Some (Err InvalidPadding)
              end
          end
      end
  end.

(** [decrypt] *)
Definition decrypt (ikm body : Bytes) : result Error Bytes :=
  '(header, data) ← parse_header body;
  let '(cek, nonce) := derive_cek_nonce ikm (h_salt header) in
  default (Err Truncated)
    (decrypt_loop (S (length data)) cek nonce (N.to_nat (h_rs header)) data [] 0).

(** [encrypt] *)
Definition encrypt (ikm salt : Bytes) (rs : N) (keyid plaintext : Bytes) : result Error Bytes :=
  if (rs <? MIN_RS)%N then Err InvalidRecordSize
  else
    idlen ← ok_or InvalidKeyId (if decide (length keyid < 256) then Some (length keyid) else None);
    if (rs <? N.of_nat (length plaintext + 1 + TAG_LEN))%N then Err TooLarge
    else
      let '(cek, nonce) := derive_cek_nonce ikm salt in
      sealed ← ok_or TooLarge (aes_gcm_encrypt cek nonce (plaintext ++ [x02]));
      Ok (salt ++ to_be_bytes 4 rs ++ [byte_of (N.of_nat idlen)] ++ keyid ++ sealed).

(** ** [mod webpush] *)
Definition RS : N := 4096.
Definition webpush_info : Bytes := as_bytes "WebPush: info" ++ [x00].

Context `{P256}.

(** [webpush::ikm] *)
Definition ikm (ecdh_secret auth_secret ua_public as_public : Bytes) : Bytes :=
  hkdf_sha256 auth_secret ecdh_secret (webpush_info ++ ua_public ++ as_public) 32.

(** [webpush::uncompressed] and [webpush::ecdh] *)
Definition uncompressed (key : PublicKey) : Bytes := to_uncompressed key.
Definition ecdh (private : SecretKey) (public : PublicKey) : Bytes :=
  diffie_hellman private public.

(** [webpush::encrypt] *)
Definition webpush_encrypt (ua_public auth_secret as_private salt plaintext : Bytes)
  : result Error Bytes :=
  ua ← ok_or InvalidPublicKey (public_from_sec1 ua_public);
  sk ← ok_or InvalidKeyId (secret_from_bytes as_private);
  let as_public := uncompressed (public_key sk) in
  let k := ikm (ecdh sk ua) auth_secret ua_public as_public in
  encrypt k salt RS as_public plaintext.

(** [webpush::decrypt] *)
Definition webpush_decrypt (ua_private auth_secret body : Bytes) : result Error Bytes :=
  '(header, record) ← parse_header body;
  as_public ← (match h_keyid header with
               | x04 :: _ => if decide (length (h_keyid header) = 65)
                             then Ok (h_keyid header) else Err InvalidKeyId
               | _ => Err InvalidKeyId
               end);
  peer ← ok_or InvalidPublicKey (public_from_sec1 as_public);
  sk ← ok_or Decrypt (secret_from_bytes ua_private);
  let k := ikm (ecdh sk peer) auth_secret (uncompressed (public_key sk)) as_public in
  let '(cek, nonce) := derive_cek_nonce k (h_salt header) in
  '(pt, delimiter) ← open_record cek nonce 0 record;
  if negb (Byte.to_N delimiter =? 2)%N then Err InvalidPadding else Ok pt.
End ece.

(** ** Records *)
Section records.
Context `{Aead}.

Lemma parse_header_build salt rs keyid data :
  length salt = 16 -> (MIN_RS <= rs < 2 ^ 32)%N -> length keyid < 256 ->
  parse_header (salt ++ to_be_bytes 4 rs ++ [byte_of (N.of_nat (length keyid))] ++ keyid ++ data)
  = Ok ({| h_salt := salt; h_rs := rs; h_keyid := keyid |}, data).
Proof.
  intros Hs Hrs Hk. unfold parse_header. rewrite split_at_checked_app by done. cbn [ok_or mbind result_bind].
  rewrite split_at_checked_app by apply length_to_be_bytes. cbn [ok_or mbind result_bind app].
  rewrite to_N_byte_of by lia. rewrite split_at_checked_app by lia. cbn [ok_or mbind result_bind].
  rewrite from_to_be_bytes by (change (256 ^ N.of_nat 4)%N with (2 ^ 32)%N; lia).
  by destruct (N.ltb_spec rs MIN_RS); [lia|].
Qed.

Lemma parse_header_Ok body hd data :
  parse_header body = Ok (hd, data) ->
  exists rsb idlen, body = h_salt hd ++ rsb ++ [idlen] ++ h_keyid hd ++ data /\
    length (h_salt hd) = 16 /\ length rsb = 4 /\ length (h_keyid hd) = N.to_nat (Byte.to_N idlen) /\
    h_rs hd = from_be_bytes rsb /\ (MIN_RS <= h_rs hd)%N.
Proof.
  unfold parse_header. destruct (split_at_checked 16 body) as [[salt r1]|] eqn:H1; cbn; [|done].
  destruct (split_at_checked 4 r1) as [[rsb r2]|] eqn:H2; cbn; [|done].
  destruct r2 as [|idlen r3]; cbn; [done|].
  destruct (split_at_checked _ r3) as [[keyid r4]|] eqn:H4; cbn; [|done].
  destruct (N.ltb_spec (from_be_bytes rsb) MIN_RS); [done|]. intros [= <- <-]. cbn.
  apply split_at_checked_Some in H1 as [-> ?], H2 as [-> ?], H4 as [-> ?].
  exists rsb, idlen. split_and!; done.
Qed.

Lemma record_nonce_0 nonce : length nonce = 12 -> record_nonce nonce 0 = nonce.
Proof.
  intros Hn. unfold record_nonce. rewrite <- (take_drop 4 nonce) at 3. f_equal.
  assert (length (drop 4 nonce) = 8) as Hd by (rewrite length_drop; lia).
  generalize dependent (drop 4 nonce). intros l Hl.
  change (to_be_bytes 8 0) with (replicate 8 x00). rewrite <- Hl. clear.
  induction l as [|x l IH]; [done|]. cbn [length replicate zip_with]. f_equal; [|done].
  unfold byte_xor. change (Byte.to_N x00) with 0%N. by rewrite N.lxor_0_r, byte_of_to_N.
Qed.

Lemma zip_xor_inj l a b :
  length a = length l -> length b = length l ->
  zip_with byte_xor l a = zip_with byte_xor l b -> a = b.
Proof.
  revert a b. induction l as [|x l IH]; intros [|y a] [|z b] Ha Hb; try done.
  cbn. intros [= Hy Hl]. apply byte_xor_inj in Hy as ->. f_equal. auto.
Qed.

Lemma record_nonce_inj nonce s1 s2 :
  length nonce = 12 -> (s1 <= u64_max)%N -> (s2 <= u64_max)%N ->
  record_nonce nonce s1 = record_nonce nonce s2 -> s1 = s2.
Proof.
  intros Hn H1 H2 Heq. apply app_inj_1 in Heq as [_ Heq]; [|done].
  apply zip_xor_inj in Heq; [|rewrite length_to_be_bytes, length_drop; lia..].
  assert (256 ^ N.of_nat 8 = u64_max + 1)%N as Hp by (vm_compute; reflexivity).
  rewrite <- (from_to_be_bytes 8 s1), <- (from_to_be_bytes 8 s2) by lia. by rewrite Heq.
Qed.

(** A sealed record opens to its data and delimiter. *)
Lemma open_sealed `{!AeadLaws} cek nonce seq pt d ct :
  d <> x00 -> aes_gcm_encrypt cek (record_nonce nonce seq) (pt ++ [d]) = Some ct ->
  open_record cek nonce seq ct = Ok (pt, d).
Proof.
  intros Hd Hct. unfold open_record. rewrite (aes_gcm_decrypt_encrypt _ _ _ _ Hct). cbn.
  rewrite rposition_last by (by rewrite bool_decide_false). cbn. f_equal. f_equal.
  - by rewrite take_app_length.
  - by rewrite app_nth2, Nat.sub_diag by lia.
Qed.

(** What a sequence of records decrypts to: every record but the last is full
    and ends in 1, the last ends in 2, and record [i] is opened under nonce
    [i]. *)
Inductive opens (cek nonce : Bytes) (rs : nat) : N -> Bytes -> Bytes -> Prop :=
| opens_last seq record pt :
    record <> [] -> length record <= rs ->
    open_record cek nonce seq record = Ok (pt, x02) -> opens cek nonce rs seq record pt
| opens_more seq record rest pt out :
    length record = rs -> rest <> [] ->
    open_record cek nonce seq record = Ok (pt, x01) ->
    opens cek nonce rs (seq + 1) rest out ->
    opens cek nonce rs seq (record ++ rest) (pt ++ out).

Lemma delimiter_2 d : Byte.to_N d = 2%N <-> d = x02.
Proof. split; [|by intros ->]. intros Hd. rewrite <- (byte_of_to_N d), Hd. done. Qed.
Lemma delimiter_1 d : Byte.to_N d = 1%N <-> d = x01.
Proof. split; [|by intros ->]. intros Hd. rewrite <- (byte_of_to_N d), Hd. done. Qed.

(** One turn of the loop. *)
Lemma decrypt_loop_S fuel cek nonce rs data out seq :
  data <> [] ->
  decrypt_loop (S fuel) cek nonce rs data out seq =
    match open_record cek nonce seq (take (length data `min` rs) data) with
    | Err e => Some (Err e)
    | Ok (pt, d) =>
        let rest := drop (length data `min` rs) data in
        if decide (d = x02 /\ rest = []) then Some (Ok (out ++ pt))
        else if decide (d = x01 /\ rest <> []) then
          decrypt_loop fuel cek nonce rs rest (out ++ pt) (seq + 1)
        else Some (Err InvalidPadding)
    end.
Proof.
  intros Hne. destruct data as [|x data]; [done|]. cbn [decrypt_loop].
  set (rest := drop _ _). destruct (open_record _ _ _ _) as [[pt d]|e]; [|done]. cbv zeta.
  destruct (decide (d = x02)) as [->|H2].
  { change (Byte.to_N x02) with 2%N. destruct (decide (rest = [])) as [->|Hr].
    - rewrite bool_decide_true by done. by rewrite decide_True.
    - rewrite bool_decide_false by done. rewrite !decide_False by naive_solver. done. }
  destruct (decide (d = x01)) as [->|H1].
  { change (Byte.to_N x01) with 1%N. destruct (decide (rest = [])) as [->|Hr].
    - rewrite bool_decide_true by done. rewrite !decide_False by naive_solver. done.
    - rewrite bool_decide_false by done. rewrite decide_False by naive_solver.
      by rewrite decide_True. }
  rewrite !decide_False by naive_solver.
  rewrite <- delimiter_2 in H2. rewrite <- delimiter_1 in H1.
  by repeat case_match.
Qed.

Lemma decrypt_loop_total fuel : forall cek nonce rs data out seq,
  0 < rs -> length data < fuel -> is_Some (decrypt_loop fuel cek nonce rs data out seq).
Proof.
  induction fuel as [|fuel IH]; intros cek nonce rs data out seq Hrs Hf; [lia|].
  destruct (decide (data = [])) as [->|Hne]; [by eexists|].
  rewrite decrypt_loop_S by done. destruct (open_record _ _ _ _) as [[pt d]|e]; [|by eexists].
  cbv zeta. case_decide; [by eexists|]. case_decide; [|by eexists]. apply IH; [done|].
  assert (0 < length data) by (destruct data; cbn; [done|lia]). rewrite length_drop. lia.
Qed.

(** One turn takes a full record off, so as many turns as there are records
    are enough; and more of them change nothing. *)
Lemma decrypt_loop_turns turns : forall cek nonce rs data out seq,
  0 < rs -> 0 < turns -> length data <= turns * rs -> is_Some (decrypt_loop turns cek nonce rs data out seq).
Proof.
  induction turns as [|turns IH]; intros cek nonce rs data out seq Hrs Hn Hl; [lia|].
  destruct (decide (data = [])) as [->|Hne]; [by eexists|].
  rewrite decrypt_loop_S by done. destruct (open_record _ _ _ _) as [[pt d]|e]; [|by eexists].
  cbv zeta. case_decide; [by eexists|]. case_decide as Hd; [|by eexists]. destruct Hd as [_ Hd].
  assert (0 < length (drop (length data `min` rs) data)) by (destruct (drop _ _); cbn; [done|lia]).
  rewrite length_drop in *. apply IH; [done|destruct turns; lia|rewrite length_drop; lia].
Qed.
Lemma decrypt_loop_more fuel : forall k cek nonce rs data out seq r,
  decrypt_loop fuel cek nonce rs data out seq = Some r -> decrypt_loop (fuel + k) cek nonce rs data out seq = Some r.
Proof.
  induction fuel as [|fuel IH]; intros k cek nonce rs data out seq r; [done|]. cbn [Nat.add].
  destruct (decide (data = [])) as [->|Hne]; [done|]. rewrite !decrypt_loop_S by done.
  destruct (open_record _ _ _ _) as [[pt d]|e]; [|done]. cbv zeta. case_decide; [done|]. case_decide; [|done]. apply IH.
Qed.
Lemma decrypt_loop_agrees n1 n2 cek nonce rs data out seq r1 r2 :
  decrypt_loop n1 cek nonce rs data out seq = Some r1 -> decrypt_loop n2 cek nonce rs data out seq = Some r2 -> r1 = r2.
Proof.
  intros H1%(decrypt_loop_more _ n2) H2%(decrypt_loop_more _ n1). rewrite (Nat.add_comm n2) in H2. congruence.
Qed.

Lemma decrypt_loop_opens fuel : forall cek nonce rs data out seq res,
  0 < rs -> length data < fuel ->
  decrypt_loop fuel cek nonce rs data out seq = Some (Ok res) <->
  exists pt, res = out ++ pt /\ opens cek nonce rs seq data pt.
Proof.
  induction fuel as [|fuel IH]; intros cek nonce rs data out seq res Hrs Hf; [lia|].
  destruct (decide (data = [])) as [->|Hne].
  { split; [done|]. intros (pt & _ & Ho). inversion Ho as [|? r1 r2]; [done|].
    destruct r1, r2; done. }
  assert (0 < length data) by (destruct data; cbn; [done|lia]).
  rewrite decrypt_loop_S by done. split.
  - destruct (open_record _ _ _ _) as [[pt d]|e] eqn:Ho; [|done]. cbv zeta.
    pose proof (take_drop (length data `min` rs) data) as Hd.
    set (rec := take _ _) in *. set (rest := drop _ _) in *.
    assert (length rec = length data `min` rs) by (unfold rec; rewrite length_take; lia).
    assert (length rest = length data - length data `min` rs)
      by (unfold rest; by rewrite length_drop).
    clearbody rec rest. rewrite <- Hd.
    case_decide as Hd2; [|case_decide as Hd1; [|done]].
    + destruct Hd2 as [-> Hr]. intros [= <-]. exists pt. split; [done|]. rewrite Hr, app_nil_r.
      apply opens_last; [|lia|done]. intros Hn. rewrite Hn in *. cbn in *. lia.
    + destruct Hd1 as [-> Hr]. intros Hl.
      apply IH in Hl as (pt' & -> & Hop); [|done|lia].
      exists (pt ++ pt'). split; [by rewrite app_assoc|]. apply opens_more; try done.
      assert (length rest <> 0) by (by destruct rest). lia.
  - intros (pt & -> & Ho). inversion Ho as [? ? ? Hn Hl Hr|? rec rest pt' out' Hl Hr Hop Hmore]; subst.
    + rewrite (Nat.min_l (length data)), firstn_all, drop_all, Hr by lia. cbv zeta.
      by rewrite decide_True.
    + rewrite length_app, Nat.min_r, take_app_length, drop_app_length, Hop by lia. cbv zeta.
      rewrite decide_False by naive_solver. rewrite decide_True by done.
      apply IH; [done|rewrite length_app in Hf; lia|]. exists out'. by rewrite app_assoc.
Qed.

(** Cutting a body that decrypts after any of its full records. *)
Lemma decrypt_loop_cut k : forall fuel cek nonce rs data out seq pt,
  opens cek nonce rs seq data pt -> 0 < rs -> S k * rs < length data -> S k * rs < fuel ->
  decrypt_loop fuel cek nonce rs (take (S k * rs) data) out seq = Some (Err InvalidPadding).
Proof.
  induction k as [|k IH]; intros fuel cek nonce rs data out seq pt Ho Hrs Hk Hf;
    destruct fuel as [|fuel]; try lia;
    (inversion Ho as [|? rec rest pt' out' Hl Hr Hop Hmore]; subst; [lia|]).
  - rewrite Nat.mul_1_l, take_app_length, decrypt_loop_S by (by destruct rec; cbn in *; [lia|]).
    rewrite Nat.min_id, firstn_all, drop_all, Hop. cbv zeta.
    rewrite !decide_False by naive_solver. done.
  - rewrite take_app_ge by lia. replace (S (S k) * length rec - length rec) with (S k * length rec) by lia.
    rewrite length_app in *.
    assert (Hrest : take (S k * length rec) rest <> []).
    { intros Hnil. apply (f_equal length) in Hnil. rewrite length_take in Hnil. cbn in Hnil. lia. }
    rewrite decrypt_loop_S by (by destruct rec; cbn in *; [lia|]).
    rewrite length_app, Nat.min_r, take_app_length, drop_app_length, Hop by lia. cbv zeta.
    rewrite decide_False by naive_solver. rewrite decide_True by done.
    eapply IH; [done|done|lia|nia].
Qed.
End records.
