(* ===== verification/EceTheorems.v ===== *)
(** * What the message encryption guarantees

    Round trips, the exact meaning of a successful decryption, rejection of
    bodies cut between records, and distinct nonces. *)
From S2P Require Import Prelude RustStr External Octets Instances Ece.

Section theorems.
Context `{Aead} `{P256}.

(** C9: what an application server encrypts for a subscription, the user
    agent holding the private key and the authentication secret decrypts to
    the same plaintext. *)
Theorem webpush_roundtrip `{!AeadLaws} `{!P256Laws} ua_private sk auth as_private salt pt body :
  length salt = 16 -> secret_from_bytes ua_private = Some sk ->
  webpush_encrypt (uncompressed (public_key sk)) auth as_private salt pt = Ok body ->
  webpush_decrypt ua_private auth body = Ok pt.
Proof.
  intros Hsalt Hsk. unfold webpush_encrypt, webpush_decrypt, uncompressed.
  rewrite public_from_uncompressed. cbn [ok_or mbind result_bind].
  destruct (secret_from_bytes as_private) as [as_sk|]; cbn [ok_or mbind result_bind]; [|done].
  set (k := ikm _ _ _ _). set (kid := to_uncompressed (public_key as_sk)).
  assert (length kid = 65) as Hkid by apply to_uncompressed_length.
  assert (exists l, kid = x04 :: l) as [l Hl].
  { pose proof (to_uncompressed_tag (public_key as_sk)) as Ht. fold kid in Ht.
    destruct kid as [|x l]; [done|]. injection Ht as ->. eauto. }
  unfold encrypt. cbn [N.ltb N.compare]. change (RS <? MIN_RS)%N with false. cbv iota.
  rewrite decide_True by lia. cbn [ok_or mbind result_bind].
  destruct (RS <? _)%N eqn:Hlen; [done|]. unfold derive_cek_nonce. cbv iota zeta.
  destruct (aes_gcm_encrypt _ _ _) as [sealed|] eqn:Hct; cbn [ok_or mbind result_bind]; [|done].
  intros Hb. assert (body = salt ++ to_be_bytes 4 RS ++ [byte_of (N.of_nat (length kid))] ++
    kid ++ sealed) as -> by by injection Hb.
  rewrite parse_header_build; [|done|split; vm_compute; done|lia].
  cbn [mbind result_bind h_keyid h_salt].
  assert (match kid with x04 :: _ => if decide (length kid = 65) then Ok kid else Err InvalidKeyId
    | _ => Err InvalidKeyId end = Ok kid) as -> by (rewrite Hl at 1; by rewrite decide_True).
  cbn [mbind result_bind].
  assert (public_from_sec1 kid = Some (public_key as_sk)) as -> by apply public_from_uncompressed.
  rewrite Hsk.
  cbn [ok_or mbind result_bind].
  assert (ikm (ecdh sk (public_key as_sk)) auth (to_uncompressed (public_key sk)) kid = k) as ->.
  { unfold k, ecdh. by rewrite ecdh_comm. }
  rewrite (open_sealed _ _ _ pt x02); [done|done|].
  rewrite record_nonce_0; [exact Hct|apply hkdf_length].
Qed.

(** C37: an encryption for valid keys succeeds exactly up to 4079 octets of
    plaintext, the most one 4096-octet record holds, and the body is 103
    octets longer than the plaintext: bodies of plaintexts above 3993 octets
    pass the 4096 octets a push service accepts. *)
Theorem webpush_encrypt_limit `{!AeadLaws} `{!P256Laws} ua_public ua auth as_private sk salt pt :
  public_from_sec1 ua_public = Some ua -> secret_from_bytes as_private = Some sk ->
  length salt = 16 ->
  if decide (length pt <= 4079)
  then exists body, webpush_encrypt ua_public auth as_private salt pt = Ok body /\
         length body = length pt + 103
  else webpush_encrypt ua_public auth as_private salt pt = Err TooLarge.
Proof.
  intros Hua Hsk Hsalt. unfold webpush_encrypt. rewrite Hua, Hsk. cbn [ok_or mbind result_bind].
  unfold encrypt. change (RS <? MIN_RS)%N with false. cbv iota. unfold uncompressed.
  pose proof (to_uncompressed_length (public_key sk)) as Hk. destruct (decide (length (to_uncompressed _) < 256)); [|lia].
  cbn [ok_or mbind result_bind]. unfold RS, TAG_LEN.
  case_decide; destruct (N.ltb_spec 4096 (N.of_nat (length pt + 1 + 16))); try lia; [|done].
  unfold derive_cek_nonce. cbv iota zeta.
  match goal with |- context [aes_gcm_encrypt ?c ?n ?p] =>
    destruct (aes_gcm_encrypt_some c n p) as [ct Hct] end.
  { rewrite length_app. cbn [length]. change (2 ^ 36)%N with 68719476736%N. lia. }
  rewrite Hct. eexists. split; [done|]. apply aes_gcm_length in Hct. revert Hct.
  rewrite !length_app, length_to_be_bytes, Hsalt, Hk. cbn [length]. lia.
Qed.

(** C34: [decrypt] returns a plaintext exactly when the header parses and the
    data is a sequence of records, every one but the last full and closed by
    the delimiter 1, the last closed by 2, record [i] authenticated under
    nonce [i]; the plaintext is the concatenation of theirs. The loop always
    ends. *)
Theorem decrypt_spec ikm body out :
  decrypt ikm body = Ok out <->
  exists hd data, parse_header body = Ok (hd, data) /\
    opens (derive_cek_nonce ikm (h_salt hd)).1 (derive_cek_nonce ikm (h_salt hd)).2
      (N.to_nat (h_rs hd)) 0 data out.
Proof.
  unfold decrypt. destruct (parse_header body) as [[hd data]|e] eqn:Hp;
    cbn [mbind result_bind].
  2:{ split; [done|]. by intros (? & ? & ? & _). }
  destruct (parse_header_Ok _ _ _ Hp) as (_ & _ & _ & _ & _ & _ & _ & Hrs). unfold MIN_RS in Hrs.
  destruct (decrypt_loop_total (S (length data)) (hkdf_sha256 (h_salt hd) ikm cek_info 16)
    (hkdf_sha256 (h_salt hd) ikm nonce_info 12) (N.to_nat (h_rs hd)) data [] 0) as [r Hr]; [lia..|].
  unfold derive_cek_nonce. cbn [fst snd]. rewrite Hr. cbn. split.
  - intros ->. apply decrypt_loop_opens in Hr as (pt & -> & Ho); [|lia..]. by exists hd, data.
  - intros (hd' & data' & [= <- <-] & Ho).
    assert (decrypt_loop (S (length data)) (hkdf_sha256 (h_salt hd) ikm cek_info 16)
      (hkdf_sha256 (h_salt hd) ikm nonce_info 12) (N.to_nat (h_rs hd)) data [] 0 = Some (Ok out)).
    { apply decrypt_loop_opens; [lia..|]. by exists out. }
    congruence.
Qed.

(** a body cut after any number of its full records is rejected, never
    returned as a shorter message: with [InvalidPadding], or [Truncated] when
    no record is left. *)
Theorem decrypt_cut_rejected ikm body hd data out k :
  decrypt ikm body = Ok out -> parse_header body = Ok (hd, data) ->
  k * N.to_nat (h_rs hd) < length data ->
  decrypt ikm (take (length body - length data + k * N.to_nat (h_rs hd)) body)
  = Err (if decide (k = 0) then Truncated else InvalidPadding).
Proof.
  intros Hd Hp Hk.
  assert (Hcut : parse_header (take (length body - length data + k * N.to_nat (h_rs hd)) body)
    = Ok (hd, take (k * N.to_nat (h_rs hd)) data)).
  { destruct (parse_header_Ok _ _ _ Hp) as (rsb & idlen & -> & Hs & Hrb & Hki & Hrs & Hmin).
    rewrite !app_assoc. rewrite length_app, Nat.add_sub.
    rewrite take_app_add, <- !app_assoc. unfold parse_header.
    rewrite split_at_checked_app by done. cbn [ok_or mbind result_bind].
    rewrite split_at_checked_app by done. cbn [ok_or mbind result_bind app].
    rewrite split_at_checked_app by done. cbn [ok_or mbind result_bind].
    rewrite <- Hrs. destruct (N.ltb_spec (h_rs hd) MIN_RS); [lia|]. by destruct hd. }
  destruct (parse_header_Ok _ _ _ Hp) as (_ & _ & _ & _ & _ & _ & _ & Hrs). unfold MIN_RS in Hrs.
  unfold decrypt, derive_cek_nonce in *. rewrite Hcut. rewrite Hp in Hd.
  cbn [mbind result_bind] in *. destruct k as [|k]; [done|].
  match type of Hd with default _ ?x = _ => destruct x as [r|] eqn:Hl; cbn in Hd; [|done] end.
  subst r. apply decrypt_loop_opens in Hl as (pt & -> & Ho); [|lia..].
  change (length (take ?n ?d)) with (length (take n d)).
  rewrite (decrypt_loop_cut k _ _ _ _ _ _ _ pt Ho); [done|lia|done|]. rewrite length_take. lia.
Qed.

(** C35: the record loop of [decrypt] ends. Whatever the body holds, one turn per
    full record and one for the rest give its answer, a turn at least, and
    further turns would not change it. *)
Theorem decrypt_terminates ikm body hd data turns :
  parse_header body = Ok (hd, data) -> 0 < turns -> length data <= turns * N.to_nat (h_rs hd) ->
  decrypt_loop turns (derive_cek_nonce ikm (h_salt hd)).1 (derive_cek_nonce ikm (h_salt hd)).2
    (N.to_nat (h_rs hd)) data [] 0 = Some (decrypt ikm body).
Proof.
  intros Hp Ht Hl. destruct (parse_header_Ok _ _ _ Hp) as (_ & _ & _ & _ & _ & _ & _ & Hrs). unfold MIN_RS in Hrs.
  unfold decrypt. rewrite Hp. cbn [mbind result_bind]. destruct (derive_cek_nonce ikm (h_salt hd)) as [cek nonce]. cbn [fst snd].
  destruct (decrypt_loop_turns turns cek nonce (N.to_nat (h_rs hd)) data [] 0) as [r Hr]; [lia..|].
  destruct (decrypt_loop_total (S (length data)) cek nonce (N.to_nat (h_rs hd)) data [] 0) as [r' Hr']; [lia..|].
  rewrite Hr, Hr'. cbn. f_equal. by eapply decrypt_loop_agrees.
Qed.
End theorems.

(** records of one body never share a nonce. *)
Theorem record_nonce_distinct nonce s1 s2 :
  length nonce = 12 -> (s1 <= u64_max)%N -> (s2 <= u64_max)%N ->
  record_nonce nonce s1 = record_nonce nonce s2 -> s1 = s2.
Proof. apply record_nonce_inj. Qed.

(** ** Witnesses *)
Definition demo_body : Bytes :=
  match webpush_encrypt (toy_uncompressed (to_key (replicate 32 x07))) (replicate 16 x02)
          (replicate 32 x09) (replicate 16 x01) (as_bytes "hi") with
  | Ok b => b
  | Err _ => []
  end.

Lemma webpush_roundtrip_witness :
  webpush_decrypt (replicate 32 x07) (replicate 16 x02) demo_body = Ok (as_bytes "hi").
Proof.
  apply (@webpush_roundtrip toy_aead toy_p256 _ _ _ (to_key (replicate 32 x07)) _ (replicate 32 x09) (replicate 16 x01));
    vm_compute; reflexivity.
Defined.

Lemma webpush_encrypt_limit_witness :
  exists body, webpush_encrypt (toy_uncompressed (to_key (replicate 32 x07))) (replicate 16 x02)
    (replicate 32 x09) (replicate 16 x01) (replicate 4079 x61) = Ok body /\ length body = 4182.
Proof.
  exact (@webpush_encrypt_limit toy_aead toy_p256 _ _ (toy_uncompressed (to_key (replicate 32 x07))) (to_key (replicate 32 x07))
    (replicate 16 x02) (replicate 32 x09) (to_key (replicate 32 x09)) (replicate 16 x01)
    (replicate 4079 x61) ltac:(vm_compute; reflexivity) eq_refl eq_refl).
Defined.

(** Two records of 18 octets. *)
Definition two_records : Bytes :=
  let '(cek, nonce) := derive_cek_nonce (replicate 16 x05) (replicate 16 x01) in
  replicate 16 x01 ++ to_be_bytes 4 18 ++ [x00] ++
  default [] (aes_gcm_encrypt cek (record_nonce nonce 0) [x61; x01]) ++
  default [] (aes_gcm_encrypt cek (record_nonce nonce 1) [x62; x02]).

Lemma decrypt_cut_rejected_witness :
  decrypt (replicate 16 x05) two_records = Ok [x61; x62] /\
  decrypt (replicate 16 x05) (take 39 two_records) = Err InvalidPadding.
Proof.
  assert (Hd : decrypt (replicate 16 x05) two_records = Ok [x61; x62])
    by (vm_compute; reflexivity).
  assert (Hp : exists hd data, parse_header two_records = Ok (hd, data) /\ h_rs hd = 18%N /\
    length data = 36) by (eexists _, _; split_and!; vm_compute; reflexivity).
  split; [done|]. destruct Hp as (hd & data & Hp & Hrs & Hl).
  pose proof (decrypt_cut_rejected _ _ _ _ _ 1 Hd Hp) as Hcut. rewrite Hrs, Hl in Hcut.
  apply Hcut. vm_compute. lia.
Defined.

(** Two records, two turns. *)
Lemma decrypt_terminates_witness : exists hd data, parse_header two_records = Ok (hd, data) /\
  decrypt_loop 2 (derive_cek_nonce (replicate 16 x05) (h_salt hd)).1 (derive_cek_nonce (replicate 16 x05) (h_salt hd)).2
    (N.to_nat (h_rs hd)) data [] 0 = Some (Ok [x61; x62]).
Proof.
  assert (Hd : decrypt (replicate 16 x05) two_records = Ok [x61; x62]) by (vm_compute; reflexivity).
  assert (Hp : exists hd data, parse_header two_records = Ok (hd, data) /\ h_rs hd = 18%N /\
    length data = 36) by (eexists _, _; split_and!; vm_compute; reflexivity).
  destruct Hp as (hd & data & Hp & Hrs & Hl). exists hd, data. split; [done|]. rewrite <- Hd.
  apply decrypt_terminates; [exact Hp|lia|]. rewrite Hl, Hrs. vm_compute. lia.
Defined.

Lemma record_nonce_distinct_witness : record_nonce (replicate 12 x00) 1 <> record_nonce (replicate 12 x00) 2.
Proof.
  intros Heq. assert (1 = 2)%N as Hf; [|discriminate].
  apply (record_nonce_distinct (replicate 12 x00)); [done|by vm_compute..|done].
Defined.
