(* ===== verification/MemoryStore.v ===== *)
(** * [MemoryStore]: the in-memory storage adapter

    [crates/webpush-store/src/memory.rs]. [State] is the record of maps behind
    the mutex; every method takes the lock once and never awaits while holding
    it, so each is one atomic computation over the environment and [State].
    A [HashMap] is a [gmap] iterated in an arbitrary order ([HashOrder]); the
    [BTreeMap] of a receipt queue is iterated by increasing key. *)
From S2P Require Import Prelude RustStr External StoreTypes Store.

Record State : Type := {
  user_agents : gmap string UserAgent;
  channels : gmap (string * string) Subscription;
  push : gmap string (string * string);
  messages : gmap string Message;
  topics : gmap (string * string * string) string;
  receipts : gmap string (gmap N Receipt);
  routes : gmap Recipient string;
}.

(** [MemoryStore::new] *)
Definition new : State := {|
  user_agents := ∅; channels := ∅; push := ∅; messages := ∅; topics := ∅;
  receipts := ∅; routes := ∅;
|}.

(** Field updates *)
Definition set_user_agents (x : gmap string UserAgent) (s : State) : State :=
  {| user_agents := x; channels := channels s; push := push s; messages := messages s;
     topics := topics s; receipts := receipts s; routes := routes s |}.
Definition set_channels (x : gmap (string * string) Subscription) (s : State) : State :=
  {| user_agents := user_agents s; channels := x; push := push s; messages := messages s;
     topics := topics s; receipts := receipts s; routes := routes s |}.
Definition set_push (x : gmap string (string * string)) (s : State) : State :=
  {| user_agents := user_agents s; channels := channels s; push := x; messages := messages s;
     topics := topics s; receipts := receipts s; routes := routes s |}.
Definition set_messages (x : gmap string Message) (s : State) : State :=
  {| user_agents := user_agents s; channels := channels s; push := push s; messages := x;
     topics := topics s; receipts := receipts s; routes := routes s |}.
Definition set_topics (x : gmap (string * string * string) string) (s : State) : State :=
  {| user_agents := user_agents s; channels := channels s; push := push s;
     messages := messages s; topics := x; receipts := receipts s; routes := routes s |}.
Definition set_receipts (x : gmap string (gmap N Receipt)) (s : State) : State :=
  {| user_agents := user_agents s; channels := channels s; push := push s;
     messages := messages s; topics := topics s; receipts := x; routes := routes s |}.
Definition set_routes (x : gmap Recipient string) (s : State) : State :=
  {| user_agents := user_agents s; channels := channels s; push := push s;
     messages := messages s; topics := topics s; receipts := receipts s; routes := x |}.

(** A computation on the environment, or on the locked state. *)
Definition with_env {A} (m : ST Env A) : ST (Env * State) A := fun w =>
  let '(a, e) := m w.1 in (a, (e, w.2)).
Definition with_state {A} (m : ST State A) : ST (Env * State) A := fun w =>
  let '(a, s) := m w.2 in (a, (w.1, s)).
Definition get : ST (Env * State) State := with_state (fun s => (s, s)).
Definition modify (f : State -> State) : ST (Env * State) unit :=
  with_state (fun s => ((), f s)).

(** [BTreeMap::iter]: by increasing key. *)
Definition seq_le (a b : N * Receipt) : Prop := (a.1 <= b.1)%N.
#[export] Instance seq_le_dec : RelDecision seq_le.
Proof. intros a b. unfold seq_le. apply _. Defined.
Definition btree_iter (q : gmap N Receipt) : list (N * Receipt) :=
  merge_sort seq_le (map_to_list q).

Section memory.
Context `{HashOrder} `{Base64}.

(** ** [impl State] *)

(** [State::remove_message] *)
Definition remove_message (id : string) : ST State (option Message) := fun s =>
  match messages s !! id with
  | None => (None, s)
  | Some m =>
      let s := set_messages (delete id (messages s)) s in
      let s := match m_topic m with
               | Some topic =>
                   set_topics (delete (m_uaid m, m_channel_id m, topic) (topics s)) s
               | None => s
               end in
      (Some m, s)
  end.

(** [State::owe_410] *)
Definition owe_410 (m : Message) : ST (Env * State) (option (N * Receipt)) := fun w =>
  match m_rsub m with
  | None => (None, w)
  | Some rsub =>
      match receipts w.2 !! rsub with
      | None => (None, w)
      | Some queue =>
          let r := {| r_rsub := rsub; r_msg_id := m_id m; r_status := 410 |} in
          let '(seq, e) := next_seq w.1 in
          (Some (seq, r),
           (e, set_receipts (<[ rsub := <[ seq := r ]> queue ]> (receipts w.2)) w.2))
      end
  end.

(** The loop shared by [remove_subscription] and [reap]: remove each message
    that is still there and collect the receipt it owes. *)
Fixpoint remove_all (ids : list string) : ST (Env * State) (list (N * Receipt)) :=
  match ids with
  | [] => mret []
  | id :: ids =>
      o ← with_state (remove_message id);
      rs ← (match o with
            | Some m => r ← owe_410 m; mret (option_list r)
            | None => mret []
            end);
      rest ← remove_all ids;
      mret (rs ++ rest)
  end.

(** [State::remove_subscription] *)
Definition remove_subscription (uaid channel_id : string)
  : ST (Env * State) (list (N * Receipt)) :=
  s ← get;
  match channels s !! (uaid, channel_id) with
  | None => mret []
  | Some sub =>
      _ ← modify (fun s => set_channels (delete (uaid, channel_id) (channels s)) s);
      _ ← modify (fun s => set_push (delete (sub_push sub) (push s)) s);
      s ← get;
      let ids := m_id <$> filter (fun m => m_uaid m = uaid /\ m_channel_id m = channel_id)
                   (hm_values (messages s)) in
      remove_all ids
  end.

(** [State::remove_user_agent] *)
Definition remove_user_agent (uaid : string) : ST (Env * State) (list (N * Receipt)) :=
  _ ← modify (fun s => set_user_agents (delete uaid (user_agents s)) s);
  s ← get;
  let chans := snd <$> filter (fun k => k.1 = uaid) (hm_keys (channels s)) in
  rss ← st_mapM (remove_subscription uaid) chans;
  mret (mjoin rss).

(** ** [impl Store for MemoryStore] *)

Definition create_user_agent (ua : UserAgent) : SM State unit :=
  lift_st (modify (fun s => set_user_agents (<[ ua_uaid ua := ua ]> (user_agents s)) s)).

Definition user_agent (uaid : string) : SM State (option UserAgent) :=
  lift_st (s ← get; mret (user_agents s !! uaid)).

Definition touch_user_agent (uaid : string) (now : N) : SM State bool :=
  lift_st (
    s ← get;
    match user_agents s !! uaid with
    | None => mret false
    | Some ua =>
        let ua := {| ua_uaid := ua_uaid ua; ua_bridge := ua_bridge ua;
                     ua_last_seen := N.max (ua_last_seen ua) now |} in
        _ ← modify (fun s => set_user_agents (<[ uaid := ua ]> (user_agents s)) s);
        mret true
    end).

Definition update_bridge_token (uaid token : string) : SM State bool :=
  lift_st (
    s ← get;
    match user_agents s !! uaid with
    | Some {| ua_uaid := u; ua_bridge := Some b; ua_last_seen := seen |} =>
        let b := {| ba_bridge := ba_bridge b; ba_app_id := ba_app_id b; ba_token := token |} in
        let ua := {| ua_uaid := u; ua_bridge := Some b; ua_last_seen := seen |} in
        _ ← modify (fun s => set_user_agents (<[ uaid := ua ]> (user_agents s)) s);
        mret true
    | _ => mret false
    end).

Definition delete_user_agent (uaid : string) : SM State (list (N * Receipt)) :=
  lift_st (remove_user_agent uaid).

Definition expire_user_agents (cutoff : N) : SM State (N * list (N * Receipt)) :=
  lift_st (
    s ← get;
    let stale := ua_uaid <$> filter (fun ua => (ua_last_seen ua < cutoff)%N)
                   (hm_values (user_agents s)) in
    rss ← st_mapM remove_user_agent stale;
    mret (N.of_nat (length stale), mjoin rss)).

Definition subscriptions (uaid : string) : SM State (list Subscription) :=
  lift_st (s ← get; mret (filter (fun sub => sub_uaid sub = uaid) (hm_values (channels s)))).

Definition channel (uaid channel_id : string) : SM State (option Subscription) :=
  lift_st (s ← get; mret (channels s !! (uaid, channel_id))).

Definition create_subscription (uaid channel_id : string) (vapid : option Bytes)
  : SM State Subscription :=
  lift_st (
    id ← with_env new_id;
    let sub := {| sub_uaid := uaid; sub_channel_id := channel_id; sub_push := id;
                  sub_vapid := vapid |} in
    let key := (uaid, channel_id) in
    _ ← modify (fun s => set_push (<[ sub_push sub := key ]> (push s)) s);
    _ ← modify (fun s => set_channels (<[ key := sub ]> (channels s)) s);
    mret sub).

Definition subscription_by_push (p : string) : SM State (option Subscription) :=
  lift_st (s ← get; mret (push s !! p ≫= fun key => channels s !! key)).

Definition delete_subscription (uaid channel_id : string) : SM State (list (N * Receipt)) :=
  lift_st (remove_subscription uaid channel_id).

Definition insert_message (m : Message) : SM State unit :=
  lift_st (modify (fun s =>
    let s := match m_topic m with
             | Some topic =>
                 let slot := (m_uaid m, m_channel_id m, topic) in
                 let old := topics s !! slot in
                 let s := set_topics (<[ slot := m_id m ]> (topics s)) s in
                 match old with
                 | Some old => set_messages (delete old (messages s)) s
                 | None => s
                 end
             | None => s
             end in
    set_messages (<[ m_id m := m ]> (messages s)) s)).

Definition pending (uaid : string) (now limit : N) : SM State (list Message) :=
  lift_st (
    s ← get;
    let out := filter (fun m => m_uaid m = uaid /\ (now < m_expiry m)%N)
                 (hm_values (messages s)) in
    let out := merge_sort msg_le out in
    mret (truncate limit out)).

Definition message (id : string) : SM State (option Message) :=
  lift_st (s ← get; mret (messages s !! id)).

Definition delete_message (id : string) (owner : option (string * string))
  : SM State (option Message) :=
  lift_st (
    s ← get;
    let permitted :=
      match messages s !! id with
      | None => false
      | Some m =>
          match owner with
          | None => true
          | Some (uaid, ch) => bool_decide (m_uaid m = uaid) && bool_decide (m_channel_id m = ch)
          end
      end in
    if permitted then with_state (remove_message id) else mret None).

Definition create_receipt_sub : SM State string :=
  lift_st (
    rsub ← with_env new_id;
    _ ← modify (fun s => set_receipts (<[ rsub := ∅ ]> (receipts s)) s);
    mret rsub).

Definition receipt_sub_exists (rsub : string) : SM State bool :=
  lift_st (s ← get; mret (bool_decide (is_Some (receipts s !! rsub)))).

Definition delete_receipt_sub (rsub : string) : SM State bool :=
  lift_st (
    s ← get;
    _ ← modify (fun s => set_receipts (delete rsub (receipts s)) s);
    mret (bool_decide (is_Some (receipts s !! rsub)))).

Definition enqueue_receipt (r : Receipt) : SM State (option N) :=
  lift_st (
    s ← get;
    match receipts s !! r_rsub r with
    | None => mret None
    | Some queue =>
        seq ← with_env next_seq;
        _ ← modify (fun s => set_receipts (<[ r_rsub r := <[ seq := r ]> queue ]> (receipts s)) s);
        mret (Some seq)
    end).

Definition queued_receipts (rsub : string) : SM State (list (N * Receipt)) :=
  lift_st (
    s ← get;
    mret (match receipts s !! rsub with None => [] | Some q => btree_iter q end)).

Definition delete_receipt (rsub : string) (seq : N) : SM State unit :=
  lift_st (modify (fun s =>
    match receipts s !! rsub with
    | Some q => set_receipts (<[ rsub := delete seq q ]> (receipts s)) s
    | None => s
    end)).

Definition reap (now : N) : SM State (list (N * Receipt)) :=
  lift_st (
    s ← get;
    let expired := m_id <$> filter (fun m => (m_expiry m <= now)%N) (hm_values (messages s)) in
    remove_all expired).

Definition set_route (to : Recipient) (node : string) : SM State (option string) :=
  lift_st (
    s ← get;
    _ ← modify (fun s => set_routes (<[ to := node ]> (routes s)) s);
    mret (routes s !! to)).

Definition route (to : Recipient) : SM State (option string) :=
  lift_st (s ← get; mret (routes s !! to)).

Definition clear_route (to : Recipient) (node : string) : SM State bool :=
  lift_st (
    s ← get;
    if decide (routes s !! to = Some node) then
      _ ← modify (fun s => set_routes (delete to (routes s)) s);
      mret true
    else mret false).
End memory.
