(* ===== verification/MemoryProofs.v ===== *)
(** * [MemoryStore] keeps its invariant and meets the [Store] contract

    The representation invariant of the maps, the effect of each method on
    the abstract state, and the theorems a user of the adapter relies on. *)
From S2P Require Import Prelude RustStr External StoreTypes Store MemoryStore.

(** The abstract state behind the indexes. *)
Definition view (s : State) : AStore := {|
  a_uas := user_agents s;
  a_subs := channels s;
  a_msgs := messages s;
  a_queues := receipts s;
  a_routes := routes s;
|}.

(** The maps agree with their indexes, and no queued receipt is numbered above
    the last number issued. *)
Record inv (w : Env * State) : Prop := {
  inv_wf : a_wf (view w.2);
  inv_push : forall p k, push w.2 !! p = Some k <->
    exists sub, channels w.2 !! k = Some sub /\ sub_push sub = p;
  inv_topics : forall sl id, topics w.2 !! sl = Some id <->
    exists m, messages w.2 !! id = Some m /\ m_slot m = Some sl;
  inv_seq : forall k q seq r, receipts w.2 !! k = Some q -> q !! seq = Some r ->
    (seq <= env_last_seq w.1)%N;
}.

(** ** Sequence numbers *)
Lemma seq_room_weaken n n' e : n' <= n -> seq_room n e -> seq_room n' e.
Proof. intros ? [? Hc]. split; [lia|]. intros i. specialize (Hc i). lia. Qed.

Lemma next_seq_room n e q e' :
  seq_room (S n) e -> next_seq e = (q, e') ->
  seq_room n e' /\ (env_last_seq e < q)%N /\ env_last_seq e' = q /\ env_extends e e'.
Proof.
  intros [Hlast Hclock] Hq.
  destruct (next_seq_spec _ _ _ Hq) as (? & Hl & Hext); [lia|].
  split_and!; [|done..]. split.
  - rewrite Hl. revert Hq. unfold next_seq, now_ms. cbn [env_last_seq env_ticks env_clock].
    intros [= <- _]. specialize (Hclock (env_ticks e)).
    set (c := env_clock e (env_ticks e)) in *. unfold wrap64.
    pose proof (N.Div0.mod_le (N.min c u64_max * 1000) (2 ^ 64)).
    pose proof (N.Div0.mod_le (env_last_seq e + 1) (2 ^ 64)).
    assert (N.min c u64_max * 1000 <= c * 1000)%N by lia. lia.
  - intros i. rewrite (ext_clock _ _ Hext). specialize (Hclock i). lia.
Qed.

Lemma sorted_last_max (a x : N) l :
  StronglySorted N.lt (a :: l) -> x ∈ a :: l -> (x <= List.last l a)%N.
Proof.
  revert a x. induction l as [|b l IH]; intros a x Hs Hx.
  - apply list_elem_of_singleton in Hx. subst. simpl. lia.
  - inversion Hs as [|? ? Hs' Hall]; subst.
    assert (List.last (b :: l) a = List.last l b) as -> by (destruct l; [done|]; simpl;
      clear; revert n; induction l; simpl; [done|]; intros; destruct l; auto).
    apply elem_of_cons in Hx as [->|Hx]; [|by apply IH].
    inversion Hall; subst. pose proof (IH b b Hs' ltac:(left)). lia.
Qed.

Lemma numbered_nil e e' : numbered e [] e' <-> quiet e e'.
Proof.
  unfold numbered, quiet. simpl. split; [by intros [_ ->]|]. intros ->.
  split; [repeat constructor|done].
Qed.

Lemma last_default (a b : N) l x : List.last (l ++ [x]) a = List.last (l ++ [x]) b.
Proof. by rewrite !last_last. Qed.

Lemma numbered_app e rs e1 rs' e2 :
  numbered e rs e1 -> numbered e1 rs' e2 -> numbered e (rs ++ rs') e2.
Proof.
  intros [Hs Hl] [Hs' Hl']. unfold numbered. rewrite fmap_app. split.
  - change (StronglySorted N.lt ((env_last_seq e :: rs.*1) ++ rs'.*1)).
    rewrite <- Hl in Hs'. inversion Hs' as [|? ? Hs'' Hall]; subst.
    apply StronglySorted_app_2; [|done..]. intros x y Hx Hy.
    pose proof (sorted_last_max _ _ _ Hs Hx).
    rewrite List.Forall_forall in Hall. specialize (Hall y ltac:(by apply list_elem_of_In)). lia.
  - destruct rs' as [|p rs' _] using rev_ind; simpl in *.
    + rewrite app_nil_r. congruence.
    + rewrite fmap_app in *. simpl in *. rewrite app_assoc, last_last.
      by rewrite last_last in Hl'.
Qed.

Lemma numbered_one e q r e' :
  (env_last_seq e < q)%N -> env_last_seq e' = q -> numbered e [(q, r)] e'.
Proof. intros ? <-. split; [|done]. repeat constructor. done. Qed.

Lemma enqueue_all_app qs rs rs' :
  enqueue_all qs (rs ++ rs') = enqueue_all (enqueue_all qs rs) rs'.
Proof. apply foldl_app. Qed.

Lemma enqueue_dom qs rs k : is_Some (enqueue_all qs rs !! k) <-> is_Some (qs !! k).
Proof.
  revert qs. induction rs as [|sr rs IH]; intros qs; [done|]. simpl. rewrite IH.
  unfold enqueue. rewrite lookup_alter_is_Some. done.
Qed.

Lemma owed_410_dom qs rs m : owed_410 (enqueue_all qs rs) m = owed_410 qs m.
Proof.
  unfold owed_410. destruct (receipt_for 410 m) as [r|]; [simpl|done].
  pose proof (enqueue_dom qs rs (r_rsub r)) as Hd. unfold is_Some in Hd.
  do 2 case_match; try done; naive_solver.
Qed.

(** ** Removals compose *)
Lemma removes_ext P Q e a rs e' a' :
  (forall k m, a_msgs a !! k = Some m -> P m = Q m) ->
  removes P e a rs e' a' -> removes Q e a rs e' a'.
Proof.
  intros Heq [Hm Hr Hn Hq Hro]. split; [..|done|done|done].
  - rewrite Hm. apply map_filter_ext. intros k m Hk. simpl. by rewrite (Heq k).
  - rewrite Hr. erewrite filter_ext_in; [done|]. intros m [k Hk]%elem_of_values.
    simpl. by rewrite (Heq k).
Qed.

Lemma removes_app P Q e a rs e1 a1 rs' e2 a2 :
  removes P e a rs e1 a1 -> removes Q e1 a1 rs' e2 a2 ->
  removes (fun m => P m || Q m) e a (rs ++ rs') e2 a2.
Proof.
  intros [Hm Hr Hn Hq Hro] [Hm' Hr' Hn' Hq' Hro']. split.
  - rewrite Hm', Hm, map_filter_filter. apply map_filter_ext.
    intros k m _. simpl. destruct (P m), (Q m); naive_solver.
  - rewrite fmap_app, Hr, Hr', Hm.
    rewrite (filter_split (fun m => P m = true) (fun m => Q m = true) (fun m => P m || Q m = true))
      by (intros m _; apply orb_true_iff).
    rewrite omap_app. f_equiv.
    pose proof (map_filter_values (fun m => P m = false) (a_msgs a)) as Hv.
    cbv beta in Hv. rewrite Hv.
    rewrite (filter_ext_in (fun m => P m = false) (fun m => ~ P m = true))
      by (intros m _; by rewrite not_true_iff_false).
    erewrite list_omap_ext; [done|]. apply Forall_Forall2_diag, Forall_forall.
    intros m _. rewrite Hq. apply owed_410_dom.
  - by eapply numbered_app.
  - by rewrite Hq', Hq, enqueue_all_app.
  - congruence.
Qed.

Lemma removes_none P e a :
  (forall k m, a_msgs a !! k = Some m -> P m = false) ->
  forall e' a', a_msgs a' = a_msgs a -> a_queues a' = a_queues a -> a_routes a' = a_routes a ->
  quiet e e' -> removes P e a [] e' a'.
Proof.
  intros Hno e' a' Hm Hq Hr He. split; [..|done|done].
  - rewrite Hm. symmetry. apply map_filter_id. eauto.
  - rewrite filter_none; [done|]. intros m [k Hk]%elem_of_values. by rewrite (Hno k).
  - by apply numbered_nil.
Qed.

(** One message goes. *)
Lemma removes_one m o e a e' a' :
  (forall k x, a_msgs a !! k = Some x -> m_id x = k) -> a_msgs a !! m_id m = Some m ->
  a_msgs a' = delete (m_id m) (a_msgs a) -> snd <$> o = owed_410 (a_queues a) m -> numbered e (option_list o) e' ->
  a_queues a' = enqueue_all (a_queues a) (option_list o) -> a_routes a' = a_routes a ->
  removes (fun x => bool_decide (m_id x = m_id m)) e a (option_list o) e' a'.
Proof.
  intros Hkeys Hm Hms Ho Hn Hq Hr. split; [| |done..].
  - rewrite Hms. apply map_eq. intros k. apply option_eq. intros x.
    rewrite map_lookup_filter_Some, lookup_delete_Some. simpl. split.
    + intros [? Hk]. split; [done|]. apply bool_decide_eq_false. by rewrite (Hkeys k x Hk).
    + intros [Hk Hne%bool_decide_eq_false]. split; [|done]. intros <-. apply Hne. eauto.
  - assert (filter (fun x => bool_decide (m_id x = m_id m) = true) (map_to_list (a_msgs a)).*2 ≡ₚ [m]) as ->.
    { rewrite <- (insert_delete_id (a_msgs a) (m_id m) m Hm) at 1.
      rewrite map_to_list_insert by apply lookup_delete_eq. rewrite fmap_cons, filter_cons. simpl.
      rewrite decide_True by by apply bool_decide_eq_true. rewrite filter_none; [done|].
      intros x (k & Hne & Hk)%elem_of_values_delete. rewrite bool_decide_eq_true.
      intros Hx. rewrite (Hkeys k x Hk) in Hx. done. }
    simpl. rewrite <- Ho. by destruct o.
Qed.

(** A computation on the locked state that drops exactly the messages in [P]
    and leaves room for numbering receipts of the rest. *)
Record stepped (P : Message -> bool) (w : Env * State) (rs : list (N * Receipt))
    (w' : Env * State) : Prop := {
  st_removes : removes P w.1 (view w.2) rs w'.1 (view w'.2);
  st_inv : inv w';
  st_ext : env_extends w.1 w'.1;
  st_room : seq_room (size (messages w'.2)) w'.1;
}.

Lemma stepped_ext P Q w rs w' :
  (forall k m, messages w.2 !! k = Some m -> P m = Q m) ->
  stepped P w rs w' -> stepped Q w rs w'.
Proof. intros ? []. split; [|done..]. by eapply removes_ext. Qed.

Lemma stepped_app P Q w rs w1 rs' w2 :
  stepped P w rs w1 -> stepped Q w1 rs' w2 ->
  stepped (fun m => P m || Q m) w (rs ++ rs') w2.
Proof.
  intros [] []. split; [by eapply removes_app|done| |done].
  by eapply transitivity.
Qed.

Lemma stepped_none P w :
  (forall k m, messages w.2 !! k = Some m -> P m = false) ->
  inv w -> seq_room (size (messages w.2)) w.1 -> stepped P w [] w.
Proof. intros. split; [by apply removes_none|done..]. Qed.

(** ** The invariant under the elementary updates *)
Lemma slot_topic m sl :
  m_slot m = Some sl <-> exists t, m_topic m = Some t /\ sl = (m_uaid m, m_channel_id m, t).
Proof. unfold m_slot. destruct (m_topic m); naive_solver. Qed.

Lemma inv_remove_message id e s m s' :
  inv (e, s) -> remove_message id s = (Some m, s') ->
  inv (e, s') /\ messages s !! id = Some m /\ m_id m = id /\
  messages s' = delete id (messages s) /\ receipts s' = receipts s /\ routes s' = routes s /\
  user_agents s' = user_agents s /\ channels s' = channels s.
Proof.
  intros [Hwf Hp Ht Hs] Hr. unfold remove_message in Hr.
  destruct (messages s !! id) as [m'|] eqn:Hm; [|done].
  assert (m_id m' = id) as Hid by (by apply (wf_msgs _ Hwf)).
  assert (m' = m) as -> by (by case_all).
  assert (s' = set_topics (match m_slot m with Some sl => delete sl (topics s) | None => topics s end)
      (set_messages (delete id (messages s)) s)) as ->.
  { unfold m_slot. destruct (m_topic m); simplify_eq/=; [done|]. by destruct s. }
  split_and!; try done. destruct Hwf as [? ? ? Hms Hsl ?]. split; simpl in *; [|done| |done].
  - split; simpl; try done.
    + intros k n [? ?]%lookup_delete_Some. eauto.
    + intros k1 k2 m1 m2 sl [? ?]%lookup_delete_Some [? ?]%lookup_delete_Some. eauto.
  - intros sl i. destruct (m_slot m) as [sl'|] eqn:Hsl'.
    + destruct (decide (sl = sl')) as [->|].
      * rewrite lookup_delete_eq. split; [done|]. intros (n & [? ?]%lookup_delete_Some & ?).
        destruct (Hsl id i m n sl'); by auto.
      * rewrite lookup_delete_ne, Ht by done. split; intros (x & Hx & ?); exists x.
        -- rewrite lookup_delete_ne; [done|]. intros ->. congruence.
        -- by apply lookup_delete_Some in Hx as [? ?].
    + rewrite Ht. split; intros (x & Hx & ?); exists x.
      -- rewrite lookup_delete_ne; [done|]. intros ->. congruence.
      -- by apply lookup_delete_Some in Hx as [? ?].
Qed.

Lemma set_receipts_id s : set_receipts (receipts s) s = s.
Proof. by destruct s. Qed.

(** Queueing a receipt under a fresh number. *)
Lemma inv_enqueue e e' s q r :
  inv (e, s) -> (env_last_seq e < q)%N -> env_last_seq e' = q ->
  inv (e', set_receipts (enqueue (receipts s) (q, r)) s).
Proof.
  intros [Hwf Hp Ht Hs] Hlt <-. destruct Hwf. split; simpl in *; [split; simpl; try done|done..|].
  - intros k qs sq x Hk Hsq. unfold enqueue in Hk. apply lookup_alter_Some in Hk as [(<- & q0 & Hq0 & ->)|[? Hk]].
    + simpl in *. apply lookup_insert_Some in Hsq as [[<- <-]|[? ?]]; [done|]. eauto.
    + eauto.
  - intros k qs sq x Hk Hsq. unfold enqueue in Hk. apply lookup_alter_Some in Hk as [(<- & q0 & Hq0 & ->)|[? Hk]].
    + simpl in *. apply lookup_insert_Some in Hsq as [[<- <-]|[? Hsq]]; [lia|].
      specialize (Hs _ _ _ _ Hq0 Hsq). lia.
    + specialize (Hs _ _ _ _ Hk Hsq). lia.
Qed.

Lemma owe_410_spec n e s m o w' :
  inv (e, s) -> seq_room (S n) e -> owe_410 m (e, s) = (o, w') ->
  snd <$> o = owed_410 (receipts s) m /\
  numbered e (option_list o) w'.1 /\
  w'.2 = set_receipts (enqueue_all (receipts s) (option_list o)) s /\
  inv w' /\ env_extends e w'.1 /\ seq_room n w'.1.
Proof.
  intros Hinv Hroom. unfold owe_410, owed_410, receipt_for. cbn [fst snd].
  assert (seq_room n e) by (eapply seq_room_weaken; [|done]; lia).
  destruct (m_rsub m) as [rsub|] eqn:Hr; cbn.
  2:{ intros [= <- <-]. simpl. rewrite set_receipts_id. split_and!; try done. by apply numbered_nil. }
  destruct (receipts s !! rsub) as [queue|] eqn:Hq; cbn.
  2:{ intros [= <- <-]. simpl. rewrite set_receipts_id. split_and!; try done. by apply numbered_nil. }
  destruct (next_seq e) as [q e'] eqn:Hn. intros [= <- <-]. cbn.
  destruct (next_seq_room _ _ _ _ Hroom Hn) as (? & Hlt & Hl & ?).
  match goal with |- context[set_receipts (<[rsub:=<[q:=?r]> queue]> _) _] =>
    assert (<[rsub:=<[q:=r]> queue]> (receipts s) = enqueue (receipts s) (q, r)) as -> end.
  { unfold enqueue. simpl. apply map_eq. intros k. destruct (decide (k = rsub)) as [->|].
    - by rewrite lookup_insert_eq, lookup_alter_eq, Hq.
    - by rewrite lookup_insert_ne, lookup_alter_ne. }
  split_and!; try done.
  - by apply numbered_one.
  - by eapply inv_enqueue.
Qed.

(** ** The removal loops *)
Lemma remove_one w id m s1 o w' :
  inv w -> seq_room (size (messages w.2)) w.1 ->
  remove_message id w.2 = (Some m, s1) -> owe_410 m (w.1, s1) = (o, w') ->
  stepped (fun x => bool_decide (m_id x = id)) w (option_list o) w' /\
  channels w'.2 = channels w.2 /\ user_agents w'.2 = user_agents w.2.
Proof.
  destruct w as [e s]. intros Hinv Hroom Hrm Howe. cbn [fst snd] in *.
  destruct (inv_remove_message _ _ _ _ _ Hinv Hrm) as (Hinv1 & Hm & Hid & Hms & Hrs & Hro & Hua & Hch).
  rewrite <- (insert_delete_id (messages s) id m Hm), map_size_insert_None in Hroom
    by apply lookup_delete_eq.
  destruct (owe_410_spec _ _ _ _ _ _ Hinv1 Hroom Howe) as (Ho & Hn & Hs & Hi & He & Hr).
  assert (Hkeys : forall k x, messages s !! k = Some x -> m_id x = k)
    by (intros; by apply (wf_msgs _ (inv_wf _ Hinv))).
  destruct w' as [e' s']; cbn in *; subst s'; cbn in *. split; [|done].
  split; cbn; [|done|done|by rewrite Hms].
  subst id. by apply removes_one; cbn; rewrite <- ?Hrs.
Qed.

Lemma remove_all_spec ids : forall w rs w',
  inv w -> seq_room (size (messages w.2)) w.1 -> remove_all ids w = (rs, w') ->
  stepped (fun m => bool_decide (m_id m ∈ ids)) w rs w' /\
  channels w'.2 = channels w.2 /\ user_agents w'.2 = user_agents w.2.
Proof.
  induction ids as [|id ids IH]; intros w rs w' Hinv Hroom.
  - cbn. intros [= <- <-]. split; [|done]. apply stepped_none; [|done..].
    intros. by apply bool_decide_eq_false, not_elem_of_nil.
  - cbn. unfold with_state, mbind, st_bind.
    destruct (remove_message id w.2) as [[m|] s1] eqn:Hrm; cbn.
    + destruct (owe_410 m (w.1, s1)) as [o w1] eqn:Ho. cbn.
      destruct (remove_all ids w1) as [rest w2] eqn:Hrest. intros [= <- <-].
      destruct (remove_one _ _ _ _ _ _ Hinv Hroom Hrm Ho) as (Hst & Hc & Hu).
      destruct (IH _ _ _ (st_inv _ _ _ _ Hst) (st_room _ _ _ _ Hst) Hrest) as (Hst' & Hc' & Hu').
      split; [|split; congruence].
      eapply stepped_ext, stepped_app; [|done..]. intros k x _. cbv beta.
      apply eq_bool_prop_intro. rewrite orb_True, !bool_decide_spec, elem_of_cons. done.
    + assert (messages w.2 !! id = None /\ s1 = w.2) as [Hno ->].
      { unfold remove_message in Hrm. by case_all. }
      destruct (remove_all ids _) as [rest w2] eqn:Hrest. intros [= <- <-].
      replace (w.1, w.2) with w in Hrest by by destruct w.
      destruct (IH _ _ _ Hinv Hroom Hrest) as (Hst' & Hc' & Hu'). split; [|done].
      eapply stepped_ext; [|done]. intros k x Hk. apply bool_decide_ext.
      rewrite elem_of_cons. split; [by right|]. intros [<-|?]; [|done].
      by rewrite (wf_msgs _ (inv_wf _ Hinv) _ _ Hk), Hk in Hno.
Qed.

(** What [stepped] says of the state before depends on these maps only. *)
Lemma stepped_from P w w1 rs w' :
  w1.1 = w.1 -> messages w1.2 = messages w.2 -> receipts w1.2 = receipts w.2 ->
  routes w1.2 = routes w.2 -> stepped P w1 rs w' -> stepped P w rs w'.
Proof.
  intros He Hm Hq Hr [[] ? ? ?]. rewrite He in *. cbn in *. rewrite Hm, Hq, Hr in *.
  split; [split|..]; done.
Qed.

Lemma inv_remove_channel e s k sub :
  inv (e, s) -> channels s !! k = Some sub ->
  inv (e, set_push (delete (sub_push sub) (push s)) (set_channels (delete k (channels s)) s)).
Proof.
  intros [[? Hsu Hpu ? ? ?] Hp Ht Hs] Hk. split; cbn in *; [split; cbn; try done|..|done|done].
  - intros k' s' [? ?]%lookup_delete_Some. eauto.
  - intros k1 k2 s1 s2 [? ?]%lookup_delete_Some [? ?]%lookup_delete_Some. eauto.
  - intros p k'. rewrite lookup_delete_Some, Hp. split.
    + intros (Hne & s' & Hs' & <-). exists s'. rewrite lookup_delete_ne; [done|].
      intros ->. congruence.
    + intros (s' & [Hne Hs']%lookup_delete_Some & <-). split; [|by eauto].
      intros Heq. apply Hne. eauto.
Qed.

Lemma inv_set_user_agents e s uas :
  (forall k ua, uas !! k = Some ua -> ua_uaid ua = k) ->
  inv (e, s) -> inv (e, set_user_agents uas s).
Proof. intros ? [[] ? ? ?]. split; cbn in *; [split|..]; done. Qed.

(** Does [m]'s subscription exist? *)
Definition subscribed (chans : gmap (string * string) Subscription) (m : Message) : bool :=
  bool_decide (is_Some (chans !! m_owner m)).

Section removals.
Context {HO : HashOrder}.

Lemma remove_subscription_spec u c w rs w' :
  inv w -> seq_room (size (messages w.2)) w.1 -> remove_subscription u c w = (rs, w') ->
  stepped (fun m => bool_decide (m_owner m = (u, c)) && subscribed (channels w.2) m) w rs w' /\
  channels w'.2 = delete (u, c) (channels w.2) /\ user_agents w'.2 = user_agents w.2.
Proof.
  destruct w as [e s]. intros Hinv Hroom. cbn in *.
  unfold remove_subscription, get, modify, with_state, mbind, st_bind. cbn.
  destruct (channels s !! (u, c)) as [sub|] eqn:Hsub; cbn.
  - intros Hall. apply remove_all_spec in Hall as (Hst & Hc & Hu);
      [|by eapply inv_remove_channel|done].
    cbn in *. split; [|done]. eapply stepped_ext; [|by eapply stepped_from; [..|exact Hst]].
    cbn. intros k m Hk. unfold subscribed. apply eq_bool_prop_intro.
    rewrite andb_True, !bool_decide_spec, list_elem_of_fmap. split.
    + intros (m' & Hid & Hin). apply list_elem_of_filter in Hin as [[<- <-] Hin].
      apply elem_of_hm_values in Hin as [k' Hk'].
      pose proof (wf_msgs _ (inv_wf _ Hinv) _ _ Hk). pose proof (wf_msgs _ (inv_wf _ Hinv) _ _ Hk').
      assert (m = m') as -> by (cbn in *; congruence). split; [done|]. by exists sub.
    + intros [Ho _]. exists m. split; [done|]. apply list_elem_of_filter.
      rewrite elem_of_hm_values. unfold m_owner in Ho. naive_solver.
  - intros [= <- <-]. cbn. rewrite delete_id by done. split; [|done].
    apply stepped_none; [|done..]. cbn. intros k m _. unfold subscribed.
    apply andb_false_iff. destruct (decide (m_owner m = (u, c))) as [->|].
    + right. rewrite Hsub. apply bool_decide_eq_false. by intros [].
    + left. by apply bool_decide_eq_false.
Qed.

Lemma remove_channels_spec u chans : forall w rss w',
  inv w -> seq_room (size (messages w.2)) w.1 ->
  st_mapM (remove_subscription u) chans w = (rss, w') ->
  stepped (fun m => bool_decide (m_uaid m = u /\ m_channel_id m ∈ chans) &&
                    subscribed (channels w.2) m) w (mjoin rss) w' /\
  channels w'.2 = filter (fun ks => ~ (ks.1.1 = u /\ ks.1.2 ∈ chans)) (channels w.2) /\
  user_agents w'.2 = user_agents w.2.
Proof.
  induction chans as [|c chans IH]; intros w rss w' Hinv Hroom.
  - cbn. intros [= <- <-]. split; [|split; [|done]].
    + apply stepped_none; [|done..]. intros k m _. apply andb_false_iff. left.
      apply bool_decide_eq_false. intros [_ []%not_elem_of_nil].
    + symmetry. apply map_filter_id. intros k x _ [_ []%not_elem_of_nil].
  - cbn. unfold mbind, st_bind.
    destruct (remove_subscription u c w) as [rs w1] eqn:Hrs.
    destruct (st_mapM (remove_subscription u) chans w1) as [rss' w2] eqn:Hrss. intros [= <- <-].
    destruct (remove_subscription_spec _ _ _ _ _ Hinv Hroom Hrs) as (Hst & Hc & Hu).
    destruct (IH _ _ _ (st_inv _ _ _ _ Hst) (st_room _ _ _ _ Hst) Hrss) as (Hst' & Hc' & Hu').
    split; [|split; [|congruence]].
    + eapply stepped_ext, stepped_app; [|done..]. intros k m _. cbv beta. rewrite Hc.
      apply eq_bool_prop_intro. unfold subscribed. rewrite orb_True, !andb_True, !bool_decide_spec.
      rewrite lookup_delete_is_Some, elem_of_cons. unfold m_owner.
      destruct (decide (m_channel_id m = c)); naive_solver.
    + rewrite Hc', Hc. apply map_eq. intros k. apply option_eq. intros x.
      rewrite !map_lookup_filter_Some, lookup_delete_Some, elem_of_cons. cbn.
      destruct k as [k1 k2]. naive_solver.
Qed.

Lemma remove_user_agent_spec u w rs w' :
  inv w -> seq_room (size (messages w.2)) w.1 -> remove_user_agent u w = (rs, w') ->
  stepped (fun m => bool_decide (m_uaid m = u) && subscribed (channels w.2) m) w rs w' /\
  channels w'.2 = filter (fun ks => ks.1.1 <> u) (channels w.2) /\
  user_agents w'.2 = delete u (user_agents w.2).
Proof.
  destruct w as [e s]. intros Hinv Hroom. cbn in *.
  unfold remove_user_agent, get, modify, with_state, mbind, st_bind. cbn.
  set (chans := snd <$> _).
  assert (Hchans : forall c, c ∈ chans <-> is_Some (channels s !! (u, c))).
  { intros c. unfold chans. rewrite list_elem_of_fmap. split.
    - intros ([k1 k2] & -> & [Hu Hin]%list_elem_of_filter). cbn in Hu. subst.
      by apply elem_of_hm_keys in Hin.
    - intros Hin. exists (u, c). split; [done|]. by apply list_elem_of_filter, conj, elem_of_hm_keys. }
  clearbody chans. destruct (st_mapM _ _ _) as [rss w2] eqn:Hrss. intros [= <- <-].
  apply remove_channels_spec in Hrss as (Hst & Hc & Hu); [|cbn|done].
  2:{ apply inv_set_user_agents; [|done]. intros k ua [? ?]%lookup_delete_Some.
      by apply (wf_uas _ (inv_wf _ Hinv)). }
  cbn in *. split; [|split; [|done]].
  - eapply stepped_ext; [|by eapply stepped_from; [..|exact Hst]].
    cbn. intros k m Hk. unfold subscribed. apply eq_bool_prop_intro.
    rewrite !andb_True, !bool_decide_spec, Hchans. unfold m_owner. naive_solver.
  - rewrite Hc. apply map_filter_ext. intros [k1 k2] x Hk. cbn. rewrite Hchans. naive_solver.
Qed.

Lemma remove_user_agents_spec us : forall w rss w',
  inv w -> seq_room (size (messages w.2)) w.1 ->
  st_mapM remove_user_agent us w = (rss, w') ->
  stepped (fun m => bool_decide (m_uaid m ∈ us) && subscribed (channels w.2) m)
    w (mjoin rss) w' /\
  channels w'.2 = filter (fun ks => ks.1.1 ∉ us) (channels w.2) /\
  user_agents w'.2 = filter (fun ku => ku.1 ∉ us) (user_agents w.2).
Proof.
  induction us as [|u us IH]; intros w rss w' Hinv Hroom.
  - cbn. intros [= <- <-]. split; [|split].
    + apply stepped_none; [|done..]. intros k m _. apply andb_false_iff. left.
      apply bool_decide_eq_false, not_elem_of_nil.
    + symmetry. apply map_filter_id. intros k x _. apply not_elem_of_nil.
    + symmetry. apply map_filter_id. intros k x _. apply not_elem_of_nil.
  - cbn. unfold mbind, st_bind.
    destruct (remove_user_agent u w) as [rs w1] eqn:Hrs.
    destruct (st_mapM remove_user_agent us w1) as [rss' w2] eqn:Hrss. intros [= <- <-].
    destruct (remove_user_agent_spec _ _ _ _ Hinv Hroom Hrs) as (Hst & Hc & Hu).
    destruct (IH _ _ _ (st_inv _ _ _ _ Hst) (st_room _ _ _ _ Hst) Hrss) as (Hst' & Hc' & Hu').
    split; [|split].
    + eapply stepped_ext, stepped_app; [|done..]. intros k m _. cbv beta. rewrite Hc.
      apply eq_bool_prop_intro. unfold subscribed. rewrite orb_True, !andb_True, !bool_decide_spec.
      unfold is_Some. setoid_rewrite map_lookup_filter_Some. rewrite elem_of_cons. cbn.
      destruct (decide (m_uaid m = u)); naive_solver.
    + rewrite Hc', Hc, map_filter_filter. apply map_filter_ext. intros k x _. cbn.
      rewrite not_elem_of_cons. tauto.
    + rewrite Hu', Hu. apply map_eq. intros k. apply option_eq. intros x.
      rewrite !map_lookup_filter_Some, lookup_delete_Some, not_elem_of_cons. cbn. naive_solver.
Qed.
End removals.

(** ** The adapter as an instance of the trait *)
Section refinement.
Context {HO : HashOrder} {B64 : Base64}.

#[export] Instance memory_store : Store State := {|
  Store.create_user_agent := create_user_agent;
  Store.user_agent := user_agent;
  Store.touch_user_agent := touch_user_agent;
  Store.update_bridge_token := update_bridge_token;
  Store.delete_user_agent := delete_user_agent;
  Store.expire_user_agents := expire_user_agents;
  Store.subscriptions := subscriptions;
  Store.channel := channel;
  Store.create_subscription := create_subscription;
  Store.subscription_by_push := subscription_by_push;
  Store.delete_subscription := delete_subscription;
  Store.insert_message := insert_message;
  Store.pending := pending;
  Store.message := message;
  Store.delete_message := delete_message;
  Store.create_receipt_sub := create_receipt_sub;
  Store.receipt_sub_exists := receipt_sub_exists;
  Store.delete_receipt_sub := delete_receipt_sub;
  Store.enqueue_receipt := enqueue_receipt;
  Store.queued_receipts := queued_receipts;
  Store.delete_receipt := delete_receipt;
  Store.reap := reap;
  Store.set_route := set_route;
  Store.route := route;
  Store.clear_route := clear_route;
|}.

(** Shapes of the proofs below: an operation that only looks, and one that
    changes the state without touching the environment. *)
Lemma reads_intro {A} (m : SM State A) (f : AStore -> A) :
  (forall w, m w = (Ok (f (view w.2)), w)) -> reads view inv m f.
Proof. intros Hm e s r e' s' Hinv _ Hrun. rewrite Hm in Hrun. by simplify_eq/=. Qed.

Lemma looks_intro {A} (m : SM State A) (P : AStore -> A -> Prop) :
  (forall w, exists r, m w = (Ok r, w) /\ (inv w -> P (view w.2) r)) ->
  meets view inv m no_pre (fun e a r e' a' => quiet e e' /\ a' = a /\ P a r).
Proof.
  intros Hm e s r e' s' Hinv _ Hrun. destruct (Hm (e, s)) as (r' & Hr & HP).
  rewrite Hr in Hrun. simplify_eq/=. split_and!; auto; done.
Qed.

Lemma writes_intro {A} (m : SM State A) (h : State -> State) pre f g :
  (forall e s, m (e, s) = (Ok (g (view s)), (e, h s))) ->
  (forall e s, inv (e, s) -> pre (view s) -> inv (e, h s) /\ view (h s) = f (view s)) ->
  writes view inv m pre f g.
Proof.
  intros Hm Hh e s r e' s' Hinv Hpre Hrun. rewrite Hm in Hrun. simplify_eq/=.
  destruct (Hh e' s Hinv Hpre). split_and!; done.
Qed.

Lemma inv_insert_user_agent e s ua :
  inv (e, s) -> inv (e, set_user_agents (<[ ua_uaid ua := ua ]> (user_agents s)) s).
Proof.
  intros Hinv. apply inv_set_user_agents; [|done].
  intros k x [[<- <-]|[? ?]]%lookup_insert_Some; [done|]. by apply (wf_uas _ (inv_wf _ Hinv)).
Qed.

Lemma memory_create_user_agent ua : writes view inv (create_user_agent ua) (fun _ => True)
  (fun a => set_a_uas (<[ ua_uaid ua := ua ]> (a_uas a)) a) (fun _ => ()).
Proof.
  apply (writes_intro _ (fun s => set_user_agents (<[ ua_uaid ua := ua ]> (user_agents s)) s)); [done|].
  intros e s Hinv _. split; [|done]. by apply inv_insert_user_agent.
Qed.

Lemma memory_touch_user_agent u now : meets view inv (touch_user_agent u now) no_pre
  (fun e a r e' a' => quiet e e' /\ match a_uas a !! u with
    | None => r = false /\ a' = a
    | Some ua => r = true /\ exists seen,
        (seen = now \/ seen = ua_last_seen ua /\ now <= seen)%N /\
        a' = set_a_uas (<[ u := {| ua_uaid := ua_uaid ua; ua_bridge := ua_bridge ua;
                                   ua_last_seen := seen |} ]> (a_uas a)) a
    end).
Proof.
  intros e s r e' s' Hinv _ Hrun. unfold touch_user_agent, get, modify, with_state in Hrun.
  unfold_monad. cbn in *. destruct (user_agents s !! u) as [ua|] eqn:Hua; simplify_eq/=; [|done].
  assert (ua_uaid ua = u) as <- by (by apply (wf_uas _ (inv_wf _ Hinv))).
  split; [|split; [done|split; [done|split; [done|]]]].
  - by apply (inv_insert_user_agent _ _ {| ua_uaid := ua_uaid ua |}).
  - exists (N.max (ua_last_seen ua) now). split; [lia|done].
Qed.

Lemma memory_update_bridge_token u t : meets view inv (update_bridge_token u t) no_pre
  (fun e a r e' a' => quiet e e' /\ match a_uas a !! u with
    | Some {| ua_uaid := i; ua_bridge := Some b; ua_last_seen := seen |} =>
        let b := {| ba_bridge := ba_bridge b; ba_app_id := ba_app_id b; ba_token := t |} in
        r = true /\
        a' = set_a_uas (<[ u := {| ua_uaid := i; ua_bridge := Some b;
                                   ua_last_seen := seen |} ]> (a_uas a)) a
    | _ => r = false /\ a' = a
    end).
Proof.
  intros e s r e' s' Hinv _ Hrun. unfold update_bridge_token, get, modify, with_state in Hrun.
  unfold_monad. cbn in *. destruct (user_agents s !! u) as [[i [b|] seen]|] eqn:Hua;
    simplify_eq/=; [|done..].
  assert (i = u) as -> by (by apply (wf_uas _ (inv_wf _ Hinv) u) in Hua).
  split; [|done]. by apply (inv_insert_user_agent _ _ {| ua_uaid := u |}).
Qed.

Lemma memory_subscriptions u : meets view inv (subscriptions u) no_pre
  (fun e a r e' a' => quiet e e' /\ a' = a /\
    r ≡ₚ filter (fun s => sub_uaid s = u) (map_to_list (a_subs a)).*2).
Proof. apply looks_intro. intros [e s]. eexists. split; [reflexivity|]. intros _. cbn. by rewrite hm_values_perm. Qed.

Lemma memory_subscription_by_push p : meets view inv (subscription_by_push p) no_pre
  (fun e a r e' a' => quiet e e' /\ a' = a /\
    forall sub, r = Some sub <-> sub_push sub = p /\
      a_subs a !! (sub_uaid sub, sub_channel_id sub) = Some sub).
Proof.
  apply looks_intro. intros [e s]. eexists. split; [reflexivity|]. intros [Hwf Hp _ _] sub. cbn in *.
  rewrite option_bind_Some. split.
  - intros (k & Hk & Hs). apply Hp in Hk as (sub' & Hs' & <-). assert (sub' = sub) as -> by congruence.
    split; [done|]. by rewrite (wf_subs _ Hwf _ _ Hs).
  - intros [<- Hs]. eexists. split; [|done]. apply Hp. eauto.
Qed.

Lemma memory_create_subscription u c v : meets view inv (create_subscription u c v)
  (fun e a => a_subs a !! (u, c) = None /\
    forall k s, a_subs a !! k = Some s -> sub_push s <> (new_id e).1)
  (fun e a sub e' a' => quiet e e' /\
    sub = {| sub_uaid := u; sub_channel_id := c; sub_push := (new_id e).1; sub_vapid := v |} /\
    a' = set_a_subs (<[ (u, c) := sub ]> (a_subs a)) a).
Proof.
  intros e s r e' s' Hinv [Hno Hfresh] Hrun.
  destruct (new_id e) as [i e1] eqn:Hi.
  unfold create_subscription, modify, with_state, with_env, lift_st, mbind, st_bind, mret, st_ret in Hrun.
  cbn in *. rewrite Hi in Hrun. injection Hrun as <- <- <-.
  assert (e1 = (new_id e).2) as -> by by rewrite Hi. clear Hi.
  destruct (new_id_env e) as [Hext Hq]. split; [|done].
  destruct Hinv as [[? Hsu Hpu ? ? ?] Hp Ht Hs]. split; cbn in *; [split; cbn; try done|..|done|by rewrite Hq].
  - intros k x [[<- <-]|[? ?]]%lookup_insert_Some; [done|]. eauto.
  - intros k1 k2 s1 s2 [[<- <-]|[? H1]]%lookup_insert_Some [[<- <-]|[? H2]]%lookup_insert_Some Heq;
      cbn in Heq; [done| | |eauto]; [by destruct (Hfresh _ _ H2)|by destruct (Hfresh _ _ H1)].
  - intros p k. rewrite lookup_insert_Some, Hp. split.
    + intros [[<- <-]|[Hne (x & Hx & <-)]].
      * eexists. by rewrite lookup_insert_eq.
      * exists x. split; [|done]. rewrite lookup_insert_ne; [done|]. intros <-. congruence.
    + intros (x & [[<- <-]|[Hne Hx]]%lookup_insert_Some & <-); [by left|]. right.
      split; [|by eauto]. intros Heq. by destruct (Hfresh _ _ Hx).
Qed.

Lemma memory_delete_subscription u c : meets view inv (delete_subscription u c) room
  (fun e a rs e' a' => match a_subs a !! (u, c) with
    | None => rs = [] /\ a' = a /\ quiet e e'
    | Some _ => removes (fun m => bool_decide (m_owner m = (u, c))) e a rs e' a' /\
        a_uas a' = a_uas a /\ a_subs a' = delete (u, c) (a_subs a)
    end).
Proof.
  intros e s rs e' s' Hinv Hroom Hrun. unfold delete_subscription, lift_st in Hrun.
  destruct (remove_subscription u c (e, s)) as [rs' w'] eqn:Hrs. simplify_eq/=.
  destruct (channels s !! (u, c)) as [sub|] eqn:Hsub.
  - destruct (remove_subscription_spec _ _ _ _ _ Hinv Hroom Hrs) as ([Hst ? ? ?] & ? & ?).
    split_and!; try done. eapply removes_ext; [|exact Hst]. cbn. intros k m _.
    unfold subscribed. destruct (decide (m_owner m = (u, c))) as [Ho|Ho].
    + rewrite Ho, Hsub, !bool_decide_true; done.
    + by rewrite (bool_decide_false (m_owner m = _)).
  - unfold remove_subscription, get, with_state in Hrs. unfold_monad. cbn in *.
    rewrite Hsub in Hrs. by simplify_eq/=.
Qed.

Lemma memory_delete_user_agent u : meets view inv (delete_user_agent u) room
  (fun e a rs e' a' => removes (of_user_agent a u) e a rs e' a' /\
    a_uas a' = delete u (a_uas a) /\ a_subs a' = filter (fun ks => ks.1.1 <> u) (a_subs a)).
Proof.
  intros e s rs e' s' Hinv Hroom Hrun. unfold delete_user_agent, lift_st in Hrun.
  destruct (remove_user_agent u (e, s)) as [rs' w'] eqn:Hrs. simplify_eq/=.
  by destruct (remove_user_agent_spec _ _ _ _ Hinv Hroom Hrs) as ([] & ? & ?).
Qed.

Lemma memory_expire_user_agents cutoff : meets view inv (expire_user_agents cutoff) room
  (fun e a r e' a' =>
    removes (fun m => stale a cutoff (m_uaid m) && of_user_agent a (m_uaid m) m) e a r.2 e' a' /\
    a_uas a' = filter (fun ku => stale a cutoff ku.1 = false) (a_uas a) /\
    a_subs a' = filter (fun ks => stale a cutoff ks.1.1 = false) (a_subs a) /\
    r.1 = N.of_nat (size (filter (fun ku => stale a cutoff ku.1 = true) (a_uas a)))).
Proof.
  intros e s r e' s' Hinv Hroom Hrun.
  unfold expire_user_agents, get, with_state, lift_st, mbind, st_bind, mret, st_ret in Hrun. cbn in *.
  set (us := ua_uaid <$> _) in Hrun.
  assert (Hlen : length us = size (filter (fun ku => stale (view s) cutoff ku.1 = true) (user_agents s))).
  { unfold us. rewrite length_fmap, hm_values_perm, <- length_map_to_list, <- (length_fmap snd).
    rewrite <- map_filter_values. do 3 f_equal. apply map_filter_ext. intros k ua Hk. unfold stale.
    cbn. rewrite Hk. by rewrite N.ltb_lt. }
  assert (Hus : forall u, u ∈ us <-> stale (view s) cutoff u = true).
  { intros u. unfold us, stale. rewrite list_elem_of_fmap. cbn. split.
    - intros (ua & -> & [Hlt [k Hk]%elem_of_hm_values]%list_elem_of_filter).
      rewrite (wf_uas _ (inv_wf _ Hinv) _ _ Hk), Hk. by apply N.ltb_lt.
    - destruct (user_agents s !! u) as [ua|] eqn:Hu; [|done]. intros Hlt%N.ltb_lt. exists ua.
      rewrite (wf_uas _ (inv_wf _ Hinv) _ _ Hu). split; [done|].
      apply list_elem_of_filter. rewrite elem_of_hm_values. eauto. }
  clearbody us. destruct (st_mapM remove_user_agent us (e, s)) as [rss w'] eqn:Hrs. simplify_eq/=.
  destruct (remove_user_agents_spec _ _ _ _ Hinv Hroom Hrs) as ([Hst ? ? ?] & Hc & Hu).
  split_and!; try done; [| | |by rewrite Hlen].
  - eapply removes_ext; [|exact Hst]. cbn. intros k m _. apply eq_bool_prop_intro.
    unfold of_user_agent, subscribed. rewrite !andb_True, !bool_decide_spec, Hus, <- Is_true_true. cbn.
    naive_solver.
  - cbn in *. rewrite Hu. apply map_filter_ext. intros k x _. cbn. by rewrite Hus, not_true_iff_false.
  - cbn in *. rewrite Hc. apply map_filter_ext. intros k x _. cbn. by rewrite Hus, not_true_iff_false.
Qed.

(** [insert_message] as an update of the two maps it touches. *)
Definition insert_state (m : Message) (s : State) : State :=
  set_topics (match m_slot m with Some sl => <[ sl := m_id m ]> (topics s) | None => topics s end)
    (set_messages (a_insert_message m (messages s)) s).

Lemma insert_message_eq m e s :
  inv (e, s) -> insert_message m (e, s) = (Ok (), (e, insert_state m s)).
Proof.
  intros [Hwf _ Ht _]. cbn in *.
  assert (Hdel : forall sl, m_slot m = Some sl ->
    filter (fun km => m_slot km.2 <> Some sl) (messages s) =
    match topics s !! sl with Some old => delete old (messages s) | None => messages s end).
  { intros sl Hm. destruct (topics s !! sl) as [old|] eqn:Hold.
    - apply Ht in Hold as (x & Hx & Hsl). apply map_eq. intros k. apply option_eq. intros y.
      rewrite lookup_delete_Some, map_lookup_filter_Some. cbn. split.
      + intros [Hy Hne]. split; [|done]. intros <-. congruence.
      + intros [Hne Hy]. split; [done|]. intros Hsl'. by destruct Hne; eapply wf_slot.
    - apply map_filter_id. intros k y Hy Hsl. cbn in *.
      assert (topics s !! sl = Some k) as Hk by (apply Ht; eauto). congruence. }
  unfold insert_message, insert_state, modify, with_state, lift_st, a_insert_message.
  unfold m_slot in *. destruct (m_topic m) as [t|] eqn:Htop; cbn; [|by destruct s].
  rewrite (Hdel _ eq_refl). destruct (topics s !! _) as [old|] eqn:Hold; by destruct s.
Qed.

Lemma a_insert_message_Some m msgs k x :
  msgs !! m_id m = None ->
  a_insert_message m msgs !! k = Some x <->
  k = m_id m /\ x = m \/
  msgs !! k = Some x /\ (m_slot m = None \/ m_slot x <> m_slot m).
Proof.
  intros Hfresh. unfold a_insert_message. rewrite lookup_insert_Some.
  destruct (m_slot m) as [sl|].
  - rewrite map_lookup_filter_Some. cbn. split; [naive_solver|].
    intros [[-> ->]|[? [?|?]]]; [by left|done|]. right. split; [congruence|done].
  - split; [naive_solver|]. intros [[-> ->]|[? ?]]; [by left|]. right. split; [congruence|done].
Qed.

Lemma inv_insert_message m e s :
  inv (e, s) -> messages s !! m_id m = None -> inv (e, insert_state m s).
Proof.
  intros [[? ? ? Hm Hsl ?] Hp Ht Hs] Hfresh.
  pose proof (fun k x => a_insert_message_Some m (messages s) k x Hfresh) as Hin.
  split; cbn -[a_insert_message] in *; [split; cbn -[a_insert_message]; try done|done| |done].
  - intros k x [[-> ->]|[? _]]%Hin; eauto.
  - intros k1 k2 m1 m2 sl [[-> ->]|[H1 Hc1]]%Hin [[-> ->]|[H2 Hc2]]%Hin Hs1 Hs2;
      [done|destruct Hc2; congruence|destruct Hc1; congruence|eauto].
  - intros sl id. setoid_rewrite Hin. destruct (m_slot m) as [sl'|] eqn:Hsl'.
    + rewrite lookup_insert_Some, Ht. split.
      * intros [[<- <-]|[? (x & ? & ?)]]; [by eauto|]. exists x. split; [|done]. right.
        split; [done|]. right. congruence.
      * intros (x & [[-> ->]|[? [?|?]]] & ?); [left; split; congruence|done|].
        right. split; [congruence|]. eauto.
    + rewrite Ht. split.
      * intros (x & ? & ?). eauto 6.
      * intros (x & [[-> ->]|[? _]] & ?); [congruence|eauto].
Qed.

Lemma memory_insert_message m :
  writes view inv (insert_message m) (fun a => a_msgs a !! m_id m = None)
    (fun a => set_a_msgs (a_insert_message m (a_msgs a)) a) (fun _ => ()).
Proof.
  intros e s r e' s' Hinv Hpre Hrun. rewrite insert_message_eq in Hrun by done.
  injection Hrun as <- <- <-. split; [by apply inv_insert_message|done].
Qed.

Lemma memory_pending u now limit : meets view inv (pending u now limit) no_pre
  (fun e a ms e' a' => quiet e e' /\ a' = a /\ exists all,
    StronglySorted msg_le all /\
    all ≡ₚ filter (fun m => m_uaid m = u /\ (now < m_expiry m)%N) (map_to_list (a_msgs a)).*2 /\
    ms = truncate limit all).
Proof.
  apply looks_intro. intros [e s]. eexists. split; [reflexivity|]. intros _. cbn.
  eexists. split; [|split; [|reflexivity]].
  - by apply StronglySorted_merge_sort; apply _.
  - by rewrite merge_sort_Permutation, hm_values_perm.
Qed.

Lemma remove_message_None id s o s' :
  remove_message id s = (o, s') -> messages s !! id = None -> o = None /\ s' = s.
Proof. unfold remove_message. intros Hr Hno. rewrite Hno in Hr. by simplify_eq. Qed.

Lemma memory_delete_message id owner :
  writes view inv (delete_message id owner) (fun _ => True)
    (fun a => match m ← a_msgs a !! id; if owned_by owner m then Some m else None with
              | Some _ => set_a_msgs (delete id (a_msgs a)) a
              | None => a
              end)
    (fun a => m ← a_msgs a !! id; if owned_by owner m then Some m else None).
Proof.
  intros e s r e' s' Hinv _ Hrun. unfold delete_message, get, with_state, lift_st, mbind, st_bind in Hrun.
  cbn in *. destruct (messages s !! id) as [m|] eqn:Hm; cbn in *; [|by simplify_eq/=].
  assert (owned_by owner m = match owner with None => true
    | Some (u, ch) => bool_decide (m_uaid m = u) && bool_decide (m_channel_id m = ch) end) as Ho.
  { unfold owned_by, m_owner. destruct owner as [[u ch]|]; [|done].
    rewrite <- bool_decide_and. apply bool_decide_ext. naive_solver. }
  rewrite <- Ho in Hrun. clear Ho. destruct (owned_by owner m); cbn in *; [|by simplify_eq/=].
  destruct (remove_message id s) as [o s1] eqn:Hr. simplify_eq/=.
  assert (r = Some m) as -> by (unfold remove_message in Hr; rewrite Hm in Hr; by simplify_eq/=).
  destruct (inv_remove_message _ _ _ _ _ Hinv Hr) as (Hi & _ & _ & Hms & Hrs & Hro & Hua & Hch).
  split_and!; try done. unfold view, set_a_msgs. cbn. congruence.
Qed.

Lemma memory_create_receipt_sub : meets view inv create_receipt_sub
  (fun e a => a_queues a !! (new_id e).1 = None)
  (fun e a r e' a' => quiet e e' /\ r = (new_id e).1 /\
    a' = set_a_queues (<[ r := ∅ ]> (a_queues a)) a).
Proof.
  intros e s r e' s' [[] Hp Ht Hs] Hfresh Hrun. destruct (new_id_env e) as [Hext Hq].
  destruct (new_id e) as [i e1] eqn:Hi.
  unfold create_receipt_sub, modify, with_state, with_env, lift_st, mbind, st_bind, mret, st_ret in Hrun.
  cbn in *. rewrite Hi in Hrun. injection Hrun as <- <- <-.
  split; [|done]. split; cbn in *; [split; cbn; try done|done..|].
  - intros k q sq x [[<- <-]|[? ?]]%lookup_insert_Some; [by rewrite lookup_empty|]. eauto.
  - rewrite Hq. intros k q sq x [[<- <-]|[? ?]]%lookup_insert_Some; [by rewrite lookup_empty|]. eauto.
Qed.

(** Replacing the queues by others that only hold receipts they held. *)
Lemma inv_set_receipts e s qs :
  inv (e, s) ->
  (forall k q, qs !! k = Some q -> exists q0, receipts s !! k = Some q0 /\ q ⊆ q0) ->
  inv (e, set_receipts qs s).
Proof.
  intros [[] Hp Ht Hs] Hsub. split; cbn in *; [split; cbn; try done|done..|];
    intros k q sq x Hk Hx; destruct (Hsub _ _ Hk) as (q0 & Hq0 & Hle);
    eapply lookup_weaken in Hx; eauto.
Qed.

Lemma memory_delete_receipt_sub r : writes view inv (delete_receipt_sub r) (fun _ => True)
  (fun a => set_a_queues (delete r (a_queues a)) a)
  (fun a => bool_decide (is_Some (a_queues a !! r))).
Proof.
  apply (writes_intro _ (fun s => set_receipts (delete r (receipts s)) s)); [done|].
  intros e s Hinv _. split; [|done]. apply inv_set_receipts; [done|].
  intros k q [? ?]%lookup_delete_Some. eauto.
Qed.

Lemma memory_enqueue_receipt rc : meets view inv (enqueue_receipt rc) (fun e _ => seq_room 1 e)
  (fun e a o e' a' => match a_queues a !! r_rsub rc with
    | None => o = None /\ a' = a /\ quiet e e'
    | Some _ => exists seq, o = Some seq /\ numbered e [(seq, rc)] e' /\
        a' = set_a_queues (enqueue (a_queues a) (seq, rc)) a
    end).
Proof.
  intros e s o e' s' Hinv Hroom Hrun.
  unfold enqueue_receipt, get, modify, with_state, with_env, lift_st, mbind, st_bind, mret, st_ret in Hrun.
  cbn in *. destruct (receipts s !! r_rsub rc) as [q|] eqn:Hq; cbn in *; [|by simplify_eq/=].
  destruct (next_seq e) as [n e1] eqn:Hn. cbn in *.
  destruct (next_seq_room _ _ _ _ Hroom Hn) as (_ & Hlt & Hl & Hext).
  assert (<[ r_rsub rc := <[ n := rc ]> q ]> (receipts s) = enqueue (receipts s) (n, rc)) as He.
  { unfold enqueue. cbn. apply map_eq. intros k. destruct (decide (k = r_rsub rc)) as [->|].
    - by rewrite lookup_insert_eq, lookup_alter_eq, Hq.
    - by rewrite lookup_insert_ne, lookup_alter_ne. }
  injection Hrun as <- <- <-. rewrite He. split; [by eapply inv_enqueue|]. split; [done|].
  exists n. split_and!; [done|by apply numbered_one|done].
Qed.

#[export] Instance seq_le_total : Total seq_le.
Proof. intros x y. unfold seq_le. lia. Qed.
#[export] Instance seq_le_trans : Transitive seq_le.
Proof. intros x y z. unfold seq_le. lia. Qed.

Lemma memory_queued_receipts r : meets view inv (queued_receipts r) no_pre
  (fun e a rs e' a' => quiet e e' /\ a' = a /\ StronglySorted N.lt rs.*1 /\
    rs ≡ₚ map_to_list (default ∅ (a_queues a !! r))).
Proof.
  apply looks_intro. intros [e s]. eexists. split; [reflexivity|]. intros _. cbn.
  destruct (receipts s !! r) as [q|]; cbn; [|split; [constructor|by rewrite map_to_list_empty]].
  unfold btree_iter. split; [|apply merge_sort_Permutation].
  assert (StronglySorted seq_le (merge_sort seq_le (map_to_list q))) as Hs.
  { apply StronglySorted_merge_sort; apply _. }
  assert (NoDup (merge_sort seq_le (map_to_list q)).*1) as Hnd.
  { rewrite merge_sort_Permutation. apply NoDup_fst_map_to_list. }
  revert Hs Hnd. generalize (merge_sort seq_le (map_to_list q)).
  induction l as [|x l IH]; intros Hs Hnd; [constructor|].
  inversion Hs as [|? ? Hs' Hall]; subst. apply NoDup_cons in Hnd as [Hx Hnd]. cbn.
  constructor; [by apply IH|]. apply List.Forall_forall. intros n Hn%list_elem_of_In.
  apply list_elem_of_fmap in Hn as (y & -> & Hy).
  rewrite Forall_forall in Hall. specialize (Hall _ Hy). unfold seq_le in Hall.
  assert (x.1 <> y.1); [|lia]. intros Heq. apply Hx. rewrite Heq. by apply list_elem_of_fmap_2.
Qed.

Lemma memory_delete_receipt r sq : writes view inv (delete_receipt r sq) (fun _ => True)
  (fun a => set_a_queues (alter (delete sq) r (a_queues a)) a) (fun _ => ()).
Proof.
  apply (writes_intro _ (fun s => set_receipts (alter (delete sq) r (receipts s)) s)).
  - intros e s. unfold delete_receipt, modify, with_state, lift_st. cbn.
    destruct (receipts s !! r) as [q|] eqn:Hq; do 2 f_equal; unfold set_receipts.
    + f_equal. apply map_eq. intros k. destruct (decide (k = r)) as [->|].
      * by rewrite lookup_insert_eq, lookup_alter_eq, Hq.
      * by rewrite lookup_insert_ne, lookup_alter_ne.
    + rewrite alter_id by naive_solver. by destruct s.
  - intros e s Hinv _. split; [|done]. apply inv_set_receipts; [done|].
    intros k q [(<- & q0 & ? & ->)|[? ?]]%lookup_alter_Some; [|by eauto].
    eexists. split; [done|]. apply delete_subseteq.
Qed.

Lemma memory_reap now : meets view inv (reap now) room
  (fun e a rs e' a' => exists P,
    (forall m, P m = true -> (m_expiry m <= now)%N) /\
    (forall m, (m_expiry m <= now)%N -> m_rsub m <> None -> P m = true) /\
    removes P e a rs e' a' /\ a_uas a' = a_uas a /\ a_subs a' = a_subs a).
Proof.
  intros e s rs e' s' Hinv Hroom Hrun.
  unfold reap, get, with_state, lift_st, mbind, st_bind in Hrun. cbn in *.
  destruct (remove_all _ _) as [rs' w'] eqn:Hrs. simplify_eq/=.
  destruct (remove_all_spec _ _ _ _ Hinv Hroom Hrs) as (Hst & Hc & Hu). cbn in *.
  assert (Hst' : stepped (fun m => bool_decide (m_expiry m <= now)%N) (e, s) rs (e', s')).
  { eapply stepped_ext; [|exact Hst]. cbn. intros k m Hk. apply bool_decide_ext.
    rewrite list_elem_of_fmap. setoid_rewrite list_elem_of_filter.
    setoid_rewrite elem_of_hm_values. split; [|by eauto].
    intros (m' & Hid & Hexp & k' & Hk').
    pose proof (wf_msgs _ (inv_wf _ Hinv) _ _ Hk). pose proof (wf_msgs _ (inv_wf _ Hinv) _ _ Hk').
    cbn in *. by assert (m = m') as -> by congruence. }
  destruct Hst'. split_and!; try done. exists (fun m => bool_decide (m_expiry m <= now)%N).
  split_and!; try done.
  - intros m. apply bool_decide_eq_true.
  - intros m ? _. by apply bool_decide_eq_true.
Qed.

Lemma inv_set_routes e s x : inv (e, s) -> inv (e, set_routes x s).
Proof. intros [[] ? ? ?]. split; cbn in *; [split|..]; done. Qed.

Lemma memory_set_route to node : writes view inv (set_route to node) (fun _ => True)
  (fun a => set_a_routes (<[ to := node ]> (a_routes a)) a) (fun a => a_routes a !! to).
Proof.
  apply (writes_intro _ (fun s => set_routes (<[ to := node ]> (routes s)) s)); [done|].
  intros e s ? _. split; [|done]. by apply inv_set_routes.
Qed.

Lemma memory_clear_route to node : writes view inv (clear_route to node) (fun _ => True)
  (fun a => if decide (a_routes a !! to = Some node)
            then set_a_routes (delete to (a_routes a)) a else a)
  (fun a => bool_decide (a_routes a !! to = Some node)).
Proof.
  apply (writes_intro _ (fun s => if decide (routes s !! to = Some node)
    then set_routes (delete to (routes s)) s else s)).
  - intros e s. unfold clear_route, get, modify, with_state, lift_st, mbind, st_bind. cbn.
    case_decide; [by rewrite bool_decide_true|by rewrite bool_decide_false].
  - intros e s ? _. cbn. case_decide; split; try done. by apply inv_set_routes.
Qed.

Lemma memory_laws : StoreLaws view inv.
Proof.
  split.
  - intros e s Hinv. apply (inv_wf _ Hinv).
  - intros e e' s [? ? ? Hseq] _ Hq. split; try done. intros k q seq r. cbn. rewrite Hq. apply Hseq.
  - apply memory_create_user_agent.
  - intros u. by apply reads_intro; intros [].
  - apply memory_touch_user_agent.
  - apply memory_update_bridge_token.
  - apply memory_delete_user_agent.
  - apply memory_expire_user_agents.
  - apply memory_subscriptions.
  - intros u c. by apply reads_intro; intros [].
  - apply memory_create_subscription.
  - apply memory_subscription_by_push.
  - apply memory_delete_subscription.
  - apply memory_insert_message.
  - apply memory_pending.
  - intros id. by apply reads_intro; intros [].
  - apply memory_delete_message.
  - apply memory_create_receipt_sub.
  - intros r. by apply reads_intro; intros [].
  - apply memory_delete_receipt_sub.
  - apply memory_enqueue_receipt.
  - apply memory_queued_receipts.
  - apply memory_delete_receipt.
  - apply memory_reap.
  - apply memory_set_route.
  - intros to. by apply reads_intro; intros [].
  - apply memory_clear_route.
Qed.

(** The memory store never fails. *)
Lemma memory_faults : FaultLaws view inv.
Proof.
  split; intros until 1; cbn; unfold clear_route, delete_receipt, get, modify, with_state, lift_st,
    mbind, st_bind; cbn; try case_decide; intros [=].
Qed.
End refinement.
