(* ===== verification/MemoryRuns.v ===== *)
(** * Runs of [MemoryStore]

    Any sequence of operations on a store, whoever issues them: the reachable
    states by rule induction, and what holds along every run. *)
From S2P Require Import Prelude RustStr External StoreTypes Store MemoryStore MemoryProofs.

(** The calls that change a store. *)
Inductive Op : Type :=
| OpCreateUserAgent (ua : UserAgent)
| OpTouchUserAgent (u : string) (now : N)
| OpUpdateBridgeToken (u token : string)
| OpDeleteUserAgent (u : string)
| OpExpireUserAgents (cutoff : N)
| OpCreateSubscription (u c : string) (vapid : option Bytes)
| OpDeleteSubscription (u c : string)
| OpInsertMessage (m : Message)
| OpDeleteMessage (id : string) (owner : option (string * string))
| OpCreateReceiptSub
| OpDeleteReceiptSub (r : string)
| OpEnqueueReceipt (r : Receipt)
| OpDeleteReceipt (r : string) (sq : N)
| OpReap (now : N)
| OpSetRoute (to : Recipient) (node : string)
| OpClearRoute (to : Recipient) (node : string).

Section runs.
Context {HO : HashOrder} {B64 : Base64}.

Definition quietly {A} (m : SM State A) : SM State unit := _ ← m; mret ().

Definition exec (op : Op) : SM State unit :=
  match op with
  | OpCreateUserAgent ua => create_user_agent ua
  | OpTouchUserAgent u now => quietly (touch_user_agent u now)
  | OpUpdateBridgeToken u t => quietly (update_bridge_token u t)
  | OpDeleteUserAgent u => quietly (delete_user_agent u)
  | OpExpireUserAgents cutoff => quietly (expire_user_agents cutoff)
  | OpCreateSubscription u c v => quietly (create_subscription u c v)
  | OpDeleteSubscription u c => quietly (delete_subscription u c)
  | OpInsertMessage m => insert_message m
  | OpDeleteMessage id owner => quietly (delete_message id owner)
  | OpCreateReceiptSub => quietly create_receipt_sub
  | OpDeleteReceiptSub r => quietly (delete_receipt_sub r)
  | OpEnqueueReceipt r => quietly (enqueue_receipt r)
  | OpDeleteReceipt r sq => delete_receipt r sq
  | OpReap now => quietly (reap now)
  | OpSetRoute to node => quietly (set_route to node)
  | OpClearRoute to node => quietly (clear_route to node)
  end.

(** What a caller guarantees: the ids it draws or inserts are not in use
    (they are 128 random bits), and sequence numbers are not exhausted. *)
Definition allowed (op : Op) (w : Env * State) : Prop :=
  match op with
  | OpCreateSubscription u c _ => channels w.2 !! (u, c) = None /\
      forall k s, channels w.2 !! k = Some s -> sub_push s <> (new_id w.1).1
  | OpInsertMessage m => messages w.2 !! m_id m = None
  | OpCreateReceiptSub => receipts w.2 !! (new_id w.1).1 = None
  | OpDeleteUserAgent _ | OpExpireUserAgents _ | OpDeleteSubscription _ _ | OpReap _ =>
      seq_room (size (messages w.2)) w.1
  | OpEnqueueReceipt _ => seq_room 1 w.1
  | _ => True
  end.

(** One step: an allowed operation, or another part of the process reading
    the clock, drawing random octets or issuing sequence numbers. *)
Inductive step : option Op -> Env * State -> Env * State -> Prop :=
| step_op op w w' : allowed op w -> exec op w = (Ok (), w') -> step (Some op) w w'
| step_env e e' s : env_extends e e' -> (env_last_seq e <= env_last_seq e')%N ->
    step None (e, s) (e', s).

(** The states of a process that started with an empty store. *)
Inductive reachable : Env * State -> Prop :=
| reachable_new e : reachable (e, new)
| reachable_step l w w' : reachable w -> step l w w' -> reachable w'.

(** Runs all of whose operations satisfy [ok]. *)
Inductive run (ok : Op -> Prop) : Env * State -> Env * State -> Prop :=
| run_nil w : run ok w w
| run_op op w w1 w2 : ok op -> step (Some op) w w1 -> run ok w1 w2 -> run ok w w2
| run_env w w1 w2 : step None w w1 -> run ok w1 w2 -> run ok w w2.

Lemma inv_new e : inv (e, new).
Proof.
  split; cbn; [split; cbn; intros; by rewrite ?lookup_empty in *|..].
  - intros. rewrite lookup_empty. split; [done|]. intros (? & H & _). by rewrite lookup_empty in H.
  - intros. rewrite lookup_empty. split; [done|]. intros (? & H & _). by rewrite lookup_empty in H.
  - intros * H. by rewrite lookup_empty in H.
Qed.

Lemma inv_env e e' s : (env_last_seq e <= env_last_seq e')%N -> inv (e, s) -> inv (e', s).
Proof.
  intros Hle [? ? ? Hs]. split; try done. cbn in *. intros k q sq r Hk Hq.
  specialize (Hs _ _ _ _ Hk Hq). lia.
Qed.

Lemma quietly_Ok {A} (m : SM State A) w w' :
  quietly m w = (Ok (), w') -> exists r, m w = (Ok r, w').
Proof. unfold quietly. intros (a & w1 & Hm & Hr)%est_bind_Ok. injection Hr as <-. eauto. Qed.

(** Every operation of a run returns normally and meets the contract, so it
    keeps the invariant. *)
Lemma meets_inv {A} (m : SM State A) pre post e s r w' :
  meets view inv m pre post -> inv (e, s) -> pre e (view s) -> m (e, s) = (Ok r, w') -> inv w'.
Proof. destruct w' as [e' s']. intros Hm Hi Hp Hr. by destruct (Hm _ _ _ _ _ Hi Hp Hr). Qed.

Lemma exec_inv op w w' : inv w -> allowed op w -> exec op w = (Ok (), w') -> inv w'.
Proof.
  destruct w as [e s]. intros Hi Hp Hr.
  pose proof memory_laws as L.
  destruct op; cbn in Hp, Hr; try (apply quietly_Ok in Hr as [r' Hr]);
    first [ exact (meets_inv _ _ _ _ _ _ _ (law_create_user_agent _ _ L _) Hi I Hr)
          | exact (meets_inv _ _ _ _ _ _ _ (law_touch_user_agent _ _ L _ _) Hi I Hr)
          | exact (meets_inv _ _ _ _ _ _ _ (law_update_bridge_token _ _ L _ _) Hi I Hr)
          | exact (meets_inv _ _ _ _ _ _ _ (law_delete_user_agent _ _ L _) Hi Hp Hr)
          | exact (meets_inv _ _ _ _ _ _ _ (law_expire_user_agents _ _ L _) Hi Hp Hr)
          | exact (meets_inv _ _ _ _ _ _ _ (law_create_subscription _ _ L _ _ _) Hi Hp Hr)
          | exact (meets_inv _ _ _ _ _ _ _ (law_delete_subscription _ _ L _ _) Hi Hp Hr)
          | exact (meets_inv _ _ _ _ _ _ _ (law_insert_message _ _ L _) Hi Hp Hr)
          | exact (meets_inv _ _ _ _ _ _ _ (law_delete_message _ _ L _ _) Hi I Hr)
          | exact (meets_inv _ _ _ _ _ _ _ (law_create_receipt_sub _ _ L) Hi Hp Hr)
          | exact (meets_inv _ _ _ _ _ _ _ (law_delete_receipt_sub _ _ L _) Hi I Hr)
          | exact (meets_inv _ _ _ _ _ _ _ (law_enqueue_receipt _ _ L _) Hi Hp Hr)
          | exact (meets_inv _ _ _ _ _ _ _ (law_delete_receipt _ _ L _ _) Hi I Hr)
          | exact (meets_inv _ _ _ _ _ _ _ (law_reap _ _ L _) Hi Hp Hr)
          | exact (meets_inv _ _ _ _ _ _ _ (law_set_route _ _ L _ _) Hi I Hr)
          | exact (meets_inv _ _ _ _ _ _ _ (law_clear_route _ _ L _ _) Hi I Hr) ].
Qed.

Lemma inv_reachable w : reachable w -> inv w.
Proof.
  induction 1 as [e|l w w' _ IH Hstep]; [apply inv_new|].
  destruct Hstep; [by eapply exec_inv|by eapply inv_env].
Qed.

(** ** Re-created channels

    [MemoryStore::create_subscription] overwrites the subscription of a
    channel that has one and leaves the replaced push id in the push index.
    [reached] admits that too: all a caller has to draw is an unused push id. *)
Definition allowed_any (op : Op) (w : Env * State) : Prop :=
  match op with
  | OpCreateSubscription _ _ _ => forall k s, channels w.2 !! k = Some s -> sub_push s <> (new_id w.1).1
  | _ => allowed op w
  end.

Inductive reached : Env * State -> Prop :=
| reached_new e : reached (e, new)
| reached_op op w w' : reached w -> allowed_any op w -> exec op w = (Ok (), w') -> reached w'
| reached_env e e' s : reached (e, s) -> env_extends e e' -> (env_last_seq e <= env_last_seq e')%N ->
    reached (e', s).

(** [m] does not look at the push index: without some of its entries it
    returns the same, and its end differs in these entries at most. *)
Definition blind {A} (m : ST (Env * State) A) : Prop := forall e s p, p ⊆ push s ->
  exists p', p' ⊆ push (m (e, s)).2.2 /\
    m (e, set_push p s) = ((m (e, s)).1, ((m (e, s)).2.1, set_push p' (m (e, s)).2.2)).

Lemma blind_ret {A} (a : A) : blind (mret a).
Proof. intros e s p Hp. by exists p. Qed.
Lemma blind_bind {A B} (m : ST (Env * State) A) (f : A -> ST (Env * State) B) :
  blind m -> (forall a, blind (f a)) -> blind (m ≫= f).
Proof.
  intros Hm Hf e s p Hp. destruct (Hm e s p Hp) as (p1 & Hp1 & H1). unfold mbind, st_bind. rewrite H1.
  destruct (m (e, s)) as [a [e1 s1]]. by apply Hf.
Qed.
Lemma blind_get {B} (f : State -> ST (Env * State) B) :
  (forall s p, f (set_push p s) = f s) -> (forall s, blind (f s)) -> blind (get ≫= f).
Proof.
  intros Hs Hf e s p Hp. unfold mbind, st_bind, get, with_state. cbn [fst snd].
  rewrite Hs. by apply Hf.
Qed.
Lemma blind_with_state {A} (m : ST State A) (g : gmap string (string * string) -> gmap string (string * string)) :
  (forall p p', p ⊆ p' -> g p ⊆ g p') ->
  (forall s p, m (set_push p s) = ((m s).1, set_push (g p) (m s).2)) -> (forall s, push (m s).2 = g (push s)) ->
  blind (with_state m).
Proof.
  intros Hg Hm Hp e s p Hsub. exists (g p). unfold with_state. cbn [fst snd]. rewrite Hm.
  specialize (Hp s). destruct (m s) as [a s1]. cbn in *. rewrite Hp. auto.
Qed.
Lemma blind_modify f (g : gmap string (string * string) -> gmap string (string * string)) :
  (forall p p', p ⊆ p' -> g p ⊆ g p') ->
  (forall s p, f (set_push p s) = set_push (g p) (f s)) -> (forall s, push (f s) = g (push s)) ->
  blind (modify f).
Proof. intros Hg Hf Hp. apply (blind_with_state _ g); [done| |done]. intros s p. cbn. by rewrite Hf. Qed.
Lemma blind_with_env {A} (m : ST Env A) : blind (with_env m).
Proof. intros e s p Hp. exists p. unfold with_env. cbn [fst snd]. by destruct (m e). Qed.
Lemma blind_mapM {A B} (f : A -> ST (Env * State) B) l : (forall x, blind (f x)) -> blind (st_mapM f l).
Proof.
  intros Hf. induction l as [|x l IH]; [apply blind_ret|]. apply blind_bind; [done|]. intros y.
  apply blind_bind; [done|]. intros ys. apply blind_ret.
Qed.
Lemma blind_owe_410 m : blind (owe_410 m).
Proof.
  intros e s p Hp. unfold owe_410. destruct (m_rsub m) as [r|]; [|by exists p].
  cbn. destruct (receipts s !! r); [|by exists p]. destruct (next_seq e). by exists p.
Qed.
Lemma blind_remove_message id : blind (with_state (remove_message id)).
Proof.
  apply (blind_with_state _ (fun p => p)); [done|..]; intros s; unfold remove_message; cbn;
    destruct (messages s !! id) as [m|]; try done; by destruct (m_topic m).
Qed.
Lemma blind_remove_all ids : blind (remove_all ids).
Proof.
  induction ids as [|id ids IH]; [apply blind_ret|]. apply blind_bind; [apply blind_remove_message|].
  intros o. apply blind_bind; [|intros rs; apply blind_bind; [done|intros; apply blind_ret]].
  destruct o; [|apply blind_ret]. apply blind_bind; [apply blind_owe_410|]. intros; apply blind_ret.
Qed.
Lemma blind_remove_subscription u c : blind (remove_subscription u c).
Proof.
  apply blind_get; [done|]. intros s. destruct (channels s !! (u, c)) as [sub|]; [|apply blind_ret].
  apply blind_bind; [by apply (blind_modify _ (fun p => p))|]. intros _.
  apply blind_bind; [apply (blind_modify _ (base.delete (sub_push sub))); [|done..]; intros ??; by apply delete_mono|].
  intros _. apply blind_get; [done|]. intros s'. apply blind_remove_all.
Qed.
Lemma blind_remove_user_agent u : blind (remove_user_agent u).
Proof.
  apply blind_bind; [by apply (blind_modify _ (fun p => p))|]. intros _. apply blind_get; [done|].
  intros s. apply blind_bind; [apply blind_mapM, blind_remove_subscription|]. intros; apply blind_ret.
Qed.

Lemma blind_lift {A} (m : ST (Env * State) A) : blind m -> blind (A := result BoxError A) (lift_st m).
Proof. intros Hm e s p Hp. unfold lift_st. destruct (Hm e s p Hp) as (p' & ? & ->). exists p'. by destruct (m (e, s)). Qed.
Lemma blind_quietly {A} (m : SM State A) : blind (A := result BoxError A) m -> blind (A := result BoxError unit) (quietly m).
Proof.
  intros Hm e s p Hp. unfold quietly, mbind, est_bind. destruct (Hm e s p Hp) as (p' & ? & ->). exists p'.
  by destruct (m (e, s)) as [[] []].
Qed.
Lemma blind_update f : (forall s p, f (set_push p s) = set_push p (f s)) -> (forall s, push (f s) = push s) ->
  blind (modify f).
Proof. intros Hf Hp. by apply (blind_modify _ (fun p => p)). Qed.

Lemma exec_blind op : blind (A := result BoxError unit) (exec op).
Proof.
  destruct op; cbn [exec]; repeat first [apply blind_quietly|apply blind_lift].
  - by apply blind_update.
  - apply blind_get; [done|]. intros s. case_match; [|apply blind_ret].
    apply blind_bind; [by apply blind_update|intros; apply blind_ret].
  - apply blind_get; [done|]. intros s. repeat case_match; try apply blind_ret.
    apply blind_bind; [by apply blind_update|intros; apply blind_ret].
  - apply blind_remove_user_agent.
  - apply blind_get; [done|]. intros s.
    apply blind_bind; [apply blind_mapM, blind_remove_user_agent|intros; apply blind_ret].
  - apply blind_bind; [apply blind_with_env|]. intros i.
    apply blind_bind; [apply (blind_modify _ (fun p => <[ i := (u, c) ]> p)); [|done..]; intros ??; by apply insert_mono|].
    intros _. apply blind_bind; [by apply blind_update|intros; apply blind_ret].
  - apply blind_remove_subscription.
  - apply blind_update; intros s; cbn; destruct (m_topic m); try done; by destruct (topics s !! _).
  - apply blind_get; [done|]. intros s. set (b := match messages s !! id with None => false | _ => _ end).
    change (blind (if b then with_state (remove_message id) else mret None)).
    destruct b; [apply blind_remove_message|apply blind_ret].
  - apply blind_bind; [apply blind_with_env|]. intros i.
    apply blind_bind; [by apply blind_update|intros; apply blind_ret].
  - apply blind_get; [done|]. intros s.
    apply blind_bind; [by apply blind_update|intros; apply blind_ret].
  - apply blind_get; [done|]. intros s. case_match; [|apply blind_ret].
    apply blind_bind; [apply blind_with_env|]. intros q.
    apply blind_bind; [by apply blind_update|intros; apply blind_ret].
  - apply blind_update; intros s; cbn; by destruct (receipts s !! r).
  - apply blind_get; [done|]. intros s. apply blind_remove_all.
  - apply blind_get; [done|]. intros s.
    apply blind_bind; [by apply blind_update|intros; apply blind_ret].
  - apply blind_get; [done|]. intros s. case_decide; [|apply blind_ret].
    apply blind_bind; [by apply blind_update|intros; apply blind_ret].
Qed.

(** The invariant, but for entries of the push index. *)
Definition sane (w : Env * State) : Prop := exists p, p ⊆ push w.2 /\ inv (w.1, set_push p w.2).

Lemma exec_sane op w w' : sane w -> allowed op w -> exec op w = (Ok (), w') -> sane w'.
Proof.
  destruct w as [e s]. intros (p & Hp & Hi) Ha Hr. destruct (exec_blind op e s p Hp) as (p' & Hp' & Hb).
  rewrite Hr in Hp', Hb. exists p'. split; [done|]. eapply exec_inv; [exact Hi| |exact Hb]. by destruct op.
Qed.

(** Overwriting a channel's subscription is deleting it, its push id left
    behind, and creating it again. *)
Lemma create_sane u c v w w' : sane w -> allowed_any (OpCreateSubscription u c v) w ->
  exec (OpCreateSubscription u c v) w = (Ok (), w') -> sane w'.
Proof.
  intros Hs Hf Hr. destruct (channels w.2 !! (u, c)) as [old|] eqn:Hold.
  2:{ eapply exec_sane; [exact Hs| |exact Hr]. by split. }
  destruct w as [e s], w' as [e1 s1], Hs as (p & Hp & Hi).
  pose proof (inv_remove_channel _ _ _ _ Hi Hold) as Hi1. cbn [set_push push channels fst snd] in *.
  destruct (new_id e) as [i e'] eqn:Hn.
  assert (Hc : exec (OpCreateSubscription u c v)
      (e, set_push (base.delete (sub_push old) p) (set_channels (base.delete (u, c) (channels s)) s)) =
    (Ok (), (e', set_push (<[ i := (u, c) ]> (base.delete (sub_push old) p)) s1))).
  { revert Hr. cbn. unfold quietly, create_subscription, modify, with_state, with_env, lift_st, mbind, est_bind,
      st_bind, mret, st_ret, est_ret. cbn. rewrite Hn. intros [= <- <-]. cbn. by rewrite insert_delete_eq. }
  assert (e1 = e' /\ push s1 = <[ i := (u, c) ]> (push s)) as [-> Hpush].
  { revert Hr. cbn. unfold quietly, create_subscription, modify, with_state, with_env, lift_st, mbind, est_bind,
      st_bind, mret, st_ret, est_ret. cbn. rewrite Hn. by intros [= <- <-]. }
  exists (<[ i := (u, c) ]> (base.delete (sub_push old) p)). split.
  - cbn. rewrite Hpush. apply insert_mono. etrans; [apply delete_subseteq|done].
  - eapply exec_inv; [exact Hi1| |exact Hc]. cbn. split; [apply lookup_delete_eq|].
    intros k x [_ Hx]%lookup_delete_Some. rewrite Hn. cbn. pose proof (Hf _ _ Hx) as Hne. cbn in Hne. by rewrite Hn in Hne.
Qed.

Lemma sane_reached w : reached w -> sane w.
Proof.
  induction 1 as [e|op w w' _ IH Ha Hr|e e' s _ (p & Hp & IH) _ Hle].
  - exists ∅. split; [done|]. apply (inv_new e).
  - destruct op; first [exact (exec_sane _ _ _ IH Ha Hr)|exact (create_sane _ _ _ _ _ IH Ha Hr)].
  - exists p. split; [done|]. by eapply inv_env.
Qed.

(** What [sane] says without the subset of the index. *)
Record consistent (w : Env * State) : Prop := {
  co_wf : a_wf (view w.2);
  co_push : forall k sub, channels w.2 !! k = Some sub -> push w.2 !! sub_push sub = Some k;
  co_topics : forall sl id, topics w.2 !! sl = Some id <->
    exists m, messages w.2 !! id = Some m /\ m_slot m = Some sl;
  co_seq : forall k q seq r, receipts w.2 !! k = Some q -> q !! seq = Some r ->
    (seq <= env_last_seq w.1)%N;
}.
Lemma sane_consistent w : sane w -> consistent w.
Proof.
  intros (p & Hp & [Hwf Hpu Ht Hs]). split; [done| |done..].
  intros k sub Hk. eapply lookup_weaken; [|exact Hp]. apply Hpu. eauto.
Qed.

Lemma reachable_reached w : reachable w -> reached w.
Proof.
  induction 1 as [e|l w w' _ IH Hstep]; [apply reached_new|].
  destruct Hstep as [op w w' Ha Hr|e e' s He Hle]; [|by eapply reached_env].
  eapply reached_op; [exact IH| |exact Hr]. destruct op; first [exact Ha|exact (proj2 Ha)].
Qed.

(** Only [insert_message] brings a message in, and stored messages are never
    changed. *)
Lemma removes_messages P e a rs e' a' k m :
  removes P e a rs e' a' -> a_msgs a' !! k = Some m -> a_msgs a !! k = Some m.
Proof. intros [-> _ _ _ _]. by intros [? _]%map_lookup_filter_Some. Qed.

Lemma exec_messages op w w' k m :
  inv w -> allowed op w -> exec op w = (Ok (), w') -> messages w'.2 !! k = Some m ->
  messages w.2 !! k = Some m \/ op = OpInsertMessage m /\ k = m_id m.
Proof.
  destruct w as [e s], w' as [e' s']. intros Hi Hp Hr. cbn [snd].
  change (messages s') with (a_msgs (view s')). change (messages s) with (a_msgs (view s)).
  destruct op; cbn in Hp, Hr; try (apply quietly_Ok in Hr as [r' Hr]).
  - apply (memory_create_user_agent _ _ _ _ _ _ Hi I) in Hr as (_ & _ & _ & -> & _). by left.
  - apply (memory_touch_user_agent _ _ _ _ _ _ _ Hi I) in Hr as (_ & _ & _ & Ha).
    case_match; [destruct Ha as (_ & ? & _ & ->)|destruct Ha as (_ & ->)]; by left.
  - apply (memory_update_bridge_token _ _ _ _ _ _ _ Hi I) in Hr as (_ & _ & _ & Ha).
    repeat case_match; destruct Ha as (_ & ->); by left.
  - apply (memory_delete_user_agent _ _ _ _ _ _ Hi Hp) in Hr as (_ & _ & Ha & _).
    left. by eapply removes_messages.
  - apply (memory_expire_user_agents _ _ _ _ _ _ Hi Hp) in Hr as (_ & _ & Ha & _).
    left. by eapply removes_messages.
  - apply (memory_create_subscription _ _ _ _ _ _ _ _ Hi Hp) in Hr as (_ & _ & _ & _ & ->). by left.
  - apply (memory_delete_subscription _ _ _ _ _ _ _ Hi Hp) in Hr as (_ & _ & Ha). left.
    case_match; [destruct Ha as (Ha & _); by eapply removes_messages|].
    destruct Ha as (_ & <- & _). done.
  - apply (memory_insert_message _ _ _ _ _ _ Hi Hp) in Hr as (_ & _ & _ & -> & _).
    cbn -[a_insert_message]. rewrite a_insert_message_Some by done. naive_solver.
  - apply (memory_delete_message _ _ _ _ _ _ _ Hi I) in Hr as (_ & _ & _ & -> & _).
    case_match; [|by left]. cbn. intros [_ ?]%lookup_delete_Some. by left.
  - apply (memory_create_receipt_sub _ _ _ _ _ Hi Hp) in Hr as (_ & _ & _ & _ & ->). by left.
  - apply (memory_delete_receipt_sub _ _ _ _ _ _ Hi I) in Hr as (_ & _ & _ & -> & _). by left.
  - apply (memory_enqueue_receipt _ _ _ _ _ _ Hi Hp) in Hr as (_ & _ & Ha).
    case_match; [destruct Ha as (? & _ & _ & ->)|destruct Ha as (_ & -> & _)]; by left.
  - apply (memory_delete_receipt _ _ _ _ _ _ _ Hi I) in Hr as (_ & _ & _ & -> & _). by left.
  - apply (memory_reap _ _ _ _ _ _ Hi Hp) in Hr as (_ & _ & P & _ & _ & Ha & _).
    left. by eapply removes_messages.
  - apply (memory_set_route _ _ _ _ _ _ _ Hi I) in Hr as (_ & _ & _ & -> & _). by left.
  - apply (memory_clear_route _ _ _ _ _ _ _ Hi I) in Hr as (_ & _ & _ & -> & _).
    case_decide; by left.
Qed.

Definition not_inserting (id : string) (op : Op) : Prop :=
  match op with OpInsertMessage m => m_id m <> id | _ => True end.

Lemma run_absent id w w' :
  inv w -> run (not_inserting id) w w' -> messages w.2 !! id = None ->
  inv w' /\ messages w'.2 !! id = None.
Proof.
  intros Hi Hrun. revert Hi. induction Hrun as [|op w w1 w2 Hok Hst _ IH|w w1 w2 Hst _ IH];
    intros Hi Hno; [done|..]; inversion Hst; subst.
  - apply IH; [by eapply exec_inv|]. destruct (messages w1.2 !! id) as [m|] eqn:Hm; [|done].
    destruct (exec_messages op w w1 id m) as [?|[-> ->]]; [done..|congruence|]. by destruct Hok.
  - apply IH; [|done]. by eapply inv_env.
Qed.
End runs.

(** ** Queues after a removal *)
Lemma enqueue_all_lookup rs : forall qs,
  NoDup rs.*1 ->
  (forall k q sq, qs !! k = Some q -> sq ∈ rs.*1 -> q !! sq = None) ->
  forall k sq x,
    (q ← enqueue_all qs rs !! k; q !! sq) = Some x <->
    (q ← qs !! k; q !! sq) = Some x \/
    (sq, x) ∈ rs /\ r_rsub x = k /\ is_Some (qs !! k).
Proof.
  induction rs as [|[n r] rs IH]; intros qs Hnd Hfr k sq x.
  - split; [by left|]. intros [?|([]%not_elem_of_nil & _)]. done.
  - cbn in Hnd. apply NoDup_cons in Hnd as [Hn Hnd]. cbn [enqueue_all foldl].
    rewrite IH; [|done|].
    2:{ intros k' q sq' Hq Hsq. unfold enqueue in Hq. cbn in Hq. apply lookup_alter_Some in Hq as [(<- & q0 & Hq0 & ->)|[_ Hq]].
        - cbn. rewrite lookup_insert_ne by (intros ->; done). eapply Hfr; [done|]. by right.
        - eapply Hfr; [done|]. by right. }
    unfold enqueue. cbn [fst snd]. rewrite elem_of_cons, lookup_alter_is_Some.
    destruct (decide (k = r_rsub r)) as [->|Hk].
    + rewrite lookup_alter_eq. destruct (qs !! r_rsub r) as [q|] eqn:Hq; cbn.
      * assert (q !! n = None) by (eapply Hfr; [done|by left]).
        rewrite lookup_insert_Some. split.
        -- intros [[[<- <-]|[? ?]]|(? & ? & _)]; [right|by left|right]; split_and!; eauto.
        -- intros [?|([[= -> ->]|?] & ? & _)]; [left; right|by left; left|right]; split_and!; eauto.
           intros ->. congruence.
      * split; [intros [?|(? & ? & [])]; naive_solver|]. intros [?|(? & ? & [? ?])]; naive_solver.
    + rewrite lookup_alter_ne by done. naive_solver.
Qed.

Lemma removes_queue P e s rs e' s' :
  inv (e, s) -> removes P e (view s) rs e' (view s') -> forall k sq x,
    (q ← receipts s' !! k; q !! sq) = Some x <->
    (q ← receipts s !! k; q !! sq) = Some x \/ (sq, x) ∈ rs /\ r_rsub x = k /\ is_Some (receipts s !! k).
Proof.
  intros Hi [_ _ [Hn _] Hq _] k sq x. cbn in Hq. rewrite Hq. inversion Hn as [|? ? Hs Hall]; subst.
  apply enqueue_all_lookup.
  - revert Hs. clear. induction (rs.*1) as [|n l IH]; intros Hs; [constructor|].
    inversion Hs as [|? ? Hs' Hall]; subst. constructor; [|by apply IH].
    intros Hin%list_elem_of_In. rewrite List.Forall_forall in Hall. specialize (Hall _ Hin). lia.
  - intros k' q sq' Hk Hin%list_elem_of_In. rewrite List.Forall_forall in Hall.
    specialize (Hall _ Hin). destruct (q !! sq') as [r|] eqn:Hr; [|done].
    pose proof (inv_seq _ Hi _ _ _ _ Hk Hr). cbn in *. lia.
Qed.
