(* ===== verification/MemoryTheorems.v ===== *)
(** * What users of [MemoryStore] rely on

    The refinement of the [Store] contract, the invariant of every reachable
    state, and the receipt and delivery guarantees that follow. *)
From S2P Require Import Prelude RustStr External StoreTypes Store MemoryStore MemoryProofs MemoryRuns Instances.

(** *** A small store used by the witnesses *)
Definition demo_ua : UserAgent := {| ua_uaid := "ua"; ua_bridge := None; ua_last_seen := 5 |}.
Definition demo_message (id : string) (rsub : option string) : Message := {|
  m_id := id; m_uaid := "ua"; m_channel_id := "ch"; m_push := "p"; m_topic := Some "t";
  m_body := [x61]; m_ctype := None; m_cenc := Some "aes128gcm"; m_ttl := 60;
  m_urgency := Normal; m_accepted := 10; m_expiry := 70; m_rsub := rsub;
|}.

(** A user agent subscribes, an application server creates a receipt
    subscription and sends a message with a receipt request. *)
Definition demo_rsub : string := "EBESExQVFhcYGRobHB0eHw".
Definition demo_ops : list Op :=
  [OpCreateUserAgent demo_ua; OpCreateSubscription "ua" "ch" None; OpCreateReceiptSub;
   OpInsertMessage (demo_message "m1" (Some demo_rsub))].

#[local] Existing Instance default_order.

Definition exec_list (ops : list Op) (w : Env * State) : Env * State :=
  foldl (fun w op => (exec op w).2) w ops.

Definition demo_w (n : nat) : Env * State := exec_list (take n demo_ops) (demo_env 1000, new).

Lemma demo_reachable : reachable (demo_w 4).
Proof.
  apply (reachable_step (Some (OpInsertMessage (demo_message "m1" (Some demo_rsub)))) (demo_w 3));
    [|by apply step_op].
  apply (reachable_step (Some OpCreateReceiptSub) (demo_w 2)); [|by apply step_op].
  apply (reachable_step (Some (OpCreateSubscription "ua" "ch" None)) (demo_w 1));
    [|apply step_op; [|done]].
  2:{ split; [done|]. intros k s Hk. done. }
  apply (reachable_step (Some (OpCreateUserAgent demo_ua)) (demo_w 0)); [|by apply step_op].
  apply reachable_new.
Defined.

Section theorems.
Context {HO : HashOrder} {B64 : Base64}.

(** C1: every method of [MemoryStore] does to the abstract state exactly what
    the contract of the [Store] trait says, returns what it promises, issues
    receipt numbers in order and keeps the adapter's invariant. *)
Theorem memory_refines_contract : StoreLaws view inv.
Proof. exact memory_laws. Qed.

(** C18: in every state reached from an empty store by operations that draw
    unused ids and do not run out of sequence numbers, entries sit under their
    own keys, a push resource belongs to one subscription, a topic slot holds
    one message, the push index leads from a subscription's push resource to
    its channel, the topic index is exactly that of the stored messages, and
    no queued receipt is numbered above the last number issued. A channel may
    be created anew while it exists ([registration_race] does), which leaves
    the replaced push id in the index; where none was, the push index is
    exactly that of the subscriptions too. *)
Theorem memory_reachable_consistent w :
  reached w -> consistent w /\ (reachable w -> inv w).
Proof. intros Hw. split; [by apply sane_consistent, sane_reached|]. apply inv_reachable. Qed.

(** C19: deleting a subscription removes exactly its messages; each removed
    message that asked for a receipt from a receipt subscription that exists
    is answered by a 410 in that queue and in the returned list, no other
    receipt is queued, and none that was queued is lost. *)
Theorem delete_subscription_owes w u c sub rs w' :
  reachable w -> seq_room (size (messages w.2)) w.1 ->
  channels w.2 !! (u, c) = Some sub ->
  delete_subscription u c w = (Ok rs, w') ->
  (forall k m, messages w'.2 !! k = Some m <->
    messages w.2 !! k = Some m /\ m_owner m <> (u, c)) /\
  (forall k sq x, (q ← receipts w'.2 !! k; q !! sq) = Some x <->
    (q ← receipts w.2 !! k; q !! sq) = Some x \/
    (sq, x) ∈ rs /\ r_rsub x = k /\ is_Some (receipts w.2 !! k)) /\
  (forall x, x ∈ rs.*2 <-> exists k m, messages w.2 !! k = Some m /\ m_owner m = (u, c) /\
    m_rsub m = Some (r_rsub x) /\ is_Some (receipts w.2 !! r_rsub x) /\
    r_msg_id x = m_id m /\ r_status x = 410%N).
Proof.
  intros Hw Hroom Hsub Hrun. apply inv_reachable in Hw. destruct w as [e s], w' as [e' s'].
  destruct (memory_delete_subscription _ _ _ _ _ _ _ Hw Hroom Hrun) as (_ & _ & Ha).
  cbn in Hsub, Ha. rewrite Hsub in Ha. destruct Ha as (Hrm & _ & _). split_and!.
  - intros k m. pose proof (rm_msgs _ _ _ _ _ _ Hrm) as Hm. cbn in *. rewrite Hm.
    rewrite map_lookup_filter_Some. cbn. by rewrite bool_decide_eq_false.
  - by eapply removes_queue.
  - intros x. rewrite (rm_receipts _ _ _ _ _ _ Hrm), list_elem_of_omap. cbn.
    setoid_rewrite list_elem_of_filter. setoid_rewrite elem_of_values.
    setoid_rewrite bool_decide_eq_true. unfold owed_410, receipt_for. split.
    + intros (m & (Ho & k & Hk) & Hx). exists k, m. destruct (m_rsub m) as [r|]; [|done].
      cbn in Hx. destruct (receipts s !! r) eqn:Hr; [|done]. simplify_eq/=. by rewrite Hr.
    + intros (k & m & Hk & Ho & Hr & [q Hq] & Hid & Hst). exists m. split; [eauto|].
      rewrite Hr. cbn. rewrite Hq. destruct x; cbn in *; by subst.
Qed.

(** a message is deleted at most once. After [delete_message] returned
    it, every later [delete_message] for its id returns [None], whoever asks
    and whatever happens in between, until a message is inserted under that
    id again; so an acknowledgement sends its receipt once. *)
Theorem delete_message_at_most_once w id owner m w1 w2 owner' r w3 :
  reachable w -> delete_message id owner w = (Ok (Some m), w1) ->
  run (not_inserting id) w1 w2 ->
  delete_message id owner' w2 = (Ok r, w3) ->
  messages w.2 !! id = Some m /\ owned_by owner m = true /\ r = None.
Proof.
  intros Hw Hdel Hrun Hdel'. apply inv_reachable in Hw.
  destruct w as [e s], w1 as [e1 s1], w2 as [e2 s2], w3 as [e3 s3].
  destruct (memory_delete_message _ _ _ _ _ _ _ Hw I Hdel) as (Hi1 & _ & _ & Hv & Hm).
  cbn in *. destruct (messages s !! id) as [m'|] eqn:Hid; cbn in *; [|done].
  destruct (owned_by owner m') eqn:Ho; [|done]. injection Hm as <-. split_and!; [done..|].
  assert (messages s1 = delete id (messages s)) as Hs1 by exact (f_equal a_msgs Hv).
  destruct (run_absent _ _ _ Hi1 Hrun) as [Hi2 Hno]; [cbn; rewrite Hs1; apply lookup_delete_eq|].
  destruct (memory_delete_message _ _ _ _ _ _ _ Hi2 I Hdel') as (_ & _ & _ & _ & Hr).
  cbn in *. by rewrite Hno in Hr.
Qed.

(** of the messages [insert_message] and deletions leave behind, a topic
    slot holds only the latest: after an insert the new message is stored, any
    message with its topic slot is the new one, and no other message is
    touched. *)
Theorem insert_message_replaces w m w' :
  reachable w -> messages w.2 !! m_id m = None ->
  insert_message m w = (Ok (), w') ->
  messages w'.2 !! m_id m = Some m /\
  (forall k x, messages w'.2 !! k = Some x -> m_slot m <> None -> m_slot x = m_slot m -> x = m) /\
  (forall k x, messages w.2 !! k = Some x -> m_slot m = None \/ m_slot x <> m_slot m ->
    messages w'.2 !! k = Some x) /\
  receipts w'.2 = receipts w.2 /\ channels w'.2 = channels w.2.
Proof.
  intros Hw Hno Hrun. apply inv_reachable in Hw. destruct w as [e s], w' as [e' s'].
  destruct (memory_insert_message _ _ _ _ _ _ Hw Hno Hrun) as (_ & _ & _ & Hv & _).
  cbn -[a_insert_message] in *.
  assert (messages s' = a_insert_message m (messages s)) as -> by exact (f_equal a_msgs Hv).
  split_and!; [| | |exact (f_equal a_queues Hv)|exact (f_equal a_subs Hv)].
  - apply a_insert_message_Some; [done|]. by left.
  - intros k x Hx Hs Heq. apply a_insert_message_Some in Hx as [[_ ->]|[_ [?|?]]]; done.
  - intros k x Hx Hc. apply a_insert_message_Some; [done|]. by right.
Qed.
End theorems.

(** *** Witnesses *)

(** The channel is created again: the old push id stays behind. *)
Definition demo_again : Env * State := (exec (OpCreateSubscription "ua" "ch" None) (demo_w 4)).2.
Lemma demo_again_reached : reached demo_again.
Proof.
  apply (reached_op (OpCreateSubscription "ua" "ch" None) (demo_w 4)).
  - apply reachable_reached, demo_reachable.
  - assert (H : map_Forall (fun _ s => sub_push s <> (new_id (demo_w 4).1).1) (channels (demo_w 4).2))
      by (apply (bool_decide_unpack _); vm_compute; exact I). exact H.
  - unfold demo_again. destruct (exec _ (demo_w 4)) as [[[]|] w] eqn:He; [done|].
    exfalso. revert He. by vm_compute.
Qed.
Lemma memory_reachable_consistent_witness :
  size (channels demo_again.2) = 1 /\ size (push demo_again.2) = 2 /\ consistent demo_again /\ inv (demo_w 4).
Proof.
  split; [vm_compute; reflexivity|]. split; [vm_compute; reflexivity|]. split.
  - exact (proj1 (memory_reachable_consistent _ demo_again_reached)).
  - exact (proj2 (memory_reachable_consistent _ (reachable_reached _ demo_reachable)) demo_reachable).
Defined.

Lemma delete_subscription_owes_witness :
  let w := demo_w 4 in
  let '(r, w') := delete_subscription "ua" "ch" w in
  exists rs, r = Ok rs /\ length rs = 1 /\ forall k m, messages w'.2 !! k = Some m <->
      messages w.2 !! k = Some m /\ m_owner m <> ("ua", "ch").
Proof.
  intros w.
  assert (Hsub : exists sub, channels w.2 !! ("ua", "ch") = Some sub)
    by (eexists; vm_compute; reflexivity).
  assert (Hroom : seq_room (size (messages w.2)) w.1).
  { apply (demo_seq_room 1000); [done|vm_compute; reflexivity..]. }
  assert (Hlen : exists rs, (delete_subscription "ua" "ch" w).1 = Ok rs /\
    length rs = 1) by (eexists; split; vm_compute; reflexivity).
  destruct (delete_subscription "ua" "ch" w) as [r w'] eqn:Hrun.
  cbn in Hlen. destruct Hlen as (rs & -> & Hlen), Hsub as [sub Hsub]. exists rs. split_and!; [done..|].
  exact (proj1 (delete_subscription_owes w "ua" "ch" sub rs w'
    demo_reachable Hroom Hsub Hrun)).
Defined.

Lemma delete_message_at_most_once_witness :
  let w := demo_w 4 in
  let '(_, w1) := delete_message "m1" (Some ("ua", "ch")) w in
  let w2 := exec_list [OpSetRoute (RUserAgent "ua") "http://a"] w1 in
  (delete_message "m1" None w2).1 = Ok None.
Proof.
  intros w.
  assert (Hfst : exists m, (delete_message "m1" (Some ("ua", "ch")) w).1 = Ok (Some m))
    by (eexists; vm_compute; reflexivity).
  destruct (delete_message "m1" (Some ("ua", "ch")) w) as [r w1] eqn:Hdel.
  cbn in Hfst. destruct Hfst as [m ->]. intros w2.
  assert (Hok : exists o, (delete_message "m1" None w2).1 = Ok o).
  { unfold delete_message, lift_st. destruct ((_ : ST (Env * State) _) w2). by eexists. }
  destruct (delete_message "m1" None w2) as [o w3] eqn:Hdel'. cbn in Hok. destruct Hok as [o' ->].
  cbn. f_equal.
  refine (proj2 (proj2 (delete_message_at_most_once w _ _ m w1 w2 _ _ w3 demo_reachable Hdel _ Hdel'))).
  eapply run_op; [|apply step_op with (op := OpSetRoute (RUserAgent "ua") "http://a")|apply run_nil]; done.
Defined.

Lemma insert_message_replaces_witness :
  let w := demo_w 4 in
  let m := demo_message "m2" None in
  let w' := (insert_message m w).2 in
  messages w'.2 !! "m2" = Some m /\ messages w'.2 !! "m1" = None.
Proof.
  intros w m w'. split; [|vm_compute; reflexivity].
  exact (proj1 (insert_message_replaces w m w' demo_reachable eq_refl eq_refl)).
Defined.
