(* ===== verification/Vapid.v ===== *)
(** * VAPID: the application server's credentials

    [crates/webpush-crypto/src/vapid.rs]: parsing of the [Authorization]
    header (RFC 8292 section 3, RFC 7235 section 2.1) and verification of the
    signed token. JSON, base64url and ES256 are the classes of [External.v]. *)
From Stdlib Require Import Ascii.
From S2P Require Import Prelude RustStr External.

(** ** Data *)
Inductive Error : Type :=
| NotVapid
| MissingParam
| InvalidKey
| Malformed
| UnsupportedAlgorithm
| BadSignature
| Expired
| ExpiryTooFar
| AudienceMismatch.
#[export] Instance error_eq_dec : EqDecision Error.
Proof. solve_decision. Defined.

(** [fmt]: the text of an error. *)
Definition fmt (e : Error) : string :=
  match e with
  | NotVapid => "authorization scheme is not vapid"
  | MissingParam => "vapid credentials lack the t or k parameter"
  | InvalidKey => "vapid key is not an uncompressed P-256 point"
  | Malformed => "vapid token is malformed"
  | UnsupportedAlgorithm => "vapid token is not signed with ES256"
  | BadSignature => "vapid token signature does not verify"
  | Expired => "vapid token has expired"
  | ExpiryTooFar => "vapid token expires more than 24 hours ahead"
  | AudienceMismatch => "vapid token audience does not match the push service"
  end.
#[export] Instance vapid_fmt_inj : Inj (=) (=) fmt.
Proof. by intros [] []. Qed.

Record Credentials : Type := { c_t : string; c_k : Bytes }.
Record Claims : Type := { cl_exp : N; cl_sub : option string }.

Definition MAX_EXP_AHEAD : N := 24 * 3600.

Definition comma_or_ws (c : ascii) : bool := char_is 44 c || is_ascii_whitespace c.
Definition eq_comma_or_ws (c : ascii) : bool :=
  char_is 61 c || char_is 44 c || is_ascii_whitespace c.

(** The loop of [param_value] over a quoted string. *)
Fixpoint quoted_value (s out : string) : result Error (string * string) :=
  match s with
  | EmptyString => Err Malformed
  | String c s =>
      if char_is 34 c then Ok (out, s)
      else if char_is 92 c then
        match s with
        | EmptyString => Err Malformed
        | String d s => quoted_value s (out +:+ String d EmptyString)
        end
      else quoted_value s (out +:+ String c EmptyString)
  end.

(** [param_value] *)
Definition param_value (s : string) : result Error (string * string) :=
  match strip_prefix (String (ascii_of_N 34) EmptyString) s with
  | None => Ok (break_at comma_or_ws s)
  | Some quoted => quoted_value quoted EmptyString
  end.

(** The loop of [parse_authorization]; [None] when the fuel runs out, which
    [parse_params_total] excludes. *)
Fixpoint parse_params (fuel : nat) (rest : string) (t k : option string)
  : option (result Error (option string * option string)) :=
  match fuel with
  | O => None
  | S fuel =>
      let rest := trim_start_matches comma_or_ws rest in
      if str_is_empty rest then Some (Ok (t, k))
      else
        let '(name, after) := break_at eq_comma_or_ws rest in
        match strip_prefix "=" (trim_start after) with
        | None => Some (Err Malformed)
        | Some after_eq =>
            match param_value (trim_start after_eq) with
            | Err e => Some (Err e)
            | Ok (param, tail) =>
                let '(t, k) :=
                  if eq_ignore_ascii_case name "t" then (Some param, k)
                  else if eq_ignore_ascii_case name "k" then (t, Some param)
                  else (t, k) in
                parse_params fuel tail t k
            end
        end
  end.

Section vapid.
Context `{Base64} `{Json} `{P256}.

(** [parse_authorization] *)
Definition parse_authorization (value : string) : result Error Credentials :=
  let value := trim value in
  let '(scheme, rest) := default (value, EmptyString) (split_once is_ascii_whitespace value) in
  if negb (eq_ignore_ascii_case scheme "vapid") then Err NotVapid
  else
    tk ← default (Err Malformed) (parse_params (S (String.length rest)) rest None None);
    match tk with
    | (Some t, Some k) =>
        k ← ok_or InvalidKey (b64_decode (trim_end_matches (char_is 61) k));
        if decide (length k = 65) then Ok {| c_t := t; c_k := k |} else Err InvalidKey
    | _ => Err MissingParam
    end.

(** [decode_json] *)
Definition decode_json (segment : string) : result Error Value :=
  bytes ← ok_or Malformed (b64_decode segment);
  ok_or Malformed (json_parse bytes).

(** [Value == &str] *)
Definition value_is (v : Value) (s : string) : bool :=
  match v with Str a => bool_decide (a = s) | _ => false end.

(** The audience check of [verify]. *)
Definition aud_ok (aud : Value) (origin : string) : bool :=
  match aud with
  | Str a => bool_decide (a = origin)
  | Array l => existsb (fun a => value_is a origin) l
  | _ => false
  end.

(** [verify] *)
Definition verify (creds : Credentials) (origin : string) (now_unix : N) : result Error Claims :=
  key ← ok_or InvalidKey (public_from_sec1 (c_k creds));
  match split (char_is 46) (c_t creds) with
  | [header; payload; sig] =>
      h ← decode_json header;
      if negb (value_is (value_get h "alg") "ES256") then Err UnsupportedAlgorithm
      else
        sig ← ok_or BadSignature (b64_decode sig ≫= signature_from_slice);
        let signing_input :=
          String.substring 0 (String.length header + 1 + String.length payload) (c_t creds) in
        if negb (es256_verify key (as_bytes signing_input) sig) then Err BadSignature
        else
          claims ← decode_json payload;
          exp ← ok_or Malformed (as_u64 (value_get claims "exp"));
          if (exp <? now_unix)%N then Err Expired
          else if (MAX_EXP_AHEAD <? exp - now_unix)%N then Err ExpiryTooFar
          else if negb (aud_ok (value_get claims "aud") origin) then Err AudienceMismatch
          else Ok {| cl_exp := exp; cl_sub := as_str (value_get claims "sub") |}
  | _ => Err Malformed
  end.
End vapid.

(** ** The parameter loop ends *)
Lemma trim_start_length p s : String.length (trim_start_matches p s) <= String.length s.
Proof. induction s as [|c s IH]; cbn; [done|]. case_match; cbn; lia. Qed.

Lemma break_at_length p s :
  String.length (break_at p s).2 <= String.length s.
Proof.
  pose proof (f_equal String.length (break_at_app p s)) as Hl. rewrite length_app_str in Hl. lia.
Qed.

Lemma quoted_value_length s : forall out v tail,
  quoted_value s out = Ok (v, tail) -> String.length tail < String.length s.
Proof.
  induction s as [s IH] using (induction_ltof1 _ String.length). unfold ltof in IH.
  intros out v tail. destruct s as [|c s]; cbn; [done|]. repeat case_match; intros Hq; simplify_eq.
  - lia.
  - apply IH in Hq; cbn in *; lia.
  - apply IH in Hq; cbn in *; lia.
Qed.

Lemma param_value_length s v tail :
  param_value s = Ok (v, tail) -> String.length tail <= String.length s.
Proof.
  unfold param_value. destruct (strip_prefix _ s) as [q|] eqn:Hs.
  - apply strip_prefix_Some in Hs as ->. intros Hq%quoted_value_length. rewrite length_app_str. lia.
  - intros [= Hb]. pose proof (break_at_length comma_or_ws s). by rewrite Hb in *.
Qed.

Lemma parse_params_total fuel : forall rest t k,
  String.length rest < fuel -> is_Some (parse_params fuel rest t k).
Proof.
  induction fuel as [|fuel IH]; intros rest t k Hf; [lia|]. cbn [parse_params].
  pose proof (trim_start_length comma_or_ws rest).
  set (r := trim_start_matches comma_or_ws rest) in *. destruct (str_is_empty r); [by eexists|].
  pose proof (break_at_length eq_comma_or_ws r).
  destruct (break_at eq_comma_or_ws r) as [name after]. cbn [snd] in *.
  pose proof (trim_start_length is_whitespace after) as Ht.
  destruct (strip_prefix "=" (trim_start after)) as [a|] eqn:Ha; [|by eexists].
  apply strip_prefix_Some in Ha. unfold trim_start in Ha. rewrite Ha, length_app_str in Ht. cbn in Ht.
  pose proof (trim_start_length is_whitespace a). unfold trim_start.
  destruct (param_value _) as [[v tail]|e] eqn:Hp; [|by eexists].
  apply param_value_length in Hp. case_match. apply IH. unfold trim_start in *. lia.
Qed.
