(* ===== verification/VapidTheorems.v ===== *)
(** * What VAPID verification guarantees *)
From Stdlib Require Import Ascii.
From S2P Require Import Prelude RustStr External Octets Instances Vapid.

Section theorems.
Context `{Base64} `{Json} `{P256}.

Lemma three_parts t header payload sig :
  split (char_is 46) t = [header; payload; sig] ->
  String.substring 0 (String.length header + 1 + String.length payload) t
  = header +:+ "." +:+ payload.
Proof.
  intros Hs. pose proof (split_join 46 t ltac:(lia)) as Hj. rewrite Hs in Hj. cbn [str_join] in Hj.
  change (String (ascii_of_N 46) EmptyString) with "." in Hj.
  assert (t = (header +:+ "." +:+ payload) +:+ "." +:+ sig) as -> by (by rewrite !app_assoc_str).
  replace (String.length header + 1 + String.length payload)
    with (String.length (header +:+ "." +:+ payload)) by (rewrite !length_app_str; cbn; lia).
  apply substring_app.
Qed.

Lemma value_is_spec v s : value_is v s = true <-> v = Str s.
Proof. destruct v; cbn; try done. rewrite bool_decide_eq_true. naive_solver. Qed.

Lemma aud_ok_spec aud origin :
  aud_ok aud origin = true <-> aud = Str origin \/ exists l, aud = Array l /\ Str origin ∈ l.
Proof.
  destruct aud; cbn; try (split; [done|]; intros [?|(? & ? & _)]; done).
  - rewrite bool_decide_eq_true. naive_solver.
  - rewrite existsb_exists. setoid_rewrite value_is_spec. setoid_rewrite <- list_elem_of_In.
    naive_solver.
Qed.

(** C12: credentials are accepted exactly when the key is a point of P-256,
    the token is three segments, its header names ES256, the signature over
    the first two segments verifies under that key, and the signed claims
    hold an expiry between now and 24 hours from now and an audience that is
    this origin or lists it; the claims returned are the signed ones. *)
Theorem verify_spec creds origin now c :
  verify creds origin now = Ok c <->
  exists key header payload sigs h sig p,
    public_from_sec1 (c_k creds) = Some key /\
    split (char_is 46) (c_t creds) = [header; payload; sigs] /\
    decode_json header = Ok h /\ value_get h "alg" = Str "ES256" /\
    (b64_decode sigs ≫= signature_from_slice) = Some sig /\
    es256_verify key (as_bytes (header +:+ "." +:+ payload)) sig = true /\
    decode_json payload = Ok p /\
    as_u64 (value_get p "exp") = Some (cl_exp c) /\
    (now <= cl_exp c <= now + 86400)%N /\
    (value_get p "aud" = Str origin \/
     exists l, value_get p "aud" = Array l /\ Str origin ∈ l) /\
    cl_sub c = as_str (value_get p "sub").
Proof.
  unfold verify, mbind, result_bind. split.
  - destruct (public_from_sec1 (c_k creds)) as [key|]; cbn; [|done].
    destruct (split _ _) as [|header [|payload [|sigs [|]]]] eqn:Hsp; try done.
    destruct (decode_json header) as [h|] eqn:Hh; [|done].
    destruct (value_is _ _) eqn:Halg; cbn; [|done]. apply value_is_spec in Halg.
    destruct (b64_decode sigs ≫= signature_from_slice) as [sig|] eqn:Hsig;
      unfold mbind in Hsig; rewrite Hsig; cbn; [|done].
    rewrite (three_parts _ _ _ _ Hsp). destruct (es256_verify _ _ _) eqn:Hv; cbn; [|done].
    destruct (decode_json payload) as [p|] eqn:Hp; [|done].
    destruct (as_u64 _) as [exp|] eqn:Hexp; cbn; [|done].
    destruct (N.ltb_spec exp now); [done|]. destruct (N.ltb_spec MAX_EXP_AHEAD (exp - now)); [done|].
    destruct (aud_ok _ _) eqn:Haud; cbn; [|done]. apply aud_ok_spec in Haud. intros [= <-].
    exists key, header, payload, sigs, h, sig, p. unfold MAX_EXP_AHEAD in *. cbn. split_and!; done || lia.
  - intros (key & header & payload & sigs & h & sig & p & Hk & Hsp & Hh & Halg & Hsig & Hv & Hp & Hexp
      & Hwin & Haud & Hsub).
    rewrite Hk. cbn. rewrite Hsp, Hh. apply value_is_spec in Halg. rewrite Halg. cbn.
    unfold mbind in Hsig. rewrite Hsig. cbn. rewrite (three_parts _ _ _ _ Hsp), Hv. cbn.
    rewrite Hp, Hexp. cbn. destruct (N.ltb_spec (cl_exp c) now); [lia|].
    destruct (N.ltb_spec MAX_EXP_AHEAD (cl_exp c - now)); [unfold MAX_EXP_AHEAD in *; lia|].
    apply aud_ok_spec in Haud. rewrite Haud. cbn. rewrite <- Hsub. by destruct c.
Qed.

(** claims are read only once the signature has verified: a token whose
    signature does not verify is a [BadSignature], whatever it claims,
    whatever the time and the origin. *)
Theorem claims_read_after_signature creds key header payload sigs h sig :
  public_from_sec1 (c_k creds) = Some key ->
  split (char_is 46) (c_t creds) = [header; payload; sigs] ->
  decode_json header = Ok h -> value_get h "alg" = Str "ES256" ->
  (b64_decode sigs ≫= signature_from_slice) = Some sig ->
  es256_verify key (as_bytes (header +:+ "." +:+ payload)) sig = false ->
  forall origin now, verify creds origin now = Err BadSignature.
Proof.
  intros Hk Hsp Hh Halg Hsig Hv origin now. unfold verify, mbind, result_bind. rewrite Hk. cbn.
  rewrite Hsp, Hh. apply value_is_spec in Halg. rewrite Halg. cbn.
  unfold mbind in Hsig. rewrite Hsig. cbn. by rewrite (three_parts _ _ _ _ Hsp), Hv.
Qed.

(** Characters of a token parameter: the base64url alphabet and dots. *)
Definition jws_char (c : ascii) : bool := b64_char c || char_is 46 c.

Lemma char_code c n : char_is n c = true -> c = ascii_of_N n.
Proof. unfold char_is. intros Hc%N.eqb_eq. unfold code in Hc. by rewrite <- Hc, ascii_N_embedding. Qed.

Lemma jws_plain c : jws_char c = true ->
  comma_or_ws c = false /\ eq_comma_or_ws c = false /\ is_whitespace c = false /\
  char_is 34 c = false /\ char_is 61 c = false.
Proof.
  unfold jws_char, b64_char, comma_or_ws, eq_comma_or_ws, is_whitespace, is_ascii_whitespace,
    is_ascii_alphanumeric, is_ascii_digit, between, char_is.
  rewrite !orb_true_iff, !andb_true_iff, !N.leb_le, !N.eqb_eq, !orb_false_iff, !N.eqb_neq. lia.
Qed.

Lemma jws_all (p : ascii -> bool) s :
  (forall c, jws_char c = true -> p c = false) -> str_all jws_char s = true ->
  str_all (fun c => negb (p c)) s = true.
Proof. intros Hp. apply str_all_impl. intros c Hc. by rewrite (Hp c Hc). Qed.

Lemma param_value_token s sep rest :
  str_all jws_char s = true -> s <> EmptyString -> comma_or_ws sep = true ->
  param_value (s +:+ String sep rest) = Ok (s, String sep rest).
Proof.
  intros Hs Hne Hsep. unfold param_value.
  destruct (strip_prefix _ _) as [q|] eqn:Hq.
  - destruct s as [|c s]; [done|]. cbn in Hs. apply andb_true_iff in Hs as [Hc _].
    apply jws_plain in Hc as (_ & _ & _ & Hc & _). rewrite app_cons in Hq. cbn in Hq.
    case_decide as Heq; [|done]. by rewrite <- Heq in Hc.
  - rewrite break_at_stop; [done| |done]. by eapply jws_all; [intros c Hc; apply jws_plain|].
Qed.

Lemma param_value_end s :
  str_all jws_char s = true -> s <> EmptyString -> param_value s = Ok (s, EmptyString).
Proof.
  intros Hs Hne. unfold param_value. destruct (strip_prefix _ _) as [q|] eqn:Hq.
  - destruct s as [|c s]; [done|]. cbn in Hs. apply andb_true_iff in Hs as [Hc _].
    apply jws_plain in Hc as (_ & _ & _ & Hc & _). cbn in Hq.
    case_decide as Heq; [|done]. by rewrite <- Heq in Hc.
  - rewrite break_at_none; [done|]. by eapply jws_all; [intros c Hc; apply jws_plain|].
Qed.

Lemma trim_start_jws (p : ascii -> bool) s r :
  (forall c, jws_char c = true -> p c = false) -> str_all jws_char s = true -> s <> EmptyString ->
  trim_start_matches p (s +:+ r) = s +:+ r.
Proof.
  intros Hp Hs Hne. destruct s as [|c s]; [done|]. cbn in Hs. apply andb_true_iff in Hs as [Hc _].
  rewrite app_cons. by apply trim_start_id, Hp.
Qed.

(** One parameter of the list. *)
Lemma parse_params_step fuel name v tail t k :
  str_all jws_char name = true -> name <> EmptyString ->
  str_all jws_char v = true -> v <> EmptyString ->
  (tail = EmptyString \/ exists rest, tail = String "," rest) ->
  parse_params (S fuel) (name +:+ String "=" (v +:+ tail)) t k =
    let '(t, k) := if eq_ignore_ascii_case name "t" then (Some v, k)
                   else if eq_ignore_ascii_case name "k" then (t, Some v) else (t, k) in
    parse_params fuel tail t k.
Proof.
  intros Hn Hne Hv Hvne Htail. cbn [parse_params].
  rewrite trim_start_jws by (done || intros; by apply jws_plain).
  assert (str_is_empty (name +:+ String "=" (v +:+ tail)) = false) as -> by (by destruct name).
  rewrite break_at_stop; [|by eapply jws_all; [intros; apply jws_plain|]|done].
  unfold trim_start. rewrite (trim_start_id _ "=") by done. cbn [strip_prefix].
  rewrite decide_True by done. rewrite trim_start_jws by (done || intros; by apply jws_plain).
  destruct Htail as [->|[rest ->]].
  - rewrite app_nil_r_str, param_value_end by done. done.
  - rewrite param_value_token by done. done.
Qed.

Lemma b64_char_jws s : str_all b64_char s = true -> str_all jws_char s = true.
Proof. apply str_all_impl. intros c Hc. unfold jws_char. by rewrite Hc. Qed.

(** credentials written as [vapid t=TOKEN, k=KEY] parse to that token
    and key. *)
Theorem parse_authorization_roundtrip `{!Base64Laws} t k :
  str_all jws_char t = true -> t <> EmptyString -> length k = 65 ->
  parse_authorization ("vapid t=" +:+ t +:+ ", k=" +:+ b64_encode k)
  = Ok {| c_t := t; c_k := k |}.
Proof.
  intros Ht Hne Hk. set (kb := b64_encode k).
  assert (Hkb : str_all b64_char kb = true) by apply b64_encode_alphabet.
  pose proof (b64_char_jws _ Hkb) as Hkj.
  assert (Hkne : kb <> EmptyString).
  { pose proof (b64_encode_length k) as Hl. fold kb in Hl. rewrite Hk in Hl. by destruct kb. }
  unfold parse_authorization.
  assert (trim ("vapid t=" +:+ t +:+ ", k=" +:+ kb) = "vapid t=" +:+ t +:+ ", k=" +:+ kb) as ->.
  { unfold trim, trim_matches.
    change (trim_start_matches is_whitespace ("vapid t=" +:+ t +:+ ", k=" +:+ kb))
      with ("vapid t=" +:+ t +:+ ", k=" +:+ kb).
    rewrite <- !app_assoc_str. apply trim_end_app; [done|].
    by eapply jws_all; [intros; apply jws_plain|]. }
  change ("vapid t=" +:+ t +:+ ", k=" +:+ kb)
    with ("vapid" +:+ String " " ("t" +:+ String "=" (t +:+ String "," (" k=" +:+ kb)))).
  rewrite split_once_app by done. cbn [default id negb].
  change (eq_ignore_ascii_case "vapid" "vapid") with true. cbn [negb].
  set (rest := "t" +:+ _).
  assert (exists f, S (String.length rest) = S (S (S f))) as [f ->].
  { exists (String.length rest - 2). unfold rest. rewrite length_app_str. cbn [String.length]. lia. }
  unfold rest. clear rest. rewrite parse_params_step by (done || right; eauto).
  change (eq_ignore_ascii_case "t" "t") with true. cbv iota.
  assert (parse_params (S (S f)) (String "," (" k=" +:+ kb)) (Some t) None =
    parse_params (S (S f)) ("k" +:+ String "=" (kb +:+ EmptyString)) (Some t) None) as ->
    by by rewrite app_nil_r_str.
  rewrite parse_params_step by (done || by left).
  change (eq_ignore_ascii_case "k" "t") with false. change (eq_ignore_ascii_case "k" "k") with true.
  cbv iota. cbn [parse_params trim_start_matches str_is_empty default id mbind result_bind].
  assert (trim_end_matches (char_is 61) kb = kb) as ->.
  { rewrite <- (app_nil kb). apply trim_end_app; [done|].
    eapply jws_all; [intros; by apply jws_plain|done]. }
  unfold kb. rewrite b64_decode_encode. cbn [ok_or mbind result_bind].
  by rewrite decide_True.
Qed.
End theorems.

(** ** Witnesses *)

(** A JSON reader that knows two documents. *)
Definition table_json : Json := {|
  json_parse := fun b =>
    if decide (of_bytes b = "H") then Some (Object [("alg", Str "ES256")])
    else if decide (of_bytes b = "P") then
      Some (Object [("aud", Str "https://push"); ("exp", Num (PosInt 1000))])
    else None;
  json_print := fun _ => EmptyString;
|}.
#[local] Existing Instance table_json.

Definition demo_creds (sig : Bytes) : Credentials := {|
  c_t := b64_encode (as_bytes "H") +:+ "." +:+ b64_encode (as_bytes "P") +:+ "." +:+ b64_encode sig;
  c_k := toy_uncompressed (to_key (replicate 32 x07));
|}.

Lemma claims_read_after_signature_witness :
  verify (demo_creds (replicate 64 x00)) "https://push" 900 = Err BadSignature.
Proof.
  apply (@claims_read_after_signature b64url table_json toy_p256 _ (to_key (replicate 32 x07)) (b64_encode (as_bytes "H"))
    (b64_encode (as_bytes "P")) (b64_encode (replicate 64 x00))
    (Object [("alg", Str "ES256")]) (replicate 64 x00)); vm_compute; reflexivity.
Defined.

(** A good signature is accepted, so the rejections are not vacuous. *)
Example demo_verify :
  is_ok (verify (demo_creds (replicate 32 x07 ++ pad 32 (as_bytes "SA.UA"))) "https://push" 900) = true.
Proof. vm_compute. reflexivity. Qed.

Lemma parse_authorization_roundtrip_witness :
  parse_authorization ("vapid t=" +:+ "a.b.c" +:+ ", k=" +:+ b64_encode (replicate 65 x04))
  = Ok {| c_t := "a.b.c"; c_k := replicate 65 x04 |}.
Proof. apply parse_authorization_roundtrip; [vm_compute; reflexivity|done|done]. Defined.
