(* ===== verification/Hub.v ===== *)
(** * The hub: fan-out to the connections open on this node

    [crates/webpush-server/src/hub.rs]. [tokio]'s bounded channel is the
    class [Mpsc]: a heap of channels, each with a queue and two halves. The
    hub's mutex makes each operation one atomic computation over the registry
    and that heap. *)
From S2P Require Import Prelude RustStr External StoreTypes.

(** ** Data *)
Record Notification : Type := {
  n_id : string;
  n_channel_id : string;
  n_body : Bytes;
  n_encoding : option string;
}.
#[export] Instance notification_eq_dec : EqDecision Notification.
Proof. solve_decision. Defined.

(** [Notification::from] *)
Definition notification_from (m : Message) : Notification := {|
  n_id := m_id m; n_channel_id := m_channel_id m; n_body := m_body m; n_encoding := m_cenc m;
|}.

Inductive Event : Type :=
| EvMessage (n : Notification)
| EvReceipt (seq : N) (r : Receipt)
| EvGone.
#[export] Instance event_eq_dec : EqDecision Event.
Proof. solve_decision. Defined.

(** ** Bounded channels ([tokio::sync::mpsc]) *)
Inductive TrySend : Type := Sent | Full | Closed.
Inductive TryRecv : Type := Received (e : Event) | Empty | Disconnected.

Class Mpsc : Type := {
  Chans : Type;
  Chan : Type;
  mpsc_channel : N -> Chans -> Chan * Chans;
  try_send : Chan -> Event -> Chans -> TrySend * Chans;
  drop_sender : Chan -> Chans -> Chans;
  try_recv : Chan -> Chans -> TryRecv * Chans;
  drop_receiver : Chan -> Chans -> Chans;
}.

(** A channel: what is queued, its capacity, whether each half is alive. *)
Record ChanState : Type := {
  ch_queue : list Event;
  ch_cap : N;
  ch_tx : bool;
  ch_rx : bool;
}.

(** The documented behaviour: a FIFO queue of at most [cap] events; sending
    fails when the receiver is gone or the queue is full; receiving drains
    the queue even after the sender is gone. *)
Class MpscLaws `{Mpsc} : Type := {
  chan_eq_dec :: EqDecision Chan;
  chan_view : Chans -> Chan -> option ChanState;
  mpsc_channel_law : forall cap h c h', mpsc_channel cap h = (c, h') ->
    chan_view h c = None /\
    forall c', chan_view h' c' =
      if decide (c' = c) then Some {| ch_queue := []; ch_cap := cap; ch_tx := true; ch_rx := true |}
      else chan_view h c';
  try_send_law : forall c e h s r h', chan_view h c = Some s -> try_send c e h = (r, h') ->
    let s' := {| ch_queue := ch_queue s ++ [e]; ch_cap := ch_cap s; ch_tx := ch_tx s;
                 ch_rx := ch_rx s |} in
    if negb (ch_rx s) then r = Closed /\ forall c', chan_view h' c' = chan_view h c'
    else if (ch_cap s <=? N.of_nat (length (ch_queue s)))%N
         then r = Full /\ forall c', chan_view h' c' = chan_view h c'
         else r = Sent /\ forall c', chan_view h' c' =
           if decide (c' = c) then Some s' else chan_view h c';
  drop_sender_law : forall c h c', chan_view (drop_sender c h) c' =
    if decide (c' = c)
    then (fun s => {| ch_queue := ch_queue s; ch_cap := ch_cap s; ch_tx := false;
                      ch_rx := ch_rx s |}) <$> chan_view h c
    else chan_view h c';
  try_recv_law : forall c h s r h', chan_view h c = Some s -> try_recv c h = (r, h') ->
    match ch_queue s with
    | e :: q => r = Received e /\ forall c', chan_view h' c' =
        if decide (c' = c)
        then Some {| ch_queue := q; ch_cap := ch_cap s; ch_tx := ch_tx s; ch_rx := ch_rx s |}
        else chan_view h c'
    | [] => r = (if ch_tx s then Empty else Disconnected) /\
        forall c', chan_view h' c' = chan_view h c'
    end;
  drop_receiver_law : forall c h c', chan_view (drop_receiver c h) c' =
    if decide (c' = c)
    then (fun s => {| ch_queue := ch_queue s; ch_cap := ch_cap s; ch_tx := ch_tx s;
                      ch_rx := false |}) <$> chan_view h c
    else chan_view h c';
}.

(** ** The registry *)
Inductive Notified : Type := Delivered | Dropped | Absent.
#[export] Instance notified_eq_dec : EqDecision Notified.
Proof. solve_decision. Defined.

Section hub.
Context `{Mpsc}.

Record Slot : Type := { slot_id : N; slot_tx : Chan }.
Record Hub : Type := {
  slots : gmap Recipient Slot;
  next_id : N;
  capacity : N;
}.

(** [Hub::new] *)
Definition new_hub (cap : N) : Hub := {| slots := ∅; next_id := 0; capacity := cap |}.

Definition set_slots (x : gmap Recipient Slot) (h : Hub) : Hub :=
  {| slots := x; next_id := next_id h; capacity := capacity h |}.

(** [Hub::register] *)
Definition register (to : Recipient) : ST (Hub * Chans) (N * Chan) := fun '(hub, ch) =>
  let '(c, ch) := mpsc_channel (capacity hub) ch in
  let id := next_id hub in
  let hub := {| slots := slots hub; next_id := wrap64 (id + 1); capacity := capacity hub |} in
  let old := slots hub !! to in
  let hub := set_slots (<[ to := {| slot_id := id; slot_tx := c |} ]> (slots hub)) hub in
  let ch := match old with
            | Some old => drop_sender (slot_tx old) (try_send (slot_tx old) EvGone ch).2
            | None => ch
            end in
  ((id, c), (hub, ch)).

(** [Hub::unregister]; removing a slot drops its sender. *)
Definition unregister (to : Recipient) (id : N) : ST (Hub * Chans) bool := fun '(hub, ch) =>
  match slots hub !! to with
  | Some s =>
      if (slot_id s =? id)%N then
        (true, (set_slots (delete to (slots hub)) hub, drop_sender (slot_tx s) ch))
      else (false, (hub, ch))
  | None => (false, (hub, ch))
  end.

(** [Hub::notify] *)
Definition notify (to : Recipient) (event : Event) : ST (Hub * Chans) Notified :=
  fun '(hub, ch) =>
  match slots hub !! to with
  | None => (Absent, (hub, ch))
  | Some s =>
      let '(r, ch) := try_send (slot_tx s) event ch in
      match r with
      | Sent => (Delivered, (hub, ch))
      | Full => (Dropped, (set_slots (delete to (slots hub)) hub, drop_sender (slot_tx s) ch))
      | Closed => (Absent, (set_slots (delete to (slots hub)) hub, drop_sender (slot_tx s) ch))
      end
  end.

(** ** The hub's invariant *)
Context {ML : MpscLaws}.

(** Whether the sender of a channel is alive; [None] before it exists. *)
Definition tx_of (h : Chans) (c : Chan) : option bool := ch_tx <$> chan_view h c.

(** Slots hold distinct live channels, and every channel whose sender is
    alive is in a slot. *)
Record hub_inv (w : Hub * Chans) : Prop := {
  hi_live : forall to s, slots w.1 !! to = Some s -> tx_of w.2 (slot_tx s) = Some true;
  hi_distinct : forall to1 to2 s1 s2, slots w.1 !! to1 = Some s1 -> slots w.1 !! to2 = Some s2 ->
    slot_tx s1 = slot_tx s2 -> to1 = to2;
  hi_held : forall c, tx_of w.2 c = Some true ->
    exists to s, slots w.1 !! to = Some s /\ slot_tx s = c;
}.

(** Changing a channel without dropping its sender. *)
Definition same_tx (h h' : Chans) : Prop := forall c, tx_of h' c = tx_of h c.

Lemma same_tx_inv hub h h' : same_tx h h' -> hub_inv (hub, h) -> hub_inv (hub, h').
Proof.
  intros Hs [Hl Hd Hh]. split; cbn in *; [|done|].
  - intros to s Hto. rewrite Hs. by eapply Hl.
  - intros c. rewrite Hs. apply Hh.
Qed.

Lemma tx_of_channel cap h c h' :
  mpsc_channel cap h = (c, h') ->
  tx_of h c = None /\ forall c', tx_of h' c' = if decide (c' = c) then Some true else tx_of h c'.
Proof.
  intros [Hno Hv]%mpsc_channel_law. unfold tx_of. rewrite Hno. split; [done|]. intros c'.
  rewrite Hv. by case_decide.
Qed.

Lemma tx_of_drop c h c' :
  tx_of (drop_sender c h) c' = if decide (c' = c) then (fun _ => false) <$> tx_of h c else tx_of h c'.
Proof. unfold tx_of. rewrite drop_sender_law. case_decide; [|done]. by destruct (chan_view h c). Qed.

Lemma tx_of_live h c : is_Some (tx_of h c) -> exists s, chan_view h c = Some s.
Proof. unfold tx_of. destruct (chan_view h c); [eauto|]. by intros []. Qed.

Lemma try_send_same_tx c e h r h' :
  is_Some (tx_of h c) -> try_send c e h = (r, h') -> same_tx h h'.
Proof.
  intros [s Hs]%tx_of_live Hr c'. pose proof (try_send_law _ _ _ _ _ _ Hs Hr) as Hlaw. cbn in Hlaw.
  unfold tx_of. destruct (negb (ch_rx s)); [by destruct Hlaw as [_ ->]|].
  destruct (_ <=? _)%N; [by destruct Hlaw as [_ ->]|]. destruct Hlaw as [_ ->].
  case_decide; [|done]. subst. by rewrite Hs.
Qed.

Lemma try_recv_same_tx c h r h' :
  is_Some (tx_of h c) -> try_recv c h = (r, h') -> same_tx h h'.
Proof.
  intros [s Hs]%tx_of_live Hr c'. pose proof (try_recv_law _ _ _ _ _ Hs Hr) as Hlaw. unfold tx_of.
  destruct (ch_queue s); destruct Hlaw as [_ ->]; [done|]. case_decide; [|done]. subst. by rewrite Hs.
Qed.

Lemma drop_receiver_same_tx c h : same_tx h (drop_receiver c h).
Proof.
  intros c'. unfold tx_of. rewrite drop_receiver_law. case_decide; [|done]. subst.
  by destruct (chan_view h c).
Qed.

Lemma inv_remove hub h to s :
  slots hub !! to = Some s -> hub_inv (hub, h) ->
  hub_inv (set_slots (delete to (slots hub)) hub, drop_sender (slot_tx s) h).
Proof.
  intros Hto [Hl Hd Hh]. split; cbn in *.
  - intros to' s' [Hne Hs']%lookup_delete_Some. rewrite tx_of_drop.
    case_decide as Heq; [|by eapply Hl]. destruct Hne. symmetry. by eapply Hd.
  - intros to1 to2 s1 s2 [_ ?]%lookup_delete_Some [_ ?]%lookup_delete_Some. eauto.
  - intros c Hc. rewrite tx_of_drop in Hc. case_decide as Heq.
    + by destruct (tx_of h (slot_tx s)).
    + destruct (Hh _ Hc) as (to' & s' & Hs' & <-). exists to', s'. split; [|done].
      rewrite lookup_delete_ne; [done|]. intros <-. congruence.
Qed.

Lemma inv_insert hub h to c id n cap h' :
  slots hub !! to = None -> hub_inv (hub, h) -> mpsc_channel cap h = (c, h') ->
  hub_inv ({| slots := <[ to := {| slot_id := id; slot_tx := c |} ]> (slots hub);
              next_id := n; capacity := capacity hub |}, h').
Proof.
  intros Hno [Hl Hd Hh] [Hc Hv]%tx_of_channel. cbn in *.
  assert (Hold : forall to' s', slots hub !! to' = Some s' -> slot_tx s' <> c).
  { intros to' s' Hs' <-. by rewrite (Hl _ _ Hs') in Hc. }
  split; cbn.
  - intros to' s' [[<- <-]|[_ Hs']]%lookup_insert_Some; rewrite Hv; cbn; [by rewrite decide_True|].
    case_decide; [done|]. by eapply Hl.
  - intros to1 to2 s1 s2 [[<- <-]|[_ H1]]%lookup_insert_Some [[<- <-]|[_ H2]]%lookup_insert_Some He;
      cbn in He; [done|by destruct (Hold _ _ H2)|by destruct (Hold _ _ H1)|by eapply Hd].
  - intros c' Hc'. rewrite Hv in Hc'. case_decide as He.
    + subst. eexists to, _. by rewrite lookup_insert_eq.
    + destruct (Hh _ Hc') as (to' & s' & Hs' & <-). exists to', s'. split; [|done].
      rewrite lookup_insert_ne; [done|]. intros <-. congruence.
Qed.

(** Two heaps with the same senders alive are the same to the hub. *)
Lemma inv_equiv hub h h' : (forall c, tx_of h' c = tx_of h c) -> hub_inv (hub, h) -> hub_inv (hub, h').
Proof. apply same_tx_inv. Qed.

Lemma inv_register to w r w' : hub_inv w -> register to w = (r, w') -> hub_inv w'.
Proof.
  destruct w as [hub h]. intros Hi. unfold register.
  destruct (mpsc_channel (capacity hub) h) as [c h1] eqn:Hc. cbn.
  destruct (slots hub !! to) as [old|] eqn:Hold; intros [= <- <-].
  2:{ by eapply (inv_insert hub h); [..|exact Hc]. }
  (* Replacing a slot is removing it and filling it again. *)
  pose proof (inv_remove _ _ _ _ Hold Hi) as Hi'.
  pose proof (hi_live _ Hi _ _ Hold) as Hlive. cbn in Hlive.
  destruct (tx_of_channel _ _ _ _ Hc) as [Hno Hv].
  assert (Hne : slot_tx old <> c) by congruence.
  destruct (try_send (slot_tx old) EvGone h1) as [r h2] eqn:Hts. cbn.
  assert (Hs2 : same_tx h1 h2).
  { eapply try_send_same_tx; [|done]. rewrite Hv, decide_False by done. by eexists. }
  destruct Hi' as [Hl Hd Hh]. cbn in *.
  assert (Htx : forall c', tx_of (drop_sender (slot_tx old) h2) c' =
    if decide (c' = c) then Some true else tx_of (drop_sender (slot_tx old) h) c').
  { intros c'. rewrite !tx_of_drop, !Hs2, !Hv. repeat case_decide; congruence. }
  assert (Hold' : forall to' s', delete to (slots hub) !! to' = Some s' -> slot_tx s' <> c).
  { intros to' s' [_ Hs']%lookup_delete_Some <-. apply (hi_live _ Hi) in Hs'. cbn in Hs'. congruence. }
  split; cbn.
  - intros to' s' Hs'. rewrite Htx. apply lookup_insert_Some in Hs' as [[<- <-]|[Hn Hs']]; cbn;
      [by rewrite decide_True|]. case_decide; [done|]. apply (Hl to'). by apply lookup_delete_Some.
  - intros to1 to2 s1 s2 [[<- <-]|[Hn1 H1]]%lookup_insert_Some [[<- <-]|[Hn2 H2]]%lookup_insert_Some He;
      cbn in He; [done| | |by eapply (hi_distinct _ Hi)].
    + by destruct (Hold' to2 s2); [apply lookup_delete_Some|].
    + by destruct (Hold' to1 s1); [apply lookup_delete_Some|].
  - intros c' Hc'. rewrite Htx in Hc'. case_decide as He.
    + subst. eexists to, _. by rewrite lookup_insert_eq.
    + destruct (Hh _ Hc') as (to' & s' & Hs' & <-). exists to', s'.
      apply lookup_delete_Some in Hs' as [? ?]. by rewrite lookup_insert_ne.
Qed.

Lemma inv_unregister to id w r w' : hub_inv w -> unregister to id w = (r, w') -> hub_inv w'.
Proof.
  destruct w as [hub h]. intros Hi. unfold unregister.
  destruct (slots hub !! to) as [s|] eqn:Hs; [case_ifs|]; intros [= <- <-]; [|done..].
  by apply inv_remove.
Qed.

Lemma inv_notify to e w r w' : hub_inv w -> notify to e w = (r, w') -> hub_inv w'.
Proof.
  destruct w as [hub h]. intros Hi. unfold notify.
  destruct (slots hub !! to) as [s|] eqn:Hs; [|by intros [= <- <-]].
  destruct (try_send (slot_tx s) e h) as [r' h'] eqn:Hts.
  assert (hub_inv (hub, h')) as Hi'.
  { eapply same_tx_inv; [|done]. eapply try_send_same_tx; [|done].
    pose proof (hi_live _ Hi _ _ Hs) as Hlive. cbn in Hlive. by eexists. }
  destruct r'; intros [= <- <-]; [done|by apply inv_remove..].
Qed.
End hub.
