(* ===== verification/HubTheorems.v ===== *)
(** * What connections can rely on from the hub *)
From S2P Require Import Prelude RustStr External StoreTypes Hub.

(** ** Channels as a map of queues *)
Definition map_send (c : N) (e : Event) (h : gmap N ChanState * N) : TrySend * (gmap N ChanState * N) :=
  match h.1 !! c with
  | None => (Closed, h)
  | Some s =>
      if negb (ch_rx s) then (Closed, h)
      else if (ch_cap s <=? N.of_nat (length (ch_queue s)))%N then (Full, h)
      else (Sent, (<[ c := {| ch_queue := ch_queue s ++ [e]; ch_cap := ch_cap s; ch_tx := ch_tx s;
                              ch_rx := ch_rx s |} ]> h.1, h.2))
  end.
Definition map_recv (c : N) (h : gmap N ChanState * N) : TryRecv * (gmap N ChanState * N) :=
  match h.1 !! c with
  | None => (Disconnected, h)
  | Some s =>
      match ch_queue s with
      | e :: q => (Received e, (<[ c := {| ch_queue := q; ch_cap := ch_cap s; ch_tx := ch_tx s;
                                           ch_rx := ch_rx s |} ]> h.1, h.2))
      | [] => ((if ch_tx s then Empty else Disconnected), h)
      end
  end.

(** New channels are numbered by the first number above all in use. *)
Definition fresh_chan (m : gmap N ChanState) : N := N.succ (foldr N.max 0%N (map_to_list m).*1).

Lemma fresh_chan_free m : m !! fresh_chan m = None.
Proof.
  destruct (m !! fresh_chan m) as [s|] eqn:Hs; [|done]. exfalso.
  assert (fresh_chan m ∈ (map_to_list m).*1) as Hin.
  { apply list_elem_of_fmap. exists (fresh_chan m, s). split; [done|]. by apply elem_of_map_to_list. }
  assert (forall l n, n ∈ l -> (n <= foldr N.max 0 l)%N) as Hmax.
  { induction l as [|x l IH]; intros n Hn; [by apply not_elem_of_nil in Hn|]. cbn.
    apply elem_of_cons in Hn as [->|Hn]; [lia|]. specialize (IH _ Hn). lia. }
  specialize (Hmax _ _ Hin). unfold fresh_chan in Hmax. lia.
Qed.

#[export] Instance map_mpsc : Mpsc := {|
  Chans := gmap N ChanState * N;
  Chan := N;
  mpsc_channel := fun cap h =>
    let c := fresh_chan h.1 in
    (c, (<[ c := {| ch_queue := []; ch_cap := cap; ch_tx := true; ch_rx := true |} ]> h.1, h.2));
  try_send := map_send;
  drop_sender := fun c h =>
    (alter (fun s => {| ch_queue := ch_queue s; ch_cap := ch_cap s; ch_tx := false;
                        ch_rx := ch_rx s |}) c h.1, h.2);
  try_recv := map_recv;
  drop_receiver := fun c h =>
    (alter (fun s => {| ch_queue := ch_queue s; ch_cap := ch_cap s; ch_tx := ch_tx s;
                        ch_rx := false |}) c h.1, h.2);
|}.

Lemma lookup_alter_if {A} (f : A -> A) (m : gmap N A) i j :
  alter f i m !! j = if decide (j = i) then f <$> m !! i else m !! j.
Proof. case_decide; [subst; apply lookup_alter_eq|by apply lookup_alter_ne]. Qed.
Lemma lookup_insert_if {A} (x : A) (m : gmap N A) i j :
  <[ i := x ]> m !! j = if decide (j = i) then Some x else m !! j.
Proof. case_decide; [subst; apply lookup_insert_eq|by apply lookup_insert_ne]. Qed.

#[export] Program Instance map_mpsc_laws : MpscLaws := {|
  chan_eq_dec := N.eq_dec;
  chan_view := fun h c => h.1 !! c;
|}.
Next Obligation.
  intros cap h c h' [= <- <-]. cbn. split; [apply fresh_chan_free|]. intros. apply lookup_insert_if.
Qed.
Next Obligation.
  intros c e h s r h' Hs. cbn in *. unfold map_send. rewrite Hs.
  destruct (ch_rx s); cbn; [|by intros [= <- <-]].
  destruct (_ <=? _)%N; intros [= <- <-]; [done|]. split; [done|]. intros. apply lookup_insert_if.
Qed.
Next Obligation. intros. apply lookup_alter_if. Qed.
Next Obligation.
  intros c h s r h' Hs. cbn in *. unfold map_recv. rewrite Hs.
  destruct (ch_queue s); intros [= <- <-]; [done|]. split; [done|]. intros. apply lookup_insert_if.
Qed.
Next Obligation. intros. apply lookup_alter_if. Qed.

(** ** Runs of a hub *)
Section runs.
Context `{MP : Mpsc} {ML : MpscLaws}.

Inductive hub_step : Hub * Chans -> Hub * Chans -> Prop :=
| hs_register to w r w' : register to w = (r, w') -> hub_step w w'
| hs_unregister to id w r w' : unregister to id w = (r, w') -> hub_step w w'
| hs_notify to e w r w' : notify to e w = (r, w') -> hub_step w w'
| hs_recv c hub ch r ch' : is_Some (tx_of ch c) -> try_recv c ch = (r, ch') ->
    hub_step (hub, ch) (hub, ch')
| hs_drop c hub ch : hub_step (hub, ch) (hub, drop_receiver c ch).

Inductive hub_reachable (cap : N) : Hub * Chans -> Prop :=
| hr_new ch : (forall c, chan_view ch c = None) -> hub_reachable cap (new_hub cap, ch)
| hr_step w w' : hub_reachable cap w -> hub_step w w' -> hub_reachable cap w'.

Lemma hub_reachable_inv cap w : hub_reachable cap w -> hub_inv w.
Proof.
  induction 1 as [ch Hno|w w' _ IH Hst].
  - split; cbn.
    + intros to s Hs. by rewrite lookup_empty in Hs.
    + intros to1 to2 s1 s2 Hs. by rewrite lookup_empty in Hs.
    + intros c. unfold tx_of. by rewrite Hno.
  - destruct Hst; [by eapply inv_register|by eapply inv_unregister|by eapply inv_notify|..].
    + eapply same_tx_inv; [by eapply try_recv_same_tx|done].
    + eapply same_tx_inv; [apply drop_receiver_same_tx|done].
Qed.

(** C4: A connection is never left waiting on a channel nobody can send to:
    in every reachable state the channels whose sender is alive are exactly
    the ones registered, one per recipient; any other connection drains its
    queue and then sees the channel closed. *)
Theorem hub_no_orphan cap w c :
  hub_reachable cap w ->
  (tx_of w.2 c = Some true <-> exists to s, slots w.1 !! to = Some s /\ slot_tx s = c) /\
  (forall s, chan_view w.2 c = Some s -> ch_queue s = [] ->
    ~ (exists to s, slots w.1 !! to = Some s /\ slot_tx s = c) ->
    (try_recv c w.2).1 = Disconnected).
Proof.
  intros Hw%hub_reachable_inv. assert (Hiff : tx_of w.2 c = Some true <->
    exists to s, slots w.1 !! to = Some s /\ slot_tx s = c).
  { split; [apply (hi_held _ Hw)|]. intros (to & s & Hs & <-). by eapply (hi_live _ Hw). }
  split; [done|]. intros s Hs Hq Hno. destruct (try_recv c w.2) as [r h'] eqn:Hr.
  pose proof (try_recv_law _ _ _ _ _ Hs Hr) as Hlaw. rewrite Hq in Hlaw. destruct Hlaw as [-> _].
  rewrite <- Hiff in Hno. unfold tx_of in Hno. rewrite Hs in Hno. cbn in *.
  by destruct (ch_tx s).
Qed.

(** registering again replaces the listener: the new channel is empty
    and registered; the old one can no longer be sent to, and its last event
    is [Gone] if its queue had room; nobody else is affected; and the old
    connection's [unregister] does not remove its successor. *)
Theorem register_replaces hub ch to old q id c hub' ch' :
  slots hub !! to = Some old ->
  chan_view ch (slot_tx old) = Some q -> slot_id old <> next_id hub ->
  register to (hub, ch) = ((id, c), (hub', ch')) ->
  slots hub' = <[ to := {| slot_id := id; slot_tx := c |} ]> (slots hub) /\
  chan_view ch' c = Some {| ch_queue := []; ch_cap := capacity hub; ch_tx := true; ch_rx := true |} /\
  chan_view ch' (slot_tx old) =
    Some {| ch_queue := ch_queue q ++
              (if ch_rx q && negb (ch_cap q <=? N.of_nat (length (ch_queue q)))%N then [EvGone] else []);
            ch_cap := ch_cap q; ch_tx := false; ch_rx := ch_rx q |} /\
  (forall d, d <> c -> d <> slot_tx old -> chan_view ch' d = chan_view ch d) /\
  unregister to (slot_id old) (hub', ch') = (false, (hub', ch')).
Proof.
  intros Hold Hq Hid Hreg. unfold register in Hreg.
  destruct (mpsc_channel (capacity hub) ch) as [c0 h1] eqn:Hc. cbn in Hreg. rewrite Hold in Hreg.
  destruct (mpsc_channel_law _ _ _ _ Hc) as [Hno Hv]. injection Hreg as <- <- <- <-. cbn.
  assert (Hne : slot_tx old <> c0) by congruence.
  destruct (try_send (slot_tx old) EvGone h1) as [r h2] eqn:Hts.
  assert (Hq1 : chan_view h1 (slot_tx old) = Some q) by (rewrite Hv, decide_False; done).
  pose proof (try_send_law _ _ _ _ _ _ Hq1 Hts) as Hlaw. cbn in Hlaw.
  split_and!; [done|..].
  - cbn. rewrite drop_sender_law, decide_False by done.
    destruct (ch_rx q); cbn in Hlaw; [destruct (_ <=? _)%N|]; destruct Hlaw as [_ ->];
      rewrite ?Hv; repeat case_decide; congruence.
  - cbn. rewrite drop_sender_law, decide_True by done.
    destruct (ch_rx q) eqn:Hrx; cbn in Hlaw |- *; [destruct (_ <=? _)%N|]; destruct Hlaw as [_ ->];
      rewrite ?Hq1, ?decide_True by done; cbn; rewrite ?Hrx, ?app_nil_r; done.
  - intros d Hd1 Hd2. cbn. rewrite drop_sender_law, decide_False by done.
    destruct (ch_rx q); cbn in Hlaw; [destruct (_ <=? _)%N|]; destruct Hlaw as [_ ->];
      rewrite ?Hv; repeat case_decide; congruence.
  - cbn. rewrite lookup_insert_eq. cbn. destruct (N.eqb_spec (next_id hub) (slot_id old)); congruence.
Qed.

(** C38: What [notify] reports is what happened: [Delivered] exactly when the
    event was appended to the registered listener's queue, [Dropped] when
    that queue was full and the listener was removed and closed, [Absent]
    when there is no listener or it is gone; no other listener is touched. *)
Theorem notify_spec cap hub ch to e r hub' ch' :
  hub_reachable cap (hub, ch) -> notify to e (hub, ch) = (r, (hub', ch')) ->
  match slots hub !! to with
  | None => r = Absent /\ hub' = hub /\ ch' = ch
  | Some s => exists q, chan_view ch (slot_tx s) = Some q /\
      (forall d, d <> slot_tx s -> chan_view ch' d = chan_view ch d) /\
      match r with
      | Delivered => hub' = hub /\ ch_rx q = true /\ chan_view ch' (slot_tx s) =
          Some {| ch_queue := ch_queue q ++ [e]; ch_cap := ch_cap q; ch_tx := true; ch_rx := true |}
      | Dropped => ch_rx q = true /\ (ch_cap q <= N.of_nat (length (ch_queue q)))%N /\
          slots hub' = delete to (slots hub) /\ tx_of ch' (slot_tx s) = Some false
      | Absent => ch_rx q = false /\
          slots hub' = delete to (slots hub) /\ tx_of ch' (slot_tx s) = Some false
      end
  end.
Proof.
  intros Hi%hub_reachable_inv Hn. unfold notify in Hn.
  destruct (slots hub !! to) as [s|] eqn:Hs; [|by simplify_eq].
  pose proof (hi_live _ Hi _ _ Hs) as Hlive. cbn in Hlive.
  destruct (chan_view ch (slot_tx s)) as [q|] eqn:Hq; [|by unfold tx_of in Hlive; rewrite Hq in Hlive].
  assert (ch_tx q = true) as Htx by (unfold tx_of in Hlive; rewrite Hq in Hlive; by simplify_eq/=).
  exists q. split; [done|].
  destruct (try_send (slot_tx s) e ch) as [r' h'] eqn:Hts.
  pose proof (try_send_law _ _ _ _ _ _ Hq Hts) as Hlaw. cbn in Hlaw.
  destruct (ch_rx q) eqn:Hrx; cbn in Hlaw;
    [destruct (N.leb_spec (ch_cap q) (N.of_nat (length (ch_queue q))))|];
    destruct Hlaw as [-> Hv]; simplify_eq/=.
  - split_and!; try done.
    + intros d Hd. by rewrite drop_sender_law, decide_False, Hv.
    + rewrite tx_of_drop, decide_True by done. unfold tx_of. by rewrite Hv, Hq.
  - split_and!; try done.
    + intros d Hd. by rewrite Hv, decide_False.
    + rewrite Hv, decide_True by done. by rewrite ?Htx, ?Hrx.
  - split_and!; try done.
    + intros d Hd. by rewrite drop_sender_law, decide_False, Hv.
    + rewrite tx_of_drop, decide_True by done. unfold tx_of. by rewrite Hv, Hq.
Qed.
End runs.

(** ** Witnesses *)
Definition demo_hub : Hub * Chans := (register (RUserAgent "u") (new_hub 1, (∅, 0%N))).2.

Lemma demo_hub_reachable : hub_reachable 1 demo_hub.
Proof.
  eapply hr_step; [apply hr_new|eapply (hs_register (RUserAgent "u")), surjective_pairing].
  intros c. apply lookup_empty.
Defined.

Lemma hub_no_orphan_witness : exists to s, slots demo_hub.1 !! to = Some s /\ slot_tx s = 1%N.
Proof.
  apply (proj1 (proj1 (hub_no_orphan 1 demo_hub 1%N demo_hub_reachable))). vm_compute. reflexivity.
Defined.

Definition demo_slot : Slot := @Build_Slot map_mpsc 0 1%N.
Definition demo_chan : ChanState :=
  {| ch_queue := []; ch_cap := 1; ch_tx := true; ch_rx := true |}.

Lemma demo_hub_facts :
  slots demo_hub.1 !! RUserAgent "u" = Some demo_slot /\
  chan_view demo_hub.2 (slot_tx demo_slot) = Some demo_chan /\
  slot_id demo_slot <> next_id demo_hub.1 /\
  (register (RUserAgent "u") (demo_hub.1, demo_hub.2)).1 = (1%N, 2%N).
Proof. vm_compute. split_and!; [reflexivity|reflexivity|discriminate|reflexivity]. Qed.

Lemma register_replaces_witness : exists w, 
  register (RUserAgent "u") (demo_hub.1, demo_hub.2) = ((1%N, 2%N), w) /\
  unregister (RUserAgent "u") (slot_id demo_slot) w = (false, w).
Proof.
  destruct demo_hub_facts as (Hs & Hq & Hid & Hr).
  destruct (register (RUserAgent "u") (demo_hub.1, demo_hub.2)) as [[id c] [hub' ch']] eqn:Hreg.
  cbn in Hr. injection Hr as -> ->. exists (hub', ch'). split; [done|].
  exact (proj2 (proj2 (proj2 (proj2 (register_replaces _ _ _ _ _ _ _ _ _ Hs Hq Hid Hreg))))).
Defined.

Lemma notify_spec_witness : exists w,
  notify (RUserAgent "u") EvGone (demo_hub.1, demo_hub.2) = (Delivered, w) /\
  chan_view w.2 (slot_tx demo_slot) =
    Some {| ch_queue := [EvGone]; ch_cap := 1; ch_tx := true; ch_rx := true |}.
Proof.
  assert (Hr : (notify (RUserAgent "u") EvGone (demo_hub.1, demo_hub.2)).1 = Delivered)
    by (vm_compute; reflexivity).
  destruct demo_hub_facts as (Hs & Hq & _ & _).
  assert (Hreach : hub_reachable 1 (demo_hub.1, demo_hub.2))
    by (rewrite <- surjective_pairing; apply demo_hub_reachable).
  destruct (notify (RUserAgent "u") EvGone (demo_hub.1, demo_hub.2)) as [r [hub' ch']] eqn:Hn.
  cbn in Hr. subst r. exists (hub', ch'). split; [done|].
  pose proof (notify_spec 1 _ _ _ _ _ _ _ Hreach Hn) as Hspec. rewrite Hs in Hspec.
  destruct Hspec as (q & Hq' & _ & _ & _ & Hv). rewrite Hq in Hq'. injection Hq' as <-. exact Hv.
Defined.
