(* ===== verification/Bridge.v ===== *)
(** * The interface to platform push services

    [crates/webpush-bridge/src/lib.rs]: the message handed to a platform, the
    fields every bridge delivers, the errors, and the trait, as a record of
    operations over the bridge's own world [BW] (its credentials, caches and
    HTTP client). *)
From S2P Require Import Prelude RustStr External.

Inductive Priority : Type := PNormal | PHigh.
#[export] Instance priority_eq_dec : EqDecision Priority.
Proof. solve_decision. Defined.

(** [Duration] in nanoseconds. *)
Abbreviation Duration := N (only parsing).
Definition from_secs (n : N) : Duration := (n * 1000000000)%N.
Definition as_secs (d : Duration) : N := (d / 1000000000)%N.
Definition as_millis (d : Duration) : N := (d / 1000000)%N.

Lemma as_secs_from_secs n : as_secs (from_secs n) = n.
Proof. apply N.div_mul. lia. Qed.

Record BridgeMessage : Type := {
  bn_channel_id : string;
  bn_version : string;
  bn_data : option Bytes;
  bn_encoding : option string;
  bn_ttl : Duration;
  bn_priority : Priority;
}.

(** [Notification::fields] *)
Definition fields `{Base64} (n : BridgeMessage) : gmap string string :=
  let fields := <[ "version" := bn_version n ]> {[ "channelID" := bn_channel_id n ]} in
  match bn_data n with
  | Some data =>
      let fields := <[ "data" := b64_encode data ]> fields in
      match bn_encoding n with
      | Some encoding => <[ "encoding" := encoding ]> fields
      | None => fields
      end
  | None => fields
  end.

Record Address : Type := { ad_app_id : string; ad_token : string }.

Inductive Error : Type :=
| UnknownApp
| TokenGone
| TooLarge
| Throttled (retry_after : option Duration)
| Rejected (reason : string)
| Unavailable (e : BoxError).
#[export] Instance error_eq_dec : EqDecision Error.
Proof. solve_decision. Defined.

(** [fmt] and [source]: the text of an error, and the error behind it. *)
Definition fmt (e : Error) : string :=
  match e with
  | UnknownApp => "application is not configured for this bridge"
  | TokenGone => "device token is no longer valid"
  | TooLarge => "message exceeds the platform payload limit"
  | Throttled _ => "platform is rate limiting"
  | Rejected reason => "platform rejected the message: " +:+ reason
  | Unavailable e => "platform unavailable: " +:+ e
  end.
Definition source (e : Error) : option BoxError :=
  match e with Unavailable e => Some e | _ => None end.

(** [Error::kind] *)
Definition kind (e : Error) : string :=
  match e with
  | UnknownApp => "unknown_app"
  | TokenGone => "token_gone"
  | TooLarge => "too_large"
  | Throttled _ => "throttled"
  | Rejected _ => "rejected"
  | Unavailable _ => "unavailable"
  end.

(** [trait Bridge] behind [SharedBridge] *)
Record SharedBridge (BW : Type) : Type := {
  b_name : string;
  b_has_app : string -> bool;
  b_send : Address -> BridgeMessage -> EST BW Error unit;
}.
Arguments b_name {BW} _.
Arguments b_has_app {BW} _ _.
Arguments b_send {BW} _ _ _.
