(* ===== verification/Transport.v ===== *)
(** * Accepting connections

    [crates/webpush-server/src/transport.rs]: the accept loop, the permits
    that bound the number of connections, and what each connection does with
    its permit. The loop, every connection and every session upgraded from
    one are tasks of their own; the model is the interleaving of their steps,
    and the kernel's and hyper's answers are the events it is given. The TLS
    configuration and the bytes of a connection are rustls's and hyper's. *)
From S2P Require Import Prelude RustStr Bridge.

(** ** State *)

(** Where the accept loop is. A permit is held from [AwaitAccept] on. *)
Inductive Loop : Type := AwaitPermit | AwaitAccept | Backoff | Ended.
#[export] Instance loop_eq_dec : EqDecision Loop.
Proof. solve_decision. Defined.

(** A connection task that runs: in the TLS handshake, serving, or finishing
    the requests in flight after [graceful_shutdown]. *)
Inductive Phase : Type := Handshaking | Serving | Finishing.
#[export] Instance phase_eq_dec : EqDecision Phase.
Proof. solve_decision. Defined.

(** [Listener], over the sockets and the TLS configurations there are. *)
Record Listener (Sock TlsConfig : Type) : Type := {
  tcp : Sock;
  tls : option TlsConfig;
  max_connections : N;
  handshake_timeout : Duration;
  name : string;
}.
Arguments tcp {Sock TlsConfig} _.
Arguments tls {Sock TlsConfig} _.
Arguments max_connections {Sock TlsConfig} _.
Arguments handshake_timeout {Sock TlsConfig} _.
Arguments name {Sock TlsConfig} _.

(** A connection's [ConnectionPermit] is an [Arc]: [sv_refs] holds its count
    for every permit that is not free. A session is known by its own number
    and keeps the number of the connection it was upgraded from; a request that
    hyper runs on a task of its own holds its clone in the same way. *)
Record Serve : Type := {
  sv_loop : Loop;
  sv_free : nat;
  sv_refs : gmap N nat;
  sv_conns : gmap N Phase;
  sv_sessions : gmap N N;
  sv_next : N;
}.

(** What happens next: to the loop, to connection [id], or to session [id]. *)
Inductive Wake : Type :=
| PermitAcquired
| Stopped
| AcceptOk
| AcceptErr
| BackoffOver
| HandshakeOk (id : N)
| HandshakeFailed (id : N)
| Upgraded (id : N)
| ConnStopped (id : N)
| ConnDone (id : N)
| SessionDone (id : N).

Section serve.
Context {Sock TlsConfig : Type}.
Abbreviation Listener := (Listener Sock TlsConfig).
Implicit Types (l : Listener).

(** ** Steps *)

(** [serve] before its loop *)
Definition serve_new l : Serve :=
  {| sv_loop := AwaitPermit; sv_free := N.to_nat (max_connections l); sv_refs := ∅; sv_conns := ∅;
     sv_sessions := ∅; sv_next := 0 |}.

Definition set_loop (x : Loop) (free : nat) (s : Serve) : Serve :=
  {| sv_loop := x; sv_free := free; sv_refs := sv_refs s; sv_conns := sv_conns s;
     sv_sessions := sv_sessions s; sv_next := sv_next s |}.
Definition set_conns (x : gmap N Phase) (s : Serve) : Serve :=
  {| sv_loop := sv_loop s; sv_free := sv_free s; sv_refs := sv_refs s; sv_conns := x;
     sv_sessions := sv_sessions s; sv_next := sv_next s |}.
Definition set_sessions (x : gmap N N) (s : Serve) : Serve :=
  {| sv_loop := sv_loop s; sv_free := sv_free s; sv_refs := sv_refs s; sv_conns := sv_conns s;
     sv_sessions := x; sv_next := sv_next s |}.

(** [ConnectionPermit(Arc::new(permit))] of a new connection, a clone of it,
    and the drop of one: the last one gives the permit back. *)
Definition new_conn (phase : Phase) (s : Serve) : Serve :=
  {| sv_loop := AwaitPermit; sv_free := sv_free s; sv_refs := <[ sv_next s := 1 ]> (sv_refs s);
     sv_conns := <[ sv_next s := phase ]> (sv_conns s); sv_sessions := sv_sessions s;
     sv_next := sv_next s + 1 |}.
Definition clone_permit (id : N) (s : Serve) : Serve :=
  {| sv_loop := sv_loop s; sv_free := sv_free s; sv_refs := alter S id (sv_refs s); sv_conns := sv_conns s;
     sv_sessions := sv_sessions s; sv_next := sv_next s |}.
Definition drop_permit (id : N) (s : Serve) : Serve :=
  match sv_refs s !! id with
  | Some (S (S n)) =>
      {| sv_loop := sv_loop s; sv_free := sv_free s; sv_refs := <[ id := S n ]> (sv_refs s);
         sv_conns := sv_conns s; sv_sessions := sv_sessions s; sv_next := sv_next s |}
  | Some _ =>
      {| sv_loop := sv_loop s; sv_free := S (sv_free s); sv_refs := delete id (sv_refs s);
         sv_conns := sv_conns s; sv_sessions := sv_sessions s; sv_next := sv_next s |}
  | None => s
  end.

(** [upgrade] of [session.rs]: the session's task holds a clone. *)
Definition upgrade (id : N) (s : Serve) : Serve :=
  let s := clone_permit id s in
  {| sv_loop := sv_loop s; sv_free := sv_free s; sv_refs := sv_refs s; sv_conns := sv_conns s;
     sv_sessions := <[ sv_next s := id ]> (sv_sessions s); sv_next := sv_next s + 1 |}.

(** One step of the loop of [serve]; the two [select!]s take any branch that
    is ready. [stopping] is the state of [shutdown.stopping]. *)
Definition loop_step l (stopping : bool) (w : Wake) (s : Serve) : option Serve :=
  match sv_loop s, w with
  | AwaitPermit, PermitAcquired =>
      match sv_free s with
      | 0 => None
      | S free => Some (set_loop AwaitAccept free s)
      end
  | AwaitPermit, Stopped => if stopping then Some (set_loop Ended (sv_free s) s) else None
  | AwaitAccept, AcceptOk =>
      Some (new_conn (match tls l with Some _ => Handshaking | None => Serving end) s)
  | AwaitAccept, AcceptErr => Some (set_loop Backoff (sv_free s) s)
  | AwaitAccept, Stopped => if stopping then Some (set_loop Ended (S (sv_free s)) s) else None
  | Backoff, BackoffOver => Some (set_loop AwaitPermit (S (sv_free s)) s)
  | _, _ => None
  end.

(** One step of a connection's task, which is in [phase]: the [async move]
    block of [serve], and [connection]. *)
Definition conn_step (stopping : bool) (w : Wake) (id : N) (phase : Phase) (s : Serve) : option Serve :=
  match w, phase with
  | HandshakeOk _, Handshaking => Some (set_conns (<[ id := Serving ]> (sv_conns s)) s)
  | HandshakeFailed _, Handshaking => Some (drop_permit id (set_conns (delete id (sv_conns s)) s))
  | Upgraded _, Serving => Some (upgrade id s)
  | Upgraded _, Finishing => Some (upgrade id s)
  | ConnStopped _, Serving =>
      if stopping then Some (set_conns (<[ id := Finishing ]> (sv_conns s)) s) else None
  | ConnDone _, Serving => Some (drop_permit id (set_conns (delete id (sv_conns s)) s))
  | ConnDone _, Finishing => Some (drop_permit id (set_conns (delete id (sv_conns s)) s))
  | _, _ => None
  end.

Definition step l (stopping : bool) (w : Wake) (s : Serve) : option Serve :=
  match w with
  | HandshakeOk id | HandshakeFailed id | Upgraded id | ConnStopped id | ConnDone id =>
      phase ← sv_conns s !! id; conn_step stopping w id phase s
  | SessionDone sid =>
      id ← sv_sessions s !! sid; Some (drop_permit id (set_sessions (delete sid (sv_sessions s)) s))
  | _ => loop_step l stopping w s
  end.

(** [serve], as the events arrive; an event that cannot happen now ends the
    run. *)
Fixpoint serve l (s : Serve) (events : list (bool * Wake)) : option Serve :=
  match events with
  | [] => Some s
  | (stopping, w) :: events => s ← step l stopping w s; serve l s events
  end.

(** ** Permits *)

(** The permit the loop itself holds. *)
Definition loop_holds (x : Loop) : nat :=
  match x with AwaitAccept | Backoff => 1 | AwaitPermit | Ended => 0 end.

(** How many hold a clone of permit [id]: the connection's task while it runs,
    and the sessions upgraded from it. *)
Definition holders (id : N) (s : Serve) : nat :=
  (match sv_conns s !! id with Some _ => 1 | None => 0 end)
  + size (filter (fun sc => sc.2 = id) (sv_sessions s)).

Definition of_count (n : nat) : option nat := match n with 0 => None | n => Some n end.

(** [extra] is a clone that no task holds yet, or any more. *)
Record serve_inv l (extra : option N) (s : Serve) : Prop := {
  si_count : sv_free s + loop_holds (sv_loop s) + size (sv_refs s) = N.to_nat (max_connections l);
  si_refs id : sv_refs s !! id = of_count (holders id s + if decide (extra = Some id) then 1 else 0);
  si_conns : map_Forall (fun id _ => (id < sv_next s)%N) (sv_conns s);
  si_sessions : map_Forall (fun sid id => (sid < sv_next s /\ id < sv_next s)%N) (sv_sessions s);
}.

Lemma serve_new_inv l : serve_inv l None (serve_new l).
Proof.
  split; cbn; [rewrite map_size_empty; lia| |apply map_Forall_empty..].
  intros id. unfold holders. cbn. by rewrite !lookup_empty, map_filter_empty, map_size_empty.
Qed.

Lemma set_loop_inv l x free s : serve_inv l None s ->
  free + loop_holds x = sv_free s + loop_holds (sv_loop s) -> serve_inv l None (set_loop x free s).
Proof. intros [Hc Hr Hk Hn] He. split; cbn; [lia|exact Hr|done..]. Qed.

(** Sessions come and go one at a time. *)
Lemma sessions_insert (m : gmap N N) sid id i : m !! sid = None ->
  size (filter (fun sc => sc.2 = i) (<[ sid := id ]> m)) =
    (if decide (id = i) then 1 else 0) + size (filter (fun sc => sc.2 = i) m).
Proof.
  intros H0. case_decide as Hi.
  - rewrite map_filter_insert_True by done. rewrite map_size_insert_None; [done|].
    by rewrite map_lookup_filter, H0.
  - rewrite map_filter_insert_False by done. by rewrite delete_id by done.
Qed.
Lemma sessions_delete (m : gmap N N) sid id i : m !! sid = Some id ->
  size (filter (fun sc => sc.2 = i) m) =
    (if decide (id = i) then 1 else 0) + size (filter (fun sc => sc.2 = i) (delete sid m)).
Proof. intros H0. rewrite <- (sessions_insert (delete sid m) sid) by apply lookup_delete_eq. by rewrite insert_delete_id. Qed.

Lemma size_delete_S {X} (m : gmap N X) i x : m !! i = Some x -> size m = S (size (delete i m)).
Proof.
  intros H. rewrite <- (insert_delete_id m i x H) at 1. apply map_size_insert_None, lookup_delete_eq.
Qed.
Lemma of_count_pos n : 0 < n -> of_count n = Some n.
Proof. destruct n; [lia|done]. Qed.

Lemma drop_permit_inv l id s : serve_inv l (Some id) s -> serve_inv l None (drop_permit id s).
Proof.
  intros [Hc Hr Hk Hn]. pose proof (Hr id) as Hid. rewrite decide_True, Nat.add_comm in Hid by done.
  cbn in Hid. unfold drop_permit. rewrite Hid.
  assert (Hother : forall i, i <> id -> sv_refs s !! i = of_count (holders i s + 0)).
  { intros i Hi. rewrite (Hr i). by rewrite decide_False by congruence. }
  destruct (holders id s) as [|n] eqn:Hh; (split; cbn; [| |done|done]).
  - rewrite (size_delete_S _ _ _ Hid) in Hc. lia.
  - intros i. change (holders i _) with (holders i s). destruct (decide (i = id)) as [->|Hi].
    + by rewrite lookup_delete_eq, Hh.
    + rewrite lookup_delete_ne by done. by apply Hother.
  - by rewrite map_size_insert_Some by eauto.
  - intros i. change (holders i _) with (holders i s). destruct (decide (i = id)) as [->|Hi].
    + by rewrite lookup_insert_eq, Hh, Nat.add_0_r.
    + rewrite lookup_insert_ne by done. by apply Hother.
Qed.

Lemma conn_done_inv l id phase s : serve_inv l None s -> sv_conns s !! id = Some phase ->
  serve_inv l (Some id) (set_conns (delete id (sv_conns s)) s).
Proof.
  intros [Hc Hr Hk Hn] H0. split; cbn; [done| |by apply map_Forall_delete|done].
  intros i. rewrite (Hr i). f_equal. unfold holders. cbn.
  rewrite (decide_False (P := None = Some i)) by done. case_decide as Hi.
  - injection Hi as <-. rewrite lookup_delete_eq, H0. cbn. lia.
  - rewrite lookup_delete_ne by congruence. done.
Qed.
Lemma conn_phase_inv l id phase phase' s : serve_inv l None s -> sv_conns s !! id = Some phase ->
  serve_inv l None (set_conns (<[ id := phase' ]> (sv_conns s)) s).
Proof.
  intros [Hc Hr Hk Hn] H0. split; cbn; [done| |apply map_Forall_insert_2; [exact (Hk _ _ H0)|done]|done].
  intros i. rewrite (Hr i). f_equal. unfold holders. cbn. f_equal. f_equal.
  destruct (decide (i = id)) as [->|Hi]; [by rewrite lookup_insert_eq, H0|by rewrite lookup_insert_ne].
Qed.
Lemma session_done_inv l sid id s : serve_inv l None s -> sv_sessions s !! sid = Some id ->
  serve_inv l (Some id) (set_sessions (delete sid (sv_sessions s)) s).
Proof.
  intros [Hc Hr Hk Hn] H0. split; cbn; [done| |done|by apply map_Forall_delete].
  intros i. rewrite (Hr i). f_equal. unfold holders. cbn. rewrite (sessions_delete _ _ _ _ H0).
  repeat case_decide; try congruence; lia.
Qed.
Lemma upgrade_inv l id phase s : serve_inv l None s -> sv_conns s !! id = Some phase ->
  serve_inv l None (upgrade id s).
Proof.
  intros [Hc Hr Hk Hn] H0. pose proof (Hr id) as Hid. cbn in Hid. rewrite Nat.add_0_r in Hid.
  assert (Hpos : 0 < holders id s) by (unfold holders; rewrite H0; lia). rewrite of_count_pos in Hid by done.
  assert (Hnew : sv_sessions s !! sv_next s = None).
  { destruct (sv_sessions s !! sv_next s) eqn:E; [|done]. apply Hn in E. lia. }
  split; cbn.
  - rewrite <- (insert_id _ _ _ Hid) at 1. by rewrite alter_insert_eq, map_size_insert_Some by eauto.
  - intros i. unfold holders. cbn. rewrite sessions_insert by done.
    rewrite (decide_False (P := None = Some i)) by done. destruct (decide (id = i)) as [->|Hi].
    + rewrite lookup_alter_eq, Hid. cbn. unfold holders. rewrite H0. cbn. f_equal. lia.
    + rewrite lookup_alter_ne by done. rewrite (Hr i). unfold holders. f_equal.
  - intros i x Hx. apply Hk in Hx. lia.
  - apply map_Forall_insert_2; [split; [lia|apply Hk in H0; lia]|]. intros i x Hx. apply Hn in Hx. lia.
Qed.
Lemma new_conn_inv l phase s : serve_inv l None s -> sv_loop s = AwaitAccept -> serve_inv l None (new_conn phase s).
Proof.
  intros [Hc Hr Hk Hn] Hl. rewrite Hl in Hc. cbn in Hc.
  assert (Hnone : sv_conns s !! sv_next s = None).
  { destruct (sv_conns s !! sv_next s) eqn:E; [|done]. apply Hk in E. lia. }
  assert (Hfree : size (filter (fun sc => sc.2 = sv_next s) (sv_sessions s)) = 0).
  { apply map_size_empty_iff, map_empty. intros sid. apply map_lookup_filter_None. right.
    intros id Hs Heq. apply Hn in Hs. cbn in Heq. lia. }
  assert (Hrn : sv_refs s !! sv_next s = None) by (rewrite (Hr _); unfold holders; by rewrite Hnone, Hfree).
  split; cbn.
  - rewrite map_size_insert_None by done. lia.
  - intros i. unfold holders. cbn. destruct (decide (i = sv_next s)) as [->|Hi].
    + by rewrite !lookup_insert_eq, Hfree.
    + rewrite !lookup_insert_ne by done. apply (Hr i).
  - apply map_Forall_insert_2; [lia|]. intros i x Hx. apply Hk in Hx. lia.
  - intros i x Hx. apply Hn in Hx. lia.
Qed.

Lemma permit_step_inv l stopping w s s' : serve_inv l None s -> step l stopping w s = Some s' -> serve_inv l None s'.
Proof.
  intros Hs.
  assert (Hloop : loop_step l stopping w s = Some s' -> serve_inv l None s').
  { unfold loop_step. destruct (sv_loop s) eqn:Hl, w; try discriminate;
      try (destruct stopping; [|discriminate]); try (destruct (sv_free s) eqn:Hf; [discriminate|]);
      intros [= <-]; try (apply set_loop_inv; [done|rewrite Hl; cbn; lia]). by apply new_conn_inv. }
  destruct w; try exact Hloop; cbn [step]; intros (x & Hx & H)%bind_Some.
  6:{ injection H as <-. by apply drop_permit_inv, session_done_inv. }
  all: destruct x; cbn in H; try discriminate; try (destruct stopping; [|discriminate]); injection H as <-;
    eauto using drop_permit_inv, conn_done_inv, conn_phase_inv, upgrade_inv.
Qed.

(** C22: However accepts, handshakes, requests, upgrades, shutdown and the ends of
    connections and sessions interleave, every permit is free, held by the
    accept loop, or held by exactly one connection that is still open or has
    an open session. So connections and the sessions that outlive them never
    exceed the limit, and no capacity is lost when they end. *)
Theorem permits_accounted l events s :
  serve l (serve_new l) events = Some s ->
  sv_free s + loop_holds (sv_loop s) + size (sv_refs s) = N.to_nat (max_connections l) /\
  forall id, is_Some (sv_refs s !! id) <->
    is_Some (sv_conns s !! id) \/ exists sid, sv_sessions s !! sid = Some id.
Proof.
  assert (Hrun : forall s0, serve_inv l None s0 -> serve l s0 events = Some s -> serve_inv l None s).
  { induction events as [|[stopping w] events IH]; cbn; [by intros ? ? [= <-]|].
    intros s0 H0 (s1 & H1 & Hr)%bind_Some. by eapply IH; [eapply permit_step_inv|]. }
  intros [Hc Hr _ _]%Hrun; [|apply serve_new_inv]. split; [done|]. intros id. rewrite (Hr id). cbn.
  rewrite Nat.add_0_r. unfold holders. split.
  - intros [n Hn]. destruct (sv_conns s !! id); [by left; eauto|]. right. cbn in Hn.
    destruct (map_choose_or_empty (filter (fun sc => sc.2 = id) (sv_sessions s))) as [(sid & x & Hx)|He].
    + apply map_lookup_filter_Some in Hx as [Hx Hxi]. cbn in Hxi. subst x. eauto.
    + by rewrite He, map_size_empty in Hn.
  - intros [[p ->]|[sid Hsid]]; [cbn; eauto|]. rewrite of_count_pos; [eauto|].
    assert (0 < size (filter (fun sc => sc.2 = id) (sv_sessions s))); [|lia].
    rewrite (sessions_delete _ _ _ _ Hsid), decide_True by done. lia.
Qed.

(** ** Shutdown *)

(** Once the loop has ended, nothing more is accepted. *)
Lemma ended_stays l stopping w s s' : sv_loop s = Ended -> loop_step l stopping w s = Some s' -> False.
Proof. intros Hl. unfold loop_step. by rewrite Hl. Qed.
End serve.

(** A listener for one connection: a session keeps the permit after its
    connection's task is over. *)
Definition one_listener : Listener unit unit :=
  {| tcp := (); tls := Some (); max_connections := 1; handshake_timeout := from_secs 10; name := "public" |}.
Definition one_session : list (bool * Wake) :=
  [(false, PermitAcquired); (false, AcceptErr); (false, BackoffOver); (false, PermitAcquired);
   (false, AcceptOk); (false, HandshakeOk 0); (false, Upgraded 0); (false, ConnDone 0)].
Lemma permits_accounted_witness :
  exists s, serve one_listener (serve_new one_listener) one_session = Some s /\
    sv_free s + loop_holds (sv_loop s) + size (sv_refs s) = 1 /\ step one_listener false PermitAcquired s = None.
Proof.
  eexists. split; [vm_compute; reflexivity|]. split; [|reflexivity].
  apply (permits_accounted one_listener one_session). reflexivity.
Defined.
