(* ===== verification/Shutdown.v ===== *)
(** * Graceful shutdown

    [crates/webpush-server/src/shutdown.rs]: the sequence [Shutdown::run]
    goes through, while tasks start and end and time passes. What it logs
    is kept with the time it was logged at; the signals themselves are the
    operating system's. *)
From S2P Require Import Prelude RustStr Bridge.

(** The two [CancellationToken]s and the [TaskTracker] with its number of
    tasks. *)
Record Shutdown : Type := { draining : bool; stopping : bool; closed : bool; tasks : nat }.
Definition shutdown_default : Shutdown :=
  {| draining := false; stopping := false; closed := false; tasks := 0 |}.

(** Where [run] is waiting, until when. *)
Inductive At : Type := AwaitSignal | Sleeping (until : N) | Waiting (until : N) | Returned.
Inductive LogLine : Type := LDraining | LStopping | LTimedOut (remaining : nat).
Record Run : Type := { ru_at : At; ru_now : N; ru_shutdown : Shutdown; ru_log : list (N * LogLine) }.

(** What happens next. A task may be spawned at any time, even after the
    tracker was closed. *)
Inductive Happens : Type :=
| Elapse (d : N)
| Spawned
| Finished
| Signal
| Slept
| AllDone
| TimedOut.

Definition with_tasks (n : nat) (r : Run) : Run :=
  let s := ru_shutdown r in
  {| ru_at := ru_at r; ru_now := ru_now r;
     ru_shutdown := {| draining := draining s; stopping := stopping s; closed := closed s; tasks := n |};
     ru_log := ru_log r |}.

(** [Shutdown::run], a step at a time. The timeout of [tasks.wait()] looks at
    the tasks first. *)
Definition step (drain_delay timeout : Duration) (h : Happens) (r : Run) : option Run :=
  let s := ru_shutdown r in
  match h, ru_at r with
  | Elapse d, _ => Some {| ru_at := ru_at r; ru_now := ru_now r + d; ru_shutdown := s; ru_log := ru_log r |}
  | Spawned, _ => Some (with_tasks (S (tasks s)) r)
  | Finished, _ => match tasks s with 0 => None | S n => Some (with_tasks n r) end
  | Signal, AwaitSignal =>
      Some {| ru_at := Sleeping (ru_now r + drain_delay); ru_now := ru_now r;
              ru_shutdown := {| draining := true; stopping := stopping s; closed := closed s; tasks := tasks s |};
              ru_log := ru_log r ++ [(ru_now r, LDraining)] |}
  | Slept, Sleeping until =>
      if (until <=? ru_now r)%N then
        Some {| ru_at := Waiting (ru_now r + timeout); ru_now := ru_now r;
                ru_shutdown := {| draining := draining s; stopping := true; closed := true; tasks := tasks s |};
                ru_log := ru_log r ++ [(ru_now r, LStopping)] |}
      else None
  | AllDone, Waiting _ =>
      match tasks s with
      | 0 => Some {| ru_at := Returned; ru_now := ru_now r; ru_shutdown := s; ru_log := ru_log r |}
      | S _ => None
      end
  | TimedOut, Waiting until =>
      match tasks s with
      | 0 => None
      | n => if (until <=? ru_now r)%N then
               Some {| ru_at := Returned; ru_now := ru_now r; ru_shutdown := s;
                       ru_log := ru_log r ++ [(ru_now r, LTimedOut n)] |}
             else None
      end
  | _, _ => None
  end.

Fixpoint run (drain_delay timeout : Duration) (events : list Happens) (r : Run) : option Run :=
  match events with
  | [] => Some r
  | h :: events => r ← step drain_delay timeout h r; run drain_delay timeout events r
  end.
Definition run_new (now : N) : Run :=
  {| ru_at := AwaitSignal; ru_now := now; ru_shutdown := shutdown_default; ru_log := [] |}.

(** ** The order of a shutdown

    What the events alone say: the clock, the tasks alive, and when something
    first happened. *)
#[local] Instance happens_eq_dec : EqDecision Happens.
Proof. solve_decision. Defined.
Definition tick (now : N) (h : Happens) : N := match h with Elapse d => now + d | _ => now end%N.
Definition clock (now : N) (events : list Happens) : N := foldl tick now events.
Definition alive (events : list Happens) : nat :=
  foldl (fun n h => match h with Spawned => S n | Finished => Nat.pred n | _ => n end) 0 events.
Fixpoint time_of (h : Happens) (now : N) (events : list Happens) : option N :=
  match events with
  | [] => None
  | h' :: events => if decide (h' = h) then Some now else time_of h (tick now h') events
  end.

Lemma time_of_snoc h h' events : forall now,
  time_of h now (events ++ [h']) =
  match time_of h now events with
  | Some t => Some t
  | None => if decide (h' = h) then Some (clock now events) else None
  end.
Proof. induction events as [|h0 events IH]; intros now; simpl; [done|]. destruct (decide (h0 = h)); [done|]. apply IH. Qed.
Lemma clock_snoc now events h : clock now (events ++ [h]) = tick (clock now events) h.
Proof. unfold clock. by rewrite foldl_app. Qed.
Lemma run_snoc drain_delay timeout events h : forall r,
  run drain_delay timeout (events ++ [h]) r = r1 ← run drain_delay timeout events r; step drain_delay timeout h r1.
Proof.
  induction events as [|h0 events IH]; intros r; cbn; [by destruct (step drain_delay timeout h r)|].
  destruct (step drain_delay timeout h0 r); cbn; auto.
Qed.

Section order.
Context (drain_delay timeout : Duration) (now : N).

(** How the wait for the tasks ended: with none left, or after the whole
    timeout, counted from [t1], with some still running. *)
Definition ended (events : list Happens) (t1 : N) : Prop :=
  exists before h after, events = before ++ h :: after /\
    (h = AllDone /\ alive before = 0 \/
     h = TimedOut /\ alive before <> 0 /\ (t1 + timeout <= clock now before)%N).

(** The log of a run: the signal's time, the drain delay's end, the timeout. *)
Definition logged (log : list (N * LogLine)) (t0 t1 : N) : Prop :=
  log = [(t0, LDraining); (t1, LStopping)] \/
  exists t2 n, log = [(t0, LDraining); (t1, LStopping); (t2, LTimedOut (S n))] /\ (t1 + timeout <= t2)%N.

(** What is known at each point, of the events that led there. *)
Definition run_inv (events : list Happens) (r : Run) : Prop :=
  let s := ru_shutdown r in
  ru_now r = clock now events /\ tasks s = alive events /\ closed s = stopping s /\
  match ru_at r with
  | AwaitSignal => time_of Signal now events = None /\ time_of Slept now events = None /\
      ru_log r = [] /\ draining s = false /\ stopping s = false
  | Sleeping until => exists t0, time_of Signal now events = Some t0 /\ time_of Slept now events = None /\
      ru_log r = [(t0, LDraining)] /\ until = (t0 + drain_delay)%N /\ draining s = true /\ stopping s = false
  | Waiting until => exists t0 t1, time_of Signal now events = Some t0 /\ time_of Slept now events = Some t1 /\
      ru_log r = [(t0, LDraining); (t1, LStopping)] /\ (t0 + drain_delay <= t1)%N /\ until = (t1 + timeout)%N /\
      draining s = true /\ stopping s = true
  | Returned => exists t0 t1, time_of Signal now events = Some t0 /\ time_of Slept now events = Some t1 /\
      (t0 + drain_delay <= t1)%N /\ draining s = true /\ stopping s = true /\
      logged (ru_log r) t0 t1 /\ ended events t1
  end.

Lemma ended_snoc events h t1 : ended events t1 -> ended (events ++ [h]) t1.
Proof. intros (b & h' & a & -> & He). exists b, h', (a ++ [h]). by rewrite <- app_assoc. Qed.
Lemma alive_snoc events h : alive (events ++ [h]) =
  match h with Spawned => S (alive events) | Finished => Nat.pred (alive events) | _ => alive events end.
Proof. unfold alive. by rewrite foldl_app. Qed.

Lemma shutdown_step_inv events h r r' :
  run_inv events r -> step drain_delay timeout h r = Some r' -> run_inv (events ++ [h]) r'.
Proof.
  destruct r as [at_ rnow [d s c n] log]. unfold run_inv, step, with_tasks. cbn.
  rewrite clock_snoc, alive_snoc, !time_of_snoc. intros (-> & -> & -> & Hat) Hstep.
  destruct h; cbn in Hstep.
  1-3: rewrite !decide_False by done; try (destruct (alive events); [done|]); simplify_eq/=;
    do 3 (split; [done|]); destruct at_;
    [destruct Hat as (-> & -> & ?)|destruct Hat as (t0 & -> & -> & ?)
    |destruct Hat as (t0 & t1 & -> & -> & ?)|destruct Hat as (t0 & t1 & -> & -> & ?)];
    naive_solver auto using ended_snoc.
  - destruct at_; simplify_eq/=. destruct Hat as (-> & -> & -> & -> & ->). repeat split; eauto 10.
  - destruct at_; try done. destruct Hat as (t0 & -> & -> & -> & -> & -> & ->).
    destruct (N.leb_spec (t0 + drain_delay) (clock now events)); [|done].
    simplify_eq/=. repeat split; eauto 12.
  - destruct at_; try done. destruct (alive events) eqn:Ha; simplify_eq/=.
    destruct Hat as (t0 & t1 & -> & -> & -> & ? & -> & -> & ->). repeat (split; [done|]).
    exists t0, t1. repeat (split; [done|]). split; [by left|]. exists events, AllDone, []. auto.
  - destruct at_; try done. destruct (alive events) as [|n] eqn:Ha; [done|].
    destruct Hat as (t0 & t1 & -> & -> & -> & ? & -> & -> & ->).
    destruct (N.leb_spec (t1 + timeout) (clock now events)); simplify_eq/=. repeat (split; [done|]).
    exists t0, t1. repeat (split; [done|]). split; [right; eauto|]. exists events, TimedOut, [].
    split; [done|]. right. by rewrite Ha.
Qed.

Lemma shutdown_run_inv events : forall r, run drain_delay timeout events (run_new now) = Some r -> run_inv events r.
Proof.
  induction events as [|h events IH] using rev_ind; [by intros r [= <-]|].
  intros r. rewrite run_snoc. intros (r1 & Hrun & Hstep)%bind_Some. eauto using shutdown_step_inv.
Qed.

(** C26: Whatever happens, and whenever: readiness has failed exactly once the
    signal has come; the connections have been told to close, and the tracker
    was closed, exactly once the drain delay was slept through, which ends no
    earlier than [drain_delay] after the signal, and not before; and the
    shutdown returns only after both, with no task left alive at that moment,
    or with some still alive and the whole timeout gone since the connections
    were told. The log has the times of these points. *)
Theorem shutdown_order events r :
  run drain_delay timeout events (run_new now) = Some r ->
  let s := ru_shutdown r in
  (draining s = true <-> exists t0, time_of Signal now events = Some t0) /\
  (stopping s = true <-> exists t1, time_of Slept now events = Some t1) /\
  closed s = stopping s /\
  (forall t1, time_of Slept now events = Some t1 ->
    exists t0, time_of Signal now events = Some t0 /\ (t0 + drain_delay <= t1)%N) /\
  (ru_at r = Returned -> draining s = true /\ stopping s = true /\
    exists t0 t1, time_of Signal now events = Some t0 /\ time_of Slept now events = Some t1 /\
      ended events t1 /\ logged (ru_log r) t0 t1).
Proof.
  intros (_ & _ & Hc & Hat)%shutdown_run_inv. cbn. rewrite Hc. clear Hc. destruct (ru_at r).
  - destruct Hat as (-> & -> & _ & -> & ->). naive_solver.
  - destruct Hat as (t0 & -> & -> & _ & _ & -> & ->). naive_solver.
  - destruct Hat as (t0 & t1 & -> & -> & _ & ? & _ & -> & ->). naive_solver.
  - destruct Hat as (t0 & t1 & -> & -> & ? & -> & -> & ?). naive_solver.
Qed.

(** Once the signal has come, the tasks' ends and the clock are all it takes
    to return: at every point there is a step to take, or time to pass. *)
Lemma shutdown_proceeds r : ru_at r <> AwaitSignal -> ru_at r <> Returned ->
  exists d h r1, step drain_delay timeout (Elapse d) r = Some r1 /\
    (h = Slept \/ h = AllDone \/ h = TimedOut) /\ is_Some (step drain_delay timeout h r1).
Proof.
  destruct r as [at_ rnow [dr s c n] log]. cbn. intros H1 H2. destruct at_ as [|u|u|]; try done.
  - exists u, Slept. eexists. split; [reflexivity|]. split; [by left|]. cbn.
    rewrite (proj2 (N.leb_le u (rnow + u))) by lia. eauto.
  - destruct n as [|n].
    + exists 0%N, AllDone. eexists. split; [reflexivity|]. split; [by auto|]. cbn. eauto.
    + exists u, TimedOut. eexists. split; [reflexivity|]. split; [by auto|]. cbn.
      rewrite (proj2 (N.leb_le u (rnow + u))) by lia. eauto.
Qed.
End order.

(** A task that does not end is given up after the timeout. *)
Definition stuck : list Happens :=
  [Spawned; Spawned; Elapse 7; Signal; Elapse 5; Slept; Finished; Elapse 30; TimedOut].
Lemma shutdown_order_witness :
  exists r, run 5 30 stuck (run_new 0) = Some r /\ ru_at r = Returned /\
    ru_log r = [(7, LDraining); (12, LStopping); (42, LTimedOut 1)]%N /\
    exists t0 t1, time_of Signal 0 stuck = Some t0 /\ time_of Slept 0 stuck = Some t1 /\
      ended 30 0 stuck t1 /\ logged 30 (ru_log r) t0 t1.
Proof.
  eexists. split; [vm_compute; reflexivity|]. split; [reflexivity|]. split; [reflexivity|].
  apply (shutdown_order 5 30 0 stuck); reflexivity.
Defined.
