(* ===== verification/Config.v ===== *)
(** * The configuration and its validation

    [crates/webpush-server/src/config.rs]. Reading TOML and the environment
    is the work of a library; what is modelled is the structure it yields and
    [Config::validate]. The configurations of the two bridge crates are type
    parameters, since only their presence matters here; a cargo feature is a
    boolean. *)
From S2P Require Import Prelude RustStr External Bridge.

Inductive Role : Type := All | Endpoint | Connect.
#[export] Instance role_eq_dec : EqDecision Role.
Proof. solve_decision. Defined.

(** [Role::connects] and [Role::serves_endpoint] *)
Definition connects (r : Role) : bool :=
  match r with All | Connect => true | Endpoint => false end.
Definition serves_endpoint (r : Role) : bool :=
  match r with All | Endpoint => true | Connect => false end.

Record Tls : Type := { cert_file : string; key_file : string }.
Record Public : Type := {
  public_listen : string;
  tls : option Tls;
  max_connections : N;
  handshake_timeout : Duration;
}.
Record Internal : Type := { internal_listen : string }.
Record Cluster : Type := { node_url : string; token : string; notify_timeout : Duration }.
Record Push : Type := { max_ttl : Duration; max_payload : N; reaper_interval : Duration }.
Record WebSocket : Type := {
  hello_timeout : Duration;
  ping_interval : Duration;
  pong_timeout : Duration;
  backlog_batch : N;
  queue : N;
  max_session : option Duration;
}.
Record Receipts : Type := { keepalive : Duration }.
Record UserAgents : Type := { expire_after : option Duration; sweep_interval : Duration }.
Record Cors : Type := { allowed_origins : list string }.
Record Registration : Type := { secret_keys : list string }.
Record Bridges (F A : Type) : Type := { fcm : option F; apns : option A }.
Arguments fcm {F A} _.
Arguments apns {F A} _.
Record Bigtable : Type := {
  bt_endpoint : string;
  bt_project : string;
  bt_instance : string;
  bt_table : string;
  bt_create_table : bool;
  bt_credentials_file : option string;
  bt_app_profile : option string;
}.
Inductive StoreConfig : Type := MemoryStoreConfig | BigtableStore (b : Bigtable).
Inductive LogFormat : Type := Text | JsonLines.
Record Log : Type := { level : string; format : LogFormat }.
Record ShutdownConfig : Type := { drain_delay : Duration; shutdown_timeout : Duration }.

Record Config (F A : Type) : Type := {
  role : Role;
  origin : string;
  public : Public;
  internal : option Internal;
  cluster : option Cluster;
  push : Push;
  websocket : WebSocket;
  receipts : Receipts;
  user_agents : UserAgents;
  cors : Cors;
  registration : Registration;
  bridges : Bridges F A;
  store : StoreConfig;
  log : Log;
  shutdown : ShutdownConfig;
}.
Arguments role {F A} _.
Arguments origin {F A} _.
Arguments public {F A} _.
Arguments internal {F A} _.
Arguments cluster {F A} _.
Arguments push {F A} _.
Arguments websocket {F A} _.
Arguments receipts {F A} _.
Arguments user_agents {F A} _.
Arguments cors {F A} _.
Arguments registration {F A} _.
Arguments bridges {F A} _.
Arguments store {F A} _.
Arguments log {F A} _.
Arguments shutdown {F A} _.

(** The [Default] implementations *)
Definition default_public : Public := {|
  public_listen := "0.0.0.0:8443"; tls := None; max_connections := 100000;
  handshake_timeout := from_secs 10;
|}.
Definition default_push : Push := {|
  max_ttl := from_secs (60 * 24 * 3600); max_payload := 4096; reaper_interval := from_secs 1;
|}.
Definition default_websocket : WebSocket := {|
  hello_timeout := from_secs 10; ping_interval := from_secs 60; pong_timeout := from_secs 30;
  backlog_batch := 100; queue := 128; max_session := None;
|}.
Definition default_receipts : Receipts := {| keepalive := from_secs 30 |}.
Definition default_user_agents : UserAgents :=
  {| expire_after := None; sweep_interval := from_secs 3600 |}.
Definition default_log : Log := {| level := "info"; format := Text |}.
Definition default_shutdown : ShutdownConfig :=
  {| drain_delay := from_secs 5; shutdown_timeout := from_secs 30 |}.

Definition is_some {A} (o : option A) : bool := match o with Some _ => true | None => false end.

Section validate.
Context {F A : Type} (feature_fcm feature_apns : bool).

(** [Bridges::any] *)
Definition any (b : Bridges F A) : bool :=
  existsb id [if feature_fcm then is_some (fcm b) else false;
              if feature_apns then is_some (apns b) else false].

(** [Err("...".into())?] unless the condition holds. *)
Definition ensure (ok : bool) (message : string) : result BoxError unit :=
  if ok then Ok () else Err message.

(** The cluster section of [Config::validate]. *)
Definition validate_cluster (c : Config F A) : result BoxError unit :=
  match cluster c with
  | None =>
      ensure (bool_decide (role c = All))
        "role endpoint and connect require a [cluster] section"
  | Some cl =>
      _ ← ensure (is_some (internal c)) "[cluster] requires an [internal] listener";
      _ ← ensure (negb (str_len (token cl) <? 16)%N)
            "cluster.token must be at least 16 characters";
      ensure (starts_with "http://" (node_url cl) || starts_with "https://" (node_url cl))
        "cluster.node_url must be an http:// or https:// URL"
  end.

(** [Config::validate] *)
Definition validate (c : Config F A) : result BoxError unit :=
  let trimmed := trim_end_matches (char_is 47) (origin c) in
  _ ← ensure (negb (negb (bool_decide (trimmed = origin c)) ||
                    negb (starts_with "https://" (origin c))))
        "origin must be an https:// URL without a trailing slash";
  _ ← ensure (negb (max_payload (push c) <? 4096)%N)
        "push.max_payload must be at least 4096 (RFC 8030 §7.2)";
  _ ← ensure (negb (match max_session (websocket c) with
                    | Some d => (d =? 0)%N | None => false end))
        "websocket.max_session must be positive";
  _ ← ensure (negb ((backlog_batch (websocket c) =? 0)%N || (queue (websocket c) =? 0)%N))
        "websocket.backlog_batch and websocket.queue must be positive";
  _ ← ensure (negb (max_connections (public c) =? 0)%N)
        "public.max_connections must be positive";
  _ ← validate_cluster c;
  _ ← ensure (negb (any (bridges c) && bool_decide (secret_keys (registration c) = [])))
        "bridges require registration.secret_keys";
  ensure (negb (existsb (fun k => (str_len k <? 32)%N) (secret_keys (registration c))))
    "registration.secret_keys must be at least 32 characters each".

(** [Config::load] and [Config::from_toml]: [extract] is [figment]'s reading of
    the file and the environment. *)
Definition load {X} (extract : X -> result BoxError (Config F A)) (source : X) : result BoxError (Config F A) :=
  cfg ← extract source;
  _ ← validate cfg;
  Ok cfg.

Lemma ensure_Ok ok m u : ensure ok m = Ok u <-> ok = true.
Proof. destruct ok, u; done. Qed.
Lemma result_bind_Ok {E X Y} (m : result E X) (f : X -> result E Y) y :
  (m ≫= f) = Ok y <-> exists x, m = Ok x /\ f x = Ok y.
Proof. destruct m; cbn; naive_solver. Qed.
Lemma result_bind_unit {E Y} (m : result E unit) (f : unit -> result E Y) y :
  (m ≫= f) = Ok y <-> m = Ok () /\ f () = Ok y.
Proof. rewrite result_bind_Ok. split; [intros ([] & ? & ?); auto|eauto]. Qed.

Lemma validate_cluster_Ok c :
  validate_cluster c = Ok () <->
  (cluster c = None -> role c = All) /\
  (forall cl, cluster c = Some cl ->
    internal c <> None /\ (16 <= str_len (token cl))%N /\
    (starts_with "http://" (node_url cl) = true \/ starts_with "https://" (node_url cl) = true)).
Proof.
  unfold validate_cluster. destruct (cluster c) as [cl|].
  - rewrite !result_bind_unit, !ensure_Ok, negb_true_iff, N.ltb_ge, orb_true_iff.
    assert (is_some (internal c) = true <-> internal c <> None) as -> by (by destruct (internal c)).
    split; [|intros [_ Hcl]; exact (Hcl cl eq_refl)]. intros H. split; [done|]. by intros ? [= <-].
  - rewrite ensure_Ok, bool_decide_eq_true. split; [|intros [Hr _]; auto]. by intros H.
Qed.

(** What the start of a server relies on. *)
Lemma validate_parts c : validate c = Ok () ->
  (0 < max_connections (public c))%N /\ validate_cluster c = Ok ().
Proof.
  unfold validate. rewrite !result_bind_unit, !ensure_Ok, !negb_true_iff, N.eqb_neq.
  intros H. split; [lia|tauto].
Qed.
End validate.
