(* ===== verification/App.v ===== *)
(** * The state shared by handlers, and the world they run in

    [crates/webpush-server/src/app.rs] and the types of [notify.rs] that
    [App] holds. [App] is what does not change while the process runs; a
    [World] is everything a computation reads or changes: clock and random
    numbers, the store, the hub and its channels, the tasks spawned and not
    yet run, the outcomes of the HTTP requests to other nodes, and the
    platform bridges' own state. *)
From S2P Require Import Prelude RustStr External StoreTypes Store Hub Bridge Config.

(** ** Messages between nodes ([notify.rs]) *)
Inductive WireRecipient : Type :=
| WUserAgent (u : string)
| WReceipts (r : string).
Inductive WireEvent : Type :=
| WMessage (id channel_id body : string) (encoding : option string)
| WReceipt (seq : N) (rsub message : string) (status : N)
| WGone.
Record Envelope : Type := { env_to : WireRecipient; env_event : WireEvent }.

(** ** Cluster membership ([notify.rs]) *)
Record ClusterLink : Type := {
  cl_node_url : string;
  cl_token_digest : Bytes;
  cl_token : string;
}.

(** [Secrets] ([registration.rs]): the HMAC keys *)
Record Secrets : Type := { s_keys : list Bytes }.

(** The outcome of an HTTP request: a response status, a failure to connect,
    or another failure. *)
Inductive HttpOutcome : Type :=
| HttpStatus (status : N)
| HttpConnect
| HttpFailure.

(** Tasks handed to [tokio]'s task tracker. *)
Inductive Task : Type :=
| TClearRoute (to : Recipient) (node : string)
| TForward (node : string) (to : Recipient) (event : Event).

Section app.
Context {S BW F A : Type} `{MP : Mpsc}.

Record App : Type := {
  app_cfg : Config F A;
  app_cluster : option ClusterLink;
  app_bridges : gmap string (SharedBridge BW);
  app_secrets : Secrets;
}.

(** [App::origin] *)
Definition app_origin (app : App) : string := origin (app_cfg app).

Record World : Type := {
  w_env : Env;
  w_store : S;
  w_hub : Hub;
  w_chans : Chans;
  w_tasks : list Task;
  w_http : nat -> HttpOutcome;
  w_posts : list (string * string * Envelope);
  w_bridges : BW;
}.

(** ** Running a component's computation in the world *)
Definition with_env {A} (m : ST Env A) : ST World A := fun w =>
  let '(a, e) := m (w_env w) in
  (a, {| w_env := e; w_store := w_store w; w_hub := w_hub w; w_chans := w_chans w;
         w_tasks := w_tasks w; w_http := w_http w; w_posts := w_posts w;
         w_bridges := w_bridges w |}).
Definition with_store {A} (m : SM S A) : EST World BoxError A := fun w =>
  let '(a, (e, s)) := m (w_env w, w_store w) in
  (a, {| w_env := e; w_store := s; w_hub := w_hub w; w_chans := w_chans w;
         w_tasks := w_tasks w; w_http := w_http w; w_posts := w_posts w;
         w_bridges := w_bridges w |}).
Definition with_hub {A} (m : ST (Hub * Chans) A) : ST World A := fun w =>
  let '(a, (h, c)) := m (w_hub w, w_chans w) in
  (a, {| w_env := w_env w; w_store := w_store w; w_hub := h; w_chans := c;
         w_tasks := w_tasks w; w_http := w_http w; w_posts := w_posts w;
         w_bridges := w_bridges w |}).
Definition with_bridges {E A} (m : EST BW E A) : EST World E A := fun w =>
  let '(a, b) := m (w_bridges w) in
  (a, {| w_env := w_env w; w_store := w_store w; w_hub := w_hub w; w_chans := w_chans w;
         w_tasks := w_tasks w; w_http := w_http w; w_posts := w_posts w; w_bridges := b |}).

(** [shutdown.tasks.spawn(...)] *)
Definition spawn (t : Task) : ST World unit := fun w =>
  ((), {| w_env := w_env w; w_store := w_store w; w_hub := w_hub w; w_chans := w_chans w;
          w_tasks := w_tasks w ++ [t]; w_http := w_http w; w_posts := w_posts w;
          w_bridges := w_bridges w |}).

(** [client.post(url).bearer_auth(token).json(&body).send()]; the outcome of
    the [n]th request is [w_http w n]. *)
Definition post (url token : string) (body : Envelope) : ST World HttpOutcome := fun w =>
  (w_http w (length (w_posts w)),
   {| w_env := w_env w; w_store := w_store w; w_hub := w_hub w; w_chans := w_chans w;
      w_tasks := w_tasks w; w_http := w_http w; w_posts := w_posts w ++ [(url, token, body)];
      w_bridges := w_bridges w |}).

(** Look at a result without failing: [match ... { Ok(x) => .., Err(e) => .. }]. *)
Definition attempt {E A} (m : EST World E A) : ST World (result E A) := m.

Section new.
Context `{Hmac}.

(** [ClusterLink::new]; the HTTP client it builds is [post]. *)
Definition new_cluster_link (cfg : Cluster) : ClusterLink := {|
  cl_node_url := trim_end_matches (char_is 47) (Config.node_url cfg);
  cl_token_digest := sha256 (as_bytes (Config.token cfg));
  cl_token := Config.token cfg;
|}.

(** [ClusterLink::authorized] *)
Definition authorized (c : ClusterLink) (presented : string) : bool :=
  bool_decide (sha256 (as_bytes presented) = cl_token_digest c).

(** [Secrets::new] *)
Definition new_secrets (keys : list string) : Secrets := {| s_keys := as_bytes <$> keys |}.

(** The bridges by name; [None] when two share one. *)
Fixpoint by_name (bridges : list (SharedBridge BW)) (m : gmap string (SharedBridge BW))
  : option (gmap string (SharedBridge BW)) :=
  match bridges with
  | [] => Some m
  | b :: bridges =>
      match m !! b_name b with
      | Some _ => None
      | None => by_name bridges (<[ b_name b := b ]> m)
      end
  end.

(** [App::new] *)
Definition new_app (cfg : Config F A) (bridges : list (SharedBridge BW)) : result BoxError App :=
  by_name ← ok_or "two bridges share a name" (by_name bridges ∅);
  Ok {| app_cfg := cfg;
        app_cluster := new_cluster_link <$> Config.cluster cfg;
        app_bridges := by_name;
        app_secrets := new_secrets (secret_keys (registration cfg)) |}.
End new.
End app.
Arguments App : clear implicits.
Arguments World S BW {MP}.
