(* ===== verification/Notify.v ===== *)
(** * Delivering events to connections, on this node or another

    [crates/webpush-server/src/notify.rs]: becoming the listener for a
    recipient, handing an event to whoever listens, and the envelopes nodes
    exchange. *)
From S2P Require Import Prelude RustStr External StoreTypes Store Instances Hub Bridge Config App.

Definition NOTIFY_PATH : string := "/internal/v1/notify".

(** ** Envelopes *)
Section envelope.
Context `{Base64}.

(** [Envelope::new] *)
Definition new_envelope (to : Recipient) (event : Event) : Envelope := {|
  env_to := match to with
            | RUserAgent u => WUserAgent u
            | RReceipts r => WReceipts r
            end;
  env_event := match event with
               | EvMessage n =>
                   WMessage (n_id n) (n_channel_id n) (b64_encode (n_body n)) (n_encoding n)
               | EvReceipt seq r => WReceipt seq (r_rsub r) (r_msg_id r) (r_status r)
               | EvGone => WGone
               end;
|}.

(** [Envelope::open] *)
Definition open (e : Envelope) : option (Recipient * Event) :=
  let to := match env_to e with
            | WUserAgent u => RUserAgent u
            | WReceipts r => RReceipts r
            end in
  event ← match env_event e with
          | WMessage id ch body enc =>
              body ← b64_decode body;
              Some (EvMessage {| n_id := id; n_channel_id := ch; n_body := body; n_encoding := enc |})
          | WReceipt seq rsub message status =>
              Some (EvReceipt seq {| r_rsub := rsub; r_msg_id := message; r_status := status |})
          | WGone => Some EvGone
          end;
  Some (to, event).

Lemma open_new_envelope `{!Base64Laws} to event : open (new_envelope to event) = Some (to, event).
Proof.
  destruct to, event as [[]|? []|]; cbn; rewrite ?b64_decode_encode; done.
Qed.

(** an event sent to another node arrives there unchanged, for the
    recipient it was meant for. *)
Theorem envelope_roundtrip `{!Base64Laws} to event :
  open (new_envelope to event) = Some (to, event).
Proof. apply open_new_envelope. Qed.
End envelope.

Lemma envelope_roundtrip_witness :
  let n := {| n_id := "m"; n_channel_id := "c"; n_body := [x00; xff]; n_encoding := None |} in
  open (new_envelope (RUserAgent "u") (EvMessage n)) = Some (RUserAgent "u", EvMessage n).
Proof. apply (@envelope_roundtrip b64url _). Defined.

(** ** Operations *)
Section notify.
Context {S BW F A : Type} `{St : Store S} `{MP : Mpsc} `{B64 : Base64}.
Abbreviation World := (World S BW).
Abbreviation App := (App BW F A).
Implicit Types (app : App).

Record Listener : Type := { l_rx : Chan; l_to : Recipient; l_id : N }.

(** [App::clear_stale]; an error is only logged. *)
Definition clear_stale (to : Recipient) (node : string) : ST World unit :=
  _ ← attempt (with_store (clear_route to node)); mret ().

(** [App::forward] *)
Definition forward app (node : string) (to : Recipient) (event : Event) : ST World unit :=
  match app_cluster app with
  | None => mret ()
  | Some c =>
      outcome ← post (node +:+ NOTIFY_PATH) (cl_token c) (new_envelope to event);
      match outcome with
      | HttpStatus s =>
          if (200 <=? s)%N && (s <? 300)%N then mret ()
          else if (s =? 404)%N then clear_stale to node
          else mret ()
      | HttpConnect => clear_stale to node
      | HttpFailure => mret ()
      end
  end.

(** [App::notify] *)
Definition notify app (to : Recipient) (event : Event) : ST World unit :=
  n ← with_hub (Hub.notify to event);
  match n with
  | Delivered => mret ()
  | Dropped => mret ()
  | Absent =>
      match app_cluster app with
      | None => mret ()
      | Some c =>
          r ← attempt (with_store (route to));
          match r with
          | Ok (Some node) =>
              if decide (node = cl_node_url c) then clear_stale to node
              else forward app node to event
          | Ok None => mret ()
          | Err _ => mret ()
          end
      end
  end.

(** [App::notify_receipts] *)
Fixpoint notify_receipts app (receipts : list (N * Receipt)) : ST World unit :=
  match receipts with
  | [] => mret ()
  | (seq, r) :: receipts =>
      _ ← notify app (RReceipts (r_rsub r)) (EvReceipt seq r);
      notify_receipts app receipts
  end.

(** [App::owe_receipt] *)
Definition owe_receipt app (m : Message) (status : N) : EST World BoxError unit :=
  match m_rsub m with
  | None => mret ()
  | Some rsub =>
      let r := {| r_rsub := rsub; r_msg_id := m_id m; r_status := status |} in
      o ← with_store (enqueue_receipt r);
      match o with
      | Some seq => lift_st (notify_receipts app [(seq, r)])
      | None => mret ()
      end
  end.

Definition with_chans (f : Chans -> Chans) : ST World unit :=
  with_hub (fun '(h, c) => ((), (h, f c))).

(** [Drop for Listener]: the hub registration and, in a cluster, the route;
    then the receiver is dropped with the struct. *)
Definition drop_listener app (l : Listener) : ST World unit :=
  was ← with_hub (unregister (l_to l) (l_id l));
  _ ← (if (was : bool) then
         match app_cluster app with
         | Some c => spawn (TClearRoute (l_to l) (cl_node_url c))
         | None => mret ()
         end
       else mret ());
  with_chans (drop_receiver (l_rx l)).

(** [App::listen]; the listener is dropped when the store fails. *)
Definition listen app (to : Recipient) : EST World BoxError Listener :=
  '(id, rx) ← lift_st (with_hub (register to));
  let listener := {| l_rx := rx; l_to := to; l_id := id |} in
  match app_cluster app with
  | None => mret listener
  | Some c =>
      r ← lift_st (attempt (with_store (set_route to (cl_node_url c))));
      match r with
      | Err e => _ ← lift_st (drop_listener app listener); throw e
      | Ok previous =>
          _ ← (match previous with
               | Some node =>
                   if decide (node <> cl_node_url c) then
                     lift_st (spawn (TForward node to EvGone))
                   else mret ()
               | None => mret ()
               end);
          mret listener
      end
  end.

(** What a spawned task does when it runs. *)
Definition run_task app (t : Task) : ST World unit :=
  match t with
  | TClearRoute to node => clear_stale to node
  | TForward node to event => forward app node to event
  end.
End notify.
