(* ===== verification/Client.v ===== *)
(** * Outgoing HTTP

    The [reqwest] clients of the platform bridges and the token source: a
    request, and the world it is sent into. What the other side answers is an
    oracle; a request that [reqwest] itself refuses to build (a malformed
    header value or URL) counts as one whose sending fails. *)
From S2P Require Import Prelude RustStr External StoreTypes Bridge.

Inductive RequestBody : Type :=
| NoBody
| Body (b : Bytes)
| Form (fields : list (string * string)).

(** [rq_query] is appended to the URL by [reqwest], percent-encoded. *)
Record Request : Type := {
  rq_method : string;
  rq_url : string;
  rq_query : list (string * string);
  rq_headers : list (string * string);
  rq_body : RequestBody;
}.

(** A reply; [rp_body] is [None] when reading the body fails. *)
Record Reply `{Http} : Type := {
  rp_status : N;
  rp_headers : HeaderMap;
  rp_body : option Bytes;
}.

(** [StatusCode]'s text, for example [404 Not Found]. *)
Class StatusText : Type := { status_text : N -> string }.
Definition is_success (status : N) : bool := (200 <=? status)%N && (status <? 300)%N.

Section client.
Context `{Http}.

(** The clocks of the process, the requests sent, and the outcome of the
    [n]th. *)
Record Net : Type := {
  net_env : Env;
  net_sent : list Request;
  net_reply : nat -> result BoxError Reply;
}.

Definition net_with_env {X} (m : ST Env X) : ST Net X := fun n =>
  let '(x, e) := m (net_env n) in
  (x, {| net_env := e; net_sent := net_sent n; net_reply := net_reply n |}).

(** [request.send().await] *)
Definition send_request (r : Request) : EST Net BoxError Reply := fun n =>
  (net_reply n (length (net_sent n)),
   {| net_env := net_env n; net_sent := net_sent n ++ [r]; net_reply := net_reply n |}).

(** [SystemTime::now()] in seconds since 1970. *)
Definition unix_now : ST Env N := fun e =>
  ((env_clock e (env_ticks e) / 1000)%N, (now_ms e).2).

(** The first value of a reply's header. *)
Definition reply_header (r : Reply) (name : string) : option HeaderValue :=
  head (get_all (rp_headers r) name).

(** [Retry-After] in seconds, as both bridges read it. *)
Definition retry_after_of (r : Reply) : option Duration :=
  v ← reply_header r "retry-after";
  s ← to_str v;
  n ← parse_u64 (trim s);
  Some (from_secs n).
End client.

(** ** Worlds of a bridge

    The network, and a cache per application behind the application's own
    lock: a step that holds the lock is one computation over both. *)
Record Caches `{Http} (C : Type) : Type := {
  bw_net : Net;
  bw_caches : gmap string C;
}.
Arguments bw_net {_ C} _.
Arguments bw_caches {_ C} _.
Arguments Build_Caches {_ C} _ _.

Definition with_cache `{Http} {C E X} (id : string) (m : EST (Net * option C) E X) :
    EST (Caches C) E X := fun w =>
  let '(r, (n, c)) := m (bw_net w, bw_caches w !! id) in
  (r, Build_Caches n (partial_alter (fun _ => c) id (bw_caches w))).
Definition with_net `{Http} {C E X} (m : EST Net E X) : EST (Caches C) E X := fun w =>
  let '(r, n) := m (bw_net w) in (r, Build_Caches n (bw_caches w)).

(** [reqwest::ClientBuilder::build] with a timeout, speaking HTTP/2 with prior
    knowledge or not. *)
Class ClientBuilder : Type := { build_client : N -> bool -> result BoxError unit }.
(** [http_client] and [http2_client] of the bridge crate. *)
Definition http_client `{ClientBuilder} (timeout : Duration) : result BoxError unit :=
  build_client timeout false.
Definition http2_client `{ClientBuilder} (timeout : Duration) (plaintext : bool) :
    result BoxError unit := build_client timeout plaintext.

(** A computation that reads clocks and random octets, and issues no sequence
    number. *)
Definition env_steps (e e' : Env) : Prop := env_extends e e' /\ env_last_seq e' = env_last_seq e.
#[export] Instance env_steps_preorder : PreOrder env_steps.
Proof. split; [by intros e|]. intros e1 e2 e3 [H1 Hs1] [H2 Hs2]. split; [by etrans|congruence]. Qed.

(** ** What a computation did to the network: it sent [rs], and read clocks
    and random octets. *)
Record sends `{Http} (rs : list Request) (n n' : Net) : Prop := {
  sends_sent : net_sent n' = net_sent n ++ rs;
  sends_reply : net_reply n' = net_reply n;
  sends_env : env_extends (net_env n) (net_env n');
  sends_seq : env_last_seq (net_env n') = env_last_seq (net_env n);
}.

Lemma sends_nil `{Http} n : sends [] n n.
Proof. split; [by rewrite app_nil_r|done..]. Qed.
Lemma sends_trans `{Http} r1 r2 n1 n2 n3 :
  sends r1 n1 n2 -> sends r2 n2 n3 -> sends (r1 ++ r2) n1 n3.
Proof.
  intros [Ha Hb He Hs] [Hc Hd Hf Ht]. split; [by rewrite Hc, Ha, app_assoc|congruence|by etrans|congruence].
Qed.
Lemma sends_with_env `{Http} {X} (m : ST Env X) n :
  (forall e, env_steps e (m e).2) ->
  (net_with_env m n).1 = (m (net_env n)).1 /\ sends [] n (net_with_env m n).2.
Proof.
  intros He. destruct (He (net_env n)) as [He1 He2]. unfold net_with_env.
  destruct (m (net_env n)). split; [done|]. split; cbn; [by rewrite app_nil_r|done..].
Qed.
Lemma sends_request `{Http} r n x n' : send_request r n = (x, n') ->
  sends [r] n n' /\ x = net_reply n (length (net_sent n)).
Proof. by intros [= <- <-]. Qed.
Lemma sends_next `{Http} rs n n' : sends rs n n' ->
  length (net_sent n') = length (net_sent n) + length rs.
Proof. intros [-> _ _ _]. apply length_app. Qed.

Lemma unix_now_env e : env_steps e (unix_now e).2.
Proof. apply now_ms_env. Qed.
Lemma instant_now_env e : env_steps e (instant_now e).2.
Proof. split; [split; env_step|done]. Qed.
Lemma random_bytes_env k e : env_steps e (random_bytes k e).2.
Proof. split; [split; env_step|done]. Qed.
#[export] Hint Resolve sends_nil unix_now_env instant_now_env random_bytes_env : push.
