(* ===== verification/GcpAuth.v ===== *)
(** * Google Cloud access tokens

    [crates/webpush-gcp-auth/src/lib.rs]: the credentials a [TokenSource]
    uses, and how it obtains, caches and discards tokens. RSA, PEM files, the
    process environment and the decoding derived by serde are parameters. *)
From S2P Require Import Prelude RustStr External StoreTypes Bridge Client.

Definition CLOUD_PLATFORM : string := "https://www.googleapis.com/auth/cloud-platform".
Definition GOOGLE_TOKEN_URI : string := "https://oauth2.googleapis.com/token".
Definition METADATA_HOST : string := "metadata.google.internal".
Definition ASSERTION_LIFETIME_SECS : N := 3600.
Definition REFRESH_MARGIN : Duration := from_secs 60.

(** [ring]'s RSA: keys from a PKCS#8 PEM text, and PKCS#1 v1.5 signatures
    with SHA-256. *)
Class Rsa : Type := {
  RsaKeyPair : Type;
  pkcs8_from_pem : string -> result string Bytes;
  rsa_from_pkcs8 : Bytes -> result string RsaKeyPair;
  rsa_sign : RsaKeyPair -> Bytes -> option Bytes;
}.

(** The file system and the environment variables. *)
Class Host : Type := {
  read_to_string : string -> result string string;
  path_exists : string -> bool;
  env_var : string -> option string;
  windows : bool;
}.

(** [CredentialsFile] *)
Record CredentialsFile : Type := {
  kind : string;
  f_client_email : option string;
  f_private_key : option string;
  f_token_uri : option string;
  f_project_id : option string;
  f_client_id : option string;
  f_client_secret : option string;
  f_refresh_token : option string;
  f_quota_project_id : option string;
}.

(** The decoders serde derives, here and for the token response. *)
Class GcpSerde : Type := {
  credentials_from_str : string -> result BoxError CredentialsFile;
  token_response : Bytes -> result BoxError (string * N);
}.

Section auth.
Context `{HT : Http} `{B64 : Base64} `{JS : Json} `{RSA : Rsa} `{HO : Host} `{GS : GcpSerde}
  `{SX : StatusText}.

(** [enum Credentials] *)
Inductive Credentials : Type :=
| ServiceAccount (client_email token_uri : string) (key : RsaKeyPair) (project_id : option string)
| AuthorizedUser (client_id client_secret refresh_token : string) (quota_project : option string)
| Metadata (base : string).

(** [struct Cached]; [expires_at] is an [Instant]. *)
Record Cached : Type := { value : string; expires_at : N }.

(** [struct TokenSource], its cache apart: the mutex makes [token] and
    [invalidate] one computation each over network and cache. *)
Record TokenSource : Type := { credentials : Credentials; scopes : string }.
Abbreviation G X := (EST (Net * option Cached) BoxError X) (only parsing).

(** [TokenSource::new] *)
Definition new_source (c : Credentials) (scopes : list string) : TokenSource :=
  {| credentials := c; scopes := str_join " " scopes |}.

(** The closure [field] of [from_json]. *)
Definition field (v : option string) (name : string) : result BoxError string :=
  ok_or ("credentials without " +:+ name) v.

(** [TokenSource::from_json] *)
Definition from_json (text : string) (scopes : list string) : result BoxError TokenSource :=
  file ← credentials_from_str text;
  credentials ←
    (if decide (kind file = "service_account") then
       pem ← field (f_private_key file) "private_key";
       der ← map_err (fun e => "private_key: " +:+ e) (pkcs8_from_pem pem);
       key ← map_err (fun e => "private_key is not an RSA key: " +:+ e) (rsa_from_pkcs8 der);
       client_email ← field (f_client_email file) "client_email";
       Ok (ServiceAccount client_email (default GOOGLE_TOKEN_URI (f_token_uri file)) key
             (f_project_id file))
     else if decide (kind file = "authorized_user") then
       client_id ← field (f_client_id file) "client_id";
       client_secret ← field (f_client_secret file) "client_secret";
       refresh_token ← field (f_refresh_token file) "refresh_token";
       Ok (AuthorizedUser client_id client_secret refresh_token (f_quota_project_id file))
     else Err ("unsupported credentials type " +:+ debug_str (kind file)));
  Ok (new_source credentials scopes).

(** [TokenSource::from_file] *)
Definition from_file (path : string) (scopes : list string) : result BoxError TokenSource :=
  text ← map_err (fun e => path +:+ ": " +:+ e) (read_to_string path);
  map_err (fun e => path +:+ ": " +:+ e) (from_json text scopes).

(** [TokenSource::metadata] *)
Definition metadata (base : string) (scopes : list string) : TokenSource :=
  new_source (Metadata (trim_end_matches (char_is 47) base)) scopes.

(** [well_known_file]; [PathBuf::join] with a relative path. *)
Definition path_join (dir path : string) : string := dir +:+ "/" +:+ path.
Definition well_known_file : option string :=
  if windows then
    (fun d => path_join d "gcloud/application_default_credentials.json") <$> env_var "APPDATA"
  else
    (fun h => path_join h ".config/gcloud/application_default_credentials.json") <$> env_var "HOME".

(** [TokenSource::discover] *)
Definition discover (scopes : list string) : result BoxError TokenSource :=
  match env_var "GOOGLE_APPLICATION_CREDENTIALS" with
  | Some path => from_file path scopes
  | None =>
      match path ← well_known_file; if path_exists path then Some path else None with
      | Some path => from_file path scopes
      | None =>
          let host := default METADATA_HOST (env_var "GCE_METADATA_HOST") in
          Ok (metadata ("http://" +:+ host) scopes)
      end
  end.

(** [TokenSource::project_id] and [TokenSource::quota_project] *)
Definition project_id (s : TokenSource) : option string :=
  match credentials s with
  | ServiceAccount _ _ _ project_id => project_id
  | AuthorizedUser _ _ _ quota_project => quota_project
  | Metadata _ => None
  end.
Definition quota_project (s : TokenSource) : option string :=
  match credentials s with
  | AuthorizedUser _ _ _ quota_project => quota_project
  | _ => None
  end.

Definition in_net {X} (m : ST Net X) : G X := fun '(n, c) => let '(x, n) := m n in (Ok x, (n, c)).

Definition jwt_header : string :=
  let q := String (Ascii.ascii_of_N 34) EmptyString in
  "{" +:+ q +:+ "alg" +:+ q +:+ ":" +:+ q +:+ "RS256" +:+ q +:+ "," +:+
  q +:+ "typ" +:+ q +:+ ":" +:+ q +:+ "JWT" +:+ q +:+ "}".

(** [TokenSource::assertion]; the clock is past 1970. *)
Definition assertion (s : TokenSource) : G string :=
  match credentials s with
  | ServiceAccount client_email token_uri key _ =>
      iat ← in_net (net_with_env unix_now);
      let header := b64_encode (as_bytes jwt_header) in
      let claims := b64_encode (as_bytes (json_print (json [
        ("iss", Str client_email); ("scope", Str (scopes s)); ("aud", Str token_uri);
        ("iat", Num_ iat); ("exp", Num_ (iat + ASSERTION_LIFETIME_SECS))]))) in
      let signing_input := header +:+ "." +:+ claims in
      sig ← lift_result (ok_or "RSA signing failed" (rsa_sign key (as_bytes signing_input)));
      mret (signing_input +:+ "." +:+ b64_encode sig)
  | _ => throw "assertions need a service account"
  end.

(** The request of [TokenSource::fetch]. *)
Definition token_request (s : TokenSource) : G Request :=
  match credentials s with
  | ServiceAccount _ token_uri _ _ =>
      assertion ← assertion s;
      mret {| rq_method := "POST"; rq_url := token_uri; rq_query := []; rq_headers := [];
              rq_body := Form [("grant_type", "urn:ietf:params:oauth:grant-type:jwt-bearer");
                               ("assertion", assertion)] |}
  | AuthorizedUser client_id client_secret refresh_token _ =>
      mret {| rq_method := "POST"; rq_url := GOOGLE_TOKEN_URI; rq_query := []; rq_headers := [];
              rq_body := Form [("grant_type", "refresh_token"); ("client_id", client_id);
                               ("client_secret", client_secret);
                               ("refresh_token", refresh_token)] |}
  | Metadata base =>
      mret {| rq_method := "GET";
              rq_url := base +:+ "/computeMetadata/v1/instance/service-accounts/default/token";
              rq_query := [("scopes", str_replace (Ascii.ascii_of_N 32) "," (scopes s))];
              rq_headers := [("metadata-flavor", "Google")]; rq_body := NoBody |}
  end.

(** [TokenSource::fetch]. An [expires_in] beyond the range of [Instant]
    panics and is not part of the model. *)
Definition fetch (s : TokenSource) : G Cached :=
  request ← token_request s;
  requested ← in_net (net_with_env instant_now);
  resp ← (fun '(n, c) => let '(r, n) := send_request request n in (r, (n, c)));
  if negb (is_success (rp_status resp)) then
    throw ("token request returned " +:+ status_text (rp_status resp))
  else
    body ← lift_result (ok_or "body" (rp_body resp));
    '(access_token, expires_in) ← lift_result (token_response body);
    mret {| value := access_token; expires_at := (requested + from_secs expires_in)%N |}.

Definition cached : G (option Cached) := fun '(n, c) => (Ok c, (n, c)).
Definition set_cached (c : option Cached) : G unit := fun '(n, _) => (Ok (), (n, c)).

(** [TokenSource::token] *)
Definition token (s : TokenSource) : G string :=
  let refresh : G string :=
    fresh ← fetch s;
    _ ← set_cached (Some fresh);
    mret (value fresh) in
  c ← cached;
  match c with
  | Some t =>
      now ← in_net (net_with_env instant_now);
      if (REFRESH_MARGIN <? sat_sub (expires_at t) now)%N then mret (value t) else refresh
  | None => refresh
  end.

(** [TokenSource::invalidate] *)
Definition invalidate : G unit := set_cached None.
End auth.
