(* ===== verification/BigtableWire.v ===== *)
(** * The Bigtable API as the storage adapter uses it

    The messages of the data API that
    [crates/webpush-store/src/bigtable.rs] sends and receives, the gRPC calls
    as a parameter, and the adapter's functions that only handle messages:
    filters, ranges, and merging the chunks of a read into rows. Octet strings
    that are row keys or column names are [string]s. *)
From Stdlib Require Import Ascii.
From S2P Require Import Prelude RustStr External.

(** ** [String::from_utf8] *)

(** Well-formed UTF-8 (Unicode, table 3-7). *)
Fixpoint utf8_valid (s : string) : bool :=
  match s with
  | EmptyString => true
  | String a s =>
      if between 0 127 a then utf8_valid s
      else match s with
      | EmptyString => false
      | String b s =>
          if between 194 223 a then between 128 191 b && utf8_valid s
          else match s with
          | EmptyString => false
          | String c s =>
              if between 224 239 a then
                between (if char_is 224 a then 160 else 128) (if char_is 237 a then 159 else 191) b
                && between 128 191 c && utf8_valid s
              else match s with
              | EmptyString => false
              | String d s =>
                  between 240 244 a
                  && between (if char_is 240 a then 144 else 128) (if char_is 244 a then 143 else 191) b
                  && between 128 191 c && between 128 191 d && utf8_valid s
              end
          end
      end
  end.
Definition from_utf8 (b : Bytes) : option string :=
  let s := of_bytes b in if utf8_valid s then Some s else None.

(** ** Messages *)

(** Timestamps are microseconds. *)
Inductive Mutation : Type :=
| SetCell (family_name column_qualifier : string) (timestamp_micros : Z) (value : Bytes)
| DeleteFromRow.

Inductive RowFilter : Type :=
| FamilyNameRegexFilter (pattern : string)
| ColumnQualifierRegexFilter (pattern : string)
| ValueRegexFilter (pattern : string)
| CellsPerColumnLimitFilter (n : Z)
| Chain (filters : list RowFilter).

Record RowSet : Type := {
  row_keys : list string;
  row_ranges : list (string * string);
}.

Inductive RowStatus : Type :=
| ResetRow (b : bool)
| CommitRow (b : bool).
#[export] Instance row_status_eq_dec : EqDecision RowStatus.
Proof. solve_decision. Defined.

Record CellChunk : Type := {
  ck_row_key : string;
  ck_qualifier : option string;
  ck_value : Bytes;
  ck_value_size : Z;
  ck_row_status : option RowStatus;
}.

(** A [tonic::Request]: a message with its metadata. *)
Record Req (M : Type) : Type := { metadata : list (string * string); req_message : M }.
Arguments metadata {M} _.
Arguments req_message {M} _.
Arguments Build_Req {M} _ _.

Record MutateRowRequest : Type := {
  mr_table_name : string;
  mr_app_profile_id : string;
  mr_row_key : string;
  mr_mutations : list Mutation;
}.
Record ReadRowsRequest : Type := {
  rr_table_name : string;
  rr_app_profile_id : string;
  rr_rows : RowSet;
  rr_filter : option RowFilter;
}.
Record CheckAndMutateRowRequest : Type := {
  cm_table_name : string;
  cm_app_profile_id : string;
  cm_row_key : string;
  cm_predicate_filter : option RowFilter;
  cm_true_mutations : list Mutation;
}.

(** The admin API. *)
Inductive GcRule : Type :=
| MaxNumVersions (n : Z)
| MaxAge (seconds : Z)
| Union (rules : list GcRule).
Record CreateTableRequest : Type := {
  ct_parent : string;
  ct_table_id : string;
  ct_column_families : gmap string GcRule;
}.
Inductive Code : Type := NotFound | AlreadyExists | OtherCode (n : Z).
#[export] Instance code_eq_dec : EqDecision Code.
Proof. solve_decision. Defined.
Record Status : Type := { st_code : Code; st_text : BoxError }.

(** Keys in [start, end). *)
Definition range (start end_ : string) : RowSet :=
  {| row_keys := []; row_ranges := [(start, end_)] |}.

(** [prefix] *)
Definition strip_suffix (suffix s : string) : option string :=
  let n := String.length s - String.length suffix in
  if decide (String.length suffix <= String.length s /\ String.substring n (String.length suffix) s = suffix)
  then Some (String.substring 0 n s) else None.
Definition prefix (prefix : string) : RowSet :=
  let end_ := default prefix (strip_suffix "#" prefix) +:+ "$" in
  range prefix end_.

(** [exact]: a backslash before every character that is not alphanumeric. A
    continuation octet of UTF-8 starts no character. *)
Fixpoint exact_chars (s : string) : string :=
  match s with
  | EmptyString => EmptyString
  | String c s =>
      if is_ascii_alphanumeric c || between 128 191 c then String c (exact_chars s)
      else String (ascii_of_N 92) (String c (exact_chars s))
  end.
Definition exact (value : string) : string := "^" +:+ exact_chars value +:+ "$".

(** [column_filter] *)
Definition column_filter (family col : string) (value : option string) : RowFilter :=
  Chain ([FamilyNameRegexFilter family; ColumnQualifierRegexFilter (exact col);
          CellsPerColumnLimitFilter 1]
         ++ match value with Some v => [ValueRegexFilter (exact v)] | None => [] end).

(** ** Rows *)

(** [type Row]: the latest value per column. *)
Abbreviation Row := (gmap string Bytes).

(** [text] and [number] *)
Definition text (row : Row) (col : string) : option string := v ← row !! col; from_utf8 v.
Definition number (row : Row) (col : string) : option N := t ← text row col; parse_u64 t.

(** The variables of the loop of [BigtableStore::read]. *)
Record Merge : Type := {
  mg_key : string;
  mg_qualifier : string;
  mg_row : Row;
  mg_value : Bytes;
  mg_out : list (string * Row);
}.
Definition merge_new : Merge :=
  {| mg_key := ""; mg_qualifier := ""; mg_row := ∅; mg_value := []; mg_out := [] |}.

(** The body of the loop over the chunks. *)
Definition merge_chunk (s : Merge) (chunk : CellChunk) : result BoxError Merge :=
  if decide (ck_row_status chunk = Some (ResetRow true)) then
    Ok {| mg_key := mg_key s; mg_qualifier := mg_qualifier s; mg_row := ∅; mg_value := [];
          mg_out := mg_out s |}
  else
    let key := if str_is_empty (ck_row_key chunk) then mg_key s else ck_row_key chunk in
    let qualifier := default (mg_qualifier s) (ck_qualifier chunk) in
    let value := mg_value s ++ ck_value chunk in
    let '(row, value) :=
      if (ck_value_size chunk =? 0)%Z then (<[ qualifier := value ]> (mg_row s), [])
      else (mg_row s, value) in
    if decide (ck_row_status chunk = Some (CommitRow true)) then
      k ← ok_or "invalid utf-8 sequence" (if utf8_valid key then Some key else None);
      Ok {| mg_key := key; mg_qualifier := qualifier; mg_row := ∅; mg_value := value;
            mg_out := mg_out s ++ [(k, row)] |}
    else
      Ok {| mg_key := key; mg_qualifier := qualifier; mg_row := row; mg_value := value;
            mg_out := mg_out s |}.

Fixpoint merge_chunks (s : Merge) (chunks : list CellChunk) : result BoxError Merge :=
  match chunks with
  | [] => Ok s
  | chunk :: chunks => s ← merge_chunk s chunk; merge_chunks s chunks
  end.
(** The loop over the responses of the stream, which may break off. *)
Fixpoint merge_stream (s : Merge) (stream : list (result BoxError (list CellChunk))) :
    result BoxError Merge :=
  match stream with
  | [] => Ok s
  | resp :: stream => chunks ← resp; s ← merge_chunks s chunks; merge_stream s stream
  end.

(** ** The calls *)
Class BigtableRpc (T : Type) : Type := {
  mutate_row : Req MutateRowRequest -> EST T BoxError unit;
  read_rows : Req ReadRowsRequest -> EST T BoxError (list (result BoxError (list CellChunk)));
  check_and_mutate_row : Req CheckAndMutateRowRequest -> EST T BoxError bool;
  get_table : Req string -> EST T Status unit;
  create_table : Req CreateTableRequest -> EST T Status unit;
  (** A channel to a URL, with keepalive, and TLS if asked for. *)
  open_channel : string -> bool -> EST T BoxError unit;
  (** [MetadataValue::try_from] *)
  metadata_value : string -> result BoxError unit;
}.
