(* ===== verification/BigtableService.v ===== *)
(** * What Cloud Bigtable documents about its data API

    Rows, cell versions, mutations, filters and read streams as the service
    documents them, and [ServiceLaws]: the calls of [BigtableWire.v] behave
    so. Older versions of a cell stay readable until they are collected at
    some later time; collection by age is not part of the model. *)
From Stdlib Require Import Ascii.
From S2P Require Import Prelude RustStr External BigtableWire.

(** ** Rows *)

(** The versions of a cell, newest first. *)
Abbreviation Versions := (list (Z * Bytes)).
Abbreviation TRow := (gmap (string * string) Versions).
Abbreviation Table := (gmap string TRow).

Fixpoint write_version (ts : Z) (v : Bytes) (l : Versions) : Versions :=
  match l with
  | [] => [(ts, v)]
  | (t, w) :: l' =>
      if (t <? ts)%Z then (ts, v) :: l
      else if (t =? ts)%Z then (ts, v) :: l'
      else (t, w) :: write_version ts v l'
  end.

Definition apply_mutation (row : TRow) (m : Mutation) : TRow :=
  match m with
  | SetCell family col ts v =>
      partial_alter (fun l => Some (write_version ts v (default [] l))) (family, col) row
  | DeleteFromRow => ∅
  end.
(** A row without cells is not there. *)
Definition apply_row (ms : list Mutation) (row : option TRow) : option TRow :=
  let row := foldl apply_mutation (default ∅ row) ms in
  if decide (row = ∅) then None else Some row.

(** ** Filters *)
Record Cell : Type := { c_col : string * string; c_ts : Z; c_value : Bytes }.

Definition cells (row : TRow) : list Cell :=
  map_to_list row ≫= fun '(col, l) => (fun tv => {| c_col := col; c_ts := tv.1; c_value := tv.2 |}) <$> l.

(** The first [n] cells of every column, which are its newest. *)
Fixpoint limit_cells (n : nat) (seen : list (string * string)) (l : list Cell) : list Cell :=
  match l with
  | [] => []
  | c :: l =>
      if decide (length (filter (fun col => col = c_col c) seen) < n)
      then c :: limit_cells n (c_col c :: seen) l
      else limit_cells n seen l
  end.

(** RE2, over octets; filters match whole names and values. *)
Class Re2 : Type := { re2_match : string -> string -> bool }.

Fixpoint eval_filter `{Re2} (f : RowFilter) (l : list Cell) : list Cell :=
  match f with
  | FamilyNameRegexFilter p => filter (fun c => re2_match p (c_col c).1 = true) l
  | ColumnQualifierRegexFilter p => filter (fun c => re2_match p (c_col c).2 = true) l
  | ValueRegexFilter p => filter (fun c => re2_match p (of_bytes (c_value c)) = true) l
  | CellsPerColumnLimitFilter n => limit_cells (Z.to_nat n) [] l
  | Chain fs => foldl (fun l f => eval_filter f l) l fs
  end.

(** Patterns of literals: letters and digits stand for themselves, ASCII
    punctuation after a backslash too; [^] and [$] are the ends. *)
Inductive literal : string -> string -> Prop :=
| lit_end : literal "" ""
| lit_char c p s : is_ascii_alphanumeric c = true -> literal p s ->
    literal (String c p) (String c s)
| lit_escaped c p s : is_ascii_alphanumeric c = false -> between 0 127 c = true -> literal p s ->
    literal (String (ascii_of_N 92) (String c p)) (String c s).
Class Re2Laws `{Re2} : Prop := {
  re2_literal : forall p s x, literal p s -> re2_match p x = true <-> x = s;
  re2_anchored : forall p s x, literal p s -> re2_match ("^" +:+ p +:+ "$") x = true <-> x = s;
}.

(** ** Reading *)

(** The newest version of every column. *)
Definition newest (row : TRow) : gmap (string * string) (Z * Bytes) := omap head row.
Definition visible (row : TRow) : gmap (string * string) Bytes := snd <$> newest row.

(** A value may be cut in pieces, all but the last announcing a size. *)
Inductive pieces : Bytes -> list (Bytes * Z) -> Prop :=
| pieces_last v : pieces v [(v, 0%Z)]
| pieces_more p v size l : size <> 0%Z -> pieces v l -> pieces (p ++ v) ((p, size) :: l).

(** [value_chunks key q q' ps st]: the chunks of one value. The row key may
    be left out and the qualifier too, where they are those of the chunk
    before; the last chunk carries [st]. *)
Inductive value_chunks (key : string) :
    option string -> string -> list (Bytes * Z) -> option RowStatus -> list CellChunk -> Prop :=
| vc_last q0 q p size k o st :
    (k = "" \/ k = key) -> (o = Some q \/ (o = None /\ q0 = Some q)) ->
    value_chunks key q0 q [(p, size)] st
      [{| ck_row_key := k; ck_qualifier := o; ck_value := p; ck_value_size := size;
          ck_row_status := st |}]
| vc_more q0 q p size k o ps st l :
    (k = "" \/ k = key) -> (o = Some q \/ (o = None /\ q0 = Some q)) ->
    value_chunks key (Some q) q ps st l ->
    value_chunks key q0 q ((p, size) :: ps) st
      ({| ck_row_key := k; ck_qualifier := o; ck_value := p; ck_value_size := size;
          ck_row_status := None |} :: l).

(** The chunks of the cells of a row, of which the last is committed. *)
Inductive cell_chunks (key : string) : option string -> list (string * Bytes) -> list CellChunk -> Prop :=
| cc_last q0 q v ps l :
    pieces v ps -> value_chunks key q0 q ps (Some (CommitRow true)) l ->
    cell_chunks key q0 [(q, v)] l
| cc_more q0 q v ps l cs l' :
    pieces v ps -> value_chunks key q0 q ps None l -> cell_chunks key (Some q) cs l' ->
    cell_chunks key q0 ((q, v) :: cs) (l ++ l').

(** What was sent of a row before the service starts it over. *)
Definition abandoned (l : list CellChunk) : Prop :=
  exists l', l = l' ++ [{| ck_row_key := ""; ck_qualifier := None; ck_value := []; ck_value_size := 0;
                           ck_row_status := Some (ResetRow true) |}] /\
    Forall (fun c => ck_row_status c = None) l'.

(** A whole row: its first chunk names the key. *)
Inductive row_chunks (key : string) (cs : list (string * Bytes)) : list CellChunk -> Prop :=
| rc_row c l : cell_chunks key None cs (c :: l) -> ck_row_key c = key -> row_chunks key cs (c :: l)
| rc_again l0 l : abandoned l0 -> row_chunks key cs l -> row_chunks key cs (l0 ++ l).

Inductive rows_chunks : list (string * list (string * Bytes)) -> list CellChunk -> Prop :=
| rs_nil : rows_chunks [] []
| rs_cons key cs rows l l' :
    key <> "" -> row_chunks key cs l -> rows_chunks rows l' ->
    rows_chunks ((key, cs) :: rows) (l ++ l').

(** A read that did not break off, its chunks spread over the responses. *)
Definition transmits (rows : list (string * list (string * Bytes)))
    (stream : list (result BoxError (list CellChunk))) : Prop :=
  exists ls, stream = Ok <$> ls /\ rows_chunks rows (concat ls).

(** Keys a row set selects. *)
Definition selects (rs : RowSet) (key : string) : Prop :=
  key ∈ row_keys rs \/ exists a b, (a, b) ∈ row_ranges rs /\
    str_leb a key = true /\ str_ltb key b = true.

(** ** The laws *)

(** Collection drops versions that are not the newest. *)
Definition collects_row (r r' : TRow) : Prop :=
  forall col, match r !! col, r' !! col with
              | Some l, Some l' => head l' = head l /\ sublist l' l
              | None, None => True
              | _, _ => False
              end.
Definition collects (t t' : Table) : Prop :=
  forall key, match t !! key, t' !! key with
              | Some r, Some r' => collects_row r r'
              | None, None => True
              | _, _ => False
              end.

(** The filter every read asks for. *)
Definition latest_only : option RowFilter := Some (CellsPerColumnLimitFilter 1).

Record ServiceLaws {T} `{BigtableRpc T} `{Re2} (tbl : T -> Table) : Prop := {
  law_mutate req t t' : mutate_row req t = (Ok (), t') ->
    let m := req_message req in
    collects (partial_alter (apply_row (mr_mutations m)) (mr_row_key m) (tbl t)) (tbl t');
  law_check req t b t' : check_and_mutate_row req t = (Ok b, t') ->
    let m := req_message req in
    forall f, cm_predicate_filter m = Some f ->
    b = bool_decide (eval_filter f (cells (default ∅ (tbl t !! cm_row_key m))) <> []) /\
    collects (if b then partial_alter (apply_row (cm_true_mutations m)) (cm_row_key m) (tbl t)
              else tbl t) (tbl t');
  (** Rows come in key order, each with the newest version of its columns. *)
  law_read req t stream t' : read_rows req t = (Ok stream, t') ->
    let m := req_message req in
    rr_filter m = latest_only ->
    collects (tbl t) (tbl t') /\
    (Forall (fun resp => is_ok resp = true) stream ->
     exists rows, transmits rows stream /\
       StronglySorted (fun a b => str_ltb a b = true) rows.*1 /\
       (forall key, key ∈ rows.*1 <-> selects (rr_rows m) key /\ is_Some (tbl t !! key)) /\
       (forall key cs row, (key, cs) ∈ rows -> tbl t !! key = Some row ->
          cs ≡ₚ (fun kv => (kv.1.2, kv.2)) <$> map_to_list (visible row)));
}.
