(* ===== verification/Bigtable.v ===== *)
(** * [BigtableStore]: the Cloud Bigtable storage adapter

    [crates/webpush-store/src/bigtable.rs]: connecting, the primitives over
    single rows, and the operations of the [Store] trait. The adapter's world
    is the network of its token source, the cached token, and the service
    behind the gRPC calls. *)
From Stdlib Require Import Ascii.
From S2P Require Import Prelude RustStr External StoreTypes Store Bridge Client GcpAuth BigtableWire.

Definition D : string := "d".
Definition M : string := "m".
Definition SCOPES : list string :=
  ["https://www.googleapis.com/auth/bigtable.data";
   "https://www.googleapis.com/auth/bigtable.admin.table"].

Record BigtableConfig : Type := {
  endpoint : string;
  project : string;
  instance : string;
  bt_table : string;
  max_ttl : N;
  credentials_file : option string;
  cfg_app_profile : option string;
}.

(** [BigtableConfig::table_name] *)
Definition table_name (c : BigtableConfig) : string :=
  "projects/" +:+ project c +:+ "/instances/" +:+ instance c +:+ "/tables/" +:+ bt_table c.

(** [replace] of a pattern of several characters: its first occurrence and
    those after it, from the left. *)
Fixpoint replace_str (fuel : nat) (pat by_ s : string) : string :=
  match fuel with
  | O => s
  | S fuel =>
      match s with
      | EmptyString => EmptyString
      | String c s' =>
          match strip_prefix pat s with
          | Some rest => by_ +:+ replace_str fuel pat by_ rest
          | None => String c (replace_str fuel pat by_ s')
          end
      end
  end.

(** [cast_signed] of a [u64] *)
Definition cast_signed (n : N) : Z :=
  if (n <? 2 ^ 63)%N then Z.of_N n else (Z.of_N n - 2 ^ 64)%Z.
(** [set_cell]; the product wraps as in a release build. *)
Definition set_cell (family col : string) (value : Bytes) (ts_ms : N) : Mutation :=
  SetCell family col (cast_signed (wrap64 (ts_ms * 1000))) value.
(** [delete_row] *)
Definition delete_row : Mutation := DeleteFromRow.

(** [route_key] *)
Definition route_key (to : Recipient) : string :=
  match to with
  | RUserAgent uaid => "route#u:" +:+ uaid
  | RReceipts rsub => "route#r:" +:+ rsub
  end.

(** [user_agent_from_row] *)
Definition user_agent_from_row (uaid : string) (row : Row) : UserAgent :=
  let bridge := match text row "bridge", text row "app", text row "token" with
                | Some bridge, Some app_id, Some token =>
                    Some {| ba_bridge := bridge; ba_app_id := app_id; ba_token := token |}
                | _, _, _ => None
                end in
  {| ua_uaid := uaid; ua_bridge := bridge; ua_last_seen := default 0%N (number row "seen") |}.

(** [message_key] *)
Definition message_key (m : Message) : string :=
  match m_topic m with
  | Some t => "msg#" +:+ m_uaid m +:+ "#t:" +:+ m_channel_id m +:+ ":" +:+ t
  | None => "msg#" +:+ m_uaid m +:+ "#" +:+ hex16 (m_accepted m) +:+ m_id m
  end.

(** [message_from_row] *)
Definition message_from_row (key : string) (row : Row) : option Message :=
  '(uaid, slot) ← strip_prefix "msg#" key ≫= split_once (char_is 35);
  let topic := snd <$> (strip_prefix "t:" slot ≫= split_once (char_is 58)) in
  id ← text row "id";
  ch ← text row "ch";
  push ← text row "push";
  body ← row !! "body";
  ttl ← number row "ttl" ≫= u32_try_from;
  urgency ← text row "urgency" ≫= urgency_parse;
  accepted ← number row "accepted";
  expiry ← number row "expiry";
  Some {| m_id := id; m_uaid := uaid; m_channel_id := ch; m_push := push; m_topic := topic;
          m_body := body; m_ctype := text row "ctype"; m_cenc := text row "cenc"; m_ttl := ttl;
          m_urgency := urgency; m_accepted := accepted; m_expiry := expiry;
          m_rsub := text row "rsub" |}.

(** The mutations of [insert_message] on the message row. *)
Definition message_mutations (m : Message) : list Mutation :=
  let ts := m_accepted m in
  let num n := as_bytes (to_string n) in
  [delete_row;
   set_cell M "id" (as_bytes (m_id m)) ts;
   set_cell M "ch" (as_bytes (m_channel_id m)) ts;
   set_cell M "push" (as_bytes (m_push m)) ts;
   set_cell M "body" (m_body m) ts;
   set_cell M "ttl" (num (m_ttl m)) ts;
   set_cell M "urgency" (as_bytes (urgency_as_str (m_urgency m))) ts;
   set_cell M "accepted" (num (m_accepted m)) ts;
   set_cell M "expiry" (num (m_expiry m)) ts]
  ++ omap (fun '(col, value) => (fun v => set_cell M col (as_bytes v) ts) <$> value)
       [("ctype", m_ctype m); ("cenc", m_cenc m); ("rsub", m_rsub m)].

(** The [vapid] column as an array of 65 octets. *)
Definition vapid_of (row : Row) : option Bytes :=
  v ← row !! "vapid"; if decide (length v = 65) then Some v else None.

Section adapter.
Context `{HT : Http} `{B64 : Base64} `{JS : Json} `{RSA : Rsa} `{HO : Host} `{GS : GcpSerde}
  `{SX : StatusText} `{CB : ClientBuilder} {T : Type} `{RPC : BigtableRpc T}.

(** [BigtableStore]; the client is the world's. *)
Record BigtableStore : Type := {
  table : string;
  auth : option TokenSource;
  app_profile : string;
}.
Record BtWorld : Type := {
  g_sent : list Request;
  g_reply : nat -> result BoxError Reply;
  g_token : option Cached;
  g_rpc : T;
}.
Abbreviation BT X := (SM BtWorld X) (only parsing).

Definition with_rpc {E X} (m : EST T E X) : EST (Env * BtWorld) E X := fun '(e, g) =>
  let '(r, t) := m (g_rpc g) in
  (r, (e, {| g_sent := g_sent g; g_reply := g_reply g; g_token := g_token g; g_rpc := t |})).
Definition with_token {X} (m : EST (Net * option Cached) BoxError X) : BT X := fun '(e, g) =>
  let '(r, (n, c)) :=
    m ({| net_env := e; net_sent := g_sent g; net_reply := g_reply g |}, g_token g) in
  (r, (net_env n, {| g_sent := net_sent n; g_reply := net_reply n; g_token := c; g_rpc := g_rpc g |})).
Definition with_env {X} (m : ST Env X) : BT X := fun '(e, g) =>
  let '(x, e) := m e in (Ok x, (e, g)).
(** [?] on a [Status] *)
Definition or_status {X} (m : EST (Env * BtWorld) Status X) : BT X := fun w =>
  let '(r, w) := m w in (map_err st_text r, w).

(** [BigtableConfig::connect_to], [channel] and [admin_channel] *)
Definition connect_to (url : string) : BT unit :=
  with_rpc (open_channel url (starts_with "https://" url)).
Definition channel_ (c : BigtableConfig) : BT unit := connect_to (endpoint c).
Definition admin_channel (c : BigtableConfig) : BT unit :=
  connect_to (replace_str (String.length (endpoint c)) "//bigtable.googleapis.com"
                "//bigtableadmin.googleapis.com" (endpoint c)).

(** [BigtableConfig::auth] *)
Definition config_auth (c : BigtableConfig) : result BoxError (option TokenSource) :=
  if negb (starts_with "https://" (endpoint c)) then Ok None
  else
    _ ← http_client (from_secs 10);
    source ← match credentials_file c with
             | Some path => from_file path SCOPES
             | None => discover SCOPES
             end;
    Ok (Some source).

(** [authorized] *)
Definition authorized {X} (message : X) (auth : option TokenSource) (params : string) : BT (Req X) :=
  let params := str_replace (ascii_of_N 47) "%2F" params in
  _ ← lift_result (metadata_value params);
  let md := [("x-goog-request-params", params)] in
  match auth with
  | None => mret (Build_Req md message)
  | Some auth =>
      token ← with_token (token auth);
      _ ← lift_result (metadata_value ("Bearer " +:+ token));
      let md := md ++ [("authorization", "Bearer " +:+ token)] in
      match quota_project auth with
      | Some project =>
          _ ← lift_result (metadata_value project);
          mret (Build_Req (md ++ [("x-goog-user-project", project)]) message)
      | None => mret (Build_Req md message)
      end
  end.

(** [BigtableStore::connect] *)
Definition connect (c : BigtableConfig) : BT BigtableStore :=
  _ ← channel_ c;
  auth ← lift_result (config_auth c);
  mret {| table := table_name c; auth := auth; app_profile := default "" (cfg_app_profile c) |}.

(** [BigtableStore::ensure_table] *)
Definition ensure_table (c : BigtableConfig) : BT unit :=
  _ ← admin_channel c;
  auth ← lift_result (config_auth c);
  req ← authorized (table_name c) auth ("name=" +:+ table_name c);
  found ← lift_st (try (with_rpc (get_table req)));
  match found with
  | Ok _ => mret ()
  | Err s =>
      if decide (st_code s <> NotFound) then throw (st_text s)
      else
        let versions := MaxNumVersions 1 in
        let max_age := MaxAge (Z.of_N (max_ttl c) + 86400) in
        let families := {[ D := versions; M := Union [versions; max_age] ]} in
        let parent := "projects/" +:+ project c +:+ "/instances/" +:+ instance c in
        let create := {| ct_parent := parent; ct_table_id := bt_table c;
                         ct_column_families := families |} in
        req ← authorized create auth ("parent=" +:+ parent);
        created ← lift_st (try (with_rpc (create_table req)));
        match created with
        | Err s => if decide (st_code s <> AlreadyExists) then throw (st_text s) else mret ()
        | Ok _ => mret ()
        end
  end.

(** ** The operations of a connected store *)
Section store.
Context (self : BigtableStore).

(** [BigtableStore::request] *)
Definition request {X} (message : X) : BT (Req X) :=
  authorized message (auth self) ("table_name=" +:+ table self).

(** [mutate] *)
Definition mutate (key : string) (mutations : list Mutation) : BT unit :=
  req ← request {| mr_table_name := table self; mr_app_profile_id := app_profile self;
                   mr_row_key := key; mr_mutations := mutations |};
  with_rpc (mutate_row req).

(** [put] *)
Definition put (key family : string) (cols : list (string * Bytes)) : BT unit :=
  now ← with_env now_ms;
  mutate key ((fun cv => set_cell family cv.1 cv.2 now) <$> cols).

(** [delete] *)
Definition delete (key : string) : BT unit := mutate key [delete_row].

(** [read] *)
Definition read (rows : RowSet) : BT (list (string * Row)) :=
  req ← request {| rr_table_name := table self; rr_app_profile_id := app_profile self;
                   rr_rows := rows; rr_filter := Some (CellsPerColumnLimitFilter 1) |};
  stream ← with_rpc (read_rows req);
  merged ← lift_result (merge_stream merge_new stream);
  mret (mg_out merged).

(** [get] and [exists] *)
Definition get (key : string) : BT (option Row) :=
  rows ← read {| row_keys := [key]; row_ranges := [] |};
  mret (snd <$> last rows).
Definition exists_ (key : string) : BT bool :=
  row ← get key; mret (bool_decide (is_Some row)).

(** [mutate_if] *)
Definition mutate_if (key : string) (predicate : RowFilter) (mutations : list Mutation) : BT bool :=
  req ← request {| cm_table_name := table self; cm_app_profile_id := app_profile self;
                   cm_row_key := key; cm_predicate_filter := Some predicate;
                   cm_true_mutations := mutations |};
  with_rpc (check_and_mutate_row req).

(** [delete_message_row] *)
Definition delete_message_row (key id : string) : BT bool :=
  let predicate := column_filter M "id" (Some id) in
  mutate_if key predicate [delete_row].

(** [locate] *)
Definition locate (id : string) : BT (option (string * Message)) :=
  idx ← get ("mid#" +:+ id);
  match idx ≫= fun idx => text idx "row" with
  | None => mret None
  | Some key =>
      row ← get key;
      mret (m ← row ≫= message_from_row key; if decide (m_id m = id) then Some (key, m) else None)
  end.

(** [remove_message] *)
Definition remove_message (key : string) (m : Message) : BT bool :=
  there ← delete_message_row key (m_id m);
  if negb (there : bool) then mret false
  else
    _ ← delete ("mid#" +:+ m_id m);
    mret true.

(** *** The [Store] trait *)
Definition create_user_agent (ua : UserAgent) : BT unit :=
  let cols := ("seen", as_bytes (to_string (ua_last_seen ua)))
    :: match ua_bridge ua with
       | Some b => [("bridge", as_bytes (ba_bridge b)); ("app", as_bytes (ba_app_id b));
                    ("token", as_bytes (ba_token b))]
       | None => []
       end in
  put ("ua#" +:+ ua_uaid ua) D cols.

Definition user_agent (uaid : string) : BT (option UserAgent) :=
  row ← get ("ua#" +:+ uaid);
  mret (user_agent_from_row uaid <$> row).

Definition touch_user_agent (uaid : string) (now : N) : BT bool :=
  ts ← with_env now_ms;
  let set := set_cell D "seen" (as_bytes (to_string now)) ts in
  let exists_ := column_filter D "seen" None in
  mutate_if ("ua#" +:+ uaid) exists_ [set].

Definition update_bridge_token (uaid token : string) : BT bool :=
  ts ← with_env now_ms;
  let set := set_cell D "token" (as_bytes token) ts in
  let bridged := column_filter D "bridge" None in
  mutate_if ("ua#" +:+ uaid) bridged [set].

Definition receipt_sub_exists (rsub : string) : BT bool := exists_ ("rsub#" +:+ rsub).

Definition enqueue_receipt (r : Receipt) : BT (option N) :=
  found ← receipt_sub_exists (r_rsub r);
  if negb (found : bool) then mret None
  else
    seq ← with_env next_seq;
    let key := "rq#" +:+ r_rsub r +:+ "#" +:+ hex16 seq in
    let cols := [("msg", as_bytes (r_msg_id r)); ("status", as_bytes (to_string (r_status r)))] in
    _ ← put key D cols;
    mret (Some seq).

(** [owe_410] *)
Definition owe_410 (m : Message) : BT (option (N * Receipt)) :=
  match m_rsub m with
  | None => mret None
  | Some rsub =>
      let r := {| r_rsub := rsub; r_msg_id := m_id m; r_status := 410 |} in
      seq ← enqueue_receipt r;
      mret ((fun seq => (seq, r)) <$> seq)
  end.

Definition channel (uaid channel_id : string) : BT (option Subscription) :=
  row ← get ("ch#" +:+ uaid +:+ "#" +:+ channel_id);
  match row with
  | None => mret None
  | Some row =>
      push ← lift_result (ok_or "channel row without push" (text row "push"));
      mret (Some {| sub_uaid := uaid; sub_channel_id := channel_id; sub_push := push;
                    sub_vapid := vapid_of row |})
  end.

(** The body of the loop of [delete_subscription]. *)
Fixpoint remove_channel (channel_id : string) (rows : list (string * Row)) : BT (list (N * Receipt)) :=
  match rows with
  | [] => mret []
  | (key, row) :: rows =>
      here ← match message_from_row key row with
             | None => mret []
             | Some m =>
                 if decide (m_channel_id m = channel_id) then
                   removed ← remove_message key m;
                   if removed : bool then owed ← owe_410 m; mret (option_list owed) else mret []
                 else mret []
             end;
      rest ← remove_channel channel_id rows;
      mret (here ++ rest)
  end.

Definition delete_subscription (uaid channel_id : string) : BT (list (N * Receipt)) :=
  sub ← channel uaid channel_id;
  match sub with
  | None => mret []
  | Some sub =>
      rows ← read (prefix ("msg#" +:+ uaid +:+ "#"));
      receipts ← remove_channel channel_id rows;
      _ ← delete ("ch#" +:+ uaid +:+ "#" +:+ channel_id);
      _ ← delete ("push#" +:+ sub_push sub);
      mret receipts
  end.

(** The loop of [delete_user_agent]. *)
Fixpoint delete_channels (uaid : string) (rows : list (string * Row)) : BT (list (N * Receipt)) :=
  match rows with
  | [] => mret []
  | (key, _) :: rows =>
      here ← delete_subscription uaid (rsplit_first (char_is 35) key);
      rest ← delete_channels uaid rows;
      mret (here ++ rest)
  end.

Definition delete_user_agent (uaid : string) : BT (list (N * Receipt)) :=
  rows ← read (prefix ("ch#" +:+ uaid +:+ "#"));
  receipts ← delete_channels uaid rows;
  _ ← delete ("ua#" +:+ uaid);
  mret receipts.

(** The loop of [expire_user_agents]. *)
Fixpoint expire_rows (cutoff : N) (rows : list (string * Row)) : BT (N * list (N * Receipt)) :=
  match rows with
  | [] => mret (0%N, [])
  | (key, row) :: rows =>
      match strip_prefix "ua#" key with
      | None => expire_rows cutoff rows
      | Some uaid =>
          if (ua_last_seen (user_agent_from_row uaid row) <? cutoff)%N then
            here ← delete_user_agent uaid;
            '(deleted, rest) ← expire_rows cutoff rows;
            mret ((deleted + 1)%N, here ++ rest)
          else expire_rows cutoff rows
      end
  end.

Definition expire_user_agents (cutoff : N) : BT (N * list (N * Receipt)) :=
  rows ← read (prefix "ua#");
  expire_rows cutoff rows.

Definition subscriptions (uaid : string) : BT (list Subscription) :=
  rows ← read (prefix ("ch#" +:+ uaid +:+ "#"));
  mret (omap (fun '(key, row) =>
    (fun push => {| sub_uaid := uaid; sub_channel_id := rsplit_first (char_is 35) key;
                    sub_push := push; sub_vapid := vapid_of row |}) <$> text row "push") rows).

Definition create_subscription (uaid channel_id : string) (vapid : option Bytes) : BT Subscription :=
  push ← with_env new_id;
  let sub := {| sub_uaid := uaid; sub_channel_id := channel_id; sub_push := push;
                sub_vapid := vapid |} in
  let cols := ("push", as_bytes push)
    :: match vapid with Some key => [("vapid", key)] | None => [] end in
  _ ← put ("ch#" +:+ uaid +:+ "#" +:+ channel_id) D cols;
  let index := [("uaid", as_bytes uaid); ("ch", as_bytes channel_id)] in
  _ ← put ("push#" +:+ push) D index;
  mret sub.

Definition subscription_by_push (push : string) : BT (option Subscription) :=
  row ← get ("push#" +:+ push);
  match row ≫= fun row => uaid ← text row "uaid"; ch ← text row "ch"; Some (uaid, ch) with
  | None => mret None
  | Some (uaid, ch) =>
      sub ← channel uaid ch;
      mret (s ← sub; if decide (sub_push s = push) then Some s else None)
  end.

Definition insert_message (m : Message) : BT unit :=
  let key := message_key m in
  let ts := m_accepted m in
  _ ← mutate key (message_mutations m);
  _ ← mutate ("mid#" +:+ m_id m) [set_cell M "row" (as_bytes key) ts];
  if decide (m_rsub m <> None) then
    let idx := "rexp#" +:+ hex16 (m_expiry m) +:+ "#" +:+ m_id m in
    put idx D [("row", as_bytes key)]
  else mret ().

Definition pending (uaid : string) (now limit : N) : BT (list Message) :=
  rows ← read (prefix ("msg#" +:+ uaid +:+ "#"));
  let out := filter (fun m => (now < m_expiry m)%N)
    (omap (fun '(key, row) => message_from_row key row) rows) in
  mret (truncate limit (merge_sort msg_le out)).

Definition message (id : string) : BT (option Message) :=
  found ← locate id; mret (snd <$> found).

Definition delete_message (id : string) (owner : option (string * string)) : BT (option Message) :=
  found ← locate id;
  match found with
  | None => mret None
  | Some (key, m) =>
      if negb (owned_by owner m) then mret None
      else
        removed ← remove_message key m;
        mret (if removed : bool then Some m else None)
  end.

Definition create_receipt_sub : BT string :=
  rsub ← with_env new_id;
  _ ← put ("rsub#" +:+ rsub) D [("c", as_bytes "1")];
  mret rsub.

Definition delete_receipt_sub (rsub : string) : BT bool :=
  found ← receipt_sub_exists rsub;
  if negb (found : bool) then mret false
  else
    _ ← delete ("rsub#" +:+ rsub);
    rows ← read (prefix ("rq#" +:+ rsub +:+ "#"));
    _ ← est_forM delete rows.*1;
    mret true.

(** One row of [queued_receipts]. *)
Definition receipt_from_row (rsub : string) (key : string) (row : Row) : option (N * Receipt) :=
  seq ← from_str_radix 16 (rsplit_first (char_is 35) key);
  msg_id ← text row "msg";
  status ← number row "status" ≫= u16_try_from;
  Some (seq, {| r_rsub := rsub; r_msg_id := msg_id; r_status := status |}).

Definition queued_receipts (rsub : string) : BT (list (N * Receipt)) :=
  rows ← read (prefix ("rq#" +:+ rsub +:+ "#"));
  mret (omap (fun '(key, row) => receipt_from_row rsub key row) rows).

Definition delete_receipt (rsub : string) (seq : N) : BT unit :=
  delete ("rq#" +:+ rsub +:+ "#" +:+ hex16 seq).

(** The body of the loop of [reap]. *)
Definition reap_row (idx : string) (row : Row) : BT (list (N * Receipt)) :=
  let id := rsplit_first (char_is 35) idx in
  receipts ←
    match text row "row" with
    | None => mret []
    | Some key =>
        mrow ← get key;
        match mrow ≫= message_from_row key with
        | None => mret []
        | Some m =>
            if decide (m_id m = id) then
              removed ← remove_message key m;
              if removed : bool then owed ← owe_410 m; mret (option_list owed) else mret []
            else mret []
        end
    end;
  _ ← delete idx;
  mret receipts.
Fixpoint reap_rows (rows : list (string * Row)) : BT (list (N * Receipt)) :=
  match rows with
  | [] => mret []
  | (idx, row) :: rows => here ← reap_row idx row; rest ← reap_rows rows; mret (here ++ rest)
  end.

(** The end of the range wraps at the last time as in a release build. *)
Definition reap (now : N) : BT (list (N * Receipt)) :=
  let due := range "rexp#" ("rexp#" +:+ hex16 (wrap64 (now + 1))) in
  rows ← read due;
  reap_rows rows.

Definition set_route (to : Recipient) (node : string) : BT (option string) :=
  let key := route_key to in
  row ← get key;
  let previous := row ≫= fun row => text row "node" in
  _ ← put key D [("node", as_bytes node)];
  mret previous.

Definition route (to : Recipient) : BT (option string) :=
  row ← get (route_key to);
  mret (row ≫= fun row => text row "node").

Definition clear_route (to : Recipient) (node : string) : BT bool :=
  let predicate := column_filter D "node" (Some node) in
  mutate_if (route_key to) predicate [delete_row].

Definition bigtable : Store BtWorld := {|
  Store.create_user_agent := create_user_agent;
  Store.user_agent := user_agent;
  Store.touch_user_agent := touch_user_agent;
  Store.update_bridge_token := update_bridge_token;
  Store.delete_user_agent := delete_user_agent;
  Store.expire_user_agents := expire_user_agents;
  Store.subscriptions := subscriptions;
  Store.channel := channel;
  Store.create_subscription := create_subscription;
  Store.subscription_by_push := subscription_by_push;
  Store.delete_subscription := delete_subscription;
  Store.insert_message := insert_message;
  Store.pending := pending;
  Store.message := message;
  Store.delete_message := delete_message;
  Store.create_receipt_sub := create_receipt_sub;
  Store.receipt_sub_exists := receipt_sub_exists;
  Store.delete_receipt_sub := delete_receipt_sub;
  Store.enqueue_receipt := enqueue_receipt;
  Store.queued_receipts := queued_receipts;
  Store.delete_receipt := delete_receipt;
  Store.reap := reap;
  Store.set_route := set_route;
  Store.route := route;
  Store.clear_route := clear_route;
|}.
End store.
End adapter.
