(* ===== verification/BigtableTheorems.v ===== *)
(** * Merging the reads of the Bigtable adapter

    Merging the chunks of a read gives the rows that were sent, however they
    were cut up. *)
From Stdlib Require Import Ascii.
From S2P Require Import Prelude RustStr External StoreTypes Store Bridge Client GcpAuth BigtableWire BigtableService Bigtable.

(** ** Merging chunks *)
Lemma merge_chunks_app s a b :
  merge_chunks s (a ++ b) = (s' ← merge_chunks s a; merge_chunks s' b).
Proof.
  revert s. induction a as [|c a IH]; intros s; [done|]. cbn [app merge_chunks].
  unfold mbind, result_bind in *. destruct (merge_chunk s c); [apply IH|done].
Qed.

Lemma merge_stream_concat s ls : merge_stream s (Ok <$> ls) = merge_chunks s (concat ls).
Proof.
  revert s. induction ls as [|l ls IH]; intros s; [done|].
  cbn [fmap list_fmap merge_stream concat]. rewrite merge_chunks_app.
  unfold mbind at 1, result_bind at 1. unfold mbind, result_bind.
  destruct (merge_chunks s l); [apply IH|done].
Qed.

(** The state once a value is complete. *)
Definition after_value (s : Merge) (key q : string) (v : Bytes) (st : option RowStatus) : Merge :=
  let row := <[ q := mg_value s ++ v ]> (mg_row s) in
  if decide (st = Some (CommitRow true)) then
    {| mg_key := key; mg_qualifier := q; mg_row := ∅; mg_value := [];
       mg_out := mg_out s ++ [(key, row)] |}
  else {| mg_key := key; mg_qualifier := q; mg_row := row; mg_value := []; mg_out := mg_out s |}.

Lemma merge_value key q0 q ps st l v s :
  key <> "" -> utf8_valid key = true -> st <> Some (ResetRow true) ->
  value_chunks key q0 q ps st l -> pieces v ps ->
  mg_key s = key \/ (ck_row_key <$> head l) = Some key ->
  (forall x, q0 = Some x -> mg_qualifier s = x) ->
  merge_chunks s l = Ok (after_value s key q v st).
Proof.
  intros Hk Hu Hst Hl. revert s v.
  assert (Hkey : forall s k, k = "" \/ k = key -> mg_key s = key \/ k = key ->
    (if str_is_empty k then mg_key s else k) = key).
  { intros s k [-> | ->] Hs; [by destruct Hs as [?|<-]|]. by destruct key. }
  assert (Hqual : forall s q0 q o, o = Some q \/ (o = None /\ q0 = Some q) ->
    (forall x, q0 = Some x -> mg_qualifier s = x) -> default (mg_qualifier s) o = q).
  { intros s q1 q2 o [-> | [-> ->]] Hs; [done|by apply Hs]. }
  induction Hl as [q0 q p size k o st Hk1 Ho|q0 q p size k o ps st l Hk1 Ho Hl IH];
    intros s v Hps Hs Hq.
  - assert (p = v /\ size = 0%Z) as [-> ->].
    { inversion Hps as [|? ? ? ? ? Hp]; [done|]. inversion Hp. }
    cbn [merge_chunks]. unfold merge_chunk. rewrite decide_False by done. cbn [ck_row_key ck_qualifier ck_value ck_value_size ck_row_status].
    rewrite (Hkey s k), (Hqual s q0 q o) by (done || naive_solver). cbn [Z.eqb].
    unfold after_value. case_decide; [|done]. rewrite Hu. done.
  - inversion Hps as [v1 Heq|? v' ? ? Hsize Hp]; subst.
    { by inversion Hl. }
    cbn [merge_chunks]. unfold merge_chunk at 1. rewrite decide_False by done. cbn [ck_row_key ck_qualifier ck_value ck_value_size ck_row_status].
    rewrite (Hkey s k), (Hqual s q0 q o) by (done || naive_solver).
    rewrite (proj2 (Z.eqb_neq _ _) Hsize), decide_False by done. unfold mbind, result_bind.
    rewrite (IH Hst _ v'); [|done|by left|by intros ? [= <-]].
    unfold after_value. cbn [mg_value mg_row mg_out]. by rewrite <- app_assoc.
Qed.

(** A row map of columns. *)
Definition add_cells (r : Row) (cs : list (string * Bytes)) : Row :=
  foldl (fun r kv => <[ kv.1 := kv.2 ]> r) r cs.
Definition row_of : list (string * Bytes) -> Row := add_cells ∅.

(** Between rows: nothing is left over, and [out] are the rows so far. *)
Definition between_rows (s : Merge) (out : list (string * Row)) : Prop :=
  mg_row s = ∅ /\ mg_value s = [] /\ mg_out s = out.

Lemma value_chunks_nonempty key q0 q ps st l : value_chunks key q0 q ps st l -> l <> [].
Proof. by intros []. Qed.

Lemma merge_cells key q0 cs l s :
  key <> "" -> utf8_valid key = true -> cell_chunks key q0 cs l ->
  mg_key s = key \/ (ck_row_key <$> head l) = Some key ->
  (forall x, q0 = Some x -> mg_qualifier s = x) -> mg_value s = [] ->
  exists s', merge_chunks s l = Ok s' /\
    between_rows s' (mg_out s ++ [(key, add_cells (mg_row s) cs)]).
Proof.
  intros Hk Hu Hl. revert s. induction Hl as [q0 q v ps l Hps Hl|q0 q v ps l cs l' Hps Hl Hl' IH];
    intros s Hs Hq Hv.
  - exists (after_value s key q v (Some (CommitRow true))).
    split; [by apply (merge_value key q0 q ps _ l v s)|]. unfold after_value. rewrite decide_True by done.
    split_and!; [done..|]. cbn. by rewrite Hv.
  - rewrite merge_chunks_app.
    assert (merge_chunks s l = Ok (after_value s key q v None)) as ->.
    { apply (merge_value key q0 q ps None l v s); try done.
      pose proof (value_chunks_nonempty _ _ _ _ _ _ Hl). by destruct l. }
    unfold mbind, result_bind. unfold after_value. rewrite decide_False by done.
    destruct (IH {| mg_key := key; mg_qualifier := q; mg_row := <[ q := mg_value s ++ v ]> (mg_row s);
                    mg_value := []; mg_out := mg_out s |}) as (s' & Hs' & Hb);
      [by left|by intros ? [= <-]|done|].
    exists s'. split; [done|]. cbn in Hb. by rewrite Hv in Hb.
Qed.

Lemma merge_abandoned l s out : abandoned l -> between_rows s out ->
  exists s', merge_chunks s l = Ok s' /\ between_rows s' out.
Proof.
  intros (l' & -> & Hl) (Hr & Hv & Ho). rewrite merge_chunks_app.
  assert (Hmid : exists s1, merge_chunks s l' = Ok s1 /\ mg_out s1 = out).
  { clear Hr Hv. revert s Ho. induction Hl as [|c l Hc Hl IH]; intros s Ho; [by exists s|].
    cbn [merge_chunks]. unfold merge_chunk at 1. rewrite Hc.
    rewrite !decide_False by done. destruct (ck_value_size c =? 0)%Z; by apply IH. }
  destruct Hmid as (s1 & -> & Ho1). eexists. split; [done|]. by split_and!.
Qed.

Lemma merge_row key cs l s out :
  key <> "" -> utf8_valid key = true -> row_chunks key cs l -> between_rows s out ->
  exists s', merge_chunks s l = Ok s' /\ between_rows s' (out ++ [(key, row_of cs)]).
Proof.
  intros Hk Hu Hl. revert s. induction Hl as [c l Hc Hkey|l0 l Ha Hl IH]; intros s Hs.
  - destruct Hs as (Hr & Hv & <-).
    destruct (merge_cells key None cs (c :: l) s) as (s' & Hs' & Hb);
      [done|done|done|right; cbn; by rewrite Hkey|done|done|].
    exists s'. split; [done|]. by rewrite Hr in Hb.
  - destruct (merge_abandoned l0 s out Ha Hs) as (s1 & Hs1 & Hb).
    destruct (IH s1 Hb) as (s2 & Hs2 & Hb2). exists s2.
    rewrite merge_chunks_app, Hs1. by split.
Qed.

Lemma merge_rows_chunks rows l s out :
  Forall (fun kc => utf8_valid kc.1 = true) rows -> rows_chunks rows l -> between_rows s out ->
  exists s', merge_chunks s l = Ok s' /\
    between_rows s' (out ++ ((fun kc => (kc.1, row_of kc.2)) <$> rows)).
Proof.
  intros Hu Hl. revert s out Hu. induction Hl as [|key cs rows l l' Hk Hl Hl' IH]; intros s out Hu Hs.
  - exists s. by rewrite app_nil_r.
  - apply Forall_cons in Hu as [Hu Hus].
    destruct (merge_row key cs l s out Hk Hu Hl Hs) as (s1 & Hs1 & Hb).
    destruct (IH s1 _ Hus Hb) as (s2 & Hs2 & Hb2). exists s2.
    rewrite merge_chunks_app, Hs1. split; [done|]. by rewrite <- app_assoc in Hb2.
Qed.

(** C28: A read gives exactly the rows the service sent, in their order, however
    their values are cut into chunks, whichever repeated keys and column
    names are left out, and whatever was sent of a row before the service
    started it over. *)
Theorem read_merges_rows rows stream :
  transmits rows stream -> Forall (fun kc => utf8_valid kc.1 = true) rows ->
  exists merged, merge_stream merge_new stream = Ok merged /\
    mg_out merged = (fun kc => (kc.1, row_of kc.2)) <$> rows.
Proof.
  intros (ls & -> & Hrows) Hu. rewrite merge_stream_concat.
  destruct (merge_rows_chunks rows (concat ls) merge_new [] Hu Hrows) as (s & Hs & _ & _ & Ho);
    [done|]. by exists s.
Qed.
