(* ===== verification/BigtableRows.v ===== *)
(** * Rows as they are written and read back

    What the cells an operation writes look like when the row is read, the
    round trip of a message through its row, ranges of keys, and what a
    conditional write looks at. *)
From Stdlib Require Import Ascii.
From S2P Require Import Prelude RustStr External StoreTypes Store Bridge Client GcpAuth BigtableWire BigtableService Bigtable BigtableTheorems.

(** ** Text in cells *)
Lemma utf8_ascii s : str_all (between 0 127) s = true -> utf8_valid s = true.
Proof.
  induction s as [|c s IH]; [done|]. cbn [str_all utf8_valid]. intros [Hc Hs]%andb_true_iff.
  by rewrite Hc, IH.
Qed.

Lemma digit_ascii c : is_ascii_digit c = true -> between 0 127 c = true.
Proof.
  unfold is_ascii_digit, between. rewrite !andb_true_iff, !N.leb_le. lia.
Qed.

Lemma pretty_char_digit d : (d < 10)%N -> is_ascii_digit (pretty_N_char d) = true.
Proof.
  intros. assert (d = 0 \/ d = 1 \/ d = 2 \/ d = 3 \/ d = 4 \/ d = 5 \/ d = 6
    \/ d = 7 \/ d = 8 \/ d = 9)%N as Hd by lia.
  by destruct_or! Hd; subst.
Qed.
Lemma pretty_go_digits n s :
  str_all is_ascii_digit s = true -> str_all is_ascii_digit (pretty_N_go n s) = true.
Proof.
  revert s. induction (N.lt_wf_0 n) as [n _ IH]. intros s Hs.
  destruct (decide (n = 0)%N) as [->|Hne]; [by rewrite pretty_N_go_0|].
  rewrite pretty_N_go_step by lia. apply IH; [by apply N.div_lt; lia|].
  cbn [str_all]. rewrite Hs, andb_true_r.
  apply pretty_char_digit. by apply N.mod_lt.
Qed.

Lemma utf8_to_string n : utf8_valid (to_string n) = true.
Proof.
  apply utf8_ascii. unfold to_string, pretty, pretty_N. case_decide; [done|].
  eapply str_all_impl; [apply digit_ascii|]. by apply pretty_go_digits.
Qed.

Lemma text_cell row col s :
  row !! col = Some (as_bytes s) -> utf8_valid s = true -> text row col = Some s.
Proof. intros Hr Hu. unfold text. rewrite Hr. cbn. unfold from_utf8. by rewrite of_as_bytes, Hu. Qed.
Lemma number_cell row col n :
  row !! col = Some (as_bytes (to_string n)) -> (n <= u64_max)%N -> number row col = Some n.
Proof.
  intros Hr Hn. unfold number. rewrite (text_cell _ _ (to_string n)) by (done || apply utf8_to_string).
  by apply parse_to_string.
Qed.

(** ** Written rows *)
Lemma row_of_lookup cs col v :
  NoDup cs.*1 -> row_of cs !! col = Some v <-> (col, v) ∈ cs.
Proof.
  intros Hnd. assert (row_of cs = list_to_map cs) as ->; [|by rewrite <- elem_of_list_to_map].
  enough (Hadd : forall r, NoDup cs.*1 -> (forall k, k ∈ cs.*1 -> r !! k = None) ->
    add_cells r cs = list_to_map cs ∪ r).
  { unfold row_of. rewrite Hadd by done. by rewrite (right_id_L ∅ (∪)). }
  clear Hnd. induction cs as [|[k w] cs IH]; intros r Hnd Hno; [cbn; by rewrite (left_id_L ∅ (∪))|].
  apply NoDup_cons in Hnd as [Hk Hnd].
  change (add_cells r ((k, w) :: cs)) with (add_cells (<[ k := w ]> r) cs). rewrite IH; [|done|].
  - rewrite list_to_map_cons, <- insert_union_l, insert_union_r; [done|]. by apply not_elem_of_list_to_map_1.
  - intros k' Hk'. rewrite lookup_insert_ne by (intros <-; done). apply Hno. by right.
Qed.

Lemma visible_set family col ts v row :
  row !! (family, col) = None ->
  visible (apply_mutation row (SetCell family col ts v)) = <[ (family, col) := v ]> (visible row).
Proof.
  intros Hno. apply map_eq. intros k. unfold visible, newest, apply_mutation.
  rewrite lookup_fmap, lookup_omap, lookup_partial_alter, Hno. case_decide as Hk.
  - subst. by rewrite lookup_insert_eq.
  - rewrite lookup_insert_ne by done. by rewrite lookup_fmap, lookup_omap.
Qed.

(** Cells written to a row of which they are the first. *)
Definition set_cells (family : string) (ts : N) (cols : list (string * Bytes)) : list Mutation :=
  (fun cv => set_cell family cv.1 cv.2 ts) <$> cols.

Lemma visible_set_cells family ts cols row :
  NoDup cols.*1 -> (forall col, col ∈ cols.*1 -> row !! (family, col) = None) ->
  visible (foldl apply_mutation row (set_cells family ts cols)) =
    list_to_map ((fun cv => ((family, cv.1), cv.2)) <$> cols) ∪ visible row.
Proof.
  revert row. induction cols as [|[col v] cols IH]; intros row Hnd Hno; [cbn; by rewrite (left_id_L ∅ (∪))|].
  apply NoDup_cons in Hnd as [Hc Hnd]. cbn [set_cells fmap list_fmap foldl fst snd].
  unfold set_cells in IH. rewrite IH; [|done|].
  - unfold set_cell. rewrite visible_set by (apply Hno; by left). rewrite list_to_map_cons.
    rewrite <- insert_union_l, insert_union_r; [done|].
    apply not_elem_of_list_to_map_1. intros Hin. apply Hc.
    apply list_elem_of_fmap in Hin as ([k w] & Hk & Hin).
    apply list_elem_of_fmap in Hin as ([k' w'] & [= -> ->] & Hin).
    injection Hk as ->. apply list_elem_of_fmap. by exists (k', w').
  - intros k Hk. unfold set_cell, apply_mutation.
    rewrite lookup_partial_alter, decide_False by (intros [= ->]; done). apply Hno. by right.
Qed.

(** How a row arrives: the newest cells, in some order. *)
Definition arrives_as (row : TRow) (cs : list (string * Bytes)) : Prop :=
  cs ≡ₚ (fun kv => (kv.1.2, kv.2)) <$> map_to_list (visible row).

(** A row cleared and written to at once holds exactly what was written. *)
Lemma written_row family ts cols row row' cs :
  NoDup cols.*1 ->
  apply_row (DeleteFromRow :: set_cells family ts cols) row = Some row' -> arrives_as row' cs ->
  forall col v, row_of cs !! col = Some v <-> (col, v) ∈ cols.
Proof.
  intros Hnd Hrow Hcs. unfold apply_row in Hrow. cbn [foldl apply_mutation] in Hrow.
  case_decide; simplify_eq. unfold arrives_as in Hcs.
  rewrite visible_set_cells in Hcs by done.
  assert (visible ∅ = ∅) as Hv by done. rewrite Hv, (right_id_L ∅ (∪)) in Hcs.
  rewrite map_to_list_to_map in Hcs.
  2:{ rewrite <- list_fmap_compose. change (NoDup (pair family ∘ fst <$> cols)).
      rewrite (list_fmap_compose fst (pair family)).
      apply NoDup_fmap; [|done]. by intros ? ? [= ->]. }
  rewrite <- list_fmap_compose in Hcs.
  assert (cs ≡ₚ cols) as Hp.
  { rewrite Hcs. clear. induction cols as [|[k v] cols IH]; [done|]. cbn. by f_equiv. }
  intros col v. rewrite row_of_lookup by (by rewrite Hp). by rewrite Hp.
Qed.

(** ** Messages *)

(** What the strings and numbers of a message are in the service: UTF-8 of
    ids that do not hold the separators of the keys, at their widths. *)
Record storable (m : Message) : Prop := {
  st_uaid : str_all (fun c => negb (char_is 35 c)) (m_uaid m) = true;
  st_channel : str_all (fun c => negb (char_is 58 c)) (m_channel_id m) = true;
  st_id : utf8_valid (m_id m) = true;
  st_ch : utf8_valid (m_channel_id m) = true;
  st_push : utf8_valid (m_push m) = true;
  st_ctype : forall s, m_ctype m = Some s -> utf8_valid s = true;
  st_cenc : forall s, m_cenc m = Some s -> utf8_valid s = true;
  st_rsub : forall s, m_rsub m = Some s -> utf8_valid s = true;
  st_ttl : (m_ttl m <= u32_max)%N;
  st_accepted : (m_accepted m <= u64_max)%N;
  st_expiry : (m_expiry m <= u64_max)%N;
}.

Definition opt_col (name : string) (v : option string) : list (string * Bytes) :=
  match v with Some v => [(name, as_bytes v)] | None => [] end.
Definition message_cols (m : Message) : list (string * Bytes) :=
  [("id", as_bytes (m_id m)); ("ch", as_bytes (m_channel_id m)); ("push", as_bytes (m_push m));
   ("body", m_body m); ("ttl", as_bytes (to_string (m_ttl m)));
   ("urgency", as_bytes (urgency_as_str (m_urgency m)));
   ("accepted", as_bytes (to_string (m_accepted m))); ("expiry", as_bytes (to_string (m_expiry m)))]
  ++ opt_col "ctype" (m_ctype m) ++ opt_col "cenc" (m_cenc m) ++ opt_col "rsub" (m_rsub m).

Lemma message_mutations_cols m :
  message_mutations m = DeleteFromRow :: set_cells M (m_accepted m) (message_cols m).
Proof. unfold message_mutations, message_cols. by destruct (m_ctype m), (m_cenc m), (m_rsub m). Qed.

Lemma message_cols_NoDup m : NoDup (message_cols m).*1.
Proof.
  unfold message_cols. apply (bool_decide_unpack _).
  by destruct (m_ctype m), (m_cenc m), (m_rsub m).
Qed.

(** An optional column reads back as it was written. *)
Lemma opt_text row m name v :
  (forall col x, row !! col = Some x <-> (col, x) ∈ message_cols m) ->
  (forall x, (name, x) ∈ message_cols m <-> (name, x) ∈ opt_col name v) ->
  (forall s, v = Some s -> utf8_valid s = true) -> text row name = v.
Proof.
  intros Hrow Hname Hu. destruct v as [s|].
  - apply text_cell; [|by apply Hu]. apply Hrow, Hname. by left.
  - unfold text. destruct (row !! name) eqn:E; [|done].
    apply Hrow, Hname in E. by apply not_elem_of_nil in E.
Qed.

Lemma message_slot m : storable m ->
  (strip_prefix "msg#" (message_key m) ≫= split_once (char_is 35)) =
    Some (m_uaid m, match m_topic m with
                    | Some t => "t:" +:+ m_channel_id m +:+ ":" +:+ t
                    | None => hex16 (m_accepted m) +:+ m_id m
                    end).
Proof.
  intros Hm. unfold message_key. destruct (m_topic m) as [t|];
    rewrite strip_prefix_app; cbn [mbind option_bind].
  - change ("#t:" +:+ m_channel_id m +:+ ":" +:+ t) with (String "#" ("t:" +:+ m_channel_id m +:+ ":" +:+ t)).
    by apply split_once_app; [apply Hm|].
  - change ("#" +:+ hex16 (m_accepted m) +:+ m_id m) with (String "#" (hex16 (m_accepted m) +:+ m_id m)).
    by apply split_once_app; [apply Hm|].
Qed.

Lemma hex_not_topic n s : strip_prefix "t:" (hex16 n +:+ s) = None.
Proof.
  pose proof (hex_char_lower ((n / 16 ^ N.of_nat 15) mod 16)) as Hc.
  specialize (Hc ltac:(by apply N.mod_lt)).
  unfold hex16. cbn [hex_w]. rewrite app_cons. cbn [strip_prefix].
  destruct (decide _) as [Heq|]; [|done]. by rewrite <- Heq in Hc.
Qed.

Lemma message_topic m : storable m ->
  (snd <$> (strip_prefix "t:" (match m_topic m with
                               | Some t => "t:" +:+ m_channel_id m +:+ ":" +:+ t
                               | None => hex16 (m_accepted m) +:+ m_id m
                               end) ≫= split_once (char_is 58))) = m_topic m.
Proof.
  intros Hm. destruct (m_topic m) as [t|]; [|by rewrite hex_not_topic].
  rewrite strip_prefix_app. cbn [mbind option_bind].
  change (":" +:+ t) with (String ":" t). by rewrite split_once_app; [|apply Hm|].
Qed.

(** The columns of a message decode to it. *)
Lemma message_from_cols m row :
  storable m -> (forall col v, row !! col = Some v <-> (col, v) ∈ message_cols m) ->
  message_from_row (message_key m) row = Some m.
Proof.
  intros Hm Hr. unfold message_from_row. rewrite (message_slot m Hm). cbn [mbind option_bind].
  rewrite (message_topic m Hm).
  assert (Hurg : utf8_valid (urgency_as_str (m_urgency m)) = true) by (by destruct (m_urgency m)).
  rewrite (text_cell _ "id" (m_id m)), (text_cell _ "ch" (m_channel_id m)),
    (text_cell _ "push" (m_push m)), (text_cell _ "urgency" (urgency_as_str (m_urgency m)));
    try (apply Hr; unfold message_cols; set_solver +); try exact Hurg; try apply Hm.
  rewrite (number_cell _ "ttl" (m_ttl m)), (number_cell _ "accepted" (m_accepted m)),
    (number_cell _ "expiry" (m_expiry m));
    try (apply Hr; unfold message_cols; set_solver +); try apply Hm.
  2:{ pose proof (st_ttl m Hm). change u32_max with 4294967295%N in *.
      change u64_max with 18446744073709551615%N. lia. }
  rewrite (proj2 (Hr "body" (m_body m))) by (unfold message_cols; set_solver +).
  rewrite (opt_text _ m "ctype" (m_ctype m)), (opt_text _ m "cenc" (m_cenc m)),
    (opt_text _ m "rsub" (m_rsub m)); try apply Hr; try apply Hm;
    try (intros x; unfold message_cols, opt_col; destruct (m_ctype m), (m_cenc m), (m_rsub m); set_solver +).
  cbn [mbind option_bind]. unfold u32_try_from. rewrite decide_True by apply Hm.
  cbn [mbind option_bind]. rewrite urgency_parse_as_str. cbn [mbind option_bind]. by destruct m.
Qed.

(** C27: A message written to its row reads back as it was, whatever the row held
    before and in whatever order its cells arrive: a replacement inherits
    nothing from the message it replaces. *)
Theorem message_row_roundtrip m old row cs :
  storable m -> apply_row (message_mutations m) old = Some row -> arrives_as row cs ->
  message_from_row (message_key m) (row_of cs) = Some m.
Proof.
  intros Hm Hrow Hcs. rewrite message_mutations_cols in Hrow. apply message_from_cols; [done|].
  exact (written_row _ _ _ _ _ _ (message_cols_NoDup m) Hrow Hcs).
Qed.

(** ** Ranges *)
Lemma substring_suffix a b : String.substring (String.length a) (String.length b) (a +:+ b) = b.
Proof.
  induction a as [|c a IH]; [|exact IH].
  rewrite app_nil. rewrite <- (app_nil_r_str b) at 2. by rewrite substring_app.
Qed.
Lemma strip_suffix_app suffix a : strip_suffix suffix (a +:+ suffix) = Some a.
Proof.
  unfold strip_suffix. rewrite length_app_str.
  replace (String.length a + String.length suffix - String.length suffix) with (String.length a) by lia.
  rewrite decide_True, substring_app; [done|]. split; [lia|apply substring_suffix].
Qed.

(** The range a prefix scan asks for selects exactly the keys with that
    prefix. *)
Theorem prefix_selects p key :
  selects (prefix (p +:+ "#")) key <-> starts_with (p +:+ "#") key = true.
Proof.
  unfold prefix. rewrite strip_suffix_app. cbn [default]. unfold selects, range. cbn.
  rewrite <- (prefix_range p "#" "$" key) by done. split.
  - intros [Hin|(a & b & Hin & Hr)]; [by apply not_elem_of_nil in Hin|].
    apply list_elem_of_singleton in Hin as [= -> ->]. exact Hr.
  - intros Hr. right. exists (p +:+ "#"), (p +:+ "$"). split; [by left|exact Hr].
Qed.

(** ** Conditional writes *)
Section filters.
Context `{Re2} `{!Re2Laws}.

Lemma exact_literal v : str_all (between 0 127) v = true -> literal (exact_chars v) v.
Proof.
  induction v as [|c v IH]; [constructor|]. cbn [str_all exact_chars]. intros [Hc Hv]%andb_true_iff.
  assert (between 128 191 c = false) as ->.
  { unfold between in *. apply andb_true_iff in Hc as [_ Hc]. apply N.leb_le in Hc.
    apply andb_false_iff. left. apply N.leb_gt. lia. }
  rewrite orb_false_r. destruct (is_ascii_alphanumeric c) eqn:Ha; constructor; auto.
Qed.

(** The pattern of a value matches it and nothing else. *)
Lemma exact_match v x : str_all (between 0 127) v = true -> re2_match (exact v) x = true <-> x = v.
Proof. intros Hv. by apply re2_anchored, exact_literal. Qed.

Definition cell_of (col : string * string) (tv : Z * Bytes) : Cell :=
  {| c_col := col; c_ts := tv.1; c_value := tv.2 |}.

Lemma filter_column k (l : list ((string * string) * Versions)) :
  NoDup l.*1 ->
  filter (fun c => c_col c = k) (l ≫= fun '(col, l) => cell_of col <$> l) =
    match (list_to_map l : TRow) !! k with Some vs => cell_of k <$> vs | None => [] end.
Proof.
  assert (Hhere : forall vs : Versions, filter (fun c => c_col c = k) (cell_of k <$> vs) = cell_of k <$> vs).
  { intros vs. induction vs as [|v vs IH]; [done|].
    rewrite fmap_cons, filter_cons, decide_True by done. by rewrite IH. }
  assert (Hnot : forall col (vs : Versions), col <> k -> filter (fun c => c_col c = k) (cell_of col <$> vs) = []).
  { intros col vs Hne. apply filter_none. intros c Hc.
    apply list_elem_of_fmap in Hc as (v & -> & _). exact Hne. }
  induction l as [|[col vs] l IH]; intros Hnd; [done|]. apply NoDup_cons in Hnd as [Hc Hnd].
  cbn [mbind list_bind]. rewrite filter_app. rewrite (IH Hnd). rewrite list_to_map_cons.
  destruct (decide (col = k)) as [->|Hne].
  - rewrite lookup_insert_eq, Hhere, (not_elem_of_list_to_map_1 l k Hc). apply app_nil_r.
  - by rewrite lookup_insert_ne, Hnot.
Qed.

Lemma limit_one k (vs : Versions) :
  limit_cells 1 [] (cell_of k <$> vs) = match vs with [] => [] | v :: _ => [cell_of k v] end.
Proof.
  destruct vs as [|v vs]; [done|]. cbn [fmap list_fmap limit_cells].
  rewrite decide_True by (cbn; lia). f_equal.
  induction vs as [|w vs IH]; [done|]. cbn [fmap list_fmap limit_cells].
  rewrite decide_False; [exact IH|]. cbn. rewrite decide_True by done. cbn. lia.
Qed.

(** The predicate holds of a row exactly when the newest version of the
    column is the value, whatever older versions are still there. *)
Lemma column_filter_exact family col v row :
  str_all is_ascii_alphanumeric family = true -> str_all (between 0 127) col = true ->
  (forall x, v = Some x -> str_all (between 0 127) x = true) ->
  eval_filter (column_filter family col v) (cells row) <> [] <->
  match v with
  | Some x => visible row !! (family, col) = Some (as_bytes x)
  | None => is_Some (visible row !! (family, col))
  end.
Proof.
  intros Hfam Hcol Hv.
  assert (Hl : forall s, str_all is_ascii_alphanumeric s = true -> literal s s).
  { induction s as [|c s IH]; [constructor|]. cbn. intros [? ?]%andb_true_iff. constructor; auto. }
  assert (Hcells : filter (fun c => re2_match (exact col) (c_col c).2 = true)
    (filter (fun c => re2_match family (c_col c).1 = true) (cells row)) =
    match row !! (family, col) with Some vs => cell_of (family, col) <$> vs | None => [] end).
  { rewrite list_filter_filter. rewrite <- (list_to_map_to_list row) at 2.
    rewrite <- filter_column by apply NoDup_fst_map_to_list.
    apply filter_ext_in. intros [[f q] ts x] _. cbn [c_col fst snd].
    rewrite exact_match, (re2_literal _ _ f (Hl _ Hfam)) by done. split; [intros [-> ->]; done|by intros [= -> ->]]. }
  unfold column_filter. cbn [eval_filter app foldl]. rewrite Hcells.
  unfold visible, newest. rewrite lookup_fmap, lookup_omap.
  change (Z.to_nat 1) with 1. destruct (row !! (family, col)) as [vs|]; cbn [mbind option_bind].
  2:{ destruct v as [x|]; cbn; split; try done; by intros []. }
  rewrite limit_one. destruct vs as [|[ts w] vs].
  { destruct v as [x|]; cbn; split; try done; by intros []. }
  cbn [head fmap option_fmap option_map snd]. destruct v as [x|]; cbn [app foldl eval_filter].
  - rewrite filter_cons, filter_nil. cbn [cell_of c_value].
    pose proof (exact_match x (of_bytes w) (Hv x eq_refl)) as Hm.
    case_decide as Hd.
    + split; [|done]. intros _. apply Hm in Hd as <-. cbn. by rewrite as_of_bytes.
    + split; [done|]. intros [= ->]. destruct Hd. apply Hm, of_as_bytes.
  - split; [by eexists|done].
Qed.
End filters.
