(* ===== verification/Fcm.v ===== *)
(** * Firebase Cloud Messaging

    [crates/webpush-fcm/src/lib.rs]: the configuration, loading the
    credentials of every application, and sending one message. The world of
    the bridge is the network with a token cache per application. *)
From S2P Require Import Prelude RustStr External StoreTypes Bridge Client GcpAuth.

Definition DEFAULT_ENDPOINT : string := "https://fcm.googleapis.com".
Definition SCOPE : string := "https://www.googleapis.com/auth/firebase.messaging".
Definition MAX_DATA_BYTES : N := 4096.
Definition MAX_TTL_SECS : N := 2419200.

Record AppConfig : Type := {
  credentials_file : option string;
  cfg_project_id : option string;
  cfg_endpoint : option string;
}.
Record Config : Type := { cfg_apps : gmap string AppConfig; cfg_timeout : Duration }.
(** [default_timeout] *)
Definition default_timeout : Duration := from_secs 10.

(** The decoder serde derives for [Body] in [classify]: the message and the
    error codes of the details, with missing parts defaulted. *)
Class FcmSerde : Type := { fcm_body : Bytes -> option (string * list (option string)) }.

Section fcm.
Context `{HT : Http} `{B64 : Base64} `{JS : Json} `{RSA : Rsa} `{HO : Host} `{GS : GcpSerde}
  `{SX : StatusText} `{CB : ClientBuilder} `{FS : FcmSerde} `{OR : HashOrder}.

Record App : Type := {
  auth : TokenSource;
  send_url : string;
  app_quota_project : option string;
}.
Record Fcm : Type := { apps : gmap string App }.

(** [load_app] *)
Definition load_app (cfg : AppConfig) : result BoxError App :=
  auth ← match credentials_file cfg with
         | Some path => from_file path [SCOPE]
         | None => discover [SCOPE]
         end;
  project ← ok_or "project_id is required without a service account key"
    (match cfg_project_id cfg with Some p => Some p | None => project_id auth end);
  let endpoint := default DEFAULT_ENDPOINT (cfg_endpoint cfg) in
  Ok {| auth := auth;
        send_url := trim_end_matches (char_is 47) endpoint +:+ "/v1/projects/" +:+ project
                    +:+ "/messages:send";
        app_quota_project := quota_project auth |}.

(** [collect::<Result<HashMap<_, _>, _>>()] stops at the first error. *)
Fixpoint load_apps (l : list (string * AppConfig)) : result BoxError (gmap string App) :=
  match l with
  | [] => Ok ∅
  | (id, cfg) :: l =>
      app ← map_err (fun e => "fcm app " +:+ id +:+ ": " +:+ e) (load_app cfg);
      rest ← load_apps l;
      Ok (<[ id := app ]> rest)
  end.

(** [Fcm::new] *)
Definition new (cfg : Config) : result BoxError Fcm :=
  _ ← http_client (cfg_timeout cfg);
  apps ← load_apps (hm_list (cfg_apps cfg));
  Ok {| apps := apps |}.

(** [BTreeMap]'s [Serialize]: an object of strings. *)
Definition string_object (m : gmap string string) : Value :=
  json ((fun kv => (kv.1, Str kv.2)) <$> map_to_list m).
(** Octets of keys and values. *)
Definition data_size (m : gmap string string) : N :=
  foldr (fun kv n => (str_len kv.1 + str_len kv.2 + n)%N) 0%N (map_to_list m).

(** [classify] *)
Definition classify (status : N) (retry_after : option Duration) (body : Bytes) : Error :=
  let '(message, details) := default ("", []) (fcm_body body) in
  let code := head (omap id details) in
  if bool_decide (status = 404%N)
     || bool_decide (code = Some "UNREGISTERED") || bool_decide (code = Some "SENDER_ID_MISMATCH")
  then TokenGone
  else if decide (status = 429%N) then Throttled retry_after
  else if decide (status = 400%N) then
    if bool_decide (code = Some "INVALID_ARGUMENT")
       && str_contains "registration token" (to_ascii_lowercase message)
    then TokenGone
    else Rejected (if str_is_empty message then status_text status else message)
  else Unavailable ("FCM returned " +:+ status_text status +:+ ": " +:+ message).

(** The JSON body of [deliver]. *)
Definition message_body (to : Address) (n : BridgeMessage) : Value :=
  json [("message", json [
    ("token", Str (ad_token to));
    ("data", string_object (fields n));
    ("android", json [
      ("ttl", Str (to_string (N.min (as_secs (bn_ttl n)) MAX_TTL_SECS) +:+ "s"));
      ("priority", Str (match bn_priority n with PNormal => "NORMAL" | PHigh => "HIGH" end))])])].

(** The request of [deliver]. *)
Definition message_request (app : App) (token : string) (body : Value) : Request :=
  {| rq_method := "POST"; rq_url := send_url app; rq_query := [];
     rq_headers := [("authorization", "Bearer " +:+ token); ("content-type", "application/json")]
       ++ match app_quota_project app with
          | Some project => [("x-goog-user-project", project)]
          | None => []
          end;
     rq_body := Body (as_bytes (json_print body)) |}.

(** [e] as it is inside [Error::Unavailable]. *)
Definition or_unavailable {W X} (m : EST W BoxError X) : EST W Error X := fun w =>
  let '(r, w) := m w in (map_err Unavailable r, w).

(** [Fcm::deliver] *)
Definition deliver (f : Fcm) (to : Address) (n : BridgeMessage) :
    EST (Caches Cached) Error unit :=
  app ← lift_result (ok_or UnknownApp (apps f !! ad_app_id to));
  let data := fields n in
  if (MAX_DATA_BYTES <? data_size data)%N then throw TooLarge
  else
    let body := message_body to n in
    token ← or_unavailable (with_cache (ad_app_id to) (token (auth app)));
    resp ← or_unavailable (with_net (send_request (message_request app token body)));
    let status := rp_status resp in
    if is_success status then mret ()
    else
      _ ← (if decide (status = 401%N)
           then or_unavailable (with_cache (ad_app_id to) invalidate) else mret ());
      let retry_after := retry_after_of resp in
      throw (classify status retry_after (default [] (rp_body resp))).

(** [impl Bridge for Fcm] *)
Definition bridge (f : Fcm) : SharedBridge (Caches Cached) := {|
  b_name := "fcm";
  b_has_app := fun id => bool_decide (is_Some (apps f !! id));
  b_send := deliver f;
|}.
End fcm.
