(* ===== verification/Apns.v ===== *)
(** * The Apple Push Notification service

    [crates/webpush-apns/src/lib.rs]: the configuration, loading the signing
    keys, provider tokens and sending one message. The world of the bridge is
    the network with a provider token per application. *)
From S2P Require Import Prelude RustStr External StoreTypes Bridge Client.

Definition PRODUCTION : string := "https://api.push.apple.com".
Definition SANDBOX : string := "https://api.sandbox.push.apple.com".
Definition MAX_PAYLOAD : N := 4096.
Definition TOKEN_LIFETIME : Duration := from_secs (40 * 60).

Inductive Environment : Type := Production | Sandbox.
Inductive PushType : Type := Background | Alert.
#[export] Instance push_type_eq_dec : EqDecision PushType.
Proof. solve_decision. Defined.

Record AppConfig : Type := {
  key_file : string;
  cfg_key_id : string;
  cfg_team_id : string;
  cfg_topic : string;
  environment : Environment;
  cfg_endpoint : option string;
  cfg_push_type : PushType;
  cfg_aps : option Value;
}.
Record Config : Type := { cfg_apps : gmap string AppConfig; cfg_timeout : Duration }.
(** [default_timeout] *)
Definition default_timeout : Duration := from_secs 10.

(** PEM files and [ring]'s ES256 keys; a signature depends on random octets.
    [apns_reason] is the decoder serde derives for [Reason]. *)
Class ApnsKeys : Type := {
  EcdsaKeyPair : Type;
  from_pem_file : string -> result string Bytes;
  ecdsa_from_pkcs8 : Bytes -> result string EcdsaKeyPair;
  ecdsa_sign : EcdsaKeyPair -> Bytes -> Bytes -> result string Bytes;
  apns_reason : Bytes -> option string;
}.

(** A provider token and the [Instant] it was signed at; the world of an
    application is the network and its token. [App::send] is one computation
    over both: sends of one application that overlap share nothing else. *)
Abbreviation Jwt := (string * N)%type.
Abbreviation A X := (EST (Net * option Jwt) Error X) (only parsing).

Section apns.
Context `{HT : Http} `{B64 : Base64} `{JS : Json} `{AK : ApnsKeys}
  `{SX : StatusText} `{CB : ClientBuilder} `{OR : HashOrder}.

Record App : Type := {
  endpoint : string;
  key : EcdsaKeyPair;
  key_id : string;
  team_id : string;
  topic : string;
  push_type : PushType;
  aps : Value;
}.
Record Apns : Type := { apps : gmap string App }.

(** The body of the loop of [Apns::new]. *)
Definition load_app (timeout : Duration) (id : string) (app : AppConfig) : result BoxError App :=
  pem ← map_err (fun e => "apns app " +:+ id +:+ ": " +:+ key_file app +:+ ": " +:+ e)
    (from_pem_file (key_file app));
  key ← map_err (fun e => "apns app " +:+ id +:+ ": key is not a P-256 PKCS#8 key: " +:+ e)
    (ecdsa_from_pkcs8 pem);
  aps ← match cfg_push_type app, cfg_aps app with
        | _, Some aps => Ok aps
        | Background, None => Ok (json [("content-available", Num_ 1)])
        | Alert, None => Err ("apns app " +:+ id +:+ ": push_type = " +:+ debug_str "alert"
                              +:+ " requires aps")
        end;
  let endpoint := match cfg_endpoint app with
                  | Some e => e
                  | None => match environment app with Production => PRODUCTION | Sandbox => SANDBOX end
                  end in
  _ ← http2_client timeout (starts_with "http://" endpoint);
  Ok {| endpoint := trim_end_matches (char_is 47) endpoint; key := key;
        key_id := cfg_key_id app; team_id := cfg_team_id app; topic := cfg_topic app;
        push_type := cfg_push_type app; aps := aps |}.

Fixpoint load_apps (timeout : Duration) (l : list (string * AppConfig)) (loaded : gmap string App) :
    result BoxError (gmap string App) :=
  match l with
  | [] => Ok loaded
  | (id, app) :: l =>
      app ← load_app timeout id app;
      load_apps timeout l (<[ id := app ]> loaded)
  end.

(** [Apns::new] *)
Definition new (cfg : Config) : result BoxError Apns :=
  loaded ← load_apps (cfg_timeout cfg) (hm_list (cfg_apps cfg)) ∅;
  Ok {| apps := loaded |}.

Definition in_env {X} (m : ST Env X) : A X := fun '(n, c) =>
  let '(x, n) := net_with_env m n in (Ok x, (n, c)).
Definition cached : A (option Jwt) := fun '(n, c) => (Ok c, (n, c)).
Definition set_cached (c : option Jwt) : A unit := fun '(n, _) => (Ok (), (n, c)).

(** [App::jwt] signs a new token ... *)
Definition fresh_jwt (a : App) : A string :=
  let header := json [("alg", Str "ES256"); ("kid", Str (key_id a))] in
  iat ← in_env unix_now;
  let claims := json [("iss", Str (team_id a)); ("iat", Num_ iat)] in
  let input := b64_encode (as_bytes (json_print header)) +:+ "."
               +:+ b64_encode (as_bytes (json_print claims)) in
  seed ← in_env (random_bytes 32);
  sig ← lift_result (map_err (fun e => Unavailable ("signing provider token: " +:+ e))
    (ecdsa_sign (key a) seed (as_bytes input)));
  let jwt := input +:+ "." +:+ b64_encode sig in
  at_ ← in_env instant_now;
  _ ← set_cached (Some (jwt, at_));
  mret jwt.

(** ... unless the cached one is younger than 40 minutes; [elapsed] is zero
    for an instant in the future. *)
Definition jwt (a : App) : A string :=
  c ← cached;
  match c with
  | Some (jwt, at_) =>
      now ← in_env instant_now;
      if (sat_sub now at_ <? TOKEN_LIFETIME)%N then mret jwt else fresh_jwt a
  | None => fresh_jwt a
  end.

(** [App::drop_jwt] *)
Definition drop_jwt : A unit := set_cached None.

(** The body of a message. *)
Definition payload (a : App) (n : BridgeMessage) : Bytes :=
  as_bytes (json_print (json (("aps", aps a)
    :: ((fun kv => (kv.1, Str kv.2)) <$> map_to_list (fields n))))).

(** The [apns-push-type] and [apns-priority] of a message. *)
Definition push_type_and_priority (a : App) (n : BridgeMessage) : string * string :=
  match push_type a, bn_priority n with
  | Background, _ => ("background", "5")
  | Alert, PHigh => ("alert", "10")
  | Alert, PNormal => ("alert", "5")
  end.

(** The error of [App::send] for a status, and whether the provider token is
    dropped. *)
Definition failure (status : N) (reason : string) (retry_after : option Duration) : Error * bool :=
  match status with
  | 410%N => (TokenGone, false)
  | 400%N =>
      if bool_decide (reason = "BadDeviceToken") || bool_decide (reason = "DeviceTokenNotForTopic")
      then (TokenGone, false) else (Rejected reason, false)
  | 413%N => (TooLarge, false)
  | 429%N => (Throttled retry_after, false)
  | 403%N =>
      (Unavailable ("APNs refused credentials: " +:+ reason),
       bool_decide (reason = "ExpiredProviderToken") || bool_decide (reason = "InvalidProviderToken"))
  | _ => (Unavailable ("APNs returned " +:+ status_text status +:+ ": " +:+ reason), false)
  end.

(** The request of [App::send]. *)
Definition push_request (a : App) (token jwt : string) (n : BridgeMessage) (expiration : N) : Request :=
  let '(push_type, priority) := push_type_and_priority a n in
  {| rq_method := "POST"; rq_url := endpoint a +:+ "/3/device/" +:+ token; rq_query := [];
     rq_headers := [("authorization", "bearer " +:+ jwt); ("apns-topic", topic a);
       ("apns-push-type", push_type); ("apns-priority", priority);
       ("apns-expiration", to_string expiration); ("content-type", "application/json")];
     rq_body := Body (payload a n) |}.

(** [apns-expiration] *)
Definition expiration (n : BridgeMessage) : A N :=
  if (bn_ttl n =? 0)%N then mret 0%N
  else now ← in_env unix_now; mret (sat_add now (as_secs (bn_ttl n))).

(** [App::send] *)
Definition send (a : App) (token : string) (n : BridgeMessage) : A unit :=
  if str_is_empty token || negb (str_all is_ascii_alphanumeric token) then throw TokenGone
  else
    if (MAX_PAYLOAD <? N.of_nat (length (payload a n)))%N then throw TooLarge
    else
      expiration ← expiration n;
      jwt ← jwt a;
      resp ← (fun '(net, c) =>
        let '(r, net) := send_request (push_request a token jwt n expiration) net in
        (map_err Unavailable r, (net, c)));
      let status := rp_status resp in
      if decide (status = 200%N) then mret ()
      else
        let retry_after := retry_after_of resp in
        let reason := match b ← rp_body resp; apns_reason b with
                      | Some r => r
                      | None => "HTTP " +:+ status_text status
                      end in
        let '(e, drop) := failure status reason retry_after in
        _ ← (if drop : bool then drop_jwt else mret ());
        throw e.

(** [Bridge::send] for [Apns] *)
Definition deliver (s : Apns) (to : Address) (n : BridgeMessage) : EST (Caches Jwt) Error unit :=
  app ← lift_result (ok_or UnknownApp (apps s !! ad_app_id to));
  with_cache (ad_app_id to) (send app (ad_token to) n).

(** [impl Bridge for Apns] *)
Definition bridge (s : Apns) : SharedBridge (Caches Jwt) := {|
  b_name := "apns";
  b_has_app := fun id => bool_decide (is_Some (apps s !! id));
  b_send := deliver s;
|}.
End apns.
