(* ===== verification/Subscription.v ===== *)
(** * Creating subscriptions

    [crates/webpush-server/src/subscription.rs]: the operation shared by the
    WebSocket [register] message and the registration API, and the shapes of
    channel ids and application server keys. *)
From Stdlib Require Import Ascii.
From S2P Require Import Prelude RustStr External StoreTypes Store.

(** [enum Registered] *)
Inductive Registered : Type :=
| Created (sub : Subscription)
| Existing (sub : Subscription)
| Conflict.

(** [register] *)
Definition register {S} `{Store S} (uaid channel_id : string) (vapid : option Bytes)
  : SM S Registered :=
  o ← channel uaid channel_id;
  match o with
  | Some sub => if decide (sub_vapid sub = vapid) then mret (Existing sub) else mret Conflict
  | None => sub ← create_subscription uaid channel_id vapid; mret (Created sub)
  end.

(** The bytes of a UUID from position [i] on. *)
Fixpoint uuid_bytes (i : N) (s : string) : bool :=
  match s with
  | EmptyString => true
  | String b s =>
      (if (i =? 8)%N || (i =? 13)%N || (i =? 18)%N || (i =? 23)%N then char_is 45 b
       else is_ascii_hexdigit b) && uuid_bytes (i + 1) s
  end.

(** [channel_id] *)
Definition channel_id (s : string) : option string :=
  if (str_len s =? 36)%N && uuid_bytes 0 s then Some (to_ascii_lowercase s) else None.

(** [vapid_key] *)
Definition vapid_key `{Base64} `{P256} (s : string) : option Bytes :=
  key ← b64_decode (trim_end_matches (char_is 61) s);
  if decide (length key = 65) then
    match key with
    | x04 :: _ => match public_from_sec1 key with Some _ => Some key | None => None end
    | _ => None
    end
  else None.

(** ** Normalization *)
Lemma str_len_map f s : str_len (str_map f s) = str_len s.
Proof. unfold str_len. f_equal. induction s as [|c s IH]; cbn; [done|]. by rewrite IH. Qed.

Lemma lower_cases c :
  ascii_lower c = c \/ (between 65 90 c = true /\ code (ascii_lower c) = code c + 32)%N.
Proof.
  unfold ascii_lower. destruct (between 65 90 c) eqn:Hb; [|by left]. right. split; [done|].
  apply code_ascii. unfold between in Hb. apply andb_true_iff in Hb as [_ Hb%N.leb_le]. lia.
Qed.

Lemma lower_idempotent c : ascii_lower (ascii_lower c) = ascii_lower c.
Proof.
  destruct (lower_cases c) as [Heq|[Hb Hc]]; [by rewrite !Heq|].
  unfold ascii_lower at 1. destruct (between 65 90 (ascii_lower c)) eqn:Hl; [|done].
  unfold between in *. rewrite !andb_true_iff, !N.leb_le in *. lia.
Qed.

Lemma lower_hexdigit c : is_ascii_hexdigit (ascii_lower c) = is_ascii_hexdigit c.
Proof.
  destruct (lower_cases c) as [->|[Hb Hc]]; [done|].
  apply eq_true_iff_eq. unfold is_ascii_hexdigit, is_ascii_digit, between in *. rewrite Hc.
  rewrite !orb_true_iff, !andb_true_iff, !N.leb_le in *. lia.
Qed.

Lemma lower_char n c : (65 <= n <= 90 -> False)%N -> (97 <= n <= 122 -> False)%N ->
  char_is n (ascii_lower c) = char_is n c.
Proof.
  intros H1 H2. destruct (lower_cases c) as [->|[Hb Hc]]; [done|].
  apply eq_true_iff_eq. unfold char_is, between in *. rewrite Hc.
  rewrite !andb_true_iff, !N.leb_le in Hb. rewrite !N.eqb_eq. lia.
Qed.

Lemma uuid_bytes_lower i s : uuid_bytes i (to_ascii_lowercase s) = uuid_bytes i s.
Proof.
  revert i. induction s as [|c s IH]; intros i; [done|]. cbn. unfold to_ascii_lowercase in IH.
  rewrite IH. f_equal. case_ifs; [apply lower_char; lia|apply lower_hexdigit].
Qed.

Lemma lowercase_idempotent s : to_ascii_lowercase (to_ascii_lowercase s) = to_ascii_lowercase s.
Proof.
  unfold to_ascii_lowercase. induction s as [|c s IH]; [done|]. cbn. by rewrite lower_idempotent, IH.
Qed.

(** channel ids are compared without regard to case: two spellings have
    the same normal form exactly when both are UUIDs that agree up to case,
    and the normal form of a normal form is itself. *)
Theorem channel_id_normal s t c :
  channel_id s = Some c ->
  (channel_id t = Some c <-> eq_ignore_ascii_case s t = true) /\ channel_id c = Some c.
Proof.
  unfold channel_id, eq_ignore_ascii_case. rewrite bool_decide_eq_true.
  destruct (_ && _) eqn:Hs; [|done]. intros [= <-]. apply andb_true_iff in Hs as [Hl Hu]. split.
  - split.
    + destruct (_ && _); [|done]. by intros [= ->].
    + intros Heq. assert (str_len t = str_len s) as ->.
      { unfold to_ascii_lowercase in Heq. by rewrite <- (str_len_map ascii_lower t), <- Heq, str_len_map. }
      rewrite <- (uuid_bytes_lower 0 t), <- Heq, uuid_bytes_lower, Hl, Hu. done.
  - unfold to_ascii_lowercase at 1. rewrite str_len_map, uuid_bytes_lower, Hl, Hu. cbn.
    by rewrite lowercase_idempotent.
Qed.

Lemma channel_id_normal_witness :
  channel_id "D9B74644-4F97-46AA-B8FA-9393985CD6CD" = Some "d9b74644-4f97-46aa-b8fa-9393985cd6cd".
Proof.
  apply (channel_id_normal "d9b74644-4f97-46aa-b8fa-9393985cd6cd"
    "D9B74644-4F97-46AA-B8FA-9393985CD6CD"); vm_compute; reflexivity.
Defined.
