(* ===== verification/Session.v ===== *)
(** * User agent sessions

    [crates/webpush-server/src/session.rs]: the handshake, the loop that
    serves one WebSocket, and what it does with each client message. The
    socket is a list of frames sent and an oracle that says which sends
    succeed; [serve] is given the outcomes of the loop's [select!], one
    [Step] at a time. The decoding derived by serde for [ClientMessage] is
    the parameter [from_value]. *)
From Stdlib Require Import Ascii.
From S2P Require Import Prelude RustStr External StoreTypes Store Hub Bridge Config App Notify Subscription Headers.

(** ** Client messages *)
Record AckUpdate : Type := {
  au_channel_id : string;
  au_version : string;
  au_code : option N;
}.
Inductive ClientMessage : Type :=
| Hello (uaid : option string)
| Register (channel_id : string) (key : option string)
| Unregister (channel_id : string)
| Ack (updates : list AckUpdate)
| Nack
| BroadcastSubscribe
| Ping.

(** [serde_json::from_value::<ClientMessage>] *)
Class ClientSerde : Type := { from_value : Value -> option ClientMessage }.

(** [parse] *)
Definition parse `{Json} `{ClientSerde} (text : string) : option ClientMessage :=
  value ← json_parse (as_bytes text);
  match value with
  | Object [] => Some Ping
  | _ => from_value value
  end.

(** ** The socket *)
Inductive Frame : Type :=
| FText (text : string)
| FBinary (data : Bytes)
| FPing
| FPong
| FClose (code : option (N * string)).
Record Socket : Type := { so_out : list Frame; so_ok : nat -> bool }.

(** [close_code] *)
Definition NORMAL : N := 1000.
Definition AWAY : N := 1001.
Definition PROTOCOL : N := 1002.
Definition UNSUPPORTED : N := 1003.
Definition AGAIN : N := 1013.

(** [TOUCH_INTERVAL] *)
Definition TOUCH_INTERVAL : Duration := from_secs (6 * 3600).

Inductive Step : Type :=
| SFrame (frame : option (result unit Frame))
| SEvent (event : option Event)
| STick
| SStop
| SExpired.

(** The session's own fields; its [app] is an argument of the operations. *)
Record Session : Type := {
  se_socket : Socket;
  se_uaid : string;
  se_stored : bool;
  se_sent : gset string;
  se_unacked : gset string;
  se_more : bool;
  se_heard : N;
  se_touched : N;
}.
Definition set_socket x s := {| se_socket := x; se_uaid := se_uaid s; se_stored := se_stored s;
  se_sent := se_sent s; se_unacked := se_unacked s; se_more := se_more s; se_heard := se_heard s;
  se_touched := se_touched s |}.
Definition set_stored x s := {| se_socket := se_socket s; se_uaid := se_uaid s; se_stored := x;
  se_sent := se_sent s; se_unacked := se_unacked s; se_more := se_more s; se_heard := se_heard s;
  se_touched := se_touched s |}.
Definition set_sent x s := {| se_socket := se_socket s; se_uaid := se_uaid s;
  se_stored := se_stored s; se_sent := x; se_unacked := se_unacked s; se_more := se_more s;
  se_heard := se_heard s; se_touched := se_touched s |}.
Definition set_unacked x s := {| se_socket := se_socket s; se_uaid := se_uaid s;
  se_stored := se_stored s; se_sent := se_sent s; se_unacked := x; se_more := se_more s;
  se_heard := se_heard s; se_touched := se_touched s |}.
Definition set_more x s := {| se_socket := se_socket s; se_uaid := se_uaid s;
  se_stored := se_stored s; se_sent := se_sent s; se_unacked := se_unacked s; se_more := x;
  se_heard := se_heard s; se_touched := se_touched s |}.
Definition set_heard x s := {| se_socket := se_socket s; se_uaid := se_uaid s;
  se_stored := se_stored s; se_sent := se_sent s; se_unacked := se_unacked s;
  se_more := se_more s; se_heard := x; se_touched := se_touched s |}.
Definition set_touched x s := {| se_socket := se_socket s; se_uaid := se_uaid s;
  se_stored := se_stored s; se_sent := se_sent s; se_unacked := se_unacked s;
  se_more := se_more s; se_heard := se_heard s; se_touched := x |}.

Section session.
Context {S BW F A : Type} `{St : Store S} `{MP : Mpsc} `{B64 : Base64} `{JS : Json} `{PK : P256}
  `{CS : ClientSerde}.
Abbreviation World := (World S BW).
Abbreviation App := (App BW F A).
Implicit Types (app : App).
Abbreviation SE X := (EST (World * Session) BoxError X) (only parsing).

(** The session's own state, and the rest of the world. *)
Definition self {X} (f : Session -> X) : SE X := fun '(w, s) => (Ok (f s), (w, s)).
Definition update (f : Session -> Session) : SE unit := fun '(w, s) => (Ok (), (w, f s)).
Definition in_world {X} (m : EST World BoxError X) : SE X := fun '(w, s) =>
  let '(r, w) := m w in (r, (w, s)).

(** [self.socket.send(frame).await?] *)
Definition send_frame (frame : Frame) : SE unit := fun '(w, s) =>
  let so := se_socket s in
  let s' := set_socket {| so_out := so_out so ++ [frame]; so_ok := so_ok so |} s in
  if so_ok so (length (so_out so)) then (Ok (), (w, s')) else (Err "send", (w, s')).

(** [Session::send_text] and [Session::send] *)
Definition send_text (text : string) : SE unit := send_frame (FText text).
Definition send (value : Value) : SE unit := send_text (json_print value).

(** [Session::close]: a failure to send is ignored. *)
Definition close (code : N) (reason : string) : SE unit := fun w =>
  let '(_, w') := send_frame (FClose (Some (code, reason))) w in (Ok (), w').

(** The [notification] message. *)
Definition notification_json (n : Notification) : Value :=
  let msg := json [("messageType", Str "notification"); ("channelID", Str (n_channel_id n));
                   ("version", Str (n_id n))] in
  let msg := match n_body n with
             | [] => msg
             | _ => value_set msg "data" (Str (b64_encode (n_body n)))
             end in
  match n_encoding n with
  | Some encoding => value_set msg "headers" (json [("encoding", Str encoding)])
  | None => msg
  end.

(** [Session::notify] *)
Definition notify (n : Notification) : SE bool :=
  sent ← self se_sent;
  if decide (n_id n ∈ sent) then mret false
  else
    _ ← update (fun s => set_sent ({[ n_id n ]} ∪ se_sent s) s);
    _ ← update (fun s => set_unacked ({[ n_id n ]} ∪ se_unacked s) s);
    _ ← send (notification_json n);
    mret true.

(** The loop of [next_batch]: how many of [pending] were sent now. *)
Fixpoint send_all (pending : list Message) : SE N :=
  match pending with
  | [] => mret 0%N
  | m :: pending =>
      b ← notify (notification_from m);
      n ← send_all pending;
      mret (if (b : bool) then n + 1 else n)%N
  end.

(** [Session::next_batch] *)
Definition next_batch app : SE unit :=
  let batch := backlog_batch (websocket (app_cfg app)) in
  uaid ← self se_uaid;
  now ← in_world (lift_st (with_env now_ms));
  pending ← in_world (with_store (pending uaid now batch));
  _ ← update (set_more (N.of_nat (length pending) =? batch)%N);
  new ← send_all pending;
  if (new =? 0)%N then update (set_more false) else mret ().

(** [Session::ack] *)
Definition ack app (u : AckUpdate) : SE unit :=
  _ ← update (fun s => set_unacked (se_unacked s ∖ {[ au_version u ]}) s);
  let status := match default 100%N (au_code u) with
                | 100 => Some 204
                | 101 | 102 => Some 410
                | _ => None
                end%N in
  match status with
  | None => mret ()
  | Some status =>
      match Subscription.channel_id (au_channel_id u) with
      | None => mret ()
      | Some ch =>
          if negb (is_id (au_version u)) then mret ()
          else
            uaid ← self se_uaid;
            o ← in_world (with_store (delete_message (au_version u) (Some (uaid, ch))));
            match o with
            | Some m => in_world (owe_receipt app m status)
            | None => mret ()
            end
      end
  end.

(** The loop over the updates of an [ack]. *)
Fixpoint ack_all app (updates : list AckUpdate) : SE unit :=
  match updates with
  | [] => mret ()
  | u :: updates => _ ← ack app u; ack_all app updates
  end.

(** The reply to [register] with [status]. *)
Definition register_reply (channel_id : string) (status : N) : Value :=
  json [("messageType", Str "register"); ("channelID", Str channel_id); ("status", Num_ status)].

(** [Session::register] *)
Definition register app (channel_id : string) (key : option string) : SE Value :=
  let reply := register_reply channel_id in
  match Subscription.channel_id channel_id with
  | None => mret (reply 400%N)
  | Some ch =>
      match vapid_key <$> key with
      | Some None => mret (reply 400%N)
      | v =>
          let vapid := match v with Some (Some k) => Some k | _ => None end in
          stored ← self se_stored;
          uaid ← self se_uaid;
          _ ← (if (stored : bool) then mret ()
               else
                 now ← in_world (lift_st (with_env now_ms));
                 _ ← in_world (with_store (create_user_agent
                       {| ua_uaid := uaid; ua_bridge := None; ua_last_seen := now |}));
                 update (set_stored true));
          r ← in_world (with_store (Subscription.register uaid ch vapid));
          match r with
          | Created sub | Existing sub =>
              mret (value_set (reply 200%N) "pushEndpoint"
                (Str (app_origin app +:+ "/push/" +:+ sub_push sub)))
          | Conflict => mret (reply 409%N)
          end
      end
  end.

(** [Session::handle] *)
Definition handle app (msg : ClientMessage) : SE unit :=
  match msg with
  | Hello _ => close PROTOCOL "duplicate hello"
  | Register channel_id key => reply ← register app channel_id key; send reply
  | Unregister channel_id =>
      stored ← self se_stored;
      uaid ← self se_uaid;
      _ ← (match Subscription.channel_id channel_id with
           | Some ch =>
               if (stored : bool) then
                 receipts ← in_world (with_store (delete_subscription uaid ch));
                 in_world (lift_st (notify_receipts app receipts))
               else mret ()
           | None => mret ()
           end);
      send (json [("messageType", Str "unregister"); ("channelID", Str channel_id);
                  ("status", Num_ 200)])
  | Ack updates =>
      _ ← ack_all app updates;
      unacked ← self se_unacked;
      more ← self se_more;
      if decide (unacked = ∅) then if (more : bool) then next_batch app else mret () else mret ()
  | Ping => send_text "{}"
  | Nack | BroadcastSubscribe => mret ()
  end.

(** One turn of the loop of [Session::serve]; [true] when it returns. *)
Definition serve_step app (step : Step) : SE bool :=
  let ws := websocket (app_cfg app) in
  match step with
  | SFrame None | SFrame (Some (Err _)) | SFrame (Some (Ok (FClose _))) => mret true
  | SFrame (Some (Ok frame)) =>
      now ← in_world (lift_st (with_env instant_now));
      _ ← update (set_heard now);
      match frame with
      | FText text =>
          match parse text with
          | Some msg => _ ← handle app msg; mret false
          | None => _ ← close PROTOCOL "invalid message"; mret true
          end
      | FBinary _ => _ ← close UNSUPPORTED "text only"; mret true
      | _ => mret false
      end
  | SEvent (Some (EvMessage n)) => _ ← notify n; mret false
  | SEvent (Some EvGone) => _ ← close NORMAL "replaced"; mret true
  | SEvent None => _ ← close AGAIN "try again"; mret true
  | SEvent (Some (EvReceipt _ _)) => mret false
  | STick =>
      now ← in_world (lift_st (with_env instant_now));
      heard ← self se_heard;
      if (ping_interval ws + pong_timeout ws <? now - heard)%N then
        _ ← close AWAY "idle"; mret true
      else
        _ ← send_frame FPing;
        stored ← self se_stored;
        if negb (stored : bool) then mret false
        else
          touched ← self se_touched;
          now ← in_world (lift_st (with_env instant_now));
          if negb (TOUCH_INTERVAL <? now - touched)%N then mret false
          else
            now ← in_world (lift_st (with_env instant_now));
            _ ← update (set_touched now);
            uaid ← self se_uaid;
            now ← in_world (lift_st (with_env now_ms));
            _ ← in_world (with_store (touch_user_agent uaid now));
            mret false
  | SStop => _ ← close AWAY "shutting down"; mret true
  | SExpired => _ ← close AWAY "session lifetime"; mret true
  end.

(** The loop, until it returns or the steps given run out. *)
Fixpoint serve_loop app (steps : list Step) : SE unit :=
  match steps with
  | [] => mret ()
  | step :: steps =>
      stop ← serve_step app step;
      if (stop : bool) then mret () else serve_loop app steps
  end.

(** [Session::serve] *)
Definition serve app (steps : list Step) : SE unit :=
  uaid ← self se_uaid;
  _ ← send (json [("messageType", Str "hello"); ("uaid", Str uaid); ("status", Num_ 200);
                  ("use_webpush", Bool true); ("broadcasts", Object [])]);
  stored ← self se_stored;
  _ ← (if (stored : bool) then next_batch app else mret ());
  serve_loop app steps.

(** [next_text] on the frames that arrive. *)
Fixpoint next_text (frames : list (result unit Frame)) : option ClientMessage :=
  match frames with
  | Ok (FText text) :: _ => parse text
  | Ok FPing :: frames | Ok FPong :: frames => next_text frames
  | _ => None
  end.

(** The part of [Session::run] before the session exists: find or name the
    user agent and become its listener. *)
Definition handshake app (uaid : option string) : EST World BoxError (Listener * string * bool * N) :=
  known ← (match uaid with
           | Some u => if is_uaid u then with_store (user_agent u) else mret None
           | None => mret None
           end);
  '(uaid, stored) ←
    (match known with
     | Some {| ua_uaid := u; ua_bridge := None |} =>
         now ← lift_st (with_env now_ms);
         _ ← with_store (touch_user_agent u now);
         mret (u, true)
     | _ => u ← lift_st (with_env new_uaid); mret (u, false)
     end);
  listener ← listen app (RUserAgent uaid);
  now ← lift_st (with_env instant_now);
  mret (listener, uaid, stored, now).

Definition new_session (socket : Socket) (uaid : string) (stored : bool) (now : N) : Session := {|
  se_socket := socket; se_uaid := uaid; se_stored := stored; se_sent := ∅; se_unacked := ∅;
  se_more := false; se_heard := now; se_touched := now;
|}.

(** [Session::run]. [first] holds the frames that arrive within
    [hello_timeout]; the listener is dropped when the session ends. *)
Definition run app (socket : Socket) (first : list (result unit Frame)) (steps : list Step)
  : ST World (result BoxError unit * Socket) := fun w =>
  match next_text first with
  | Some (Hello uaid) =>
      match handshake app uaid w with
      | (Err e, w) => ((Err e, socket), w)
      | (Ok (listener, uaid, stored, now), w) =>
          let '(r, (w, session)) := serve app steps (w, new_session socket uaid stored now) in
          let '(_, w) := drop_listener app listener w in
          ((r, se_socket session), w)
      end
  | _ =>
      ((Ok (), {| so_out := so_out socket ++ [FClose (Some (PROTOCOL, "expected hello"))];
                  so_ok := so_ok socket |}), w)
  end.
End session.
