(* ===== verification/Response.v ===== *)
(** * Responses and handler errors

    [crates/webpush-server/src/error.rs], and the responses handlers build
    with [axum]. A status code is its number. *)
From S2P Require Import Prelude RustStr External StoreTypes Store Hub Bridge Config App Headers.

Abbreviation StatusCode := N (only parsing).
Record Response : Type := {
  rs_status : StatusCode;
  rs_headers : list (string * string);
  rs_body : Bytes;
}.

(** What [axum] and [http] decide about response headers: which strings
    [HeaderValue::from_str] accepts, which [HeaderValue::try_from(String)]
    does, the body of the 500 sent when a header is refused, and the headers
    given to octet and JSON bodies by default. *)
Class ResponseHeaders : Type := {
  from_str_ok : string -> bool;
  try_from_ok : string -> bool;
  header_error : string -> Bytes;
  octet_headers : list (string * string);
  json_headers : list (string * string);
}.

(** [(status, AppendHeaders(out)).into_response()] with a body: the first
    header that is refused turns the response into a 500. *)
Definition into_response `{ResponseHeaders} (status : StatusCode) (out : list (string * string))
    (body : Bytes) : Response :=
  match filter (fun kv => try_from_ok kv.2 = false) out with
  | [] => {| rs_status := status; rs_headers := out; rs_body := body |}
  | kv :: _ => {| rs_status := 500; rs_headers := []; rs_body := header_error kv.2 |}
  end.

(** A response's default headers, overridden by the handler's. *)
Definition extend (base h : list (string * string)) : list (string * string) :=
  filter (fun kv => kv.1 ∉ h.*1) base ++ h.

(** [struct Error] *)
Record Error : Type := {
  e_status : StatusCode;
  e_header : option (string * string);
}.

(** [Error::unauthorized] *)
Definition unauthorized (scheme : string) : Error :=
  {| e_status := 401; e_header := Some ("www-authenticate", scheme) |}.

(** [Error::retry_after] *)
Definition retry_after (status : StatusCode) (after : option Duration) : Error :=
  {| e_status := status;
     e_header := (fun d => ("retry-after", to_string (N.max (as_secs d) 1))) <$> after |}.

(** [From<StatusCode>], [From<Invalid>] and [From<BoxError>] *)
Definition from_status (status : StatusCode) : Error :=
  {| e_status := status; e_header := None |}.
Definition from_invalid (_ : Invalid) : Error := from_status 400.
Definition from_box (_ : BoxError) : Error := from_status 500.

(** [Error::into_response] *)
Definition error_response (e : Error) : Response :=
  {| rs_status := e_status e;
     rs_headers := match e_header e with Some h => [h] | None => [] end;
     rs_body := [] |}.

(** ** Handlers

    [?] on a storage result, on an option, and on a parsed header. *)
Section handler.
Context {S BW : Type} `{MP : Mpsc}.
Abbreviation World := (World S BW).

Definition stored {X} (m : SM S X) : EST World Error X := fun w =>
  let '(r, w) := with_store m w in (map_err from_box r, w).
Definition boxed {X} (m : EST World BoxError X) : EST World Error X := fun w =>
  let '(r, w) := m w in (map_err from_box r, w).
Definition or_status {X} (status : StatusCode) (o : option X) : EST World Error X :=
  lift_result (ok_or (from_status status) o).
Definition header {X} (r : result Invalid X) : EST World Error X :=
  lift_result (map_err from_invalid r).
Definition refuse {X} (e : Error) : EST World Error X := throw e.
Definition env {X} (m : ST Env X) : EST World Error X := lift_st (with_env m).
End handler.
