(* ===== verification/Worlds.v ===== *)
(** * What a handler does to the world

    Lemmas for running computations over a [World]: inverting the monads'
    binds, and carrying the storage contract from a store operation to the
    handler that calls it. *)
From S2P Require Import Prelude RustStr External StoreTypes Store Hub Bridge Config App Notify Response.

(** ** Inverting binds *)
Lemma est_bind_Err {W E X Y} (m : EST W E X) (f : X -> EST W E Y) w e w' :
  (m ≫= f) w = (Err e, w') ->
  m w = (Err e, w') \/ exists x w1, m w = (Ok x, w1) /\ f x w1 = (Err e, w').
Proof. unfold mbind, est_bind. destruct (m w) as [[x|e'] w1]; [eauto|]. intros [= -> ->]. auto. Qed.
Lemma est_bind_cases {W E X Y} (m : EST W E X) (f : X -> EST W E Y) w r w' :
  (m ≫= f) w = (r, w') ->
  (exists x w1, m w = (Ok x, w1) /\ f x w1 = (r, w')) \/ (exists e, m w = (Err e, w') /\ r = Err e).
Proof. unfold mbind, est_bind. destruct (m w) as [[x|e'] w1]; [eauto|]. intros [= <- <-]. eauto. Qed.
Lemma st_bind_eq {W X Y} (m : ST W X) (f : X -> ST W Y) w y w' :
  (m ≫= f) w = (y, w') -> exists x w1, m w = (x, w1) /\ f x w1 = (y, w').
Proof. unfold mbind, st_bind. destruct (m w) as [x w1]. eauto. Qed.
Lemma lift_st_Ok {W E X} (m : ST W X) w (r : result E X) w' :
  lift_st m w = (r, w') -> exists x, m w = (x, w') /\ r = Ok x.
Proof. unfold lift_st. destruct (m w) as [x w1]. intros [= <- <-]. eauto. Qed.

(** ** Running handlers *)
Section worlds.
Context {S BW : Type} `{St : Store S} `{MP : Mpsc} `{B64 : Base64}.
Context (view : S -> AStore) (inv : Env * S -> Prop) (laws : StoreLaws view inv).
Abbreviation World := (World S BW).
Implicit Types (w : World).

Definition winv w : Prop := inv (w_env w, w_store w).
Definition wview w : AStore := view (w_store w).

(** [w'] differs from [w] in the store and the environment only. *)
Record same_rest w w' : Prop := {
  sr_hub : w_hub w' = w_hub w;
  sr_chans : w_chans w' = w_chans w;
  sr_tasks : w_tasks w' = w_tasks w;
  sr_http : w_http w' = w_http w;
  sr_posts : w_posts w' = w_posts w;
  sr_bridges : w_bridges w' = w_bridges w;
}.
#[export] Instance same_rest_preorder : PreOrder same_rest.
Proof. split; [intros ?; by split|]. intros ? ? ? [] []. split; congruence. Qed.

(** The run from [w] to [w'] keeps the store's invariant, moves the clocks
    on, numbers no receipt and changes the abstract store by [R]. *)
Definition evolves (R : AStore -> AStore -> Prop) w w' : Prop :=
  winv w' /\ env_extends (w_env w) (w_env w') /\ quiet (w_env w) (w_env w') /\
  R (wview w) (wview w').

Lemma evolves_refl (R : AStore -> AStore -> Prop) `{!Reflexive R} w : winv w -> evolves R w w.
Proof. intros ?. split_and!; [done|reflexivity|done|reflexivity]. Qed.
Lemma evolves_trans (R1 R2 R : AStore -> AStore -> Prop) w1 w2 w3 :
  (forall a1 a2 a3, R1 a1 a2 -> R2 a2 a3 -> R a1 a3) ->
  evolves R1 w1 w2 -> evolves R2 w2 w3 -> evolves R w1 w3.
Proof.
  intros HR (? & ? & Hq1 & ?) (? & ? & Hq2 & ?). split_and!; [done|by etrans| |by eapply HR].
  unfold quiet in *. congruence.
Qed.
Lemma evolves_impl (R R' : AStore -> AStore -> Prop) w w' :
  (forall a a', R a a' -> R' a a') -> evolves R w w' -> evolves R' w w'.
Proof. intros HR (? & ? & ? & ?). split_and!; auto. Qed.

(** ** Store operations *)
Lemma with_store_inv {X} (m : SM S X) w r w' :
  with_store m w = (r, w') ->
  m (w_env w, w_store w) = (r, (w_env w', w_store w')) /\ same_rest w w'.
Proof.
  unfold with_store. destruct (m (w_env w, w_store w)) as [r0 [e s]]. intros [= <- <-]. by split.
Qed.
Lemma stored_inv {X} (m : SM S X) w r w' :
  stored m w = (r, w') -> exists r0, with_store m w = (r0, w') /\ r = map_err from_box r0.
Proof. unfold stored. destruct (with_store m w). intros [= <- <-]. eauto. Qed.
Lemma stored_Ok {X} (m : SM S X) w x w' :
  stored m w = (Ok x, w') -> with_store m w = (Ok x, w').
Proof. intros ([] & ? & ?)%stored_inv; by simplify_eq/=. Qed.
Lemma stored_Err {X} (m : SM S X) w e w' :
  stored m w = (Err e, w') -> e = from_status 500.
Proof. intros ([] & ? & ?)%stored_inv; by simplify_eq/=. Qed.

Lemma lift_result_inv {W E X} (r r' : result E X) (w w' : W) :
  lift_result r w = (r', w') -> r' = r /\ w' = w.
Proof. by intros [= <- <-]. Qed.

Lemma with_store_meets {X} (m : SM S X) pre post w x w' :
  meets view inv m pre post -> winv w -> pre (w_env w) (wview w) ->
  with_store m w = (Ok x, w') ->
  winv w' /\ env_extends (w_env w) (w_env w') /\ same_rest w w' /\
  post (w_env w) (wview w) x (w_env w') (wview w').
Proof.
  intros Hm Hw Hp [Hr Hs]%with_store_inv. destruct (Hm _ _ _ _ _ Hw Hp Hr) as (? & ? & ?).
  by split_and!.
Qed.
Lemma with_store_reads {X} (m : SM S X) f w x w' :
  reads view inv m f -> winv w -> with_store m w = (Ok x, w') ->
  evolves eq w w' /\ same_rest w w' /\ x = f (wview w).
Proof.
  intros Hm Hw Hr. destruct (with_store_meets _ _ _ _ _ _ Hm Hw I Hr) as (? & ? & ? & ? & ? & ?).
  by split_and!.
Qed.
Lemma with_store_writes {X} (m : SM S X) (pre : AStore -> Prop) f g w x w' :
  writes view inv m pre f g -> winv w -> pre (wview w) -> with_store m w = (Ok x, w') ->
  evolves (fun a a' => a' = f a) w w' /\ same_rest w w' /\ x = g (wview w).
Proof.
  intros Hm Hw Hp Hr. destruct (with_store_meets _ _ _ _ _ _ Hm Hw Hp Hr) as (? & ? & ? & ? & ? & ?).
  by split_and!.
Qed.
Lemma with_store_faults {X} (m : SM S X) f w e w' :
  on_error view inv m f -> winv w -> with_store m w = (Err e, w') ->
  evolves (fun a a' => a' = a \/ a' = f a) w w' /\ same_rest w w'.
Proof.
  intros Hm Hw [Hr Hs]%with_store_inv. by destruct (Hm _ _ _ _ _ Hw Hr) as (? & ? & ? & ?).
Qed.

(** Reading the clocks and drawing ids. *)
Lemma with_env_evolves {X} (m : ST Env X) w x w' :
  (forall e, env_extends e (m e).2 /\ env_last_seq (m e).2 = env_last_seq e) ->
  winv w -> with_env m w = (x, w') ->
  evolves eq w w' /\ same_rest w w' /\ x = (m (w_env w)).1.
Proof.
  intros He Hw. unfold with_env. destruct (m (w_env w)) as [x0 e] eqn:Hm. intros [= <- <-].
  specialize (He (w_env w)). rewrite Hm in He. cbn in *. destruct He.
  split; [split; [by eapply (law_env _ _ laws)|by split_and!]|]. split; [by split|done].
Qed.

(** A read inside a handler: it answers 500, or returns what is stored. *)
Lemma stored_reads {X} (m : SM S X) f w r w' :
  reads view inv m f -> winv w -> stored m w = (r, w') ->
  r = Err (from_status 500) \/
  (r = Ok (f (wview w)) /\ evolves eq w w' /\ same_rest w w').
Proof.
  intros Hm Hw Hr. destruct r as [x|e].
  - apply stored_Ok in Hr. destruct (with_store_reads _ _ _ _ _ Hm Hw Hr) as (? & ? & ->). auto.
  - left. by rewrite (stored_Err _ _ _ _ Hr).
Qed.

Lemma env_Ok {X} (m : ST Env X) w (r : result Error X) w' :
  (forall e, env_extends e (m e).2 /\ env_last_seq (m e).2 = env_last_seq e) ->
  winv w -> env m w = (r, w') ->
  r = Ok (m (w_env w)).1 /\ evolves eq w w' /\ same_rest w w'.
Proof.
  intros He Hw (x & Hx & ->)%lift_st_Ok.
  destruct (with_env_evolves _ _ _ _ He Hw Hx) as (? & ? & ->). done.
Qed.
End worlds.
