(* ===== verification/Delivery.v ===== *)
(** * What delivering an event changes

    The effect of [notify.rs] on the store, whatever the hub, the other nodes
    and the tasks do: delivery never touches anything but stale routes. *)
From S2P Require Import Prelude RustStr External StoreTypes Store Hub Bridge Config App Notify Response Worlds.

(** Some routes were removed, and nothing else changed. *)
Definition routes_only (a a' : AStore) : Prop :=
  a' = set_a_routes (a_routes a') a /\ a_routes a' ⊆ a_routes a.
#[export] Instance routes_only_preorder : PreOrder routes_only.
Proof.
  split; [intros []; by split|]. intros a1 a2 a3 [-> ?] [-> ?]. split; [done|]. cbn in *. by etrans.
Qed.

Lemma routes_only_clear to node a : routes_only a (a_clear_route to node a).
Proof.
  unfold a_clear_route. case_decide; [|reflexivity]. split; [done|]. cbn. apply delete_subseteq.
Qed.

(** Everything but the routes. *)
Lemma routes_only_fields a a' : routes_only a a' ->
  a_uas a' = a_uas a /\ a_subs a' = a_subs a /\ a_msgs a' = a_msgs a /\ a_queues a' = a_queues a.
Proof. by intros [-> _]. Qed.

Section delivery.
Context {S BW F A : Type} `{St : Store S} `{MP : Mpsc} `{B64 : Base64}.
Context (view : S -> AStore) (inv : Env * S -> Prop).
Context (laws : StoreLaws view inv) (faults : FaultLaws view inv).
Abbreviation World := (World S BW).
Abbreviation App := (App BW F A).
Abbreviation winv := (winv inv).
Abbreviation wview := (wview view).
Abbreviation evolves := (evolves view inv).
Implicit Types (w : World) (app : App).

(** Nothing but hub, channels, tasks, posts and the store. *)
Lemma evolves_same_store R w w' : reflexive _ R -> winv w ->
  w_env w' = w_env w -> w_store w' = w_store w -> evolves R w w'.
Proof.
  intros HR Hw He Hs. unfold evolves, Worlds.evolves, Worlds.winv, Worlds.wview in *.
  rewrite He, Hs. by split_and!.
Qed.

Lemma with_hub_store {X} (m : ST (Hub * Chans) X) w x w' :
  with_hub m w = (x, w') -> w_env w' = w_env w /\ w_store w' = w_store w /\
  w_tasks w' = w_tasks w /\ w_http w' = w_http w /\ w_posts w' = w_posts w /\
  w_bridges w' = w_bridges w /\ m (w_hub w, w_chans w) = (x, (w_hub w', w_chans w')).
Proof.
  unfold with_hub. destruct (m (w_hub w, w_chans w)) as [x0 [h c]]. by intros [= <- <-].
Qed.

Lemma clear_stale_evolves to node w u w' :
  winv w -> clear_stale to node w = (u, w') ->
  evolves (fun a a' => a' = a \/ a' = a_clear_route to node a) w w' /\ same_rest w w'.
Proof.
  intros Hw (r & w1 & Hr & [= _ <-])%st_bind_eq. unfold attempt in Hr. destruct r as [b|e].
  - destruct (with_store_writes _ _ _ _ _ _ _ _ _ (law_clear_route _ _ laws to node) Hw I Hr)
      as (He & ? & _). split; [|done]. eapply evolves_impl; [|exact He]. intros a a' ->. by right.
  - eapply with_store_faults; [apply (fault_clear_route _ _ faults)|done..].
Qed.

(** Requests to other nodes were made, and that is all. *)
Lemma post_store url token body w o w' : post url token body w = (o, w') ->
  w_env w' = w_env w /\ w_store w' = w_store w /\ w_hub w' = w_hub w /\ w_chans w' = w_chans w /\
  w_tasks w' = w_tasks w /\ w_bridges w' = w_bridges w /\ w_http w' = w_http w /\
  w_posts w' = w_posts w ++ [(url, token, body)] /\ o = w_http w (length (w_posts w)).
Proof. unfold post. by intros [= <- <-]. Qed.

Lemma stale_routes_only to node w w' :
  evolves (fun a a' => a' = a \/ a' = a_clear_route to node a) w w' -> evolves routes_only w w'.
Proof.
  apply evolves_impl. intros a a' [->| ->]; [reflexivity|]. apply routes_only_clear.
Qed.

Lemma forward_evolves app node to event w u w' :
  winv w -> forward app node to event w = (u, w') -> evolves routes_only w w'.
Proof.
  intros Hw Hf. unfold forward in Hf.
  assert (Hrefl : reflexive _ routes_only) by (intros ?; reflexivity).
  destruct (app_cluster app) as [c|]; [|injection Hf as _ <-; by apply evolves_refl; [apply _|]].
  apply st_bind_eq in Hf as (o & w1 & (He & Hs & _)%post_store & Hf).
  assert (H1 : evolves routes_only w w1) by (by apply evolves_same_store).
  assert (Hstale : clear_stale to node w1 = (u, w') -> evolves routes_only w w').
  { intros Hc. destruct (clear_stale_evolves _ _ _ _ _ (proj1 H1) Hc) as [Hc' _].
    eapply evolves_trans; [|exact H1|eapply stale_routes_only, Hc']. intros ???. apply transitivity. }
  repeat case_match; try (by injection Hf as _ <-); auto.
Qed.

(** Delivering an event removes at most stale routes. *)
Lemma notify_evolves app to event w u w' :
  winv w -> notify app to event w = (u, w') -> evolves routes_only w w'.
Proof.
  intros Hw (n & w1 & Hn & Hf)%st_bind_eq.
  assert (Hrefl : reflexive _ routes_only) by (intros ?; reflexivity).
  apply with_hub_store in Hn as (He & Hs & _).
  assert (H1 : evolves routes_only w w1) by (by apply evolves_same_store).
  assert (Htrans : forall a1 a2 a3, routes_only a1 a2 -> routes_only a2 a3 -> routes_only a1 a3)
    by (intros ???; apply transitivity).
  destruct n; [by injection Hf as _ <-..|].
  destruct (app_cluster app) as [c|]; [|by injection Hf as _ <-].
  apply st_bind_eq in Hf as (r & w2 & Hr & Hf). unfold attempt in Hr.
  assert (H2 : evolves routes_only w w2).
  { eapply evolves_trans; [done|exact H1|]. destruct r.
    - destruct (with_store_reads _ _ _ _ _ _ _ (law_route _ _ laws to) (proj1 H1) Hr) as (Hv & _).
      revert Hv. apply evolves_impl. intros ? ? ->. reflexivity.
    - destruct (with_store_faults _ _ _ _ _ _ _ (fault_route _ _ faults to) (proj1 H1) Hr) as (Hv & _).
      revert Hv. apply evolves_impl. intros ? ? [->| ->]; reflexivity. }
  destruct r as [[node|]|]; [|by injection Hf as _ <-..].
  case_decide.
  - destruct (clear_stale_evolves _ _ _ _ _ (proj1 H2) Hf) as [Hc _].
    eapply evolves_trans; [done|exact H2|eapply stale_routes_only, Hc].
  - eapply evolves_trans; [done|exact H2|]. by eapply forward_evolves; [apply H2|].
Qed.

Lemma notify_receipts_evolves app rs : forall w u w',
  winv w -> notify_receipts app rs w = (u, w') -> evolves routes_only w w'.
Proof.
  induction rs as [|[seq r] rs IH]; intros w u w' Hw; cbn.
  - intros [= _ <-]. by apply evolves_refl; [apply _|].
  - intros (? & w1 & H1%notify_evolves & Hr)%st_bind_eq; [|done].
    eapply evolves_trans; [|exact H1|eapply IH; [apply H1|done]]. intros ???. apply transitivity.
Qed.

Lemma drop_listener_evolves app l w u w' :
  winv w -> drop_listener app l w = (u, w') -> evolves eq w w'.
Proof.
  intros Hw (was & w1 & (He1 & Hs1 & _)%with_hub_store & Hd)%st_bind_eq.
  apply st_bind_eq in Hd as (? & w2 & H2 & H3). unfold with_chans in H3.
  apply with_hub_store in H3 as (He3 & Hs3 & _).
  assert (w_env w2 = w_env w1 /\ w_store w2 = w_store w1) as [? ?].
  { destruct was; [destruct (app_cluster app)|]; by injection H2 as _ <-. }
  apply evolves_same_store; [by intros ?|done|congruence|congruence].
Qed.
End delivery.
