(* ===== verification/Demo.v ===== *)
(** * A small service

    Concrete instances of every interface, a configuration and a world with a
    few user agents, subscriptions and messages: what the concrete examples
    of the server's theorems run on. *)
From Stdlib Require Import Ascii.
From S2P Require Import Prelude RustStr External StoreTypes Store Instances MemoryStore MemoryProofs MemoryRuns Hub HubTheorems Bridge Config App Notify Response Worlds.

#[export] Existing Instance default_order.

(** ** Instances *)

(** A printer without escapes, and a parser that knows the empty object. *)
Fixpoint print_json (v : Value) : string :=
  let quote := String (ascii_of_N 34) EmptyString in
  match v with
  | Null => "null"
  | Bool b => if b then "true" else "false"
  | Num (PosInt n) => to_string n
  | Num (NegInt n) => "-" +:+ to_string (Z.to_N (- n))
  | Num (Float t) => t
  | Str s => quote +:+ s +:+ quote
  | Array l => "[" +:+ str_join "," (print_json <$> l) +:+ "]"
  | Object l =>
      "{" +:+ str_join "," ((fun kv => quote +:+ kv.1 +:+ quote +:+ ":" +:+ print_json kv.2) <$> l)
          +:+ "}"
  end.
#[export] Instance toy_json : Json := {|
  json_parse := fun b => if decide (b = as_bytes "{}") then Some (Object []) else None;
  json_print := print_json;
|}.
#[export] Instance toy_date : HttpDate := {| fmt_http_date := to_string |}.
#[export] Instance toy_responses : ResponseHeaders := {|
  from_str_ok := str_all visible_ascii;
  try_from_ok := str_all visible_ascii;
  header_error := as_bytes;
  octet_headers := [("content-type", "application/octet-stream")];
  json_headers := [("content-type", "application/json")];
|}.
(** A keyed checksum in the place of HMAC. *)
#[export] Instance toy_hmac : Hmac := {|
  hmac_sha256 := fun key msg => pad 32 (pad 16 key ++ msg);
  sha256 := pad 32;
|}.

(** A platform that records what it takes, and knows one device. *)
Definition toy_bridge : SharedBridge (list (Address * BridgeMessage)) := {|
  b_name := "fcm";
  b_has_app := fun app => bool_decide (app = "app");
  b_send := fun to m sent =>
    if decide (ad_token to = "device") then (Ok (), sent ++ [(to, m)]) else (Err Bridge.TokenGone, sent);
|}.

(** ** Configuration *)
Definition demo_config (cluster : option Cluster) : Config unit unit := {|
  role := All;
  origin := "https://push.example";
  public := default_public;
  internal := None;
  Config.cluster := cluster;
  push := default_push;
  websocket := default_websocket;
  receipts := default_receipts;
  user_agents := default_user_agents;
  cors := {| allowed_origins := [] |};
  registration := {| secret_keys := ["0123456789abcdef0123456789abcdef"] |};
  bridges := {| fcm := None; apns := None |};
  store := MemoryStoreConfig;
  log := default_log;
  shutdown := default_shutdown;
|}.
Definition demo_cluster : Cluster :=
  {| node_url := "http://a:9000/"; token := "secret"; notify_timeout := from_secs 5 |}.

Definition demo_app (cluster : option Cluster) : App (list (Address * BridgeMessage)) unit unit := {|
  app_cfg := demo_config cluster;
  app_cluster := new_cluster_link <$> cluster;
  app_bridges := {[ "fcm" := toy_bridge ]};
  app_secrets := new_secrets ["0123456789abcdef0123456789abcdef"];
|}.

(** ** The world *)
Definition session_ua : string := "00000000000000000000000000000001".
Definition bridged_ua : string := "00000000000000000000000000000002".
Definition demo_channel : string := "11111111-2222-3333-4444-555555555555".
Definition demo_msg (id : string) (rsub : option string) : Message := {|
  m_id := id; m_uaid := session_ua; m_channel_id := demo_channel;
  m_push := "AAECAwQFBgcICQoLDA0ODw"; m_topic := None;
  m_body := [x61]; m_ctype := None; m_cenc := Some "aes128gcm"; m_ttl := 60;
  m_urgency := Normal; m_accepted := 1000; m_expiry := 61000; m_rsub := rsub;
|}.
Definition demo_id : string := "mmmmmmmmmmmmmmmmmmmmmm".

(** Both user agents subscribe; an application server creates a receipt
    subscription and sends a message that asks for a receipt; the receipt of an
    earlier message waits in the queue. *)
Definition session_push : string := "AAECAwQFBgcICQoLDA0ODw".
Definition bridged_push : string := "EBESExQVFhcYGRobHB0eHw".
Definition demo_rsub : string := "ICEiIyQlJicoKSorLC0uLw".
Definition demo_receipt : Receipt :=
  {| r_rsub := demo_rsub; r_msg_id := "nnnnnnnnnnnnnnnnnnnnnn"; r_status := 204 |}.
Definition demo_ops : list Op :=
  [OpCreateUserAgent {| ua_uaid := session_ua; ua_bridge := None; ua_last_seen := 5 |};
   OpCreateUserAgent {| ua_uaid := bridged_ua; ua_bridge := Some {| ba_bridge := "fcm";
     ba_app_id := "app"; ba_token := "device" |}; ua_last_seen := 5 |};
   OpCreateSubscription session_ua demo_channel None;
   OpCreateSubscription bridged_ua demo_channel None;
   OpCreateReceiptSub;
   OpInsertMessage (demo_msg demo_id (Some demo_rsub));
   OpSetRoute (RUserAgent session_ua) "http://b:9000";
   OpEnqueueReceipt demo_receipt].

Definition run_ops (ops : list Op) (w : Env * State) : Env * State :=
  foldl (fun w op => (exec op w).2) w ops.
Definition demo_es (n : nat) : Env * State := run_ops (take n demo_ops) (demo_env 1000, new).

Lemma demo_es_step n op :
  demo_ops !! n = Some op -> allowed op (demo_es n) -> (exec op (demo_es n)).1 = Ok () ->
  reachable (demo_es n) -> reachable (demo_es (S n)).
Proof.
  intros Hop Ha He Hr. apply (reachable_step (Some op) (demo_es n)); [done|]. apply step_op; [done|].
  unfold demo_es at 2. erewrite take_S_r by done. unfold run_ops. rewrite foldl_snoc.
  fold (run_ops (take n demo_ops) (demo_env 1000, new)). fold (demo_es n).
  destruct (exec op (demo_es n)). cbn in *. by subst.
Qed.

Lemma demo_subscription_allowed w u c v :
  channels w.2 !! (u, c) = None ->
  bool_decide (map_Forall (fun _ s => sub_push s <> (new_id w.1).1) (channels w.2)) = true ->
  allowed (OpCreateSubscription u c v) w.
Proof. intros ? Hall%bool_decide_eq_true. by split. Qed.

Ltac demo_step tac := eapply demo_es_step; [reflexivity|tac|vm_compute; reflexivity|].
Lemma demo_es_reachable : reachable (demo_es 8).
Proof.
  demo_step ltac:(apply (demo_seq_room 1000); [done|done|done|vm_compute; reflexivity]).
  demo_step ltac:(done). demo_step ltac:(vm_compute; reflexivity).
  demo_step ltac:(vm_compute; reflexivity).
  do 2 demo_step ltac:(apply demo_subscription_allowed; vm_compute; reflexivity).
  do 2 demo_step ltac:(done). apply reachable_new.
Qed.

(** From here on the generator only gives 255: ids drawn now are new. *)
Definition later_env (e : Env) : Env := {|
  env_clock := env_clock e; env_ticks := env_ticks e;
  env_random := fun _ => xff; env_drawn := env_drawn e;
  env_instant := env_instant e; env_instants := env_instants e;
  env_last_seq := env_last_seq e;
|}.

Definition demo_world : World State (list (Address * BridgeMessage)) := {|
  w_env := later_env (demo_es 8).1;
  w_store := (demo_es 8).2;
  w_hub := new_hub 8;
  w_chans := (∅, 0%N);
  w_tasks := [];
  w_http := fun _ => HttpStatus 200;
  w_posts := [];
  w_bridges := [];
|}.

Lemma demo_winv : winv inv demo_world.
Proof.
  unfold winv, demo_world; cbn [w_env w_store]. apply (inv_env (demo_es 8).1); [done|].
  rewrite <- surjective_pairing. apply inv_reachable, demo_es_reachable.
Qed.

(** Its messages and receipt queues use the ids above only. *)
Lemma demo_ids :
  (forall id m, messages (w_store demo_world) !! id = Some m -> id = demo_id) /\
  (forall id q, MemoryStore.receipts (w_store demo_world) !! id = Some q -> id = demo_rsub).
Proof.
  split; [change (map_Forall (fun id _ => id = demo_id) (messages (w_store demo_world)))
         |change (map_Forall (fun id _ => id = demo_rsub) (MemoryStore.receipts (w_store demo_world)))];
    apply (bool_decide_unpack _); vm_compute; exact I.
Qed.

Lemma demo_new_id e : env_extends (w_env demo_world) e ->
  (new_id e).1 = "_____________________w".
Proof.
  intros He. change ((new_id e).1) with (b64_encode (env_random e <$> seq (env_drawn e) 16)).
  rewrite (ext_random _ _ He).
  reflexivity.
Qed.

Lemma demo_pushes k sub : MemoryStore.channels (w_store demo_world) !! k = Some sub ->
  sub_push sub <> "_____________________w".
Proof.
  assert (Hall : map_Forall (fun _ sub => sub_push sub <> "_____________________w")
    (MemoryStore.channels (w_store demo_world))) by (apply (bool_decide_unpack _); vm_compute; exact I).
  apply Hall.
Qed.

(** The world is only ever computed with on purpose. *)
#[global] Opaque demo_es.
