(* ===== verification/PlatformDemo.v ===== *)
(** * Two small platforms

    Concrete instances of what the bridges and the token source call, and an
    application of each platform: what the concrete examples of the bridges'
    theorems run on. *)
From S2P Require Import Prelude RustStr External StoreTypes Instances Demo Bridge Client GcpAuth Fcm Apns.

(** The status without its reason. *)
#[export] Instance toy_status : StatusText := {| status_text := to_string |}.
#[export] Instance toy_client : ClientBuilder := {| build_client := fun _ _ => Ok () |}.

(** A key is its text, and signs by prepending itself. *)
#[export] Instance toy_rsa : Rsa := {|
  RsaKeyPair := Bytes;
  pkcs8_from_pem := fun s => Ok (as_bytes s);
  rsa_from_pkcs8 := fun b => if decide (b = []) then Err "empty" else Ok b;
  rsa_sign := fun k msg => Some (k ++ msg);
|}.
#[export] Instance toy_host : Host := {|
  read_to_string := fun p => if decide (p = "/etc/key.json") then Ok "key" else Err "no such file";
  path_exists := fun _ => false;
  env_var := fun _ => None;
  windows := false;
|}.
(** One service account key, and token responses that are the token. *)
#[export] Instance toy_gcp : GcpSerde := {|
  credentials_from_str := fun s =>
    if decide (s = "key") then
      Ok {| kind := "service_account"; f_client_email := Some "sa@example"; f_private_key := Some "k";
            f_token_uri := None; f_project_id := Some "project"; f_client_id := None;
            f_client_secret := None; f_refresh_token := None; f_quota_project_id := None |}
    else Err "not JSON";
  token_response := fun b => if decide (b = []) then Err "EOF" else Ok (of_bytes b, 3600%N);
|}.
#[export] Instance toy_fcm_body : FcmSerde := {|
  fcm_body := fun b => if decide (b = []) then None else Some ("", [Some (of_bytes b)]);
|}.
#[export] Instance toy_apns : ApnsKeys := {|
  EcdsaKeyPair := Bytes;
  from_pem_file := fun p => if decide (p = "/etc/key.p8") then Ok [x01] else Err "no such file";
  ecdsa_from_pkcs8 := fun b => Ok b;
  ecdsa_sign := fun k seed msg => Ok (k ++ seed ++ msg);
  apns_reason := fun b => if decide (b = []) then None else Some (of_bytes b);
|}.

(** A network whose answers are the list given. *)
Definition demo_net (replies : list (result BoxError Reply)) : Net := {|
  net_env := demo_env 1000000;
  net_sent := [];
  net_reply := fun i => default (Err "closed") (replies !! i);
|}.
Definition demo_reply (status : N) (body : string) : result BoxError Reply :=
  Ok {| rp_status := status; rp_headers := []; rp_body := Some (as_bytes body) |}.

Definition demo_fcm : result BoxError Fcm :=
  Fcm.new {| Fcm.cfg_apps := {[ "app" := {| credentials_file := Some "/etc/key.json";
                                           cfg_project_id := None; Fcm.cfg_endpoint := None |} ]};
             Fcm.cfg_timeout := Fcm.default_timeout |}.
Definition demo_apns : result BoxError Apns :=
  Apns.new {| Apns.cfg_apps := {[ "app" := {| key_file := "/etc/key.p8"; cfg_key_id := "kid";
                cfg_team_id := "team"; cfg_topic := "topic"; environment := Production;
                Apns.cfg_endpoint := None; cfg_push_type := Alert;
                cfg_aps := Some (json []) |} ]};
              Apns.cfg_timeout := Apns.default_timeout |}.

Definition demo_message : BridgeMessage := {|
  bn_channel_id := demo_channel; bn_version := demo_id; bn_data := Some [x61];
  bn_encoding := Some "aes128gcm"; bn_ttl := from_secs 60; bn_priority := PHigh;
|}.
Definition demo_address (token : string) : Address := {| ad_app_id := "app"; ad_token := token |}.

(** What the platforms are asked, for a push that the device is gone for. *)
Example fcm_asked :
  match demo_fcm with
  | Ok f =>
      let '(r, w) := Fcm.deliver f (demo_address "device") demo_message
        (Build_Caches (demo_net [demo_reply 200 "tok"; demo_reply 404 ""]) ∅) in
      (r, (fun q => (rq_url q, rq_headers q)) <$> net_sent (bw_net w)) =
      (Err TokenGone,
       [("https://oauth2.googleapis.com/token", []);
        ("https://fcm.googleapis.com/v1/projects/project/messages:send",
         [("authorization", "Bearer tok"); ("content-type", "application/json")])])
  | Err _ => False
  end.
Proof. vm_compute. reflexivity. Qed.

Example apns_asked :
  match demo_apns with
  | Ok a =>
      let '(r, w) := Apns.deliver a (demo_address "0abc") demo_message
        (Build_Caches (demo_net [demo_reply 400 "BadDeviceToken"]) ∅) in
      (r, (fun q => (rq_url q, drop 1 (rq_headers q))) <$> net_sent (bw_net w)) =
      (Err TokenGone,
       [("https://api.push.apple.com/3/device/0abc",
         [("apns-topic", "topic"); ("apns-push-type", "alert"); ("apns-priority", "10");
          ("apns-expiration", "1060"); ("content-type", "application/json")])])
  | Err _ => False
  end.
Proof. vm_compute. reflexivity. Qed.

(** A second push reuses both tokens. *)
Example tokens_reused :
  match demo_fcm, demo_apns with
  | Ok f, Ok a =>
      let w := Build_Caches (demo_net [demo_reply 200 "tok"; demo_reply 200 ""; demo_reply 200 ""]) ∅ in
      let w := (Fcm.deliver f (demo_address "device") demo_message w).2 in
      let w := (Fcm.deliver f (demo_address "device") demo_message w).2 in
      let v := Build_Caches (demo_net [demo_reply 200 ""; demo_reply 200 ""]) ∅ in
      let v := (Apns.deliver a (demo_address "0abc") demo_message v).2 in
      let v := (Apns.deliver a (demo_address "0abc") demo_message v).2 in
      length (net_sent (bw_net w)) = 3 /\
      match rq_headers <$> net_sent (bw_net v) with
      | [(n, t) :: _; (n', t') :: _] => (n, t) = (n', t')
      | _ => False
      end
  | _, _ => False
  end.
Proof. vm_compute. done. Qed.
