(* ===== verification/GcpTheorems.v ===== *)
(** * Tokens are reused while they are good, and fetched once when not

    The theorems about [GcpAuth.v]. *)
From S2P Require Import Prelude RustStr External StoreTypes Bridge Instances Demo PlatformDemo Client GcpAuth.

Section auth.
Context `{HT : Http} `{B64 : Base64} `{JS : Json} `{RSA : Rsa} `{HO : Host} `{GS : GcpSerde}
  `{SX : StatusText}.
Implicit Types (s : TokenSource) (n : Net) (c : option Cached).

(** The next reading of the monotonic clock. *)
Definition next_instant n : N := env_instant (net_env n) (env_instants (net_env n)).

(** A token that may be used without asking for another: more than a minute
    of it is left. *)
Definition good n (t : Cached) : Prop := (next_instant n + REFRESH_MARGIN < expires_at t)%N.

(** A successful answer of the token endpoint. *)
Definition grants (x : result BoxError Reply) (tok : string) (secs : N) : Prop :=
  exists rp body, x = Ok rp /\ is_success (rp_status rp) = true /\ rp_body rp = Some body /\
    token_response body = Ok (tok, secs).

(** At most one request, and its granted token cached from before it was
    sent; or an error and the cache as it was. *)
Definition refreshed n c (r : result BoxError string) n' c' : Prop :=
  (exists e rs, r = Err e /\ c' = c /\ sends rs n n' /\ length rs <= 1) \/
  (exists rq tok secs i,
     grants (net_reply n (length (net_sent n))) tok secs /\ sends [rq] n n' /\ r = Ok tok /\
     env_instants (net_env n) <= i < env_instants (net_env n') /\
     c' = Some {| value := tok; expires_at := env_instant (net_env n) i + from_secs secs |}).

Lemma in_net_spec {X} (m : ST Env X) n c :
  (forall e, env_steps e (m e).2) ->
  in_net (net_with_env m) (n, c) = (Ok (m (net_env n)).1, ((net_with_env m n).2, c)) /\
  sends [] n (net_with_env m n).2.
Proof.
  intros Hm. destruct (sends_with_env m n Hm) as [Hx Hs]. unfold in_net.
  destruct (net_with_env m n) as [x n']. cbn [fst snd] in *. split; [by rewrite Hx|exact Hs].
Qed.

Lemma token_request_spec s n c : exists r n',
  token_request s (n, c) = (r, (n', c)) /\ sends [] n n'.
Proof.
  unfold token_request, assertion.
  destruct (credentials s); try (eexists _, _; split; [reflexivity|apply sends_nil]).
  unfold mbind, est_bind. destruct (in_net_spec unix_now n c) as [-> Hs]; [auto with push|].
  unfold lift_result, ok_or. destruct (rsa_sign _ _); eexists _, _; by split.
Qed.

Lemma fetch_spec s n c : exists r n',
  fetch s (n, c) = (r, (n', c)) /\ refreshed n c (value <$> r) n' (match r with Ok t => Some t | Err _ => c end).
Proof.
  unfold fetch, mbind, est_bind.
  destruct (token_request_spec s n c) as (r & n1 & -> & Hs1).
  destruct r as [rq|e]; [|by eexists _, _; split; [|left; eexists _, []; split_and!; [..|cbn; lia]]].
  destruct (in_net_spec instant_now n1 c) as [-> Hs2]; [auto with push|]. cbn [fst].
  destruct (send_request rq _) as [x n2] eqn:Hsend.
  apply sends_request in Hsend as [Hs3 ->].
  pose proof (sends_trans _ _ _ _ _ Hs1 (sends_trans _ _ _ _ _ Hs2 Hs3)) as Hs. cbn [app] in Hs.
  assert (net_reply (net_with_env instant_now n1).2 (length (net_sent (net_with_env instant_now n1).2))
    = net_reply n (length (net_sent n))) as ->.
  { rewrite (sends_reply _ _ _ Hs2), (sends_reply _ _ _ Hs1), (sends_next _ _ _ Hs2),
      (sends_next _ _ _ Hs1). cbn. by rewrite !Nat.add_0_r. }
  assert (Hfail : forall e : BoxError, exists r' n', (Err e, (n2, c)) = (r', (n', c)) /\
    refreshed n c (value <$> r') n' (match r' with Ok t => Some t | Err _ => c end)).
  { intros e. eexists _, _. split; [done|]. left. by exists e, [rq]. }
  destruct (net_reply n _) as [rp|e] eqn:Hx; [|apply Hfail]. cbn.
  destruct (is_success _) eqn:Hok; [|apply Hfail]. cbn. unfold lift_result, ok_or.
  destruct (rp_body rp) as [body|] eqn:Hb; [|apply Hfail].
  destruct (token_response body) as [[tok secs]|e] eqn:Ht; [|apply Hfail].
  eexists _, _. split; [done|]. right. exists rq, tok, secs, (env_instants (net_env n1)).
  split_and!; [by exists rp, body|done..| | |].
  - apply Hs1.
  - apply Nat.lt_le_trans with (env_instants (net_env (net_with_env instant_now n1).2)); [|apply Hs3].
    cbn. lia.
  - cbn. by rewrite (ext_instant _ _ (sends_env _ _ _ Hs1)).
Qed.

(** What [token] does once the cached token is no good. *)
Lemma refresh_spec s n c :
  exists r n' c', (fresh ← fetch s; _ ← set_cached (Some fresh); mret (value fresh)) (n, c)
    = (r, (n', c')) /\ refreshed n c r n' c'.
Proof.
  unfold mbind, est_bind. destruct (fetch_spec s n c) as (x & n' & -> & Hx).
  destruct x; by eexists _, _, _.
Qed.

Lemma refreshed_sends n c r n' c' : refreshed n c r n' c' ->
  exists rs, sends rs n n' /\ length rs <= 1.
Proof.
  intros [(e & rs & _ & _ & Hs & Hl)|(rq & tok & secs & i & _ & Hs & _)]; [by exists rs|].
  by exists [rq].
Qed.

(** A token with more than a minute left is answered without a request.
    Otherwise one request is made: the token it grants is answered and kept,
    its lifetime counted from before the request was sent; when it fails the
    cache is left alone. *)
Theorem token_spec s n c r n' c' :
  token s (n, c) = (r, (n', c')) ->
  (exists t, c = Some t /\ good n t /\ r = Ok (value t) /\ c' = c /\ sends [] n n') \/
  ((forall t, c = Some t -> ~ good n t) /\
   exists n1, sends [] n n1 /\ refreshed n1 c r n' c').
Proof.
  unfold token, cached. unfold mbind at 1, est_bind at 1. destruct c as [t|].
  - unfold mbind at 1, est_bind at 1.
    destruct (in_net_spec instant_now n (Some t)) as [-> Hs]; [auto with push|].
    change (instant_now (net_env n)).1 with (next_instant n).
    destruct (N.ltb_spec REFRESH_MARGIN (sat_sub (expires_at t) (next_instant n))) as [Hlt|Hge].
    + intros [= <- <- <-]. left. exists t. split_and!; [done| |done..].
      unfold good, sat_sub in *. lia.
    + destruct (refresh_spec s (net_with_env instant_now n).2 (Some t)) as (r1 & n1 & c1 & -> & Hr).
      intros [= <- <- <-]. right. split; [|by eexists].
      intros ? [= <-]. unfold good, sat_sub in *. lia.
  - destruct (refresh_spec s n None) as (r1 & n1 & c1 & -> & Hr). intros [= <- <- <-].
    right. split; [done|]. exists n. split; [apply sends_nil|done].
Qed.

(** Whatever the cache holds, at most one request is made. *)
Lemma token_sends s n c : exists r n' c' rs,
  token s (n, c) = (r, (n', c')) /\ sends rs n n' /\ length rs <= 1.
Proof.
  unfold token, cached. unfold mbind at 1, est_bind at 1. destruct c as [t|].
  - unfold mbind at 1, est_bind at 1.
    destruct (in_net_spec instant_now n (Some t)) as [-> Hs]; [auto with push|].
    case_match; [by eexists _, _, _, []; split_and!; [done..|cbn; lia]|].
    destruct (refresh_spec s (net_with_env instant_now n).2 (Some t)) as (r1 & n1 & c1 & -> & Hr).
    apply refreshed_sends in Hr as (rs & Hs' & Hl). exists r1, n1, c1, rs.
    split_and!; [done| |done]. by apply (sends_trans [] rs _ _ _ Hs).
  - destruct (refresh_spec s n None) as (r1 & n1 & c1 & -> & Hr).
    apply refreshed_sends in Hr as (rs & Hs' & Hl). by exists r1, n1, c1, rs.
Qed.
End auth.

(** ** Examples *)
Definition demo_metadata : TokenSource :=
  {| credentials := Metadata "http://metadata"; scopes := CLOUD_PLATFORM |}.
Definition demo_cached : Cached := {| value := "tok"; expires_at := from_secs 3600 |}.
Lemma demo_good : good (demo_net []) demo_cached.
Proof. vm_compute. done. Qed.
Lemma token_spec_witness : (token demo_metadata (demo_net [], Some demo_cached)).1 = Ok "tok".
Proof.
  destruct (token demo_metadata (demo_net [], Some demo_cached)) as [r [n' c']] eqn:Hr.
  destruct (token_spec _ _ _ _ _ _ Hr) as [(t & [= <-] & _ & -> & _)|[Hno _]]; [reflexivity|].
  destruct (Hno _ eq_refl demo_good).
Defined.
