(* ===== verification/PlatformTheorems.v ===== *)
(** * What a delivery through a mobile platform means

    The theorems about [Fcm.v] and [Apns.v]: which requests a delivery makes,
    and what its outcome says about the platform's answer. *)
From S2P Require Import Instances Demo PlatformDemo Prelude RustStr External StoreTypes Bridge Client GcpAuth GcpTheorems Apns Fcm.

(** ** What a delivery through FCM means

    The theorems about [Fcm.v]: which requests a delivery makes, and what its
    outcome says about the platform's answer. *)

Module Firebase.
Section fcm.
Context `{HT : Http} `{B64 : Base64} `{JS : Json} `{RSA : Rsa} `{HO : Host} `{GS : GcpSerde}
  `{SX : StatusText} `{CB : ClientBuilder} `{FS : FcmSerde} `{OR : HashOrder}.

(** The error code and message of an error body. *)
Definition error_code (body : Bytes) : option string :=
  head (omap id (default ("", []) (fcm_body body)).2).
Definition error_message (body : Bytes) : string := (default ("", []) (fcm_body body)).1.

(** FCM says that the device token is not, or no longer, one of the
    application's. *)
Definition gone (status : N) (body : Bytes) : Prop :=
  status = 404%N \/ error_code body = Some "UNREGISTERED" \/
  error_code body = Some "SENDER_ID_MISMATCH" \/
  (status = 400%N /\ error_code body = Some "INVALID_ARGUMENT" /\
   str_contains "registration token" (to_ascii_lowercase (error_message body)) = true).

(** The documented mapping of failures. *)
Definition verdict (status : N) (retry_after : option Duration) (body : Bytes) (e : Error) : Prop :=
  (e = TokenGone /\ gone status body) \/
  (~ gone status body /\
   ((status = 429%N /\ e = Throttled retry_after) \/
    (status = 400%N /\ exists m, e = Rejected m) \/
    (status <> 429%N /\ status <> 400%N /\ exists m, e = Unavailable m))).

Lemma classify_verdict status retry_after body :
  verdict status retry_after body (classify status retry_after body).
Proof.
  unfold classify, verdict, gone, error_code, error_message.
  destruct (default ("", []) (fcm_body body)) as [message details]. cbn [fst snd].
  set (code := head (omap id details)). clearbody code.
  destruct (bool_decide _ || _ || _) eqn:Hg.
  { left. split; [done|]. rewrite !orb_true_iff, !bool_decide_eq_true in Hg. tauto. }
  bools. case_decide; [right; split; [intuition congruence|by left]|].
  case_decide.
  - destruct (bool_decide (code = Some "INVALID_ARGUMENT") && _) eqn:Hm; bools.
    + left. tauto.
    + right. split; [|right; left; eauto]. intros [?|[?|[?|(_ & Hc & Hs)]]]; [done..|].
      by rewrite Hc, Hs, bool_decide_eq_true_2 in Hm.
  - right. split; [tauto|]. right; right. eauto.
Qed.

(** How the answer to the message's request decides the outcome. *)
Definition answered (x : result BoxError Reply) (r : result Error unit) : Prop :=
  match x with
  | Err e => r = Err (Unavailable e)
  | Ok rp =>
      if is_success (rp_status rp) then r = Ok ()
      else exists e, r = Err e /\
        verdict (rp_status rp) (retry_after_of rp) (default [] (rp_body rp)) e
  end.

Definition refuses_token (x : result BoxError Reply) : Prop :=
  exists rp, x = Ok rp /\ rp_status rp = 401%N.

(** C30: A message for an application that is not configured, or of more than 4096
    octets of data, is refused without a request. Otherwise at most one
    request asks for an access token; unless that fails, exactly the message
    is sent, once, and the outcome is what FCM's answer means according to
    the documented table. A 401 discards the access token. *)
Theorem fcm_deliver_spec f to m w r w' :
  deliver f to m w = (r, w') ->
  (apps f !! ad_app_id to = None /\ r = Err UnknownApp /\ w' = w) \/
  exists app, apps f !! ad_app_id to = Some app /\
  (((MAX_DATA_BYTES < data_size (fields m))%N /\ r = Err TooLarge /\ w' = w) \/
   ((data_size (fields m) <= MAX_DATA_BYTES)%N /\
    exists rs, length rs <= 1 /\
    ((exists e, r = Err (Unavailable e) /\ sends rs (bw_net w) (bw_net w')) \/
     exists tok,
       let x := net_reply (bw_net w) (length (net_sent (bw_net w)) + length rs) in
       sends (rs ++ [message_request app tok (message_body to m)]) (bw_net w) (bw_net w') /\
       answered x r /\
       (refuses_token x -> bw_caches w' !! ad_app_id to = None)))).
Proof.
  unfold deliver. unfold mbind at 1, est_bind at 1. unfold lift_result, ok_or.
  destruct (apps f !! ad_app_id to) as [app|]; [|intros [= <- <-]; by left].
  cbv zeta. intros Hrun. right. exists app. split; [done|]. revert Hrun.
  destruct (N.ltb_spec MAX_DATA_BYTES (data_size (fields m))) as [Hlt|Hle];
    intros Hrun; [injection Hrun as <- <-; by left|].
  right. split; [done|]. revert Hrun.
  unfold mbind at 1, est_bind at 1. unfold or_unavailable at 1, with_cache at 1.
  destruct (token_sends (auth app) (bw_net w) (bw_caches w !! ad_app_id to))
    as (rt & n1 & c1 & rs & -> & Hs & Hl).
  destruct rt as [tok|e]; cbn [map_err];
    intros Hrun; [|injection Hrun as <- <-; exists rs; split; [done|]; left; eexists; split; [done|exact Hs]].
  revert Hrun.
  unfold mbind at 1, est_bind at 1. unfold or_unavailable at 1, with_net.
  cbn [bw_net bw_caches]. destruct (send_request _ n1) as [x n2] eqn:Hx.
  apply sends_request in Hx as [Hs2 ->].
  rewrite (sends_reply _ _ _ Hs), (sends_next _ _ _ Hs).
  pose proof (sends_trans _ _ _ _ _ Hs Hs2) as Hsent.
  intros Hrun. exists rs. split; [done|]. right. exists tok. cbv zeta.
  unfold answered, refuses_token.
  destruct (net_reply _ _) as [rp|e]; cbn [map_err] in *.
  2:{ injection Hrun as <- <-. split_and!; [exact Hsent|done|]. by intros (rp & ? & _). }
  destruct (is_success (rp_status rp)) eqn:Hok.
  { injection Hrun as <- <-. split_and!; [exact Hsent|done|].
    intros (? & [= <-] & H401). by rewrite H401 in Hok. }
  revert Hrun. unfold mbind, est_bind. case_decide as H401; cbn; intros [= <- <-].
  - split_and!; [exact Hsent|eexists; split; [done|apply classify_verdict]|].
    intros _. cbn [bw_caches]. by rewrite lookup_partial_alter, decide_True.
  - split_and!; [exact Hsent|eexists; split; [done|apply classify_verdict]|].
    by intros (? & [= <-] & ?).
Qed.
End fcm.

(** ** Examples *)
Definition demo_source : TokenSource :=
  {| credentials := Metadata "http://metadata"; scopes := SCOPE |}.
Definition demo_sender : Fcm := {| apps := {[ "app" :=
  {| auth := demo_source; send_url := "https://fcm/send"; app_quota_project := None |} ]} |}.
Abbreviation demo_sent_fcm := (deliver demo_sender (demo_address "device") demo_message
  (Build_Caches (demo_net [demo_reply 200 "tok"; demo_reply 401 ""]) ∅)).

Lemma demo_fcm_fits : (data_size (fields demo_message) <= MAX_DATA_BYTES)%N.
Proof. vm_compute. done. Qed.
Lemma demo_fcm_requests : length (net_sent (bw_net demo_sent_fcm.2)) = 2 /\
  bw_caches demo_sent_fcm.2 !! "app" = None.
Proof. vm_compute. done. Qed.
Lemma fcm_deliver_spec_witness : exists rs,
  net_sent (bw_net demo_sent_fcm.2) = rs /\ length rs <= 2.
Proof.
  destruct demo_sent_fcm as [r w] eqn:Hr.
  destruct (fcm_deliver_spec _ _ _ _ _ _ Hr) as [(Hno & _)|(app & _ & [(Hbig & _)|(_ & rs & Hl & Hs)])].
  - discriminate Hno.
  - destruct (N.lt_irrefl _ (N.lt_le_trans _ _ _ Hbig demo_fcm_fits)).
  - destruct Hs as [(e & _ & Hs)|(tok & Hs & _)]; eexists; (split; [exact (sends_sent _ _ _ Hs)|]);
      cbn [net_sent demo_net bw_net]; rewrite ?length_app; cbn [length]; lia.
Defined.

End Firebase.

(** ** What a delivery through APNs means

    The theorems about [Apns.v]: provider tokens stay inside Apple's window,
    which requests a delivery makes, and what its outcome says about the
    platform's answer. *)

Module Apple.
Import Apns.

Section apns.
Context `{HT : Http} `{B64 : Base64} `{JS : Json} `{AK : ApnsKeys}
  `{SX : StatusText} `{CB : ClientBuilder} `{OR : HashOrder}.
Implicit Types (a : App) (n : Net) (c : option Jwt) (m : BridgeMessage).

(** The provider token of an application for the time [iat]. *)
Definition signing_input a (iat : N) : string :=
  b64_encode (as_bytes (json_print (json [("alg", Str "ES256"); ("kid", Str (key_id a))])))
  +:+ "." +:+ b64_encode (as_bytes (json_print (json [("iss", Str (team_id a)); ("iat", Num_ iat)]))).

(** Signed for the time the clock shows somewhere between [n] and [n']. *)
Definition signed_between a n n' (jwt : string) : Prop :=
  exists i seed sig,
    env_ticks (net_env n) <= i < env_ticks (net_env n') /\
    ecdsa_sign (key a) seed (as_bytes (signing_input a (env_clock (net_env n) i / 1000))) = Ok sig /\
    jwt = signing_input a (env_clock (net_env n) i / 1000) +:+ "." +:+ b64_encode sig.

(** The cached token is used again for less than 40 minutes. *)
Definition fresh n (t : Jwt) : Prop :=
  (env_instant (net_env n) (env_instants (net_env n)) < t.2 + TOKEN_LIFETIME)%N.

Definition signs a n c (r : result Error string) n' c' : Prop :=
  (exists e, r = Err (Unavailable e) /\ c' = c) \/
  (exists jwt i, r = Ok jwt /\ signed_between a n n' jwt /\
     env_instants (net_env n) <= i < env_instants (net_env n') /\
     c' = Some (jwt, env_instant (net_env n) i)).

Lemma in_env_spec {X} (m : ST Env X) n c :
  (forall e, env_steps e (m e).2) ->
  in_env m (n, c) = (Ok (m (net_env n)).1, ((net_with_env m n).2, c)) /\
  sends [] n (net_with_env m n).2.
Proof.
  intros Hm. destruct (sends_with_env m n Hm) as [Hx Hs]. unfold in_env.
  destruct (net_with_env m n) as [x n']. cbn [fst snd] in *. split; [by rewrite Hx|exact Hs].
Qed.

Lemma fresh_jwt_spec a n c : exists r n' c',
  fresh_jwt a (n, c) = (r, (n', c')) /\ sends [] n n' /\ signs a n c r n' c'.
Proof.
  unfold fresh_jwt. unfold mbind at 1, est_bind at 1.
  destruct (in_env_spec unix_now n c) as [-> Hs1]; [auto with push|]. cbv zeta.
  unfold mbind at 1, est_bind at 1.
  destruct (in_env_spec (random_bytes 32) (net_with_env unix_now n).2 c) as [-> Hs2]; [auto with push|].
  set (n2 := (net_with_env (random_bytes 32) _).2) in *. cbn [fst snd] in *.
  pose proof (sends_trans _ _ _ _ _ Hs1 Hs2) as Hs. cbn [app] in Hs.
  unfold mbind at 1, est_bind at 1. unfold lift_result.
  change (unix_now (net_env n)).1 with (env_clock (net_env n) (env_ticks (net_env n)) / 1000)%N.
  fold (signing_input a (env_clock (net_env n) (env_ticks (net_env n)) / 1000)).
  destruct (ecdsa_sign _ _ _) as [sig|e] eqn:Hsig; cbn [map_err].
  2:{ eexists _, _, _. split_and!; [done|done|left; by eexists]. }
  unfold mbind at 1, est_bind at 1.
  destruct (in_env_spec instant_now n2 c) as [-> Hs3]; [auto with push|].
  set (n3 := (net_with_env instant_now n2).2) in *.
  eexists _, _, _. split_and!; [reflexivity|by apply (sends_trans _ _ _ _ _ Hs Hs3)|].
  right. eexists _, (env_instants (net_env n2)). split_and!; [done| |apply Hs|cbn; lia|].
  - eexists (env_ticks (net_env n)), _, _. split_and!; [done| |exact Hsig|done].
    pose proof (ext_ticks _ _ (sends_env _ _ _ (sends_trans _ _ _ _ _ Hs2 Hs3))) as Ht.
    change (env_ticks (net_env (net_with_env unix_now n).2)) with (S (env_ticks (net_env n))) in Ht. lia.
  - done.
Qed.

(** A token used before its 40 minutes are over is the cached one; otherwise
    a new one is signed for the current time and kept together with the
    instant it was signed at, or, when signing fails, the cache is kept. *)
Theorem jwt_spec a n c r n' c' :
  jwt a (n, c) = (r, (n', c')) ->
  sends [] n n' /\
  ((exists t, c = Some t /\ fresh n t /\ r = Ok t.1 /\ c' = c) \/
   ((forall t, c = Some t -> ~ fresh n t) /\
    exists n1, sends [] n n1 /\ signs a n1 c r n' c')).
Proof.
  unfold jwt, cached. unfold mbind at 1, est_bind at 1. destruct c as [[t at_]|].
  - unfold mbind at 1, est_bind at 1.
    destruct (in_env_spec instant_now n (Some (t, at_))) as [-> Hs]; [auto with push|].
    set (n1 := (net_with_env instant_now n).2) in *.
    change (instant_now (net_env n)).1 with (env_instant (net_env n) (env_instants (net_env n))).
    destruct (N.ltb_spec (sat_sub (env_instant (net_env n) (env_instants (net_env n))) at_) TOKEN_LIFETIME).
    + intros [= <- <- <-]. split; [done|]. left. exists (t, at_). split_and!; [done| |done..].
      unfold fresh, sat_sub, TOKEN_LIFETIME, from_secs in *. cbn. lia.
    + destruct (fresh_jwt_spec a n1 (Some (t, at_))) as (r1 & n2 & c1 & -> & Hs2 & Hr).
      intros [= <- <- <-]. split; [by apply (sends_trans [] [] _ _ _ Hs)|]. right.
      split; [|by exists n1]. intros ? [= <-]. unfold fresh, sat_sub, TOKEN_LIFETIME, from_secs in *. cbn. lia.
  - destruct (fresh_jwt_spec a n None) as (r1 & n1 & c1 & -> & Hs & Hr). intros [= <- <- <-].
    split; [done|]. right. split; [done|]. exists n. split; [apply sends_nil|done].
Qed.

(** ** Delivery *)

(** What may be a path segment: the hex Apple issues, or at least letters
    and digits. *)
Definition device_token (token : string) : bool :=
  negb (str_is_empty token) && str_all is_ascii_alphanumeric token.

Definition reason_of (rp : Reply) : string :=
  match b ← rp_body rp; apns_reason b with
  | Some r => r
  | None => "HTTP " +:+ status_text (rp_status rp)
  end.

(** APNs says that the device token is not, or no longer, one of the
    application's. *)
Definition gone (rp : Reply) : Prop :=
  rp_status rp = 410%N \/
  (rp_status rp = 400%N /\
   (reason_of rp = "BadDeviceToken" \/ reason_of rp = "DeviceTokenNotForTopic")).

(** APNs refuses the provider token. *)
Definition refuses_token (rp : Reply) : Prop :=
  rp_status rp = 403%N /\
  (reason_of rp = "ExpiredProviderToken" \/ reason_of rp = "InvalidProviderToken").

(** The documented mapping of failures. *)
Definition verdict (rp : Reply) (e : Error) : Prop :=
  (gone rp /\ e = TokenGone) \/
  (rp_status rp = 400%N /\ ~ gone rp /\ e = Rejected (reason_of rp)) \/
  (rp_status rp = 413%N /\ e = TooLarge) \/
  (rp_status rp = 429%N /\ e = Throttled (retry_after_of rp)) \/
  ((~ rp_status rp ∈ ([400; 410; 413; 429]%N : list N)) /\ exists why, e = Unavailable why).

Lemma failure_verdict rp :
  verdict rp (failure (rp_status rp) (reason_of rp) (retry_after_of rp)).1 /\
  ((failure (rp_status rp) (reason_of rp) (retry_after_of rp)).2 = true <-> refuses_token rp).
Proof.
  unfold verdict, gone, refuses_token. generalize (reason_of rp), (retry_after_of rp).
  intros reason ra. destruct (decide (rp_status rp ∈ ([400; 403; 410; 413; 429]%N : list N))) as [Hin|Hout].
  - rewrite !elem_of_cons, elem_of_nil in Hin.
    destruct Hin as [H1|[H1|[H1|[H1|[H1|[]]]]]]; rewrite H1; cbn [failure].
    + destruct (bool_decide _ || _) eqn:Hr; rewrite ?orb_true_iff, ?orb_false_iff, ?bool_decide_eq_true, ?bool_decide_eq_false in Hr;
        (split; [|split; [done|by intros [? ?]]]); [left|right; left]; intuition congruence.
    + cbn. rewrite orb_true_iff, !bool_decide_eq_true. split; [|tauto].
      do 4 right. split; [set_solver|by eexists].
    + split; [tauto|]. split; [done|by intros [? ?]].
    + split; [tauto|]. split; [done|by intros [? ?]].
    + split; [tauto|]. split; [done|by intros [? ?]].
  - assert (failure (rp_status rp) reason ra
      = (Unavailable ("APNs returned " +:+ status_text (rp_status rp) +:+ ": " +:+ reason), false)) as ->.
    { unfold failure. repeat case_match; try done; exfalso; apply Hout; set_solver. }
    split; [do 4 right; split; [set_solver|by eexists]|]. cbn. split; [done|].
    intros [? _]. exfalso. apply Hout. set_solver.
Qed.

Lemma jwt_sends a n c : exists r n' c',
  jwt a (n, c) = (r, (n', c')) /\ sends [] n n' /\
  match r with Ok _ => True | Err e => exists why, e = Unavailable why end.
Proof.
  assert (Hsigns : forall n1 r n' c', signs a n1 c r n' c' ->
    match r with Ok _ => True | Err e => exists why, e = Unavailable why end).
  { intros n1 r n' c' [(e & -> & _)|(j & i & -> & _)]; [by eexists|done]. }
  unfold jwt, cached. unfold mbind at 1, est_bind at 1. destruct c as [[t at_]|].
  - unfold mbind at 1, est_bind at 1.
    destruct (in_env_spec instant_now n (Some (t, at_))) as [-> Hs]; [auto with push|].
    case_match; [by eexists _, _, _|].
    destruct (fresh_jwt_spec a (net_with_env instant_now n).2 (Some (t, at_)))
      as (r & n' & c' & -> & Hs' & Hr).
    eexists _, _, _. split_and!; [done|by apply (sends_trans [] [] _ _ _ Hs)|by eapply Hsigns].
  - destruct (fresh_jwt_spec a n None) as (r & n' & c' & -> & Hs & Hr).
    eexists _, _, _. split_and!; [done|done|by eapply Hsigns].
Qed.

(** [apns-expiration]: zero for a zero TTL, which APNs takes as one attempt,
    and otherwise the time the message expires. *)
Definition expires n m (expiration : N) : Prop :=
  (bn_ttl m = 0%N /\ expiration = 0%N) \/
  (bn_ttl m <> 0%N /\ exists i, env_ticks (net_env n) <= i /\
     expiration = sat_add (env_clock (net_env n) i / 1000) (as_secs (bn_ttl m))).

(** How the answer to the message's request decides the outcome. *)
Definition answered (x : result BoxError Reply) (r : result Error unit) : Prop :=
  match x with
  | Err e => r = Err (Unavailable e)
  | Ok rp => if decide (rp_status rp = 200%N) then r = Ok () else exists e, r = Err e /\ verdict rp e
  end.

(** What [App::send] does with a message it does not refuse itself. *)
Definition posts a (token : string) m n (r : result Error unit) n' c' : Prop :=
  (exists e, r = Err (Unavailable e) /\ sends [] n n') \/
  (exists jwt expiration,
     expires n m expiration /\
     sends [push_request a token jwt m expiration] n n' /\
     answered (net_reply n (length (net_sent n))) r /\
     (forall rp, net_reply n (length (net_sent n)) = Ok rp -> refuses_token rp -> c' = None)).

Lemma expiration_spec n c m : exists x n1,
  Apns.expiration m (n, c) = (Ok x, (n1, c)) /\ sends [] n n1 /\ expires n m x.
Proof.
  unfold expires, expiration. destruct (N.eqb_spec (bn_ttl m) 0) as [Hz|Hz].
  - eexists _, _. split_and!; [done|apply sends_nil|by left].
  - unfold mbind, est_bind. destruct (in_env_spec unix_now n c) as [-> Hs]; [auto with push|].
    eexists _, _. split_and!; [done|done|]. right. split; [done|]. by eexists.
Qed.

Lemma send_spec a token m n c :
  device_token token = true -> (N.of_nat (length (payload a m)) <= MAX_PAYLOAD)%N ->
  exists r n' c', send a token m (n, c) = (r, (n', c')) /\ posts a token m n r n' c'.
Proof.
  intros [Hne%negb_true_iff Hall]%andb_true_iff Hlen. unfold send. rewrite Hne, Hall. cbn [orb negb].
  rewrite (proj2 (N.ltb_ge _ _) Hlen). unfold mbind at 1, est_bind at 1.
  destruct (expiration_spec n c m) as (x & n1 & -> & Hs1 & Hx).
  unfold mbind at 1, est_bind at 1.
  destruct (jwt_sends a n1 c) as (rj & n2 & c2 & -> & Hs2 & Hj).
  pose proof (sends_trans _ _ _ _ _ Hs1 Hs2) as Hs. cbn [app] in Hs.
  destruct rj as [jwt|e]; [|destruct Hj as [why ->]; eexists _, _, _; split; [done|left; by eexists]].
  unfold mbind at 1, est_bind at 1. destruct (send_request _ n2) as [y n3] eqn:Hy.
  apply sends_request in Hy as [Hs3 ->].
  rewrite (sends_reply _ _ _ Hs), (sends_next _ _ _ Hs), Nat.add_0_r.
  pose proof (sends_trans _ _ _ _ _ Hs Hs3) as Hsent. cbn [app] in Hsent.
  unfold posts, answered. destruct (net_reply n _) as [rp|e]; cbn [map_err].
  2:{ eexists _, _, _. split; [done|]. right. by exists jwt, x. }
  cbv zeta. case_decide as H200.
  { eexists _, _, _. split; [done|]. right. exists jwt, x. split_and!; [done..|].
    intros ? [= <-] [H403 _]. by rewrite H200 in H403. }
  fold (reason_of rp). destruct (failure_verdict rp) as [Hv Hd].
  destruct (failure _ _ _) as [e drop]. unfold mbind, est_bind.
  exists (Err e), n3, (if drop then None else c2).
  split; [by destruct drop|]. right. exists jwt, x. split_and!; [done|done|by exists e|].
  intros ? [= <-] Href%Hd. cbn in Href. by rewrite Href.
Qed.

(** C31: A message for an application that is not configured, for what cannot be a
    device token, or with a body above 4096 octets, is refused without a
    request. Otherwise, unless no provider token can be signed, exactly one
    request is made, for this device and with the expiration the TTL asks
    for; the outcome is what APNs' answer means according to the documented
    table, and a provider token that APNs refuses is discarded. *)
Theorem apns_deliver_spec s to m w r w' :
  deliver s to m w = (r, w') ->
  (apps s !! ad_app_id to = None /\ r = Err UnknownApp /\ w' = w) \/
  exists a, apps s !! ad_app_id to = Some a /\
  ((device_token (ad_token to) = false /\ r = Err TokenGone /\ w' = w) \/
   (device_token (ad_token to) = true /\
    (MAX_PAYLOAD < N.of_nat (length (payload a m)))%N /\ r = Err TooLarge /\ w' = w) \/
   (device_token (ad_token to) = true /\
    (N.of_nat (length (payload a m)) <= MAX_PAYLOAD)%N /\
    posts a (ad_token to) m (bw_net w) r (bw_net w') (bw_caches w' !! ad_app_id to))).
Proof.
  unfold deliver. unfold mbind, est_bind, lift_result, ok_or.
  destruct (apps s !! ad_app_id to) as [a|]; [|intros [= <- <-]; by left].
  unfold with_cache. intros Hrun. right. exists a. split; [done|]. revert Hrun.
  assert (Hsame : Build_Caches (bw_net w) (partial_alter (fun _ => bw_caches w !! ad_app_id to)
    (ad_app_id to) (bw_caches w)) = w).
  { rewrite partial_alter_self. by destruct w. }
  destruct (device_token (ad_token to)) eqn:Htok.
  2:{ unfold send. unfold device_token in Htok. apply andb_false_iff in Htok.
      rewrite <- negb_true_iff, negb_involutive, <- negb_true_iff, <- orb_true_iff in Htok.
      rewrite Htok. intros [= <- <-]. left. by rewrite Hsame. }
  destruct (decide (N.of_nat (length (payload a m)) <= MAX_PAYLOAD)%N) as [Hle|Hgt].
  - destruct (send_spec a (ad_token to) m (bw_net w) (bw_caches w !! ad_app_id to) Htok Hle)
      as (r1 & n1 & c1 & -> & Hp).
    intros [= <- <-]. right; right. split_and!; [done..|]. cbn [bw_net bw_caches].
    by rewrite lookup_partial_alter, decide_True.
  - apply andb_true_iff in Htok as [Hne%negb_true_iff Hall]. unfold send. rewrite Hne, Hall. cbn [orb negb].
    rewrite (proj2 (N.ltb_lt _ _)) by lia. intros [= <- <-]. right; left.
    rewrite Hsame. split_and!; [done|lia|done..].
Qed.
End apns.

(** ** Examples *)
Definition demo_sender : Apns := {| apps := {[ "app" :=
  {| endpoint := PRODUCTION; key := [x01]; key_id := "kid"; team_id := "team"; topic := "topic";
     push_type := Background; aps := json [] |} ]} |}.
Abbreviation demo_sent_apns := (deliver demo_sender (demo_address "0abc") demo_message
  (Build_Caches (demo_net [demo_reply 403 "ExpiredProviderToken"]) ∅)).

Lemma demo_apns_fits a : apps demo_sender !! "app" = Some a ->
  (N.of_nat (length (payload a demo_message)) <= MAX_PAYLOAD)%N.
Proof. intros [= <-]. vm_compute. done. Qed.
Lemma apns_deliver_spec_witness : exists rs,
  net_sent (bw_net demo_sent_apns.2) = rs /\ length rs <= 1.
Proof.
  destruct demo_sent_apns as [r w] eqn:Hr.
  destruct (apns_deliver_spec _ _ _ _ _ _ Hr)
    as [(Hno & _)|(a & Ha & [(Hno & _)|[(_ & Hbig & _)|(_ & _ & Hp)]])].
  - discriminate Hno.
  - discriminate Hno.
  - destruct (N.lt_irrefl _ (N.lt_le_trans _ _ _ Hbig (demo_apns_fits a Ha))).
  - destruct Hp as [(e & _ & Hs)|(jwt & x & _ & Hs & _)]; eexists;
      (split; [exact (sends_sent _ _ _ Hs)|]); cbn; lia.
Defined.

Definition demo_sender_app : App :=
  {| endpoint := PRODUCTION; key := [x01]; key_id := "kid"; team_id := "team"; topic := "topic";
     push_type := Background; aps := json [] |}.
Lemma jwt_spec_witness : net_sent (jwt demo_sender_app (demo_net [], None)).2.1 = [].
Proof.
  destruct (jwt demo_sender_app (demo_net [], None)) as [r [n' c']] eqn:Hr.
  destruct (jwt_spec _ _ _ _ _ _ Hr) as [Hs _]. exact (sends_sent _ _ _ Hs).
Defined.
End Apple.
