(* ===== verification/BigtableRuns.v ===== *)
(** * The adapter against the service

    Under [ServiceLaws]: what the primitives do to the newest cells of the
    table, and the operations on routes built from them. *)
From Stdlib Require Import Ascii.
From S2P Require Import GcpTheorems Prelude RustStr External StoreTypes Store Bridge Client GcpAuth BigtableWire BigtableService Bigtable BigtableTheorems BigtableRows.

(** ** The newest cells of a table *)
Abbreviation NRow := (gmap (string * string) (Z * Bytes)).
Definition ntable (t : Table) : gmap string NRow := newest <$> t.

Lemma collects_newest t t' : collects t t' -> ntable t' = ntable t.
Proof.
  intros Hc. apply map_eq. intros k. unfold ntable. rewrite !lookup_fmap. specialize (Hc k).
  destruct (t !! k) as [r|], (t' !! k) as [r'|]; try done. cbn. f_equal.
  apply map_eq. intros col. unfold newest. rewrite !lookup_omap. specialize (Hc col).
  destruct (r !! col), (r' !! col); try done. by destruct Hc.
Qed.

Lemma collects_trans t1 t2 t3 : collects t1 t2 -> collects t2 t3 -> collects t1 t3.
Proof.
  intros H12 H23 k. specialize (H12 k). specialize (H23 k).
  destruct (t1 !! k) as [r1|], (t2 !! k) as [r2|], (t3 !! k) as [r3|]; try done.
  intros col. specialize (H12 col). specialize (H23 col).
  destruct (r1 !! col), (r2 !! col), (r3 !! col); try done.
  destruct H12, H23. split; [congruence|by etrans].
Qed.

Lemma head_write ts v l :
  head (write_version ts v l) = Some (match head l with
    | Some (t, w) => if (ts <? t)%Z then (t, w) else (ts, v)
    | None => (ts, v)
    end).
Proof.
  destruct l as [|[t w] l]; [done|]. cbn.
  destruct (Z.ltb_spec t ts), (Z.ltb_spec ts t); try lia; try done.
  - destruct (Z.eqb_spec t ts); [lia|done].
  - destruct (Z.eqb_spec t ts); [done|lia].
Qed.

(** A write counts unless a version with a later timestamp is there. *)
Definition write_newest (col : string * string) (ts : Z) (v : Bytes) (row : NRow) : NRow :=
  <[ col := match row !! col with
            | Some (t, w) => if (ts <? t)%Z then (t, w) else (ts, v)
            | None => (ts, v)
            end ]> row.
Definition apply_newest (row : NRow) (m : Mutation) : NRow :=
  match m with
  | SetCell family col ts v => write_newest (family, col) ts v row
  | DeleteFromRow => ∅
  end.

Lemma newest_apply row m : newest (apply_mutation row m) = apply_newest (newest row) m.
Proof.
  destruct m as [family col ts v|]; [|done]. apply map_eq. intros k.
  cbn [apply_mutation apply_newest]. unfold newest, write_newest.
  rewrite lookup_omap, lookup_partial_alter, lookup_insert. case_decide as Hk.
  - subst. cbn [mbind option_bind]. rewrite head_write, lookup_omap.
    destruct (row !! (family, col)) as [l|]; [|done]. cbn. by destruct (head l) as [[??]|].
  - by rewrite lookup_omap.
Qed.

Lemma newest_apply_all ms row : newest (foldl apply_mutation row ms) = foldl apply_newest (newest row) ms.
Proof.
  revert row. induction ms as [|m ms IH]; intros row; [done|]. cbn. by rewrite IH, newest_apply.
Qed.

(** A row cleared and written to, or written to for the first time. *)
Lemma newest_set_cells family ts cols f q v :
  NoDup cols.*1 ->
  snd <$> foldl apply_newest ∅ (set_cells family ts cols) !! (f, q) = Some v <->
  f = family /\ (q, v) ∈ cols.
Proof.
  intros Hnd. change ∅ with (newest ∅). rewrite <- newest_apply_all, <- lookup_fmap.
  fold (visible (foldl apply_mutation ∅ (set_cells family ts cols))).
  rewrite visible_set_cells by done. assert (visible ∅ = ∅) as -> by done.
  rewrite (right_id_L ∅ (∪)), <- elem_of_list_to_map.
  - rewrite list_elem_of_fmap. split; [by intros ([k x] & [= -> -> ->] & ?)|].
    intros [-> Hin]. by exists (q, v).
  - rewrite <- list_fmap_compose. change (NoDup (pair family ∘ fst <$> cols)).
    rewrite (list_fmap_compose fst (pair family)). apply NoDup_fmap; [|done]. by intros ? ? [= ->].
Qed.

(** The newest version of one cell. *)
Definition cell (t : Table) (key : string) (col : string * string) : option (Z * Bytes) :=
  row ← ntable t !! key; (row : NRow) !! col.

Lemma cell_row t key row col : t !! key = Some row -> cell t key col = newest row !! col.
Proof. intros Hrow. unfold cell, ntable. by rewrite lookup_fmap, Hrow. Qed.
Lemma cell_no_row t key col : t !! key = None -> cell t key col = None.
Proof. intros Hrow. unfold cell, ntable. by rewrite lookup_fmap, Hrow. Qed.

Lemma cell_collects t t' key col : collects t t' -> cell t' key col = cell t key col.
Proof. intros Hc. unfold cell. by rewrite (collects_newest _ _ Hc). Qed.

Lemma cell_mutated t t' ms key k col :
  collects (partial_alter (apply_row ms) key t) t' ->
  cell t' k col = if decide (k = key) then foldl apply_newest (default ∅ (ntable t !! key)) ms !! col
                  else cell t k col.
Proof.
  intros Hc. rewrite (cell_collects _ _ _ _ Hc). case_decide as Hk.
  - subst k. unfold cell, ntable. rewrite !lookup_fmap, lookup_partial_alter, decide_True by done.
    assert (default ∅ (newest <$> t !! key) = newest (default ∅ (t !! key))) as ->.
    { by destruct (t !! key). }
    rewrite <- newest_apply_all. unfold apply_row. case_decide as He; [|done].
    by rewrite He.
  - unfold cell, ntable. by rewrite !lookup_fmap, lookup_partial_alter, decide_False.
Qed.

(** The cells of a row are in one column family. *)
Definition in_family (family : string) (t : Table) (key : string) : Prop :=
  forall f q, is_Some (cell t key (f, q)) -> f = family.

Section runs.
Context `{HT : Http} `{B64 : Base64} `{JS : Json} `{RSA : Rsa} `{HO : Host} `{GS : GcpSerde}
  `{SX : StatusText} {T : Type} `{RPC : BigtableRpc T} `{RE : Re2}.
Context (tbl : T -> Table) (laws : ServiceLaws tbl) `{!Re2Laws} (self : BigtableStore).
Implicit Types (w : Env * BtWorld (T := T)).

Definition wtable (w : Env * BtWorld (T := T)) : Table := tbl (g_rpc w.2).

Lemma authorized_spec {X} (message : X) auth params w r w' :
  authorized message auth params w = (r, w') ->
  g_rpc w'.2 = g_rpc w.2 /\ env_steps w.1 w'.1 /\
  match r with Ok req => req_message req = message | Err _ => True end.
Proof.
  unfold authorized, mbind, est_bind, lift_result.
  destruct (metadata_value _); [|by intros [= <- <-]].
  destruct auth as [auth|]; [|by intros [= <- <-]].
  destruct w as [e g]. unfold with_token.
  destruct (token_sends auth {| net_env := e; net_sent := g_sent g; net_reply := g_reply g |} (g_token g))
    as (rt & n & c & rs & -> & Hs & _). pose proof (conj (sends_env _ _ _ Hs) (sends_seq _ _ _ Hs) : env_steps _ _) as He. cbn in He.
  destruct rt as [tok|]; [|by intros [= <- <-]].
  destruct (metadata_value _); [|by intros [= <- <-]].
  destruct (quota_project auth); [|by intros [= <- <-]].
  destruct (metadata_value _); by intros [= <- <-].
Qed.

Lemma mutate_spec key ms w w' :
  mutate self key ms w = (Ok (), w') ->
  env_steps w.1 w'.1 /\ collects (partial_alter (apply_row ms) key (wtable w)) (wtable w').
Proof.
  unfold mutate, request. unfold mbind, est_bind. destruct (authorized _ _ _ w) as [r w1] eqn:Ha.
  apply authorized_spec in Ha as (Hg & He & Hreq). destruct r as [req|]; [|done].
  destruct w1 as [e g]. unfold with_rpc. destruct (mutate_row req (g_rpc g)) as [r t'] eqn:Hm.
  intros [= -> <-]. split; [done|]. pose proof (law_mutate _ laws _ _ _ Hm) as Hl.
  unfold wtable. cbn in *. by rewrite Hreq, Hg in Hl.
Qed.

Lemma mutate_if_spec key f ms w b w' :
  mutate_if self key f ms w = (Ok b, w') ->
  env_steps w.1 w'.1 /\
  b = bool_decide (eval_filter f (cells (default ∅ (wtable w !! key))) <> []) /\
  collects (if b then partial_alter (apply_row ms) key (wtable w) else wtable w) (wtable w').
Proof.
  unfold mutate_if, request. unfold mbind, est_bind. destruct (authorized _ _ _ w) as [r w1] eqn:Ha.
  apply authorized_spec in Ha as (Hg & He & Hreq). destruct r as [req|]; [|done].
  destruct w1 as [e g]. unfold with_rpc.
  destruct (check_and_mutate_row req (g_rpc g)) as [r t'] eqn:Hm.
  intros [= -> <-]. split; [done|]. pose proof (law_check _ laws _ _ _ _ Hm) as Hl.
  unfold wtable. cbn in *. rewrite Hreq, Hg in Hl. by apply (Hl f).
Qed.

Lemma merge_stream_ok s stream done :
  merge_stream s stream = Ok done -> Forall (fun resp => is_ok resp = true) stream.
Proof.
  revert s. induction stream as [|[l|e] stream IH]; intros s Hm; [constructor| |done].
  constructor; [done|]. cbn in Hm. unfold mbind, result_bind in Hm.
  destruct (merge_chunks s l) as [s1|]; [|done]. by apply (IH s1).
Qed.

(** The columns of a row that was read are its newest cells. *)
Lemma row_cells family t key trow cs q :
  t !! key = Some trow -> in_family family t key -> arrives_as trow cs ->
  row_of cs !! q = snd <$> cell t key (family, q).
Proof.
  intros Htrow Hfam Hcs. unfold arrives_as in Hcs. rewrite (cell_row _ _ trow _ Htrow).
  assert (Hfams : forall f q, is_Some (visible trow !! (f, q)) -> f = family).
  { intros f q' [v Hv]. apply (Hfam f q'). rewrite (cell_row _ _ trow _ Htrow).
    unfold visible in Hv. rewrite lookup_fmap in Hv. by destruct (newest trow !! (f, q')). }
  assert (Hnd : NoDup cs.*1).
  { rewrite Hcs, <- list_fmap_compose. change (NoDup ((fun k : string * string => k.2) ∘ fst <$> map_to_list (visible trow))).
    rewrite list_fmap_compose. apply NoDup_fmap_2_strong; [|apply NoDup_fst_map_to_list].
    intros [f1 q1] [f2 q2] H1 H2 Heq. cbn in Heq. subst q2.
    apply list_elem_of_fmap in H1 as ([k1 v1] & [= <-] & H1%elem_of_map_to_list).
    apply list_elem_of_fmap in H2 as ([k2 v2] & [= <-] & H2%elem_of_map_to_list).
    by rewrite (Hfams f1 q1), (Hfams f2 q1) by (by eexists). }
  apply option_eq. intros v. rewrite (row_of_lookup cs q v Hnd), Hcs, list_elem_of_fmap.
  rewrite <- lookup_fmap. fold (visible trow). split.
  - intros ([[f q'] v'] & [= -> ->] & Hin). apply elem_of_map_to_list in Hin.
    by rewrite <- (Hfams f q') by (by eexists).
  - intros Hv. exists ((family, q), v). split; [done|]. by apply elem_of_map_to_list.
Qed.

(** A read gives the rows it selects, in the order of their keys, each with
    its newest cells. *)
Lemma read_spec rs w rows w' :
  read self rs w = (Ok rows, w') ->
  (forall key, selects rs key -> is_Some (wtable w !! key) -> utf8_valid key = true) ->
  env_steps w.1 w'.1 /\ collects (wtable w) (wtable w') /\
  StronglySorted (fun a b => str_ltb a b = true) rows.*1 /\
  (forall key, key ∈ rows.*1 <-> selects rs key /\ is_Some (wtable w !! key)) /\
  (forall key row family q, (key, row) ∈ rows -> in_family family (wtable w) key ->
    (row : Row) !! q = snd <$> cell (wtable w) key (family, q)).
Proof.
  intros Hread Hu. revert Hread. unfold read, request. unfold mbind at 1, est_bind at 1.
  destruct (authorized _ _ _ w) as [r w1] eqn:Ha.
  apply authorized_spec in Ha as (Hg & He & Hreq). destruct r as [req|]; [|done].
  destruct w1 as [e g]. unfold mbind at 1, est_bind at 1. unfold with_rpc.
  destruct (read_rows req (g_rpc g)) as [[stream|] t'] eqn:Hr; [|done].
  unfold mbind at 1, est_bind at 1. unfold lift_result.
  destruct (merge_stream merge_new stream) as [merged|] eqn:Hm; [|done]. intros [= <- <-].
  pose proof (law_read _ laws _ _ _ _ Hr) as Hl. rewrite Hreq in Hl. cbn in Hg, Hl. rewrite Hg in Hl.
  destruct (Hl eq_refl) as [Hc Hrows]. clear Hl.
  destruct (Hrows (merge_stream_ok _ _ _ Hm)) as (sent & (ls & -> & Hls) & Hsort & Hkeys & Hcells).
  change (tbl (g_rpc w.2)) with (wtable w) in *.
  rewrite merge_stream_concat in Hm.
  destruct (merge_rows_chunks sent (concat ls) merge_new []) as (s & Hs & _ & _ & Hout); [|done|done|].
  { apply Forall_forall. intros [k cs] Hin. destruct (proj1 (Hkeys k)) as [Hsel Hrow].
    - apply list_elem_of_fmap. by exists (k, cs).
    - by apply Hu. }
  rewrite Hs in Hm. injection Hm as <-. rewrite Hout. cbn [app].
  assert (Hfst : ((fun kc => (kc.1, row_of kc.2)) <$> sent).*1 = sent.*1)
    by (rewrite <- list_fmap_compose; by apply list_fmap_ext).
  rewrite Hfst. split_and!; [done..|]. intros key row family q Hin Hfam.
  apply list_elem_of_fmap in Hin as ([k cs] & [= -> ->] & Hin).
  destruct (proj1 (Hkeys k)) as [_ [trow Htrow]]; [apply list_elem_of_fmap; by exists (k, cs)|].
  apply (row_cells family _ k trow); [done|done|]. exact (Hcells _ _ _ Hin Htrow).
Qed.

(** One key, so at most one row. *)
Lemma sorted_one key (l : list string) :
  StronglySorted (fun a b => str_ltb a b = true) l -> (forall k, k ∈ l -> k = key) ->
  l = [] \/ l = [key].
Proof.
  intros Hs Hall. destruct l as [|a [|b l]]; [by left|right; f_equal; apply Hall; by left|].
  apply StronglySorted_inv in Hs as [_ Hf]. apply Forall_cons in Hf as [Hab _].
  rewrite (Hall a), (Hall b), str_ltb_irrefl in Hab by set_solver. done.
Qed.

Lemma get_spec family key w o w' :
  get self key w = (Ok o, w') -> utf8_valid key = true -> in_family family (wtable w) key ->
  env_steps w.1 w'.1 /\ collects (wtable w) (wtable w') /\
  forall q, (row ← o; (row : Row) !! q) = snd <$> cell (wtable w) key (family, q).
Proof.
  intros Hget Hu Hfam. revert Hget. unfold get. unfold mbind at 1, est_bind at 1.
  destruct (read self _ w) as [[rows|] w1] eqn:Hr; [|done]. intros [= <- <-].
  assert (Hsel : forall k, selects {| row_keys := [key]; row_ranges := [] |} k <-> k = key).
  { intros k. unfold selects. cbn. rewrite list_elem_of_singleton. split; [|by left].
    intros [?|(a & b & Hin & _)]; [done|]. by apply not_elem_of_nil in Hin. }
  apply read_spec in Hr as (He & Hc & Hsort & Hkeys & Hcells); [|by intros k ->%Hsel].
  setoid_rewrite Hsel in Hkeys. split_and!; [done..|]. intros q.
  destruct (sorted_one key _ Hsort) as [H1|H1]; [intros k Hk; by apply Hkeys in Hk as [-> _]|..].
  - apply fmap_nil_inv in H1 as ->. cbn. assert (wtable w !! key = None) as Hno.
    { destruct (wtable w !! key) eqn:E; [|done]. exfalso.
      apply (not_elem_of_nil key). apply Hkeys. split; [done|by eexists]. }
    by rewrite (cell_no_row _ _ _ Hno).
  - destruct rows as [|[k row] [|]]; simplify_eq/=. apply (Hcells key row family q); [by left|done].
Qed.

(** A reading of the wall clock between [e] and [e']. *)
Definition read_clock (e e' : Env) (ms : N) : Prop :=
  exists i, env_ticks e <= i < env_ticks e' /\ ms = N.min (env_clock e i) u64_max.

Lemma put_spec key family cols w w' :
  put self key family cols w = (Ok (), w') ->
  env_steps w.1 w'.1 /\ exists ms, read_clock w.1 w'.1 ms /\
    collects (partial_alter (apply_row (set_cells family ms cols)) key (wtable w)) (wtable w').
Proof.
  unfold put. unfold mbind, est_bind. destruct w as [e g]. cbn [fst snd].
  change (with_env now_ms (e, g)) with (Ok (E := BoxError) (now_ms e).1, ((now_ms e).2, g)).
  intros Hm. apply mutate_spec in Hm as [He Hc]. cbn [fst] in He.
  pose proof (now_ms_env e : env_steps _ _) as He1. split; [by etrans|].
  exists (now_ms e).1. split; [|exact Hc]. exists (env_ticks e). split; [|done].
  split; [done|]. pose proof (ext_ticks _ _ (proj1 He)) as Ht.
  change (env_ticks (now_ms e).2) with (S (env_ticks e)) in Ht. exact Ht.
Qed.

(** ** Routes *)
Definition route_cell (t : Table) (to : Recipient) : option (Z * Bytes) :=
  cell t (route_key to) (D, "node").
(** The node of a route. *)
Definition route_of (t : Table) (to : Recipient) : option string :=
  c ← route_cell t to; from_utf8 c.2.

Definition ascii_only (s : string) : Prop := str_all (between 0 127) s = true.
Definition recipient_ok (to : Recipient) : Prop := utf8_valid (route_key to) = true.

Lemma text_cell_of family key o w q :
  (forall q, (row ← o; (row : Row) !! q) = snd <$> cell (wtable w) key (family, q)) ->
  (row ← o; text row q) = (c ← cell (wtable w) key (family, q); from_utf8 c.2).
Proof.
  intros Hq. specialize (Hq q). unfold text. destruct o as [row|]; cbn in *.
  - rewrite Hq. by destruct (cell _ _ _) as [[??]|].
  - by destruct (cell _ _ _).
Qed.

Lemma route_spec to w r w' :
  recipient_ok to -> in_family D (wtable w) (route_key to) -> route self to w = (Ok r, w') ->
  env_steps w.1 w'.1 /\ collects (wtable w) (wtable w') /\ r = route_of (wtable w) to.
Proof.
  intros Hto Hfam. unfold route. unfold mbind at 1, est_bind at 1.
  destruct (get self (route_key to) w) as [[o|] w1] eqn:Hget; [|done]. intros [= <- <-].
  apply (get_spec D) in Hget as (He & Hc & Hq); [|done..].
  split_and!; [done..|]. by rewrite (text_cell_of D (route_key to) o w "node").
Qed.

Lemma set_route_spec to node w p w' :
  recipient_ok to -> in_family D (wtable w) (route_key to) -> set_route self to node w = (Ok p, w') ->
  env_steps w.1 w'.1 /\ p = route_of (wtable w) to /\
  exists ms, read_clock w.1 w'.1 ms /\ forall k col,
    cell (wtable w') k col =
      if decide (k = route_key to /\ col = (D, "node")) then
        Some (match route_cell (wtable w) to with
              | Some (t, v) => if (cast_signed (wrap64 (ms * 1000)) <? t)%Z then (t, v)
                               else (cast_signed (wrap64 (ms * 1000)), as_bytes node)
              | None => (cast_signed (wrap64 (ms * 1000)), as_bytes node)
              end)
      else cell (wtable w) k col.
Proof.
  intros Hto Hfam. unfold set_route. unfold mbind at 1, est_bind at 1.
  destruct (get self (route_key to) w) as [[o|] w1] eqn:Hget; [|done].
  apply (get_spec D) in Hget as (He & Hc & Hq); [|done..].
  unfold mbind at 1, est_bind at 1. cbv zeta.
  destruct (put self (route_key to) D _ w1) as [[[]|] w2] eqn:Hput; [|done]. intros [= <- <-].
  apply put_spec in Hput as (He2 & ms & (i & Hi & Hms) & Hc2).
  split_and!; [by etrans|by rewrite (text_cell_of D (route_key to) o w "node")|].
  exists ms. split.
  { exists i. split; [|by rewrite <- (ext_clock _ _ (proj1 He))]. pose proof (ext_ticks _ _ (proj1 He)). lia. }
  intros k col. rewrite (cell_mutated _ _ _ _ _ _ Hc2). rewrite (cell_collects _ _ _ _ Hc).
  rewrite (collects_newest _ _ Hc). unfold route_cell, cell.
  destruct (decide (k = route_key to)) as [->|Hk]; [|by rewrite decide_False by (by intros [? _])].
  cbn [set_cells fmap list_fmap foldl apply_newest set_cell fst snd]. unfold write_newest.
  rewrite lookup_insert. destruct (decide ((D, "node") = col)) as [<-|Hcol].
  - rewrite decide_True by done. by destruct (ntable (wtable w) !! route_key to).
  - rewrite decide_False by (intros [_ ->]; by apply Hcol). by destruct (ntable (wtable w) !! route_key to).
Qed.

(** The wall clock in microseconds fits the service's timestamps. *)
Definition clock_fits (e : Env) : Prop := forall i, (env_clock e i * 1000 < 2 ^ 63)%N.

Lemma stamp e e' ms : clock_fits e -> read_clock e e' ms ->
  cast_signed (wrap64 (ms * 1000)) = (Z.of_N ms * 1000)%Z.
Proof.
  intros Hfit (i & _ & ->). specialize (Hfit i). change (2 ^ 63)%N with 9223372036854775808%N in Hfit.
  rewrite N.min_l by (change u64_max with 18446744073709551615%N; lia).
  unfold wrap64. rewrite N.mod_small by (change (2 ^ 64)%N with 18446744073709551616%N; lia).
  unfold cast_signed. change (2 ^ 63)%N with 9223372036854775808%N.
  destruct (N.ltb_spec (env_clock e i * 1000) 9223372036854775808); [lia|lia].
Qed.

(** C40: After a node takes a route over, the route reads as that node, unless the
    route it replaces was written by a node whose clock was ahead: then that
    node keeps it. Nothing else in the table changes. *)
Theorem set_route_takes_over to node w p w1 r w2 :
  recipient_ok to -> utf8_valid node = true -> in_family D (wtable w) (route_key to) ->
  clock_fits w.1 ->
  set_route self to node w = (Ok p, w1) -> route self to w1 = (Ok r, w2) ->
  p = route_of (wtable w) to /\
  (forall k col, (k, col) <> (route_key to, (D, "node")) -> cell (wtable w2) k col = cell (wtable w) k col) /\
  exists ms, read_clock w.1 w1.1 ms /\
    r = match route_cell (wtable w) to with
        | Some (t, v) => if (Z.of_N ms * 1000 <? t)%Z then from_utf8 v else Some node
        | None => Some node
        end.
Proof.
  intros Hto Hnode Hfam Hfit Hset Hroute.
  apply set_route_spec in Hset as (He & Hp & ms & Hms & Hcell); [|done..].
  apply route_spec in Hroute as (_ & Hc & ->); [|done|].
  2:{ intros f q Hs. rewrite Hcell in Hs. case_decide as Hk; [by destruct Hk as [_ [= -> ->]]|].
      by apply (Hfam f q). }
  split; [done|]. split.
  { intros k col Hne. rewrite (cell_collects _ _ _ _ Hc), Hcell. rewrite decide_False; [done|].
    intros [-> ->]. done. }
  exists ms. split; [done|]. unfold route_of. unfold route_cell at 1. rewrite Hcell, decide_True by done.
  rewrite (stamp _ _ _ Hfit Hms). cbn [mbind option_bind].
  assert (Hu : from_utf8 (as_bytes node) = Some node) by (unfold from_utf8; by rewrite of_as_bytes, Hnode).
  destruct (route_cell (wtable w) to) as [[t v]|]; [|exact Hu]. destruct (Z.of_N ms * 1000 <? t)%Z; [reflexivity|exact Hu].
Qed.

(** Removing a row if the newest version of a column is a given value: the
    check and the removal are one step. *)
Lemma conditional_delete_spec key family col v w b w' :
  str_all is_ascii_alphanumeric family = true -> ascii_only col -> ascii_only v ->
  mutate_if self key (column_filter family col (Some v)) [delete_row] w = (Ok b, w') ->
  env_steps w.1 w'.1 /\
  b = bool_decide (snd <$> cell (wtable w) key (family, col) = Some (as_bytes v)) /\
  forall k c, cell (wtable w') k c =
    if decide (b = true /\ k = key) then None else cell (wtable w) k c.
Proof.
  intros Hfam Hcol Hv Hclear. apply mutate_if_spec in Hclear as (He & Hb & Hc). split; [done|].
  assert (Hiff : eval_filter (column_filter family col (Some v)) (cells (default ∅ (wtable w !! key))) <> [] <->
    snd <$> cell (wtable w) key (family, col) = Some (as_bytes v)).
  { rewrite column_filter_exact by (done || by intros ? [= <-]). unfold cell, ntable.
    rewrite lookup_fmap. unfold visible. rewrite lookup_fmap. by destruct (wtable w !! key). }
  split; [rewrite Hb; by apply bool_decide_ext|]. intros k c. destruct b.
  - rewrite (cell_mutated _ _ _ _ _ _ Hc). cbn. rewrite lookup_empty.
    destruct (decide (k = key)); [by rewrite decide_True|by rewrite decide_False by tauto].
  - rewrite (cell_collects _ _ _ _ Hc). by rewrite decide_False by (by intros []).
Qed.

(** A route is only cleared by the node it names: the check and the removal
    are one step on the newest version, so that a node which has lost a route
    to another leaves it alone. *)
Theorem clear_route_newest to node w b w' :
  ascii_only node -> clear_route self to node w = (Ok b, w') ->
  b = bool_decide (snd <$> route_cell (wtable w) to = Some (as_bytes node)) /\
  forall k col, cell (wtable w') k col =
    if decide (b = true /\ k = route_key to) then None else cell (wtable w) k col.
Proof. intros Hnode Hclear. by apply conditional_delete_spec in Hclear as (_ & Hb & Hc). Qed.
End runs.

(** ** Messages in the Bigtable adapter

    A message that was inserted is found under its id until another takes its
    topic slot; from then on its id finds nothing, and cannot remove the
    replacement. *)

Section messages.
Context `{HT : Http} `{B64 : Base64} `{JS : Json} `{RSA : Rsa} `{HO : Host} `{GS : GcpSerde}
  `{SX : StatusText} {T : Type} `{RPC : BigtableRpc T} `{RE : Re2}.
Context (tbl : T -> Table) (laws : ServiceLaws tbl) `{!Re2Laws} (self : BigtableStore).
Implicit Types (w : Env * BtWorld (T := T)) (m : Message).

Abbreviation table_of w := (wtable tbl w) (only parsing).
Definition mid_key (id : string) : string := "mid#" +:+ id.

(** The row of [m] holds exactly [m], and the index finds it. *)
Definition holds (t : Table) m : Prop :=
  forall f q v, snd <$> cell t (message_key m) (f, q) = Some v <-> f = M /\ (q, v) ∈ message_cols m.
Definition indexed (t : Table) (id key : string) : Prop :=
  snd <$> cell t (mid_key id) (M, "row") = Some (as_bytes key) /\
  in_family M t (mid_key id).
Definition keys_ok m : Prop :=
  utf8_valid (message_key m) = true /\ utf8_valid (mid_key (m_id m)) = true.

Lemma holds_family t m : holds t m -> in_family M t (message_key m).
Proof.
  intros Hm f q [[ts v] Hc]. apply (proj1 (Hm f q v)). by rewrite Hc.
Qed.

(** What an id finds whose index names the row of [m]. *)
Lemma locate_spec id m w o w' :
  storable m -> utf8_valid (mid_key id) = true -> utf8_valid (message_key m) = true ->
  holds (table_of w) m -> indexed (table_of w) id (message_key m) ->
  locate self id w = (Ok o, w') ->
  env_steps w.1 w'.1 /\ collects (table_of w) (table_of w') /\
  o = if decide (m_id m = id) then Some (message_key m, m) else None.
Proof.
  intros Hm Hmid Hkey Hholds [Hrow Hfam]. unfold locate. unfold mbind at 1, est_bind at 1.
  destruct (get self ("mid#" +:+ id) w) as [[idx|] w1] eqn:Hget; [|done].
  apply (get_spec tbl laws self M) in Hget as (He1 & Hc1 & Hq1); [|done..].
  assert (Htext : (idx ≫= fun idx => text idx "row") = Some (message_key m)).
  { specialize (Hq1 "row"). fold (mid_key id) in Hq1. rewrite Hrow in Hq1.
    destruct idx as [idx|]; [|done]. cbn in *. by apply text_cell. }
  rewrite Htext. unfold mbind at 1, est_bind at 1.
  destruct (get self (message_key m) w1) as [[row|] w2] eqn:Hget; [|done]. intros [= <- <-].
  apply (get_spec tbl laws self M) in Hget as (He2 & Hc2 & Hq2); [|done|].
  2:{ intros f q. rewrite (cell_collects _ _ _ _ Hc1). by apply holds_family. }
  assert (Hcells : forall q v, (row ← row; (row : Row) !! q) = Some v <-> (q, v) ∈ message_cols m).
  { intros q v. rewrite Hq2, (cell_collects _ _ _ _ Hc1), (Hholds M q v). naive_solver. }
  split_and!; [by etrans|..].
  { by eapply collects_trans. }
  destruct row as [row|]; cbn [mbind option_bind] in Hcells |- *.
  - rewrite (message_from_cols m row Hm Hcells). done.
  - exfalso. specialize (proj2 (Hcells "id" (as_bytes (m_id m)))) as Hno.
    by discriminate (Hno ltac:(by left)).
Qed.

(** The keys of different kinds of rows differ. *)
Lemma mid_not_msg id m : mid_key id <> message_key m.
Proof. unfold mid_key, message_key. destruct (m_topic m); rewrite !app_cons; by intros [=]. Qed.
Lemma rexp_not_msg x m : "rexp#" +:+ x <> message_key m.
Proof. unfold message_key. destruct (m_topic m); rewrite !app_cons; by intros [=]. Qed.
Lemma rexp_not_mid x id : "rexp#" +:+ x <> mid_key id.
Proof. unfold mid_key. rewrite !app_cons. by intros [=]. Qed.
Lemma mid_key_inj a b : mid_key a = mid_key b -> a = b.
Proof. apply app_inj_l. Qed.

(** What an insertion leaves in the table. *)
Lemma insert_message_spec m w w' :
  insert_message self m w = (Ok (), w') ->
  in_family M (table_of w) (mid_key (m_id m)) -> cell (table_of w) (mid_key (m_id m)) (M, "row") = None ->
  env_steps w.1 w'.1 /\ holds (table_of w') m /\ indexed (table_of w') (m_id m) (message_key m) /\
  forall id key, id <> m_id m -> indexed (table_of w) id key -> indexed (table_of w') id key.
Proof.
  intros Hins Hfam Hnew. revert Hins. unfold insert_message. cbv zeta.
  unfold mbind at 1, est_bind at 1.
  destruct (mutate self (message_key m) _ w) as [[[]|] w1] eqn:H1; [|done].
  unfold mbind at 1, est_bind at 1.
  destruct (mutate self ("mid#" +:+ m_id m) _ w1) as [[[]|] w2] eqn:H2; [|done].
  apply (mutate_spec tbl laws) in H1 as [He1 Hc1]. apply (mutate_spec tbl laws) in H2 as [He2 Hc2].
  rewrite message_mutations_cols in Hc1.
  pose proof (fun k col => cell_mutated _ _ _ _ k col Hc1) as Hcell1. clear Hc1.
  pose proof (fun k col => cell_mutated _ _ _ _ k col Hc2) as Hcell2. clear Hc2.
  fold (mid_key (m_id m)) in Hcell2.
  assert (Hmid1 : forall col, cell (table_of w1) (mid_key (m_id m)) col = cell (table_of w) (mid_key (m_id m)) col).
  { intros col. rewrite Hcell1. rewrite decide_False; [done|apply mid_not_msg]. }
  assert (Hgood : forall w3, (forall k col, k = message_key m \/ (exists id, k = mid_key id) ->
      cell (table_of w3) k col = cell (table_of w2) k col) ->
    holds (table_of w3) m /\ indexed (table_of w3) (m_id m) (message_key m) /\
    forall id key, id <> m_id m -> indexed (table_of w) id key -> indexed (table_of w3) id key).
  { intros w3 Hsame. split_and!.
    - intros f q v. rewrite Hsame by (by left).
      rewrite Hcell2, decide_False by (intros Heq; by apply (mid_not_msg (m_id m) m)).
      rewrite Hcell1, decide_True by done. cbn [foldl apply_newest].
      apply newest_set_cells, message_cols_NoDup.
    - split.
      + rewrite Hsame by eauto. rewrite Hcell2, decide_True by done.
        cbn [foldl apply_newest set_cell]. unfold write_newest. rewrite lookup_insert_eq.
        specialize (Hmid1 (M, "row")). rewrite Hnew in Hmid1. unfold cell in Hmid1.
        destruct (ntable (table_of w1) !! mid_key (m_id m)) as [row|]; cbn in Hmid1 |- *;
          [by rewrite Hmid1|done].
      + intros f q Hs. rewrite Hsame in Hs by eauto. rewrite Hcell2, decide_True in Hs by done.
        cbn [foldl apply_newest set_cell] in Hs. unfold write_newest in Hs.
        rewrite lookup_insert in Hs. case_decide as Hq; [by injection Hq as <- <-|].
        apply (Hfam f q). rewrite <- Hmid1. unfold cell.
        by destruct (ntable (table_of w1) !! mid_key (m_id m)).
    - intros id key Hid [Hrow Hf].
      assert (Hother : forall col, cell (table_of w3) (mid_key id) col = cell (table_of w) (mid_key id) col).
      { intros col. rewrite Hsame by eauto. rewrite Hcell2, decide_False by (intros Heq; by apply Hid, mid_key_inj).
        rewrite Hcell1, decide_False; [done|apply mid_not_msg]. }
      split; [by rewrite Hother|]. intros f q. rewrite Hother. apply Hf. }
  case_decide as Hrsub.
  - intros Hput. apply (put_spec tbl laws) in Hput as (He3 & ms & _ & Hc3).
    split; [by do 2 etrans|]. apply Hgood. intros k col Hk. rewrite (cell_mutated _ _ _ _ _ _ Hc3).
    rewrite decide_False; [done|]. destruct Hk as [-> |[id ->]]; intros Heq; symmetry in Heq;
      [by apply rexp_not_msg in Heq|by apply rexp_not_mid in Heq].
  - intros [= <-]. split; [by etrans|]. by apply Hgood.
Qed.

(** An inserted message is found under its id, as it was inserted, whether or
    not its row held another message before. *)
Theorem inserted_message_found m w w1 o w2 :
  storable m -> keys_ok m ->
  in_family M (table_of w) (mid_key (m_id m)) -> cell (table_of w) (mid_key (m_id m)) (M, "row") = None ->
  insert_message self m w = (Ok (), w1) -> message self (m_id m) w1 = (Ok o, w2) ->
  o = Some m.
Proof.
  intros Hm [Hkey Hmid] Hfam Hnew Hins Hmsg.
  apply insert_message_spec in Hins as (_ & Hholds & Hidx & _); [|done..].
  revert Hmsg. unfold message. unfold mbind, est_bind.
  destruct (locate self (m_id m) w1) as [[found|] w3] eqn:Hloc; [|done]. intros [= <- <-].
  apply (locate_spec _ m) in Hloc as (_ & _ & ->); [|done..]. by rewrite decide_True.
Qed.

(** Once another message has taken its topic slot, the id of a message finds
    nothing, and deleting it neither succeeds nor touches the message that
    took the slot. *)
Theorem replaced_message_gone m0 m w w1 owner o w2 :
  storable m -> keys_ok m -> utf8_valid (mid_key (m_id m0)) = true ->
  message_key m0 = message_key m -> m_id m0 <> m_id m ->
  indexed (table_of w) (m_id m0) (message_key m0) ->
  in_family M (table_of w) (mid_key (m_id m)) -> cell (table_of w) (mid_key (m_id m)) (M, "row") = None ->
  insert_message self m w = (Ok (), w1) -> delete_message self (m_id m0) owner w1 = (Ok o, w2) ->
  o = None /\ holds (table_of w2) m /\ indexed (table_of w2) (m_id m) (message_key m).
Proof.
  intros Hm [Hkey Hmid] Hmid0 Hslot Hne Hidx0 Hfam Hnew Hins Hdel.
  apply insert_message_spec in Hins as (_ & Hholds & Hidx & Hother); [|done..].
  specialize (Hother _ _ Hne Hidx0). rewrite Hslot in Hother.
  revert Hdel. unfold delete_message. unfold mbind, est_bind.
  destruct (locate self (m_id m0) w1) as [[found|] w3] eqn:Hloc; [|done].
  apply (locate_spec _ m) in Hloc as (_ & Hc & ->); [|done..].
  rewrite decide_False by done. intros [= <- <-]. split; [done|].
  split; [intros f q v; rewrite (cell_collects _ _ _ _ Hc); apply Hholds|].
  destruct Hidx as [Hrow Hf]. split; [by rewrite (cell_collects _ _ _ _ Hc)|].
  intros f q. rewrite (cell_collects _ _ _ _ Hc). apply Hf.
Qed.

(** C29: A removal decided on earlier takes effect only if the row still holds the
    message it was decided on: then the row and the index go, and otherwise,
    whatever happened to the row in between, nothing changes. *)
Theorem remove_message_checks key m w b w' :
  ascii_only (m_id m) -> remove_message self key m w = (Ok b, w') ->
  b = bool_decide (snd <$> cell (table_of w) key (M, "id") = Some (as_bytes (m_id m))) /\
  forall k col, cell (table_of w') k col =
    if decide (b = true /\ (k = key \/ k = mid_key (m_id m))) then None else cell (table_of w) k col.
Proof.
  intros Hid. unfold remove_message. unfold mbind at 1, est_bind at 1.
  destruct (delete_message_row self key (m_id m) w) as [[there|] w1] eqn:Hd; [|done].
  apply (conditional_delete_spec tbl laws) in Hd as (_ & Hb & Hc); [|done..].
  destruct there; cbn [negb].
  2:{ intros [= <- <-]. split; [done|]. intros k col. rewrite Hc, !decide_False; [done|by intros []..]. }
  unfold mbind, est_bind. destruct (delete self _ w1) as [[[]|] w2] eqn:Hm; [|done].
  intros [= <- <-]. split; [done|]. apply (mutate_spec tbl laws) in Hm as [_ Hc2].
  intros k col. rewrite (cell_mutated _ _ _ _ _ _ Hc2). cbn. rewrite lookup_empty, Hc.
  fold (mid_key (m_id m)). destruct (decide (k = mid_key (m_id m))) as [Hk|Hk].
  - by rewrite decide_True by auto.
  - destruct (decide (k = key)) as [Hk2|Hk2].
    + by rewrite !decide_True by auto.
    + by rewrite !decide_False by tauto.
Qed.
End messages.
