(* ===== verification/BigtableDemo.v ===== *)
(** * A service that behaves as documented

    A table in memory behind the calls of [BigtableWire.v], which satisfies
    [ServiceLaws]: what the concrete examples of the Bigtable adapter run on. *)
From Stdlib Require Import Ascii.
From S2P Require Import Prelude RustStr External Octets StoreTypes Instances Demo PlatformDemo Store Bridge Client GcpAuth BigtableWire BigtableService Bigtable BigtableTheorems BigtableRows BigtableRuns.

(** ** Patterns of literals *)
Fixpoint unescape (p : string) : string :=
  match p with
  | EmptyString => EmptyString
  | String c p' =>
      if char_is 92 c then match p' with String d p'' => String d (unescape p'') | _ => EmptyString end
      else String c (unescape p')
  end.
Definition pattern_text (p : string) : string :=
  let p := match p with String c p' => if char_is 94 c then default p' (strip_suffix "$" p') else p | _ => p end in
  unescape p.
#[export] Instance toy_re2 : Re2 := {| re2_match := fun p s => bool_decide (s = pattern_text p) |}.

Lemma unescape_literal p s : literal p s -> unescape p = s.
Proof.
  induction 1 as [|c p s Hc Hl IH|c p s Ha Hb Hl IH]; [done| |].
  - cbn. destruct (char_is 92 c) eqn:E; [|by rewrite IH].
    unfold char_is in E. apply N.eqb_eq in E. unfold is_ascii_alphanumeric, is_ascii_digit, between in Hc.
    by rewrite E in Hc.
  - cbn. by rewrite IH.
Qed.
Lemma pattern_text_literal p s : literal p s -> pattern_text p = s.
Proof.
  intros Hl. rewrite <- (unescape_literal p s Hl). destruct Hl as [|c p s Hc Hl|]; [done| |done].
  unfold pattern_text. destruct (char_is 94 c) eqn:E; [|done].
  unfold char_is in E. apply N.eqb_eq in E. unfold is_ascii_alphanumeric, is_ascii_digit, between in Hc.
  by rewrite E in Hc.
Qed.
Lemma pattern_text_anchored p s : literal p s -> pattern_text ("^" +:+ p +:+ "$") = s.
Proof.
  intros Hl. rewrite app_cons, app_nil. unfold pattern_text.
  change (char_is 94 "^") with true. cbv iota. rewrite strip_suffix_app. by apply unescape_literal.
Qed.
#[export] Instance toy_re2_laws : Re2Laws.
Proof.
  split; intros p s x Hl; cbn; rewrite bool_decide_eq_true.
  - by rewrite (pattern_text_literal p s).
  - by rewrite (pattern_text_anchored p s Hl).
Qed.

(** ** The table *)
Definition row_ok (key : string) (row : TRow) : Prop :=
  key <> "" /\ row <> ∅ /\ map_Forall (fun _ l => l <> []) row.
#[export] Instance row_ok_dec key row : Decision (row_ok key row).
Proof. unfold row_ok. apply _. Defined.
Definition clean (t : Table) : Table := filter (fun kr => row_ok kr.1 kr.2) t.

Definition selected (rs : RowSet) (key : string) : bool :=
  bool_decide (key ∈ row_keys rs) ||
  existsb (fun ab => str_leb ab.1 key && str_ltb key ab.2) (row_ranges rs).

Definition cells_sent (row : TRow) : list (string * Bytes) :=
  (fun kv => (kv.1.2, kv.2)) <$> map_to_list (visible row).
Fixpoint send_cells (key : string) (cs : list (string * Bytes)) : list CellChunk :=
  match cs with
  | [] => []
  | [(q, v)] => [{| ck_row_key := key; ck_qualifier := Some q; ck_value := v; ck_value_size := 0;
                    ck_row_status := Some (CommitRow true) |}]
  | (q, v) :: cs => {| ck_row_key := key; ck_qualifier := Some q; ck_value := v; ck_value_size := 0;
                       ck_row_status := None |} :: send_cells key cs
  end.
Definition key_le (a b : string) : Prop := str_leb a b = true.
#[export] Instance key_le_dec : RelDecision key_le.
Proof. intros a b. unfold key_le. apply _. Defined.
Definition keys_sent (rs : RowSet) (t : Table) : list string :=
  merge_sort key_le (filter (fun k => selected rs k = true) (map_to_list t).*1).
Definition rows_sent (rs : RowSet) (t : Table) : list (string * list (string * Bytes)) :=
  (fun k => (k, cells_sent (default ∅ (t !! k)))) <$> keys_sent rs t.

#[export] Instance toy_rpc : BigtableRpc Table := {|
  mutate_row := fun req t =>
    let m := req_message req in
    if decide (mr_row_key m = "") then (Err "empty row key", t)
    else (Ok (), partial_alter (apply_row (mr_mutations m)) (mr_row_key m) (clean t));
  read_rows := fun req t =>
    (Ok ((fun kc => Ok (send_cells kc.1 kc.2)) <$> rows_sent (rr_rows (req_message req)) (clean t)), t);
  check_and_mutate_row := fun req t =>
    let m := req_message req in
    let l := cells (default ∅ (clean t !! cm_row_key m)) in
    let b := bool_decide (match cm_predicate_filter m with
                          | Some f => eval_filter f l | None => l end <> []) in
    if decide (cm_row_key m = "") then (Err "empty row key", t)
    else (Ok b, if b then partial_alter (apply_row (cm_true_mutations m)) (cm_row_key m) (clean t)
                else clean t);
  get_table := fun _ t => (Err {| st_code := NotFound; st_text := "not found" |}, t);
  create_table := fun _ t => (Ok (), t);
  open_channel := fun _ _ t => (Ok (), t);
  metadata_value := fun _ => Ok ();
|}.

(** ** It behaves as documented *)
Lemma collects_refl t : collects t t.
Proof.
  intros key. destruct (t !! key) as [r|]; [|done]. intros col. by destruct (r !! col).
Qed.

Lemma clean_ok t key row : clean t !! key = Some row -> row_ok key row.
Proof. unfold clean. by intros [_ ?]%map_lookup_filter_Some. Qed.
Lemma clean_id t : map_Forall row_ok t -> clean t = t.
Proof. intros Ht. apply map_filter_id. intros key row Hrow. by apply Ht. Qed.
Lemma clean_idemp t : clean (clean t) = clean t.
Proof. apply clean_id. intros key row. apply clean_ok. Qed.

Lemma write_version_nonempty ts v l : write_version ts v l <> [].
Proof. destruct l as [|[t w] l]; cbn; [done|]. by repeat case_match. Qed.

Lemma apply_row_ok ms key row : key <> "" ->
  (forall r, row = Some r -> row_ok key r) -> forall r, apply_row ms row = Some r -> row_ok key r.
Proof.
  intros Hkey Hrow r. unfold apply_row.
  assert (Hf : forall row, map_Forall (fun _ (l : Versions) => l <> []) row ->
    map_Forall (fun _ (l : Versions) => l <> []) (foldl apply_mutation row ms)).
  { clear. induction ms as [|m ms IH]; intros row Hrow; [done|]. cbn. apply IH.
    destruct m as [f q ts v|]; [|done]. intros k l. cbn. rewrite lookup_partial_alter.
    case_decide; [intros [= <-]; apply write_version_nonempty|apply Hrow]. }
  case_decide as Hne; [done|]. intros [= <-]. split_and!; [done|done|]. apply Hf.
  destruct row as [row|]; [|done]. cbn. by apply Hrow.
Qed.

Lemma clean_apply ms key t : key <> "" ->
  clean (partial_alter (apply_row ms) key (clean t)) = partial_alter (apply_row ms) key (clean t).
Proof.
  intros Hkey. apply clean_id. intros k row. rewrite lookup_partial_alter. case_decide as Hk.
  - subst k. apply apply_row_ok; [done|]. intros r. apply clean_ok.
  - apply clean_ok.
Qed.

Lemma send_cells_row key cs : key <> "" -> cs <> [] -> row_chunks key cs (send_cells key cs).
Proof.
  intros Hkey Hne. assert (Hc : forall q0, cell_chunks key q0 cs (send_cells key cs)).
  { induction cs as [|[q v] cs IH]; [done|]. intros q0. destruct cs as [|c cs].
    - eapply cc_last; [constructor|]. constructor; [by right|by left].
    - change (send_cells key ((q, v) :: c :: cs)) with
        ([{| ck_row_key := key; ck_qualifier := Some q; ck_value := v; ck_value_size := 0;
             ck_row_status := None |}] ++ send_cells key (c :: cs)).
      eapply cc_more; [constructor|constructor; [by right|by left]|]. by apply IH. }
  specialize (Hc None). destruct cs as [|[q v] [|c cs]]; [done|..]; by apply rc_row.
Qed.

Lemma elem_keys_sent rs t k : k ∈ keys_sent rs t <-> selected rs k = true /\ is_Some (t !! k).
Proof.
  unfold keys_sent. rewrite merge_sort_Permutation, list_elem_of_filter, list_elem_of_fmap. split.
  - intros (Hs & [k' r] & -> & Hin%elem_of_map_to_list). by split; [|eexists].
  - intros (Hs & r & Hr). split; [done|]. exists (k, r). split; [done|]. by apply elem_of_map_to_list.
Qed.

Lemma keys_sent_sorted rs t : StronglySorted (fun a b => str_ltb a b = true) (keys_sent rs t).
Proof.
  assert (Hs : StronglySorted key_le (keys_sent rs t)).
  { apply StronglySorted_merge_sort; unfold key_le; apply _. }
  assert (Hnd : NoDup (keys_sent rs t)).
  { unfold keys_sent. rewrite merge_sort_Permutation. apply NoDup_filter, NoDup_fst_map_to_list. }
  induction Hs as [|k l Hs IH Hall]; [constructor|]. apply NoDup_cons in Hnd as [Hk Hnd].
  constructor; [by apply IH|]. apply Forall_forall. intros x Hx.
  rewrite Forall_forall in Hall. specialize (Hall x Hx).
  apply str_leb_le in Hall as [?|<-]; [done|]. by destruct Hk.
Qed.

Lemma selected_selects rs k : selected rs k = true <-> selects rs k.
Proof.
  unfold selected, selects. rewrite orb_true_iff, bool_decide_eq_true, existsb_exists.
  split; (intros [?|Hr]; [by left|right]).
  - destruct Hr as ([a b] & Hin & [? ?]%andb_true_iff). exists a, b. by rewrite list_elem_of_In.
  - destruct Hr as (a & b & Hin & ? & ?). exists (a, b). rewrite <- list_elem_of_In, andb_true_iff. done.
Qed.

Lemma rows_sent_transmits rs t : map_Forall row_ok t ->
  transmits (rows_sent rs t)
    ((fun kc => Ok (E := BoxError) (send_cells kc.1 kc.2)) <$> rows_sent rs t).
Proof.
  intros Ht. exists ((fun kc => send_cells kc.1 kc.2) <$> rows_sent rs t).
  split; [by rewrite <- list_fmap_compose|]. unfold rows_sent.
  assert (Hall : forall k, k ∈ keys_sent rs t -> exists row, t !! k = Some row /\ row_ok k row).
  { intros k [_ [row Hrow]]%elem_keys_sent. exists row. split; [done|]. by apply Ht. }
  induction (keys_sent rs t) as [|k ks IH]; [constructor|].
  destruct (Hall k ltac:(by left)) as (row & Hrow & Hk & Hne & Hvs). cbn. rewrite Hrow. cbn.
  constructor; [done| |apply IH; intros; apply Hall; by right].
  apply send_cells_row; [done|]. unfold cells_sent. intros Hnil%fmap_nil_inv.
  apply map_to_list_empty_iff in Hnil. apply Hne. apply map_eq. intros col.
  rewrite lookup_empty. destruct (row !! col) as [l|] eqn:E; [|done]. exfalso.
  assert (visible row !! col = None) as Hno by (by rewrite Hnil).
  unfold visible, newest in Hno. rewrite lookup_fmap, lookup_omap, E in Hno.
  destruct l; [by apply (Hvs _ _ E)|done].
Qed.

Theorem toy_service : ServiceLaws clean.
Proof.
  split.
  - intros req t t'. cbn. case_decide as Hk; [done|]. intros [= <-].
    rewrite clean_apply by done. apply collects_refl.
  - intros req t b t'. cbn. case_decide as Hk; [done|]. intros [= <- <-] f Hf. rewrite Hf.
    split; [done|]. case_bool_decide as Hb.
    + rewrite clean_apply by done. apply collects_refl.
    + rewrite clean_idemp. apply collects_refl.
  - intros req t stream t'. cbn. intros [= <- <-] _. split; [apply collects_refl|]. intros _.
    exists (rows_sent (rr_rows (req_message req)) (clean t)).
    assert (Hfst : (rows_sent (rr_rows (req_message req)) (clean t)).*1 =
      keys_sent (rr_rows (req_message req)) (clean t)).
    { unfold rows_sent. rewrite <- list_fmap_compose. apply list_fmap_id. }
    rewrite Hfst. split_and!.
    + apply rows_sent_transmits. intros k row. apply clean_ok.
    + apply keys_sent_sorted.
    + intros key. by rewrite elem_keys_sent, selected_selects.
    + intros key cs row Hin Hrow. apply list_elem_of_fmap in Hin as (k & [= -> ->] & _).
      by rewrite Hrow.
Qed.
