(* ===== verification/BigtableScans.v ===== *)
(** * Scans of the Bigtable adapter

    The operations that read every row under a prefix: the backlog of a user
    agent, the queue of a receipt subscription, and the subscriptions of a
    user agent. *)
From Stdlib Require Import Ascii.
From S2P Require Import Prelude RustStr External StoreTypes Store Bridge Client GcpAuth BigtableWire BigtableService Bigtable BigtableTheorems BigtableRows BigtableRuns.

(** Rows in the order of their keys. *)
Abbreviation keys_sorted := (StronglySorted (fun a b => str_ltb a b = true)).

Lemma keys_sorted_NoDup l : keys_sorted l -> NoDup l.
Proof.
  induction l as [|k l IH]; [constructor|]. intros [Hs Hk]%StronglySorted_inv. constructor; [|by apply IH].
  intros Hin. rewrite Forall_forall in Hk. specialize (Hk k Hin). by rewrite str_ltb_irrefl in Hk.
Qed.

Lemma omap_pairs {A B C} (f : A -> B -> option C) (l : list (A * B)) :
  omap (fun '(a, b) => f a b) l = omap (fun ab => f ab.1 ab.2) l.
Proof. induction l as [|[a b] l IH]; [done|]. cbn. by rewrite IH. Qed.

Lemma str_app_assoc3 (a b c : string) : a +:+ b +:+ c = (a +:+ b) +:+ c.
Proof. symmetry. apply app_assoc_str. Qed.

Section scans.
Context `{HT : Http} `{B64 : Base64} `{JS : Json} `{RSA : Rsa} `{HO : Host} `{GS : GcpSerde}
  `{SX : StatusText} {T : Type} `{RPC : BigtableRpc T} `{RE : Re2}.
Context (tbl : T -> Table) (laws : ServiceLaws tbl) (self : BigtableStore).
Implicit Types (w : Env * BtWorld (T := T)).

(** ** Decoding what a scan reads

    The rows under [p] are those of the items [xs]: [key] says where an item
    is, [cols] what its columns are. *)
Section decode.
Context {X : Type} (family : string) (key : X -> string) (cols : X -> list (string * Bytes)).
Context (decode : string -> Row -> option X).

Record rows_of (t : Table) (p : string) (xs : list X) : Prop := {
  ro_NoDup : NoDup (key <$> xs);
  ro_keys k : starts_with (p +:+ "#") k = true /\ is_Some (t !! k) <-> k ∈ key <$> xs;
  ro_utf8 x : x ∈ xs -> utf8_valid (key x) = true;
  ro_cells x f q v : x ∈ xs -> snd <$> cell t (key x) (f, q) = Some v <-> f = family /\ (q, v) ∈ cols x;
}.

Lemma scan_spec (good : X -> Prop) p xs w rows w' :
  (forall x row, good x -> (forall q v, row !! q = Some v <-> (q, v) ∈ cols x) -> decode (key x) row = Some x) ->
  Forall good xs -> rows_of (wtable tbl w) p xs -> read self (prefix (p +:+ "#")) w = (Ok rows, w') ->
  collects (wtable tbl w) (wtable tbl w') /\
  let out := omap (fun kr => decode kr.1 kr.2) rows in
  out ≡ₚ xs /\ key <$> out = rows.*1 /\ keys_sorted rows.*1.
Proof.
  intros Hdec Hgood [Hnd Hkeys Hu Hcells] Hread.
  assert (Hsel : forall k, selects (prefix (p +:+ "#")) k /\ is_Some (wtable tbl w !! k) <-> k ∈ key <$> xs).
  { intros k. by rewrite prefix_selects. }
  apply (read_spec tbl laws self) in Hread as (_ & Hc & Hsort & Hrk & Hrow).
  2:{ intros k Hk1 Hk2. pose proof (proj1 (Hsel k) (conj Hk1 Hk2)) as Hk.
      apply list_elem_of_fmap in Hk as (x & -> & Hx). by apply Hu. }
  setoid_rewrite Hsel in Hrk. split; [done|]. cbv zeta.
  rewrite Forall_forall in Hgood.
  assert (Hone : forall k row, (k, row) ∈ rows -> exists x, x ∈ xs /\ k = key x /\ decode k row = Some x).
  { intros k row Hin. assert (Hk : k ∈ rows.*1) by (apply list_elem_of_fmap; by exists (k, row)).
    apply Hrk, list_elem_of_fmap in Hk as (x & -> & Hx). exists x. split_and!; [done..|].
    apply Hdec; [by apply Hgood|]. intros q v.
    rewrite (Hrow _ _ family q Hin); [rewrite (Hcells x family q v Hx); naive_solver|].
    intros f q' [[ts v'] Hv]. apply (proj1 (Hcells x f q' v' Hx)). by rewrite Hv. }
  assert (Hmap : key <$> omap (fun kr => decode kr.1 kr.2) rows = rows.*1).
  { clear -Hone. induction rows as [|[k row] rows IH]; [done|]. cbn.
    destruct (Hone k row) as (x & _ & -> & ->); [by left|]. cbn. f_equal. apply IH. intros ???. apply Hone. by right. }
  split; [|by split]. apply NoDup_Permutation.
  - apply (NoDup_fmap_1 key). rewrite Hmap. by apply keys_sorted_NoDup.
  - by apply (NoDup_fmap_1 key).
  - intros x. rewrite list_elem_of_omap. split.
    + intros ([k row] & Hin & Hd). destruct (Hone _ _ Hin) as (y & Hy & _ & Hd'). cbn in Hd. congruence.
    + intros Hx. assert (Hk : key x ∈ rows.*1) by (apply Hrk, list_elem_of_fmap; eauto).
      apply list_elem_of_fmap in Hk as ([k row] & Hkx & Hin). cbn in Hkx. subst k.
      exists (key x, row). split; [done|]. destruct (Hone _ _ Hin) as (y & Hy & Hkey & Hd).
      cbn. rewrite Hd. f_equal. clear -Hnd Hy Hx Hkey.
      apply list_elem_of_lookup in Hy as [i Hi]. apply list_elem_of_lookup in Hx as [j Hj].
      assert (i = j) as ->; [|congruence].
      apply (NoDup_lookup (key <$> xs) i j (key x)); [done|rewrite list_lookup_fmap..];
        [by rewrite Hi, Hkey|by rewrite Hj].
Qed.
End decode.

(** ** The backlog *)

(** The pending messages of a user agent are its unexpired messages, the
    oldest first, up to the limit, whatever the order of the rows. *)
Theorem pending_in_order uaid now limit ms w ps w' :
  rows_of M message_key message_cols (wtable tbl w) ("msg#" +:+ uaid) ms -> Forall storable ms ->
  pending self uaid now limit w = (Ok ps, w') ->
  collects (wtable tbl w) (wtable tbl w') /\ exists all,
    StronglySorted msg_le all /\ all ≡ₚ filter (fun m => (now < m_expiry m)%N) ms /\ ps = truncate limit all.
Proof.
  intros Hrows Hst. unfold pending. unfold mbind at 1, est_bind at 1.
  destruct (read self _ w) as [[rows|] w1] eqn:Hr; [|done]. intros [= <- <-].
  rewrite str_app_assoc3 in Hr.
  eapply (scan_spec M message_key message_cols message_from_row storable) in Hr as (Hc & Hp & _ & _);
    [|intros; by apply message_from_cols|done|done].
  split; [done|]. eexists. split; [|split; [|reflexivity]].
  - by apply StronglySorted_merge_sort; apply _.
  - by rewrite merge_sort_Permutation, <- Hp, <- (omap_pairs message_from_row).
Qed.

(** ** Receipts *)
Definition receipt_key (sr : N * Receipt) : string := "rq#" +:+ r_rsub sr.2 +:+ "#" +:+ hex16 sr.1.
Definition receipt_cols (sr : N * Receipt) : list (string * Bytes) :=
  [("msg", as_bytes (r_msg_id sr.2)); ("status", as_bytes (to_string (r_status sr.2)))].
(** A receipt of [rsub] as [enqueue_receipt] writes it. *)
Definition queueable (rsub : string) (sr : N * Receipt) : Prop :=
  (sr.1 <= u64_max)%N /\ r_rsub sr.2 = rsub /\ utf8_valid (r_msg_id sr.2) = true /\ (r_status sr.2 <= 65535)%N.

Lemma receipt_decodes rsub sr row : queueable rsub sr ->
  (forall q v, (row : Row) !! q = Some v <-> (q, v) ∈ receipt_cols sr) ->
  receipt_from_row rsub (receipt_key sr) row = Some sr.
Proof.
  intros (Hseq & Hr & Hid & Hst) Hrow. unfold receipt_from_row, receipt_key.
  assert (rsplit_first (char_is 35) ("rq#" +:+ r_rsub sr.2 +:+ "#" +:+ hex16 sr.1) = hex16 sr.1) as ->.
  { rewrite str_app_assoc3. change ("#" +:+ hex16 sr.1) with (String "#" (hex16 sr.1)).
    apply rsplit_first_app; [done|]. eapply str_all_impl; [|apply hex_w_all].
    intros c Hc. destruct (char_is 35 c) eqn:E; [|done]. apply N.eqb_eq in E.
    unfold is_ascii_digit, between in Hc. rewrite E in Hc. discriminate Hc. }
  rewrite parse_hex16 by done. cbn [mbind option_bind].
  rewrite (text_cell _ "msg" (r_msg_id sr.2)); [|apply Hrow; by left|done]. cbn [mbind option_bind].
  rewrite (number_cell _ "status" (r_status sr.2)); [|apply Hrow; right; by left|].
  2:{ change u64_max with 18446744073709551615%N. lia. }
  unfold u16_try_from.
cbn [mbind option_bind].
  rewrite decide_True by (change (2 ^ 16)%N with 65536%N; lia). cbn [mbind option_bind]. subst rsub. by destruct sr as [? []].
Qed.

(** The keys of a queue are in the order of the numbers. *)
Lemma queue_sorted rsub got : Forall (queueable rsub) got -> keys_sorted (receipt_key <$> got) -> StronglySorted N.lt got.*1.
Proof.
  intros Hall Hs. induction got as [|sr got IH]; [constructor|].
  apply Forall_cons in Hall as [(Hn & Hr & _) Hall]. apply StronglySorted_inv in Hs as [Hs Hlt].
  constructor; [by apply IH|]. apply Forall_forall. intros n Hin.
  apply list_elem_of_fmap in Hin as (sr2 & -> & Hin).
  pose proof (proj1 (Forall_forall _ _) Hall _ Hin) as (Hn2 & Hr2 & _).
  apply (proj1 (Forall_forall _ _)) with (x := receipt_key sr2) in Hlt; [|by apply list_elem_of_fmap_2].
  unfold receipt_key in Hlt.
  rewrite Hr, Hr2, !str_ltb_prefix in Hlt. unfold hex16 in Hlt.
  rewrite <- (app_nil_r_str (hex_w 16 sr.1)), <- (app_nil_r_str (hex_w 16 sr2.1)) in Hlt.
  change u64_max with 18446744073709551615%N in *.
  apply hex_w_ltb in Hlt as [Hlt|[_ Hno]]; [done|discriminate Hno|..]; cbn; lia.
Qed.

(** The queue of a receipt subscription is read whole and in the order in
    which its receipts were numbered. *)
Theorem queued_receipts_in_order rsub rs w got w' :
  rows_of D receipt_key receipt_cols (wtable tbl w) ("rq#" +:+ rsub) rs -> Forall (queueable rsub) rs ->
  queued_receipts self rsub w = (Ok got, w') ->
  collects (wtable tbl w) (wtable tbl w') /\ got ≡ₚ rs /\ StronglySorted N.lt got.*1.
Proof.
  intros Hrows Hq. unfold queued_receipts. unfold mbind at 1, est_bind at 1.
  destruct (read self _ w) as [[rows|] w1] eqn:Hr; [|done]. intros [= <- <-].
  rewrite str_app_assoc3 in Hr.
  eapply (scan_spec D receipt_key receipt_cols (receipt_from_row rsub) (queueable rsub)) in Hr as (Hc & Hp & Hk & Hs);
    [|intros; by apply receipt_decodes|done|done].
  rewrite (omap_pairs (receipt_from_row rsub)). cbv zeta in *.
  set (got := omap _ rows) in *. clearbody got. split_and!; [done|exact Hp|].
  apply (queue_sorted rsub); [by rewrite Hp|by rewrite Hk].
Qed.

(** ** Subscriptions *)
Definition sub_key (s : Subscription) : string := "ch#" +:+ sub_uaid s +:+ "#" +:+ sub_channel_id s.
Definition sub_cols (s : Subscription) : list (string * Bytes) :=
  ("push", as_bytes (sub_push s)) :: match sub_vapid s with Some key => [("vapid", key)] | None => [] end.
(** A subscription of [uaid] as [create_subscription] writes it. *)
Definition listed (uaid : string) (s : Subscription) : Prop :=
  sub_uaid s = uaid /\ str_all (fun c => negb (char_is 35 c)) (sub_channel_id s) = true /\
  utf8_valid (sub_push s) = true /\ (forall k, sub_vapid s = Some k -> length k = 65).
Definition sub_from_row (uaid key : string) (row : Row) : option Subscription :=
  (fun push => {| sub_uaid := uaid; sub_channel_id := rsplit_first (char_is 35) key;
                  sub_push := push; sub_vapid := vapid_of row |}) <$> text row "push".

Lemma sub_decodes uaid s row : listed uaid s ->
  (forall q v, (row : Row) !! q = Some v <-> (q, v) ∈ sub_cols s) -> sub_from_row uaid (sub_key s) row = Some s.
Proof.
  intros (Hu & Hch & Hp & Hv) Hrow. unfold sub_from_row, sub_key.
  rewrite (text_cell _ "push" (sub_push s)); [|apply Hrow; by left|done]. cbn [fmap option_fmap option_map].
  rewrite str_app_assoc3. change ("#" +:+ sub_channel_id s) with (String "#" (sub_channel_id s)).
  rewrite rsplit_first_app by done.
  assert (vapid_of row = sub_vapid s) as ->; [|subst uaid; by destruct s].
  unfold vapid_of. unfold sub_cols in Hrow. destruct (sub_vapid s) as [k|].
  - rewrite (proj2 (Hrow "vapid" k)) by (right; by left). cbn. by rewrite decide_True by by apply Hv.
  - destruct (row !! "vapid") as [k|] eqn:E; [|done]. apply Hrow in E.
    apply list_elem_of_singleton in E. discriminate E.
Qed.

(** All subscriptions of a user agent are listed, each once. *)
Theorem subscriptions_complete uaid ss w got w' :
  rows_of D sub_key sub_cols (wtable tbl w) ("ch#" +:+ uaid) ss -> Forall (listed uaid) ss ->
  subscriptions self uaid w = (Ok got, w') ->
  collects (wtable tbl w) (wtable tbl w') /\ got ≡ₚ ss.
Proof.
  intros Hrows Hl. unfold subscriptions. unfold mbind at 1, est_bind at 1.
  destruct (read self _ w) as [[rows|] w1] eqn:Hr; [|done]. intros [= <- <-].
  rewrite str_app_assoc3 in Hr.
  eapply (scan_spec D sub_key sub_cols (sub_from_row uaid) (listed uaid)) in Hr as (Hc & Hp & _);
    [|intros; by apply sub_decodes|done|done].
  split; [done|]. rewrite <- Hp, <- (omap_pairs (sub_from_row uaid)). reflexivity.
Qed.
End scans.

(** ** Deciding what a table holds *)
Definition row_cells_of (t : Table) (key : string) : gmap (string * string) Bytes :=
  snd <$> default ∅ (ntable t !! key).
Definition holds_item {X} (family : string) (key : X -> string) (cols : X -> list (string * Bytes))
    (t : Table) (p : string) (x : X) : bool :=
  starts_with (p +:+ "#") (key x) && bool_decide (is_Some (t !! key x)) && utf8_valid (key x) &&
  bool_decide (NoDup (cols x).*1) &&
  bool_decide (row_cells_of t (key x) = list_to_map ((fun cv => ((family, cv.1), cv.2)) <$> cols x)).
Definition rows_of_check {X} (family : string) (key : X -> string) (cols : X -> list (string * Bytes)) (t : Table) (p : string) (xs : list X) : bool :=
  bool_decide (NoDup (key <$> xs)) &&
  bool_decide (map_Forall (fun k _ => starts_with (p +:+ "#") k = true -> k ∈ key <$> xs) t) &&
  forallb (holds_item family key cols t p) xs.

Lemma rows_of_checked {X} (family : string) (key : X -> string) (cols : X -> list (string * Bytes)) t p xs :
  rows_of_check family key cols t p xs = true -> rows_of family key cols t p xs.
Proof.
  intros [[Hnd%bool_decide_eq_true Hall%bool_decide_eq_true]%andb_true_iff Hx]%andb_true_iff.
  rewrite forallb_forall in Hx.
  assert (Hitem : forall x, x ∈ xs -> starts_with (p +:+ "#") (key x) = true /\ is_Some (t !! key x) /\
    utf8_valid (key x) = true /\ NoDup (cols x).*1 /\
    row_cells_of t (key x) = list_to_map ((fun cv => ((family, cv.1), cv.2)) <$> cols x)).
  { intros x Hin%list_elem_of_In%Hx. unfold holds_item in Hin. rewrite !andb_true_iff, !bool_decide_eq_true in Hin.
    tauto. }
  split; [done| |by intros x Hin; apply Hitem|].
  - intros k. split.
    + intros [Hs [row Hrow]]. exact (Hall _ _ Hrow Hs).
    + intros Hk. apply list_elem_of_fmap in Hk as (x & -> & Hin). destruct (Hitem x Hin) as (? & ? & _). done.
  - intros x f q v Hin. destruct (Hitem x Hin) as (_ & _ & _ & Hc & Hrow).
    assert (snd <$> cell t (key x) (f, q) = row_cells_of t (key x) !! (f, q)) as ->.
    { unfold cell, row_cells_of. rewrite lookup_fmap. by destruct (ntable t !! key x). }
    rewrite Hrow, <- elem_of_list_to_map.
    + rewrite list_elem_of_fmap. split; [by intros ([k y] & [= -> -> ->] & ?)|]. intros [-> Hv]. by exists (q, v).
    + rewrite <- list_fmap_compose. change (NoDup (pair family ∘ fst <$> cols x)).
      rewrite (list_fmap_compose fst (pair family)). apply NoDup_fmap; [|done]. by intros ? ? [= ->].
Qed.
