(* ===== verification/BigtableContents.v ===== *)
(** * What the primitives do to the contents of a table

    The contents of a table are its rows with the newest value of every
    column. Under [ServiceLaws], with one clock that does not go back, every
    primitive of the adapter acts on the contents as its name says: there are
    no versions to see any more. *)
From Stdlib Require Import Ascii.
From S2P Require Import Prelude RustStr External StoreTypes Store Bridge Client GcpAuth BigtableWire BigtableService Bigtable BigtableTheorems BigtableRows BigtableRuns.

Abbreviation Contents := (gmap string (gmap (string * string) Bytes)).
Definition contents (t : Table) : Contents := visible <$> t.
(** The row with these columns in one family, and how it is read. *)
Definition colsmap (family : string) (cols : list (string * Bytes)) : gmap (string * string) Bytes :=
  list_to_map ((fun cv => ((family, cv.1), cv.2)) <$> cols).
Definition rowmap (cols : list (string * Bytes)) : Row := list_to_map cols.

Lemma contents_ntable t : contents t = (fun r : NRow => snd <$> r) <$> ntable t.
Proof. unfold contents, ntable. by rewrite <- map_fmap_compose. Qed.
Lemma contents_collects t t' : collects t t' -> contents t' = contents t.
Proof. intros Hc. rewrite !contents_ntable. by rewrite (collects_newest _ _ Hc). Qed.
Lemma contents_cell t key col : snd <$> cell t key col = r ← contents t !! key; (r : gmap _ _) !! col.
Proof.
  rewrite contents_ntable, lookup_fmap. unfold cell. destruct (ntable t !! key) as [r|]; [|done]. cbn.
  by rewrite lookup_fmap.
Qed.
Lemma contents_some t key : is_Some (contents t !! key) <-> is_Some (t !! key).
Proof. unfold contents. by rewrite lookup_fmap, fmap_is_Some. Qed.

Lemma colsmap_lookup family cols f q v : NoDup cols.*1 ->
  colsmap family cols !! (f, q) = Some v <-> f = family /\ (q, v) ∈ cols.
Proof.
  intros Hnd. unfold colsmap. rewrite <- elem_of_list_to_map.
  - rewrite list_elem_of_fmap. split; [by intros ([k x] & [= -> -> ->] & ?)|]. intros [-> Hin]. by exists (q, v).
  - rewrite <- list_fmap_compose. change (NoDup (pair family ∘ fst <$> cols)).
    rewrite (list_fmap_compose fst (pair family)). apply NoDup_fmap; [|done]. by intros ? ? [= ->].
Qed.
Lemma rowmap_lookup cols q v : NoDup cols.*1 -> rowmap cols !! q = Some v <-> (q, v) ∈ cols.
Proof. intros Hnd. unfold rowmap. by rewrite <- elem_of_list_to_map. Qed.
Lemma colsmap_rowmap family cols q : NoDup cols.*1 -> colsmap family cols !! (family, q) = rowmap cols !! q.
Proof. intros Hnd. apply option_eq. intros v. rewrite colsmap_lookup, rowmap_lookup by done. naive_solver. Qed.
Lemma colsmap_nonempty family cols : cols <> [] -> colsmap family cols <> ∅.
Proof.
  destruct cols as [|[q v] cols]; [done|]. intros _ Hm. apply (f_equal (lookup (family, q))) in Hm. revert Hm.
  unfold colsmap. cbn. by rewrite lookup_insert_eq.
Qed.

(** Writing every column of a row again leaves the new values. *)
Lemma colsmap_union family cols cols0 : NoDup cols.*1 -> NoDup cols0.*1 -> (forall q, q ∈ cols0.*1 -> q ∈ cols.*1) ->
  colsmap family cols ∪ colsmap family cols0 = colsmap family cols.
Proof.
  intros Hnd Hnd0 Hsub. apply map_eq. intros [f q]. apply option_eq. intros v. rewrite lookup_union_Some_raw. split; [|by left].
  intros [?|[Hno Hv]]; [done|]. exfalso. apply colsmap_lookup in Hv as [-> Hin]; [|done].
  assert (Hq : q ∈ cols.*1) by (apply Hsub, list_elem_of_fmap; by exists (q, v)).
  apply list_elem_of_fmap in Hq as ([q' v'] & -> & Hq).
  assert (colsmap family cols !! (family, q') = Some v') as Hs by (by apply colsmap_lookup). cbn in Hno. congruence.
Qed.

(** ** Time *)

(** The clock does not go back, and no cell of the [D] family was stamped
    later than the next reading. *)
Definition steady (e : Env) : Prop := forall i j, i <= j -> (env_clock e i <= env_clock e j)%N.
Definition stamped (e : Env) (t : Table) : Prop := forall k q ts v, cell t k (D, q) = Some (ts, v) ->
  forall i, env_ticks e <= i -> (ts <= Z.of_N (env_clock e i) * 1000)%Z.

Lemma stamped_cells e e' t t' : env_steps e e' -> stamped e t ->
  (forall k q c, cell t' k (D, q) = Some c -> cell t k (D, q) = Some c) -> stamped e' t'.
Proof.
  intros [He _] Hs Hc k q ts v Hcell i Hi. apply Hc in Hcell. rewrite (ext_clock _ _ He).
  eapply Hs; [done|]. pose proof (ext_ticks _ _ He). lia.
Qed.

(** Newest cells written with a stamp that none of theirs is ahead of. *)
Lemma write_cells family ts cols : forall (row : NRow), NoDup cols.*1 ->
  (forall q t v, q ∈ cols.*1 -> row !! (family, q) = Some (t, v) -> (t <= cast_signed (wrap64 (ts * 1000)))%Z) ->
  foldl apply_newest row (set_cells family ts cols) =
    ((fun v => (cast_signed (wrap64 (ts * 1000)), v)) <$> colsmap family cols) ∪ row.
Proof.
  induction cols as [|[q v] cols IH]; intros row Hnd Hle.
  { unfold colsmap. cbn. by rewrite fmap_empty, (left_id_L ∅ (∪)). }
  apply NoDup_cons in Hnd as [Hq Hnd]. cbn [set_cells fmap list_fmap foldl set_cell apply_newest fst snd].
  change ((fun cv : string * Bytes => set_cell family cv.1 cv.2 ts) <$> cols) with (set_cells family ts cols).
  rewrite IH; [|done|].
  - unfold colsmap. cbn [fmap list_fmap list_to_map foldr fst snd uncurry].
    rewrite fmap_insert, <- insert_union_l. unfold write_newest.
    assert (Hw : match row !! (family, q) with
      | Some (t, w) => if (cast_signed (wrap64 (ts * 1000)) <? t)%Z then (t, w) else (cast_signed (wrap64 (ts * 1000)), v)
      | None => (cast_signed (wrap64 (ts * 1000)), v) end = (cast_signed (wrap64 (ts * 1000)), v)).
    { destruct (row !! (family, q)) as [[t w]|] eqn:E; [|done]. apply Hle in E; [|by left].
      destruct (Z.ltb_spec (cast_signed (wrap64 (ts * 1000))) t); [lia|done]. }
    rewrite Hw. rewrite insert_union_r; [done|]. rewrite lookup_fmap. fold (colsmap family cols).
    destruct (colsmap family cols !! (family, q)) as [x|] eqn:E; [|done].
    apply colsmap_lookup in E as [_ E]; [|done]. destruct Hq. apply list_elem_of_fmap. by exists (q, x).
  - intros q' t w Hin. unfold write_newest. rewrite lookup_insert_ne by (intros [= ->]; done). apply Hle. by right.
Qed.

Section primitives.
Context `{HT : Http} `{B64 : Base64} `{JS : Json} `{RSA : Rsa} `{HO : Host} `{GS : GcpSerde}
  `{SX : StatusText} {T : Type} `{RPC : BigtableRpc T} `{RE : Re2}.
Context (tbl : T -> Table) (laws : ServiceLaws tbl) `{!Re2Laws} (self : BigtableStore).
Implicit Types (w : Env * BtWorld (T := T)).
Abbreviation table_of w := (wtable tbl w) (only parsing).
Definition wcontents w : Contents := contents (wtable tbl w).

(** The world keeps time. *)
Record in_time w : Prop := {
  it_steady : steady w.1;
  it_fits : clock_fits w.1;
  it_stamped : stamped w.1 (wtable tbl w);
}.
Lemma in_time_cells w w' : env_steps w.1 w'.1 -> in_time w ->
  (forall k q c, cell (table_of w') k (D, q) = Some c -> cell (table_of w) k (D, q) = Some c) -> in_time w'.
Proof.
  intros He [Hst Hf Hs] Hc. pose proof (ext_clock _ _ (proj1 He)) as Hcl. split.
  - intros i j. rewrite Hcl. apply Hst.
  - intros i. rewrite Hcl. apply Hf.
  - by eapply stamped_cells.
Qed.

(** What a call leaves behind: time goes on, and the contents are [c]. *)
Record leaves w w' (c : Contents) : Prop := {
  lv_env : env_steps w.1 w'.1;
  lv_time : in_time w';
  lv_contents : wcontents w' = c;
}.
Lemma leaves_trans w w1 w2 c : leaves w w1 (wcontents w1) -> leaves w1 w2 c -> leaves w w2 c.
Proof. intros [He _ _] [He2 Ht Hc]. split; [by etrans|done|done]. Qed.
Lemma leaves_same w w1 w2 c : leaves w w1 (wcontents w) -> (wcontents w1 = wcontents w -> leaves w1 w2 c) -> leaves w w2 c.
Proof. intros [He _ Hc] H2. destruct (H2 Hc) as [He2 Ht Hc2]. split; [by etrans|done|done]. Qed.

(** *** Writing *)
Lemma mutated_some (ms : list Mutation) (key : string) (t t' : Table) (n : NRow) :
  collects (partial_alter (apply_row ms) key t) t' -> foldl apply_newest (default ∅ (ntable t !! key)) ms = n ->
  n <> ∅ -> ntable t' = <[ key := n ]> (ntable t).
Proof.
  intros Hc Hn Hne. rewrite (collects_newest _ _ Hc). apply map_eq. intros k. unfold ntable in *.
  rewrite lookup_fmap, lookup_partial_alter, lookup_insert. case_decide as Hk; [|by rewrite lookup_fmap].
  subst k. rewrite lookup_fmap in Hn.
  assert (Hd : newest (default ∅ (t !! key)) = default ∅ (newest <$> t !! key)) by (by destruct (t !! key)).
  unfold apply_row. case_decide as He.
  - destruct Hne. rewrite <- Hn, <- Hd, <- newest_apply_all, He. done.
  - cbn. by rewrite newest_apply_all, Hd, Hn.
Qed.
Lemma mutated_delete (key : string) (t t' : Table) :
  collects (partial_alter (apply_row [delete_row]) key t) t' -> ntable t' = base.delete key (ntable t).
Proof.
  intros Hc. rewrite (collects_newest _ _ Hc). apply map_eq. intros k. unfold ntable.
  rewrite lookup_fmap, lookup_partial_alter, lookup_delete. case_decide as Hk; [done|]. by rewrite lookup_fmap.
Qed.
Lemma contents_insert (t t' : Table) (key : string) (n : NRow) : ntable t' = <[ key := n ]> (ntable t) ->
  contents t' = <[ key := snd <$> n ]> (contents t).
Proof. intros Hn. rewrite !contents_ntable, Hn. by rewrite fmap_insert. Qed.
Lemma contents_delete (t t' : Table) (key : string) : ntable t' = base.delete key (ntable t) -> contents t' = base.delete key (contents t).
Proof. intros Hn. rewrite !contents_ntable, Hn. by rewrite fmap_delete. Qed.

Lemma ntable_cell t k col c : cell t k col = Some c <-> exists n, ntable t !! k = Some n /\ n !! col = Some c.
Proof. unfold cell. apply bind_Some. Qed.

Lemma delete_leaves key w w' : in_time w -> delete self key w = (Ok (), w') ->
  leaves w w' (base.delete key (wcontents w)).
Proof.
  intros Ht Hd. apply (mutate_spec tbl laws) in Hd as [He Hc]. apply mutated_delete in Hc.
  split; [done| |by apply contents_delete]. apply (in_time_cells _ _ He Ht).
  intros k q c. rewrite !ntable_cell, Hc. intros (n & [_ ?]%lookup_delete_Some & ?). eauto.
Qed.

(** A row of another family than [D], written whole or for the first time. *)
Lemma cells_leaves key family ts cols ms w w' : in_time w -> family <> D -> NoDup cols.*1 -> cols <> [] ->
  foldl apply_newest (default ∅ (ntable (table_of w) !! key)) ms = foldl apply_newest ∅ (set_cells family ts cols) ->
  mutate self key ms w = (Ok (), w') ->
  leaves w w' (<[ key := colsmap family cols ]> (wcontents w)).
Proof.
  intros Ht Hf Hnd Hne Hms Hm. apply (mutate_spec tbl laws) in Hm as [He Hc].
  assert (Hn : foldl apply_newest ∅ (set_cells family ts cols) =
    (fun v => (cast_signed (wrap64 (ts * 1000)), v)) <$> colsmap family cols).
  { rewrite write_cells by done. by rewrite (right_id_L ∅ (∪)). }
  rewrite Hn in Hms. eapply mutated_some in Hc; [|exact Hms|by rewrite fmap_empty_iff; apply colsmap_nonempty].
  split; [done| |].
  - apply (in_time_cells _ _ He Ht). intros k q c. rewrite !ntable_cell, Hc.
    intros (n & [[_ <-]|[_ ?]]%lookup_insert_Some & Hq); [|by eauto]. exfalso.
    rewrite lookup_fmap, fmap_Some in Hq. destruct Hq as (v & Hq & _). apply colsmap_lookup in Hq as [? _]; done.
  - unfold wcontents. rewrite (contents_insert _ _ _ _ Hc), <- map_fmap_compose. change (snd ∘ _) with (@id Bytes). by rewrite map_fmap_id.
Qed.
Lemma rewrite_leaves key family ts cols w w' : in_time w -> family <> D -> NoDup cols.*1 -> cols <> [] ->
  mutate self key (delete_row :: set_cells family ts cols) w = (Ok (), w') ->
  leaves w w' (<[ key := colsmap family cols ]> (wcontents w)).
Proof. intros Ht Hf Hnd Hne Hm. eapply (cells_leaves key family ts cols); [done..| |exact Hm]. done. Qed.
Lemma set_absent_leaves key family ts cols w w' : in_time w -> family <> D -> NoDup cols.*1 -> cols <> [] ->
  wcontents w !! key = None -> mutate self key (set_cells family ts cols) w = (Ok (), w') ->
  leaves w w' (<[ key := colsmap family cols ]> (wcontents w)).
Proof.
  intros Ht Hf Hnd Hne Hno Hm. eapply (cells_leaves key family ts cols); [done..| |exact Hm].
  unfold wcontents in Hno. rewrite contents_ntable, lookup_fmap, fmap_None in Hno. by rewrite Hno.
Qed.

(** What a write to the family [D] stamps is not behind what is there. *)
Lemma stamp_now w w' ms : in_time w -> read_clock w.1 w'.1 ms ->
  cast_signed (wrap64 (ms * 1000)) = (Z.of_N ms * 1000)%Z /\
  (forall k q t v, cell (table_of w) k (D, q) = Some (t, v) -> (t <= Z.of_N ms * 1000)%Z) /\
  forall e, env_steps w'.1 e -> env_steps w.1 w'.1 -> forall i, env_ticks e <= i ->
    (Z.of_N ms * 1000 <= Z.of_N (env_clock e i) * 1000)%Z.
Proof.
  intros [Hst Hf Hs] Hms. split; [by eapply stamp|]. destruct Hms as (j & Hj & ->). specialize (Hf j) as Hfj.
  change (2 ^ 63)%N with 9223372036854775808%N in Hfj.
  rewrite N.min_l by (change u64_max with 18446744073709551615%N; lia). split.
  - intros k q t v Hc. eapply Hs; [done|lia].
  - intros e He He' i Hi. pose proof (ext_ticks _ _ (proj1 He)).
    rewrite (ext_clock _ _ (proj1 He)), (ext_clock _ _ (proj1 He')). specialize (Hst j i). lia.
Qed.

Lemma stamped_leaves key cols ms w w' : in_time w -> NoDup cols.*1 -> cols <> [] ->
  env_steps w.1 w'.1 -> read_clock w.1 w'.1 ms ->
  collects (partial_alter (apply_row (set_cells D ms cols)) key (table_of w)) (table_of w') ->
  leaves w w' (<[ key := colsmap D cols ∪ default ∅ (wcontents w !! key) ]> (wcontents w)).
Proof.
  intros Ht Hnd Hne He Hms Hc.
  destruct (stamp_now _ _ _ Ht Hms) as (Hst & Hle & Hlate).
  assert (Hn : foldl apply_newest (default ∅ (ntable (table_of w) !! key)) (set_cells D ms cols) =
    ((fun v => (Z.of_N ms * 1000, v)%Z) <$> colsmap D cols) ∪ default ∅ (ntable (table_of w) !! key)).
  { rewrite write_cells; [by rewrite Hst|done|]. intros q t v _ Hq. rewrite Hst. apply (Hle key q t v), ntable_cell.
    destruct (ntable (table_of w) !! key) as [n|]; [by exists n|done]. }
  eapply mutated_some in Hc; [|exact Hn|].
  2:{ intros Hu. apply map_positive_l in Hu. rewrite fmap_empty_iff in Hu. by apply colsmap_nonempty in Hu. }
  split; [done| |].
  - destruct Ht as [Hsteady Hfit Hs]. pose proof (ext_clock _ _ (proj1 He)) as Hcl. split.
    + intros i j. rewrite Hcl. apply Hsteady.
    + intros i. rewrite Hcl. apply Hfit.
    + intros k q ts v Hcell i Hi. apply ntable_cell in Hcell as (n & Hk & Hq). rewrite Hc in Hk.
      apply lookup_insert_Some in Hk as [[<- <-]|[Hk Hn']].
      * apply lookup_union_Some_raw in Hq as [Hq|[_ Hq]].
        -- rewrite lookup_fmap, fmap_Some in Hq. destruct Hq as (x & _ & [= -> ->]). by apply (Hlate _ (reflexivity _) He).
        -- apply (stamped_cells _ _ _ _ He Hs (fun _ _ _ H => H) key q ts v); [|done]. apply ntable_cell.
           destruct (ntable (table_of w) !! key) as [n0|]; [by exists n0|done].
      * apply (stamped_cells _ _ _ _ He Hs (fun _ _ _ H => H) k q ts v); [|done]. apply ntable_cell. by exists n.
  - unfold wcontents. rewrite (contents_insert _ _ _ _ Hc), map_fmap_union, <- map_fmap_compose.
    change (snd ∘ _) with (@id Bytes). rewrite map_fmap_id. f_equal. f_equal.
    rewrite contents_ntable, lookup_fmap. by destruct (ntable (table_of w) !! key).
Qed.
Lemma put_leaves key cols w w' : in_time w -> NoDup cols.*1 -> cols <> [] ->
  put self key D cols w = (Ok (), w') ->
  leaves w w' (<[ key := colsmap D cols ∪ default ∅ (wcontents w !! key) ]> (wcontents w)).
Proof.
  intros Ht Hnd Hne Hp. apply (put_spec tbl laws) in Hp as (He & ms & Hms & Hc). by eapply stamped_leaves.
Qed.

(** A call that leaves the rows as they are. *)
Lemma same_leaves w w' : in_time w -> env_steps w.1 w'.1 -> collects (table_of w) (table_of w') ->
  leaves w w' (wcontents w).
Proof.
  intros Ht He Hc. split; [done| |by apply contents_collects]. apply (in_time_cells _ _ He Ht).
  intros k q c. by rewrite (cell_collects _ _ _ _ Hc).
Qed.

Lemma filter_contents key family col v w : str_all is_ascii_alphanumeric family = true -> ascii_only col ->
  (forall x, v = Some x -> ascii_only x) ->
  eval_filter (column_filter family col v) (cells (default ∅ (table_of w !! key))) <> [] <->
  match v with
  | Some x => (r ← wcontents w !! key; (r : gmap _ _) !! (family, col)) = Some (as_bytes x)
  | None => is_Some (r ← wcontents w !! key; (r : gmap _ _) !! (family, col))
  end.
Proof.
  intros Hf Hc Hv. rewrite column_filter_exact by done. unfold wcontents, contents. rewrite lookup_fmap.
  by destruct (table_of w !! key).
Qed.

(** Overwriting a column of a row that has another one. *)
Lemma touch_leaves key col q (v : Bytes) w b w' : in_time w -> ascii_only col ->
  (ts ← with_env now_ms; mutate_if self key (column_filter D col None) [set_cell D q v ts]) w = (Ok b, w') ->
  b = bool_decide (is_Some (r ← wcontents w !! key; (r : gmap _ _) !! (D, col))) /\
  leaves w w' (if b then <[ key := {[ (D, q) := v ]} ∪ default ∅ (wcontents w !! key) ]> (wcontents w)
               else wcontents w).
Proof.
  intros Ht Hcol. unfold mbind, est_bind. destruct w as [e g].
  change (with_env now_ms (e, g)) with (Ok (E := BoxError) (now_ms e).1, ((now_ms e).2, g)). cbv iota.
  intros Hm. apply (mutate_if_spec tbl laws) in Hm as (He & Hb & Hc).
  change (wtable tbl ((now_ms e).2, g)) with (wtable tbl (e, g)) in *. cbn [fst] in He.
  assert (He' : env_steps e w'.1) by (etrans; [apply now_ms_env|exact He]).
  assert (Hb' : b = bool_decide (is_Some (r ← wcontents (e, g) !! key; (r : gmap _ _) !! (D, col)))).
  { rewrite Hb. apply bool_decide_ext. by rewrite (filter_contents key D col None (e, g)). }
  split; [done|]. destruct b.
  - apply (stamped_leaves key [(q, v)] (now_ms e).1); [done|by repeat constructor; intros ?%not_elem_of_nil|done|done| |done].
    exists (env_ticks e). split; [|done]. split; [done|]. pose proof (ext_ticks _ _ (proj1 He)) as Htk.
    change (env_ticks (now_ms e).2) with (S (env_ticks e)) in Htk. exact Htk.
  - by apply same_leaves.
Qed.

(** Removing a row if a column has a given value. *)
Lemma delete_if_leaves key family col x w b w' : in_time w -> str_all is_ascii_alphanumeric family = true ->
  ascii_only col -> ascii_only x ->
  mutate_if self key (column_filter family col (Some x)) [delete_row] w = (Ok b, w') ->
  b = bool_decide ((r ← wcontents w !! key; (r : gmap _ _) !! (family, col)) = Some (as_bytes x)) /\
  leaves w w' (if b then base.delete key (wcontents w) else wcontents w).
Proof.
  intros Ht Hf Hcol Hx Hm. apply (mutate_if_spec tbl laws) in Hm as (He & Hb & Hc). split.
  - rewrite Hb. apply bool_decide_ext. apply (filter_contents key family col (Some x)); [done..|]. by intros ? [= <-].
  - destruct b; [|by apply same_leaves]. apply mutated_delete in Hc. split; [done| |by apply contents_delete].
    apply (in_time_cells _ _ He Ht). intros k q c. rewrite !ntable_cell, Hc. intros (n & [_ ?]%lookup_delete_Some & ?). eauto.
Qed.

(** *** Reading *)

(** The rows of the items [xs]: each under its key, with its columns. *)
Definition rows_for {X} (family : string) (key : X -> string) (cols : X -> list (string * Bytes)) (c : Contents) (x : X) : Prop :=
  utf8_valid (key x) = true /\ NoDup (cols x).*1 /\ c !! key x = Some (colsmap family (cols x)).

Lemma read_leaves {X} family (key : X -> string) (cols : X -> list (string * Bytes)) rs (xs : list X) w rows w' :
  in_time w -> NoDup (key <$> xs) -> (forall x, x ∈ xs -> rows_for family key cols (wcontents w) x) ->
  (forall k, selects rs k /\ is_Some (wcontents w !! k) <-> k ∈ key <$> xs) ->
  read self rs w = (Ok rows, w') ->
  leaves w w' (wcontents w) /\ rows ≡ₚ (fun x => (key x, rowmap (cols x))) <$> xs /\
  StronglySorted (fun a b => str_ltb a b = true) rows.*1.
Proof.
  intros Ht Hnd Hxs Hkeys Hr.
  assert (Hsel : forall k, selects rs k /\ is_Some (table_of w !! k) <-> k ∈ key <$> xs).
  { intros k. rewrite <- contents_some. apply Hkeys. }
  apply (read_spec tbl laws) in Hr as (He & Hc & Hsort & Hrk & Hrow).
  2:{ intros k H1 H2. assert (Hk : k ∈ key <$> xs) by (by apply Hsel).
      apply list_elem_of_fmap in Hk as (x & -> & Hx). by apply Hxs. }
  split; [by apply same_leaves|]. split; [|done]. setoid_rewrite Hsel in Hrk.
  assert (Hone : forall x row, x ∈ xs -> (key x, row) ∈ rows -> row = rowmap (cols x)).
  { intros x row Hx Hin. destruct (Hxs x Hx) as (_ & Hnc & Hcx). apply map_eq. intros q.
    rewrite (Hrow _ _ family q Hin).
    - rewrite contents_cell. fold (wcontents w). rewrite Hcx. cbn. by apply colsmap_rowmap.
    - intros f q' [[ts v] Hv]. assert (Hs : snd <$> cell (table_of w) (key x) (f, q') = Some v) by (by rewrite Hv).
      rewrite contents_cell in Hs. fold (wcontents w) in Hs. rewrite Hcx in Hs. cbn in Hs.
      by apply colsmap_lookup in Hs as [? _]. }
  assert (Hndr : NoDup rows.*1).
  { clear -Hsort. induction rows.*1 as [|k l IH]; [constructor|]. apply StronglySorted_inv in Hsort as [Hs Hk].
    constructor; [|by apply IH]. intros Hin. rewrite Forall_forall in Hk. specialize (Hk k Hin). by rewrite str_ltb_irrefl in Hk. }
  apply NoDup_Permutation.
  - by apply NoDup_fmap_1 in Hndr.
  - apply (NoDup_fmap_1 fst). rewrite <- list_fmap_compose. exact Hnd.
  - intros [k row]. rewrite list_elem_of_fmap. split.
    + intros Hin. assert (Hk : k ∈ rows.*1) by (apply list_elem_of_fmap; by exists (k, row)).
      apply Hrk, list_elem_of_fmap in Hk as (x & -> & Hx). exists x. split; [|done]. f_equal. by apply Hone.
    + intros (x & [= -> ->] & Hx). assert (Hk : key x ∈ rows.*1) by (apply Hrk, list_elem_of_fmap; eauto).
      apply list_elem_of_fmap in Hk as ([k row'] & Hkx & Hin). cbn in Hkx. subst k. by rewrite <- (Hone x row' Hx Hin).
Qed.

(** One row. *)
Lemma get_leaves key family cols w o w' : in_time w -> utf8_valid key = true -> NoDup cols.*1 ->
  (forall r, wcontents w !! key = Some r -> r = colsmap family cols) -> get self key w = (Ok o, w') ->
  leaves w w' (wcontents w) /\ o = (fun _ => rowmap cols) <$> wcontents w !! key.
Proof.
  intros Ht Hu Hnd Hc. unfold get. unfold mbind, est_bind. destruct (read self _ w) as [[rows|] w1] eqn:Hr; [|done].
  intros [= <- <-].
  assert (Hsel : forall k, selects {| row_keys := [key]; row_ranges := [] |} k <-> k = key).
  { intros k. unfold selects. cbn. rewrite list_elem_of_singleton. split; [|by left].
    intros [?|(a & b & Hin & _)]; [done|]. by apply not_elem_of_nil in Hin. }
  apply (read_leaves family (fun _ => key) (fun _ => cols) _
    (match wcontents w !! key with Some _ => [()] | None => [] end)) in Hr as (Hl & Hrows & _); [|done|..].
  - split; [done|]. destruct (wcontents w !! key).
    + apply Permutation_singleton_r in Hrows as ->. done.
    + by apply Permutation_nil_r in Hrows as ->.
  - destruct (wcontents w !! key); repeat constructor. by intros ?%not_elem_of_nil.
  - intros x Hx. destruct (wcontents w !! key) as [r|] eqn:E; [|by apply not_elem_of_nil in Hx].
    split_and!; [done..|]. rewrite E. f_equal. by apply Hc.
  - intros k. rewrite Hsel. destruct (wcontents w !! key) as [r|] eqn:E; cbn.
    + rewrite list_elem_of_singleton. split; [by intros [? _]|]. intros ->. by rewrite E.
    + split; [|by intros ?%not_elem_of_nil]. intros [-> [r Hr']]. congruence.
Qed.
End primitives.
