(* ===== verification/BigtableExamples.v ===== *)
(** * The Bigtable adapter on a small table

    Concrete inputs for the theorems about the adapter, on the service of
    [BigtableDemo.v]. *)
From Stdlib Require Import Ascii.
From S2P Require Import Contract MemoryStore MemoryProofs Instances Demo PlatformDemo Prelude RustStr External Octets StoreTypes Store Bridge Client GcpAuth BigtableWire BigtableService Bigtable BigtableDemo BigtableTheorems BigtableRows BigtableRuns BigtableScans.

(** ** Reading *)
Definition some_chunks : list CellChunk :=
  [{| ck_row_key := "k"; ck_qualifier := Some "a"; ck_value := [x01]; ck_value_size := 2; ck_row_status := None |};
   {| ck_row_key := ""; ck_qualifier := None; ck_value := [x02]; ck_value_size := 0; ck_row_status := None |};
   {| ck_row_key := ""; ck_qualifier := Some "b"; ck_value := [x03]; ck_value_size := 0;
      ck_row_status := Some (CommitRow true) |}].
Definition some_rows : list (string * list (string * Bytes)) := [("k", [("a", [x01; x02]); ("b", [x03])])].

Lemma some_rows_sent : transmits some_rows [Ok (take 1 some_chunks); Ok (drop 1 some_chunks)].
Proof.
  exists [take 1 some_chunks; drop 1 some_chunks]. split; [done|].
  apply (rs_cons "k" _ [] some_chunks []); [done| |constructor]. apply rc_row; [|done].
  apply (cc_more "k" None "a" [x01; x02] [([x01], 2%Z); ([x02], 0%Z)] (take 2 some_chunks)).
  - by apply (pieces_more [x01]); [|constructor].
  - apply vc_more; [by right|by left|]. apply vc_last; [by left|by right].
  - eapply cc_last; [constructor|]. apply vc_last; [by left|by left].
Qed.
Lemma read_merges_rows_witness : exists merged,
  merge_stream merge_new [Ok (take 1 some_chunks); Ok (drop 1 some_chunks)] = Ok merged /\
  mg_out merged = [("k", row_of [("a", [x01; x02]); ("b", [x03])])].
Proof.
  apply (read_merges_rows some_rows); [apply some_rows_sent|]. by repeat constructor.
Defined.

(** ** Messages *)
Definition topic_msg (id : string) : Message := {|
  m_id := id; m_uaid := session_ua; m_channel_id := demo_channel;
  m_push := session_push; m_topic := Some "news";
  m_body := [x61]; m_ctype := None; m_cenc := Some "aes128gcm"; m_ttl := 60;
  m_urgency := Normal; m_accepted := 1000; m_expiry := 61000; m_rsub := Some demo_rsub;
|}.
Definition id_a : string := "aaaaaaaaaaaaaaaaaaaaaa".
Definition id_b : string := "bbbbbbbbbbbbbbbbbbbbbb".

Lemma topic_msg_storable id : utf8_valid id = true -> storable (topic_msg id).
Proof. intros Hid. split; try done; cbn; by intros s [= <-]. Qed.

Definition topic_row (id : string) : option TRow := apply_row (message_mutations (topic_msg id)) None.
Definition row_a : TRow := Eval vm_compute in default ∅ (topic_row id_a).
Definition row_b : TRow := Eval vm_compute in default ∅ (apply_row (message_mutations (topic_msg id_b)) (Some row_a)).
Lemma row_b_written : apply_row (message_mutations (topic_msg id_b)) (Some row_a) = Some row_b.
Proof. apply (bool_decide_unpack _). vm_compute. exact I. Qed.
Lemma message_row_roundtrip_witness :
  message_from_row (message_key (topic_msg id_b)) (row_of (cells_sent row_b)) = Some (topic_msg id_b).
Proof.
  apply (message_row_roundtrip (topic_msg id_b) (Some row_a) row_b); [|exact row_b_written|unfold arrives_as; reflexivity].
  apply topic_msg_storable. reflexivity.
Defined.

(** ** A store *)
Definition demo_store : BigtableStore := {| table := "t"; auth := None; app_profile := "" |}.
Definition empty_world : Env * BtWorld (T := Table) :=
  (demo_env 100000, {| g_sent := []; g_reply := fun _ => Err "closed"; g_token := None; g_rpc := ∅ |}).

Abbreviation after_a := (insert_message demo_store (topic_msg id_a) empty_world).
Abbreviation after_b := (insert_message demo_store (topic_msg id_b) after_a.2).
Abbreviation after_delete := (delete_message demo_store id_a None after_b.2).

Abbreviation demo_laws := toy_service (only parsing).

Lemma absent_row t k : ntable t !! k = None ->
  (forall f, in_family f t k) /\ forall col, cell t k col = None.
Proof.
  intros Hno. assert (Hc : forall col, cell t k col = None) by (intros col; unfold cell; by rewrite Hno).
  split; [|done]. intros f g q Hs. rewrite Hc in Hs. by destruct Hs.
Qed.
Lemma demo_inserted : is_ok after_a.1 = true /\ is_ok after_b.1 = true /\
  is_ok after_delete.1 = true /\ is_ok (message demo_store id_a after_a.2).1 = true /\
  ntable (wtable clean after_a.2) !! mid_key id_b = None.
Proof. vm_compute. done. Qed.
Lemma demo_keys id : id = id_a \/ id = id_b -> keys_ok (topic_msg id).
Proof. by intros [-> | ->]. Qed.
Lemma demo_indexed : indexed (wtable clean after_a.2) id_a (message_key (topic_msg id_a)).
Proof.
  destruct demo_inserted as [Hok _]. destruct after_a as [[[]|e] w] eqn:Hr; [|done].
  by destruct (insert_message_spec clean toy_service demo_store _ _ _ Hr) as (_ & _ & Hi & _);
    [apply absent_row; vm_compute; reflexivity..|].
Qed.

Lemma inserted_message_found_witness : (message demo_store id_a after_a.2).1 = Ok (Some (topic_msg id_a)).
Proof.
  destruct demo_inserted as (Hok & _ & _ & Hm & _). destruct after_a as [[[]|e] w1] eqn:Hr; [|done].
  cbn [snd] in *. destruct (message demo_store id_a w1) as [[o|e] w2] eqn:Hr2; [|done]. cbn. f_equal.
  apply (inserted_message_found clean toy_service demo_store (topic_msg id_a) empty_world w1 o w2);
    [by apply topic_msg_storable|by apply demo_keys; left| | |exact Hr|exact Hr2];
    apply absent_row; vm_compute; reflexivity.
Defined.

Lemma replaced_message_gone_witness : after_delete.1 = Ok None.
Proof.
  pose proof demo_indexed as Hidx. destruct demo_inserted as (_ & Hb & Hd & _ & Hno).
  destruct after_a as [ra wa] eqn:Ha. cbn [fst snd] in *.
  destruct (insert_message demo_store (topic_msg id_b) wa) as [[[]|e] wb] eqn:Hr; [|done]. cbn [fst snd] in *.
  destruct (delete_message demo_store id_a None wb) as [[o|e] w2] eqn:Hr2; [|done]. cbn. f_equal.
  refine (proj1 (replaced_message_gone clean toy_service demo_store (topic_msg id_a) (topic_msg id_b)
    wa wb None o w2 _ _ _ _ _ _ _ _ Hr Hr2));
    [by apply topic_msg_storable|by apply demo_keys; right|reflexivity|reflexivity|done|exact Hidx|
     by apply absent_row..].
Defined.

Abbreviation stale_removal := (remove_message demo_store (message_key (topic_msg id_a)) (topic_msg id_a) after_b.2).
Lemma demo_stale : is_ok stale_removal.1 = true /\
  snd <$> cell (wtable clean after_b.2) (message_key (topic_msg id_a)) (M, "id") = Some (as_bytes id_b).
Proof. vm_compute. done. Qed.
Lemma remove_message_checks_witness : stale_removal.1 = Ok false.
Proof.
  destruct demo_stale as [Hok Hid]. destruct after_b as [rb wb]. cbn [snd] in *.
  destruct (remove_message demo_store (message_key (topic_msg id_a)) (topic_msg id_a) wb)
    as [[b|e] w] eqn:Hr; [|done]. cbn.
  destruct (remove_message_checks clean toy_service demo_store _ (topic_msg id_a) _ _ _ eq_refl Hr)
    as [-> _]. by rewrite Hid.
Defined.

(** ** Routes *)
Definition demo_to : Recipient := RUserAgent session_ua.
Abbreviation routed_a := (set_route demo_store demo_to "http://a:9000" empty_world).
(** A node whose clock is behind. *)
Definition behind (w : Env * BtWorld (T := Table)) : Env * BtWorld (T := Table) := (demo_env 0, w.2).
Abbreviation routed_b := (set_route demo_store demo_to "http://b:9000" (behind routed_a.2)).
Abbreviation route_read := (route demo_store demo_to routed_b.2).
Abbreviation route_cleared := (clear_route demo_store demo_to "http://b:9000" routed_a.2).

Lemma demo_route : is_ok routed_b.1 = true /\ is_ok route_read.1 = true /\ is_ok route_cleared.1 = true /\
  route_cell (wtable clean (behind routed_a.2)) demo_to = Some (100000000%Z, as_bytes "http://a:9000") /\
  snd <$> route_cell (wtable clean routed_a.2) demo_to = Some (as_bytes "http://a:9000").
Proof. vm_compute. done. Qed.
Lemma demo_route_family : in_family D (wtable clean (behind routed_a.2)) (route_key demo_to).
Proof.
  assert (Hok : is_ok routed_a.1 = true) by (vm_compute; reflexivity).
  change (wtable clean (behind routed_a.2)) with (wtable clean routed_a.2).
  destruct routed_a as [[p|e] w1] eqn:Hr; [|done]. cbn [snd].
  apply (set_route_spec clean toy_service demo_store demo_to) in Hr as (_ & _ & ms & _ & Hc); [|done|].
  - intros f q Hs. rewrite Hc in Hs. case_decide as Hk; [by destruct Hk as [_ [= -> ->]]|].
    revert Hs. rewrite (proj2 (absent_row (wtable clean empty_world) (route_key demo_to) eq_refl)). by intros [].
  - by apply absent_row.
Qed.
Lemma demo_clock w : clock_fits (behind w).1.
Proof. intros i. cbn. change (2 ^ 63)%N with 9223372036854775808%N. lia. Qed.

(** The node that is behind does not get the route. *)
Lemma set_route_takes_over_witness : route_read.1 = Ok (Some "http://a:9000").
Proof.
  destruct demo_route as (Hb & Hr & _ & Hcell & _). pose proof demo_route_family as Hfam.
  destruct routed_a as [ra wa]. cbn [snd] in *. 
  destruct (set_route demo_store demo_to "http://b:9000" (behind wa)) as [[p|e] w1] eqn:Hset; [|done].
  cbn [fst snd] in *. destruct (route demo_store demo_to w1) as [[r|e] w2] eqn:Hget; [|done]. cbn. f_equal.
  destruct (set_route_takes_over clean toy_service demo_store demo_to "http://b:9000" (behind wa) p w1 r w2
    eq_refl eq_refl Hfam (demo_clock wa) Hset Hget) as (_ & _ & ms & (i & _ & Hms) & ->).
  rewrite Hcell. assert (ms <= 1000)%N as Hle by (cbn in Hms; lia).
  rewrite (proj2 (Z.ltb_lt _ _)) by lia. reflexivity.
Defined.

Lemma clear_route_newest_witness : route_cleared.1 = Ok false.
Proof.
  destruct demo_route as (_ & _ & Hok & _ & Hcell). destruct routed_a as [ra wa]. cbn [snd] in *.
  destruct (clear_route demo_store demo_to "http://b:9000" wa) as [[b|e] w] eqn:Hr; [|done]. cbn.
  destruct (clear_route_newest clean toy_service demo_store demo_to "http://b:9000" wa b w eq_refl Hr)
    as [-> _]. by rewrite Hcell.
Defined.

(** ** Scans: two messages, three receipts and a subscription *)
Definition plain_msg (id : string) (at_ : N) : Message := {|
  m_id := id; m_uaid := session_ua; m_channel_id := demo_channel; m_push := session_push; m_topic := None;
  m_body := [x62]; m_ctype := None; m_cenc := Some "aes128gcm"; m_ttl := 60;
  m_urgency := Normal; m_accepted := at_; m_expiry := at_ + 60000; m_rsub := None;
|}.
Definition two_msgs : list Message := [topic_msg id_b; plain_msg id_a 900].
Definition demo_rc (id : string) : Receipt := {| r_rsub := demo_rsub; r_msg_id := id; r_status := 410 |}.
Definition filled : result BoxError (list (option N)) * (Env * BtWorld (T := Table)) :=
  (_ ← insert_message demo_store (topic_msg id_b);
   _ ← insert_message demo_store (plain_msg id_a 900);
   _ ← put demo_store ("rsub#" +:+ demo_rsub) D [("c", as_bytes "1")];
   n1 ← enqueue_receipt demo_store (demo_rc id_a);
   n2 ← enqueue_receipt demo_store (demo_rc id_b);
   _ ← create_subscription demo_store session_ua demo_channel None;
   (mret [n1; n2] : EST _ BoxError _)) empty_world.
Definition demo_receipts : list (N * Receipt) :=
  match filled.1 with
  | Ok [Some n1; Some n2] => [(n1, demo_rc id_a); (n2, demo_rc id_b)]
  | _ => []
  end.
Definition demo_listed : list Subscription :=
  [{| sub_uaid := session_ua; sub_channel_id := demo_channel; sub_push := (new_id (demo_env 100000)).1; sub_vapid := None |}].
Lemma filled_rows :
  rows_of_check M message_key message_cols (wtable clean filled.2) ("msg#" +:+ session_ua) two_msgs = true /\
  rows_of_check D receipt_key receipt_cols (wtable clean filled.2) ("rq#" +:+ demo_rsub) demo_receipts = true /\
  rows_of_check D sub_key sub_cols (wtable clean filled.2) ("ch#" +:+ session_ua) demo_listed = true.
Proof. vm_compute. done. Qed.
Abbreviation demo_pending := (pending demo_store session_ua 60950 10 filled.2).
Abbreviation demo_queue := (queued_receipts demo_store demo_rsub filled.2).
Abbreviation demo_list := (subscriptions demo_store session_ua filled.2).
Lemma filled_reads : is_ok demo_pending.1 = true /\ is_ok demo_queue.1 = true /\ is_ok demo_list.1 = true /\
  length demo_receipts = 2.
Proof. vm_compute. done. Qed.
Lemma two_msgs_storable : Forall storable two_msgs.
Proof. repeat constructor; try done; cbn; by intros s [= <-]. Qed.
Lemma demo_queueable : Forall (queueable demo_rsub) demo_receipts.
Proof. apply (bool_decide_unpack _). vm_compute. exact I. Qed.

(** One of the two messages has expired. *)
Lemma pending_in_order_witness : demo_pending.1 = Ok [topic_msg id_b].
Proof.
  destruct filled_rows as [Hrows _]. destruct filled_reads as [Hok _].
  destruct demo_pending as [[ps|e] w'] eqn:Hr; [|done]. cbn [fst]. f_equal.
  destruct (pending_in_order clean toy_service demo_store session_ua 60950 10 two_msgs filled.2 ps w'
    (rows_of_checked _ _ _ _ _ _ Hrows) two_msgs_storable Hr) as (_ & all & _ & Hp & ->).
  assert (Hf : filter (fun m => (60950 < m_expiry m)%N) two_msgs = [topic_msg id_b]) by (vm_compute; reflexivity).
  rewrite Hf in Hp. symmetry in Hp. apply Permutation_singleton_l in Hp as <-. reflexivity.
Defined.

Lemma queued_receipts_in_order_witness : exists got w', demo_queue = (Ok got, w') /\
  length got = 2 /\ StronglySorted N.lt got.*1.
Proof.
  destruct filled_rows as (_ & Hrows & _). destruct filled_reads as (_ & Hok & _ & Hlen).
  destruct demo_queue as [[got|e] w'] eqn:Hr; [|discriminate Hok]. exists got, w'. split; [reflexivity|].
  destruct (queued_receipts_in_order clean toy_service demo_store demo_rsub demo_receipts filled.2 got w'
    (rows_of_checked _ _ _ _ _ _ Hrows) demo_queueable Hr) as (_ & Hp & Hs).
  split; [|exact Hs]. rewrite Hp. exact Hlen.
Defined.

Lemma demo_all_listed : Forall (listed session_ua) demo_listed.
Proof. repeat constructor. intros k Hk. discriminate Hk. Qed.
Lemma subscriptions_complete_witness : demo_list.1 = Ok demo_listed.
Proof.
  destruct filled_rows as (_ & _ & Hrows). destruct filled_reads as (_ & _ & Hok & _).
  destruct demo_list as [[got|e] w'] eqn:Hr; [|done]. cbn [fst]. f_equal.
  destruct (subscriptions_complete clean toy_service demo_store session_ua demo_listed filled.2 got w'
    (rows_of_checked _ _ _ _ _ _ Hrows) demo_all_listed Hr) as (_ & Hp).
  symmetry in Hp. apply Permutation_singleton_l in Hp. symmetry. exact Hp.
Defined.

(** ** Both adapters pass the executable contract *)

(** A generator whose octets do not repeat a window of sixteen soon. *)
Definition check_env : Env := {|
  env_clock := fun i => (1700000000000 + N.min (N.of_nat i) 1000)%N; env_ticks := 0;
  env_random := fun i => byte_of ((N.of_nat i * 7 + N.of_nat (i / 256) * 11) mod 256)%N; env_drawn := 0;
  env_instant := fun i => N.of_nat i; env_instants := 0; env_last_seq := 0;
|}.
Lemma memory_passes : (Contract.check (check_env, MemoryStore.new)).1 = Ok ().
Proof. vm_compute. reflexivity. Qed.
Lemma bigtable_passes :
  (@Contract.check _ (bigtable demo_store) _ (check_env, empty_world.2)).1 = Ok ().
Proof. vm_compute. reflexivity. Qed.
