(* ===== verification/NotifyTheorems.v ===== *)
(** * Where events go

    Which of the ways to deliver an event [App::notify] takes, and what each
    does to the other nodes and to the routes. *)
From S2P Require Import MemoryStore MemoryProofs HubTheorems Demo Instances Prelude RustStr External StoreTypes Store Hub Bridge Config App Notify Response Worlds Delivery.

Section notify.
Context {S BW F A : Type} `{St : Store S} `{MP : Mpsc} `{B64 : Base64}.
Context (view : S -> AStore) (inv : Env * S -> Prop) (laws : StoreLaws view inv).
Abbreviation World := (World S BW).
Abbreviation App := (App BW F A).
Abbreviation winv := (winv inv).
Abbreviation wview := (wview view).
Abbreviation evolves := (evolves view inv).
Implicit Types (w : World) (app : App).

(** Whether the answer to a forward means that the route is stale. *)
Definition gone (o : HttpOutcome) : bool :=
  match o with HttpStatus 404 | HttpConnect => true | _ => false end.

Lemma clear_stale_view to node w u w' :
  (forall es, is_ok (clear_route to node es).1 = true) -> winv w ->
  clear_stale to node w = (u, w') ->
  wview w' = a_clear_route to node (wview w) /\ same_rest w w'.
Proof.
  intros Hok Hw (r & w1 & Hr & [= _ <-])%st_bind_eq. unfold attempt in Hr. destruct r as [b|e].
  - destruct (with_store_writes _ _ _ _ _ _ _ _ _ (law_clear_route _ _ laws to node) Hw I Hr)
      as ((_ & _ & _ & ?) & ? & _). done.
  - apply with_store_inv in Hr as [Hr _]. specialize (Hok (w_env w, w_store w)). by rewrite Hr in Hok.
Qed.

(** The routes of a recipient after a forward to [node] answered [o]. *)
Definition after_forward to node o (a : AStore) : AStore :=
  if gone o then a_clear_route to node a else a.

Lemma forward_spec app c node to event w u w' :
  (forall es, is_ok (clear_route to node es).1 = true) -> winv w ->
  app_cluster app = Some c -> forward app node to event w = (u, w') ->
  w_posts w' = w_posts w ++ [(node +:+ NOTIFY_PATH, cl_token c, new_envelope to event)] /\
  wview w' = after_forward to node (w_http w (length (w_posts w))) (wview w) /\
  w_hub w' = w_hub w /\ w_chans w' = w_chans w.
Proof.
  intros Hok Hw Hc Hf. unfold forward in Hf. rewrite Hc in Hf.
  apply st_bind_eq in Hf as (o & w1 & Hp%post_store & Hf).
  destruct Hp as (He & Hs & Hh & Hch & _ & _ & _ & Hposts & Ho).
  assert (Hv1 : wview w1 = wview w) by (unfold Worlds.wview; by rewrite Hs).
  assert (Hw1 : winv w1) by (unfold Worlds.winv; by rewrite Hs, He).
  unfold after_forward. rewrite <- Ho.
  assert (Hstale : clear_stale to node w1 = (u, w') ->
    w_posts w' = w_posts w1 /\ wview w' = a_clear_route to node (wview w) /\
    w_hub w' = w_hub w1 /\ w_chans w' = w_chans w1).
  { intros Hcl. destruct (clear_stale_view _ _ _ _ _ Hok Hw1 Hcl) as [Hv Hr].
    rewrite (sr_posts _ _ Hr), (sr_hub _ _ Hr), (sr_chans _ _ Hr), Hv, Hv1. done. }
  assert (Hsame : ((), w1) = (u, w') -> w_posts w' = w_posts w1 /\ wview w' = wview w /\
    w_hub w' = w_hub w1 /\ w_chans w' = w_chans w1) by (by intros [= _ <-]).
  assert (Hend : w_posts w' = w_posts w1 /\
    wview w' = (if gone o then a_clear_route to node (wview w) else wview w) /\
    w_hub w' = w_hub w1 /\ w_chans w' = w_chans w1).
  { destruct o as [s| |]; [|by apply Hstale|by apply Hsame].
    destruct (N.eqb_spec s 404) as [->|Hne]; [by apply Hstale|].
    replace (gone (HttpStatus s)) with false.
    - destruct (_ && _); by apply Hsame.
    - cbn. repeat (done || case_match). }
  destruct Hend as (-> & -> & -> & ->). by rewrite Hposts.
Qed.

(** C13: an event goes to the listener on this node if there is one, and
    then nowhere else; otherwise, in a cluster, to the node that holds the
    recipient's route, with the cluster's token, in an envelope that node
    opens to the same event. A route that names this node itself, or a node
    that answers 404 or cannot be reached, is removed; any other route
    stays, and nothing else in the store changes. The store does not fail to
    answer [route] and [clear_route]. *)
Theorem notify_routes app to event w u w' n h :
  winv w ->
  (forall es, is_ok (route to es).1 = true) ->
  (forall node es, is_ok (clear_route to node es).1 = true) ->
  Hub.notify to event (w_hub w, w_chans w) = (n, h) ->
  notify app to event w = (u, w') ->
  (w_hub w', w_chans w') = h /\
  match n, app_cluster app, a_routes (wview w) !! to with
  | Absent, Some c, Some node =>
      if decide (node = cl_node_url c) then
        w_posts w' = w_posts w /\
        wview w' = set_a_routes (delete to (a_routes (wview w))) (wview w)
      else
        w_posts w' = w_posts w ++ [(node +:+ NOTIFY_PATH, cl_token c, new_envelope to event)] /\
        wview w' = if gone (w_http w (length (w_posts w)))
                   then set_a_routes (delete to (a_routes (wview w))) (wview w) else wview w
  | _, _, _ => w_posts w' = w_posts w /\ wview w' = wview w
  end.
Proof.
  intros Hw Hroute Hclear Hn (n' & w1 & Hx & Hr)%st_bind_eq.
  apply with_hub_store in Hx as (He & Hs & _ & Hh & Hp & _ & Hx). rewrite Hn in Hx.
  injection Hx as <- ->.
  assert (Hv1 : wview w1 = wview w) by (unfold Worlds.wview; by rewrite Hs).
  assert (Hw1 : winv w1) by (unfold Worlds.winv; by rewrite Hs, He).
  rewrite <- Hp, <- Hv1, <- Hh.
  destruct n; [injection Hr as _ <-; by repeat case_match..|].
  destruct (app_cluster app) as [c|] eqn:Hc; [|by injection Hr as _ <-].
  apply st_bind_eq in Hr as (r & w2 & Hx & Hr). unfold attempt in Hx. destruct r as [o|e].
  2:{ apply with_store_inv in Hx as [Hx _]. specialize (Hroute (w_env w1, w_store w1)).
      by rewrite Hx in Hroute. }
  destruct (with_store_reads _ _ _ _ _ _ _ (law_route _ _ laws to) Hw1 Hx) as (He2 & Hs2 & ->).
  assert (Hv2 : wview w2 = wview w1) by (destruct He2 as (_ & _ & _ & ->); done).
  rewrite <- (sr_hub _ _ Hs2), <- (sr_chans _ _ Hs2), <- (sr_posts _ _ Hs2), <- (sr_http _ _ Hs2), <- Hv2.
  rewrite <- Hv2 in Hr.
  destruct (a_routes (wview w2) !! to) as [node|] eqn:Hto; [|by injection Hr as _ <-].
  assert (Hcl : a_clear_route to node (wview w2) =
    set_a_routes (delete to (a_routes (wview w2))) (wview w2))
    by (unfold a_clear_route; by rewrite decide_True).
  case_decide as Hd.
  - destruct (clear_stale_view _ _ _ _ _ (Hclear node) (proj1 He2) Hr) as [-> Hsr].
    by rewrite (sr_hub _ _ Hsr), (sr_chans _ _ Hsr), (sr_posts _ _ Hsr), Hcl.
  - destruct (forward_spec _ _ _ _ _ _ _ _ (Hclear node) (proj1 He2) Hc Hr) as (-> & -> & -> & ->).
    unfold after_forward. by rewrite Hcl.
Qed.
End notify.

Lemma memory_route_ok to es : is_ok (route to es).1 = true.
Proof. by destruct es. Qed.
Lemma memory_clear_ok to node es : is_ok (clear_route to node es).1 = true.
Proof.
  destruct es as [e s]. cbn. unfold MemoryStore.clear_route, get, modify, with_state, lift_st, mbind, st_bind.
  cbn. by case_decide.
Qed.

Abbreviation demo_notify := (Notify.notify (demo_app (Some demo_cluster)) (RUserAgent session_ua) EvGone demo_world).
Lemma notify_routes_witness :
  w_posts demo_notify.2 =
    [("http://b:9000/internal/v1/notify", "secret", new_envelope (RUserAgent session_ua) EvGone)].
Proof.
  assert (Hroute : a_routes (wview MemoryProofs.view demo_world) !! RUserAgent session_ua =
    Some "http://b:9000") by (vm_compute; reflexivity).
  assert (Hhub : Hub.notify (RUserAgent session_ua) EvGone (w_hub demo_world, w_chans demo_world) =
    (Absent, (w_hub demo_world, w_chans demo_world))) by (vm_compute; reflexivity).
  destruct demo_notify as [u w'] eqn:Hr.
  destruct (notify_routes _ _ memory_laws _ _ _ _ _ _ _ _ demo_winv (memory_route_ok _)
    (memory_clear_ok _) Hhub Hr) as [_ Hx].
  rewrite Hroute in Hx. exact (proj1 Hx).
Defined.
