(* ===== verification/Cluster.v ===== *)
(** * Listeners of a cluster

    [notify.rs]: becoming the listener for a recipient sets the route to this
    node, and the cleanup of an ended connection clears it; what such a
    cleanup does to a connection that comes after it. *)
From S2P Require Import MemoryStore MemoryProofs HubTheorems Demo Instances Prelude RustStr External StoreTypes Store Hub Bridge Config App Notify Response Worlds Delivery NotifyTheorems.

Section cluster.
Context {S BW F A : Type} `{St : Store S} `{MP : Mpsc} `{B64 : Base64}.
Context (view : S -> AStore) (inv : Env * S -> Prop) (laws : StoreLaws view inv).
Abbreviation World := (World S BW).
Abbreviation App := (App BW F A).
Abbreviation winv := (winv inv).
Abbreviation wview := (wview view).

(** ** Becoming the listener *)

(** In a cluster, a new listener is registered here and the route names this
    node; a listener on another node is sent a farewell. *)
Lemma listen_spec (app : App) c to (w : World) l w' :
  winv w -> app_cluster app = Some c -> listen app to w = (Ok l, w') ->
  winv w' /\ l_to l = to /\
  slots (w_hub w') !! to = Some {| slot_id := l_id l; slot_tx := l_rx l |} /\
  wview w' = set_a_routes (<[ to := cl_node_url c ]> (a_routes (wview w))) (wview w) /\
  w_tasks w' = w_tasks w ++
    match a_routes (wview w) !! to with
    | Some node => if decide (node <> cl_node_url c) then [TForward node to EvGone] else []
    | None => []
    end.
Proof.
  intros Hw Hc. unfold listen. intros Hl.
  apply est_bind_cases in Hl as [([id rx] & w1 & H1 & Hl)|(e & _ & [=])].
  apply lift_st_Ok in H1 as (x & H1 & [= <-]). apply with_hub_store in H1 as (He & Hs & Ht & _ & _ & _ & Hx).
  rewrite Hc in Hl. apply est_bind_cases in Hl as [(r & w2 & H2 & Hl)|(e & _ & [=])].
  apply lift_st_Ok in H2 as (r' & H2 & [= <-]). unfold attempt in H2.
  destruct r as [previous|e]; [|by apply est_bind_cases in Hl as [(? & ? & _ & [=])|(? & _ & [=])]].
  assert (Hw1 : winv w1) by (unfold Worlds.winv; by rewrite Hs, He).
  assert (Hv1 : wview w1 = wview w) by (unfold Worlds.wview; by rewrite Hs).
  destruct (with_store_writes _ _ _ _ _ _ _ _ _ (law_set_route _ _ laws to _) Hw1 I H2)
    as ((Hw2 & _ & _ & Hv2) & Hs2 & ->).
  rewrite Hv1 in Hv2, Hl.
  assert (Hslot : slots (w_hub w2) !! to = Some {| slot_id := id; slot_tx := rx |}).
  { rewrite (sr_hub _ _ Hs2). unfold register in Hx.
    destruct (mpsc_channel _ _) as [c0 ch1]. injection Hx as -> -> <- _. cbn. apply lookup_insert_eq. }
  apply est_bind_cases in Hl as [(u & w3 & H3 & Hl)|(e & _ & [=])]. injection Hl as <- <-. cbn [l_to l_id l_rx].
  destruct (a_routes (wview w) !! to) as [node|].
  - case_decide.
    + apply lift_st_Ok in H3 as (? & [= _ <-] & _). cbn.
      split_and!; [exact Hw2|done|exact Hslot|exact Hv2|]. by rewrite (sr_tasks _ _ Hs2), Ht.
    + injection H3 as _ <-. rewrite app_nil_r. by rewrite (sr_tasks _ _ Hs2), Ht.
  - injection H3 as _ <-. rewrite app_nil_r. by rewrite (sr_tasks _ _ Hs2), Ht.
Qed.

(** C39: ** The race between a cleanup and a reconnection

    The cleanup of a dropped listener is a task of its own, and clears the
    route if it names this node. When the same recipient connects to this
    node again before the task runs, the cleanup removes the new connection's
    route: the listener is registered and no other node can find it. *)
Theorem stale_cleanup_race (app : App) c l to (w w1 w2 w3 : World) s l' u1 u2 :
  winv w -> app_cluster app = Some c ->
  (forall es, is_ok (clear_route to (cl_node_url c) es).1 = true) ->
  l_to l = to -> slots (w_hub w) !! to = Some s -> slot_id s = l_id l ->
  drop_listener app l w = (u1, w1) -> listen app to w1 = (Ok l', w2) ->
  run_task app (TClearRoute to (cl_node_url c)) w2 = (u2, w3) ->
  TClearRoute to (cl_node_url c) ∈ w_tasks w1 /\
  slots (w_hub w3) !! to = Some {| slot_id := l_id l'; slot_tx := l_rx l' |} /\
  a_routes (wview w3) !! to = None.
Proof.
  intros Hw Hc Hok Hto Hslot Hid Hdrop Hlisten Htask.
  assert (Hw1 : winv w1) by by exact (proj1 (drop_listener_evolves view inv app l w u1 w1 Hw Hdrop)).
  apply (listen_spec app c) in Hlisten as (Hw2 & _ & Hslot' & Hv2 & _); [|done..].
  apply (clear_stale_view _ _ laws _ _ _ _ _ Hok Hw2) in Htask as [Hv3 Hs3].
  split_and!.
  - apply st_bind_eq in Hdrop as (was & wa & H1 & Hdrop). rewrite Hto in H1.
    apply with_hub_store in H1 as (_ & _ & Ht & _ & _ & _ & H1).
    unfold unregister in H1. rewrite Hslot, Hid, N.eqb_refl in H1. injection H1 as <- _.
    rewrite Hc, Hto in Hdrop. apply st_bind_eq in Hdrop as (? & wb & [= _ <-] & H3).
    unfold with_chans in H3. apply with_hub_store in H3 as (_ & _ & Ht3 & _). rewrite Ht3. cbn. apply elem_of_app. right. by left.
  - by rewrite (sr_hub _ _ Hs3).
  - rewrite Hv3, Hv2. unfold a_clear_route. cbn. rewrite lookup_insert_eq, decide_True by done.
    apply lookup_delete_eq.
Qed.

End cluster.

(** ** A reconnection in the small service *)
Abbreviation app_a := (demo_app (Some demo_cluster)).
Abbreviation user := (RUserAgent session_ua).
Definition nobody : Listener := {| l_rx := 0%N; l_to := user; l_id := 0 |}.
Definition connect (w : World State (list (Address * BridgeMessage))) :=
  let '(r, w) := listen app_a user w in (default nobody (result_ok r), w).
Abbreviation first_conn := (connect demo_world).
Abbreviation first_gone := (drop_listener app_a first_conn.1 first_conn.2).
Abbreviation second_conn := (connect first_gone.2).
Abbreviation cleaned := (run_task app_a (TClearRoute user "http://a:9000") second_conn.2).

Lemma connect_ok w : is_ok (listen app_a user w).1 = true ->
  listen app_a user w = (Ok (connect w).1, (connect w).2).
Proof. unfold connect. destruct (listen app_a user w) as [[l|e] w']; [done|]. intros H. discriminate H. Qed.
Lemma first_ok : is_ok (listen app_a user demo_world).1 = true.
Proof. vm_compute. reflexivity. Qed.
Lemma second_ok : is_ok (listen app_a user first_gone.2).1 = true.
Proof. vm_compute. reflexivity. Qed.

Lemma stale_cleanup_race_witness :
  slots (w_hub cleaned.2) !! user = Some {| slot_id := l_id second_conn.1; slot_tx := l_rx second_conn.1 |} /\
  a_routes (wview MemoryProofs.view cleaned.2) !! user = None.
Proof.
  pose proof (connect_ok _ first_ok) as H1. pose proof (connect_ok _ second_ok) as H2.
  destruct (listen_spec _ _ memory_laws app_a (new_cluster_link demo_cluster) user demo_world
    first_conn.1 first_conn.2 demo_winv eq_refl H1) as (Hw & Hto & Hslot & _).
  exact (proj2 (stale_cleanup_race _ _ memory_laws app_a (new_cluster_link demo_cluster) first_conn.1 user
    first_conn.2 first_gone.2 second_conn.2 cleaned.2 _ second_conn.1 first_gone.1 cleaned.1 Hw eq_refl
    (memory_clear_ok _ _) Hto Hslot eq_refl (surjective_pairing _) H2 (surjective_pairing _))).
Defined.
