(* ===== verification/SessionTheorems.v ===== *)
(** * What a session promises

    No message is sent twice on a connection, an acknowledgement settles
    exactly the message it names, and the backlog is read to its end. *)
From S2P Require Import MemoryStore MemoryProofs HubTheorems Demo Instances Prelude RustStr External StoreTypes Store Hub Bridge Config App Notify Subscription Headers Response Worlds Delivery Session.

Create HintDb talks discriminated.

Section frames.
Context {S BW F A : Type} `{St : Store S} `{MP : Mpsc} `{B64 : Base64} `{JS : Json} `{PK : P256}
  `{CS : ClientSerde}.
Abbreviation World := (World S BW).
Abbreviation App := (App BW F A).
Abbreviation SE X := (EST (World * Session) BoxError X) (only parsing).
Implicit Types (w : World) (app : App) (s : Session).

(** ** Frames *)

(** The frames that carry no message: replies, pings and closes. *)
Inductive reply : Frame -> Prop :=
| reply_ping : reply FPing
| reply_pong : reply (FText "{}")
| reply_close c : reply (FClose c)
| reply_value v kind : value_get v "messageType" = Str kind ->
    kind ∈ ["hello"; "register"; "unregister"] -> reply (FText (json_print v)).

(** A frame and the notification it carries, if any. *)
Inductive frame_of : option Notification * Frame -> Prop :=
| frame_notification n : frame_of (Some n, FText (json_print (notification_json n)))
| frame_reply f : reply f -> frame_of (None, f).

Definition ids (tr : list (option Notification * Frame)) : list string := n_id <$> omap fst tr.

(** [s'] sent the frames of [tr] after [s]. *)
Record emits s s' tr : Prop := {
  em_out : so_out (se_socket s') = so_out (se_socket s) ++ tr.*2;
  em_frames : Forall frame_of tr;
  em_once : NoDup (ids tr);
  em_new : forall i, i ∈ ids tr -> i ∉ se_sent s;
  em_sent : forall i, i ∈ se_sent s' <-> i ∈ se_sent s \/ i ∈ ids tr;
  em_unacked : se_unacked s ⊆ se_sent s -> se_unacked s' ⊆ se_sent s';
  em_uaid : se_uaid s' = se_uaid s;
}.

Lemma emits_nil s s' :
  so_out (se_socket s') = so_out (se_socket s) -> se_sent s' = se_sent s ->
  se_unacked s' ⊆ se_unacked s -> se_uaid s' = se_uaid s -> emits s s' [].
Proof.
  intros Ho Hs Hu ?. split; try done.
  - by rewrite Ho, app_nil_r.
  - constructor.
  - intros i Hi. by apply not_elem_of_nil in Hi.
  - intros i. rewrite Hs. split; [by left|]. intros [?|Hi]; [done|]. by apply not_elem_of_nil in Hi.
  - rewrite Hs. set_solver.
Qed.

Lemma emits_trans s1 s2 s3 tr1 tr2 :
  emits s1 s2 tr1 -> emits s2 s3 tr2 -> emits s1 s3 (tr1 ++ tr2).
Proof.
  intros H1 H2. assert (Hnew : forall i, i ∈ ids tr1 -> i ∉ ids tr2).
  { intros i Hi1 Hi2. apply (em_new _ _ _ H2 i Hi2), (em_sent _ _ _ H1). by right. }
  destruct H1, H2. assert (Hi : ids (tr1 ++ tr2) = ids tr1 ++ ids tr2)
    by (unfold ids; by rewrite omap_app, fmap_app).
  split; [|by apply Forall_app| | | |auto|congruence].
  - rewrite fmap_app, app_assoc. congruence.
  - rewrite Hi. apply NoDup_app. split_and!; done.
  - intros i. rewrite Hi, elem_of_app. naive_solver.
  - intros i. rewrite Hi, elem_of_app. naive_solver.
Qed.

Lemma emits_reply s f so : reply f -> so_out so = so_out (se_socket s) ++ [f] ->
  emits s (set_socket so s) [(None, f)].
Proof.
  intros Hf Ho. split; try done.
  - by repeat constructor.
  - constructor.
  - intros i Hi. by apply not_elem_of_nil in Hi.
  - intros i. cbn. split; [by left|]. intros [?|Hi]; [done|]. by apply not_elem_of_nil in Hi.
Qed.

(** ** Computations that only send replies and new messages *)
Definition talks {X} (m : SE X) : Prop :=
  forall w s r w' s', m (w, s) = (r, (w', s')) -> exists tr, emits s s' tr.

Lemma talks_ret {X} (x : X) : talks (mret x).
Proof. intros w s r w' s' [= <- <- <-]. exists []. by apply emits_nil. Qed.
Lemma talks_self {X} (f : Session -> X) : talks (self f).
Proof. intros w s r w' s' [= <- <- <-]. exists []. by apply emits_nil. Qed.
Lemma talks_in_world {X} (m : EST World BoxError X) : talks (in_world m).
Proof.
  intros w s r w' s'. unfold in_world. destruct (m w). intros [= <- <- <-]. exists [].
  by apply emits_nil.
Qed.
Lemma talks_bind {X Y} (m : SE X) (f : X -> SE Y) : talks m -> (forall x, talks (f x)) -> talks (m ≫= f).
Proof.
  intros Hm Hf w s r w' s' Hr.
  apply est_bind_cases in Hr as [(x & [w1 s1] & H1 & H2)|(e & H1 & _)].
  - destruct (Hm _ _ _ _ _ H1) as [tr1 ?], (Hf _ _ _ _ _ _ H2) as [tr2 ?].
    exists (tr1 ++ tr2). by eapply emits_trans.
  - by eapply Hm.
Qed.

(** An update that leaves the socket, the sent ids and the user agent alone. *)
Definition minor (f : Session -> Session) : Prop := forall s,
  se_socket (f s) = se_socket s /\ se_sent (f s) = se_sent s /\ se_unacked (f s) ⊆ se_unacked s /\
  se_uaid (f s) = se_uaid s.
Lemma talks_update f : minor f -> talks (update (S := S) (BW := BW) f).
Proof.
  intros Hf w s r w' s' [= <- <- <-]. destruct (Hf s) as (Hso & ? & ? & ?). exists [].
  apply emits_nil; [by rewrite Hso|done..].
Qed.
Lemma minor_unacked v : minor (fun s => set_unacked (se_unacked s ∖ {[ v ]}) s).
Proof. intros s. split_and!; try done. cbn. set_solver. Qed.
Lemma minor_fields : (forall x, minor (set_stored x)) /\ (forall x, minor (set_more x)) /\
  (forall x, minor (set_heard x)) /\ (forall x, minor (set_touched x)).
Proof. by split_and!; intros x s. Qed.

Lemma talks_send_frame f : reply f -> talks (send_frame (S := S) (BW := BW) f).
Proof.
  intros Hf w s r w' s' Hr. unfold send_frame in Hr. exists [(None, f)].
  destruct (so_ok _ _); injection Hr as <- <- <-; by eapply emits_reply.
Qed.
Lemma talks_send v kind : value_get v "messageType" = Str kind ->
  kind ∈ ["hello"; "register"; "unregister"] -> talks (send (S := S) (BW := BW) v).
Proof. intros. apply talks_send_frame. by econstructor. Qed.
Lemma talks_close code reason : talks (close (S := S) (BW := BW) code reason).
Proof.
  intros w s r w' s'. unfold close.
  destruct (send_frame _ (w, s)) as [r1 [w1 s1]] eqn:Hs. intros [= <- <- <-].
  eapply talks_send_frame; [|done]. constructor.
Qed.

Lemma talks_notify n : talks (Session.notify (S := S) (BW := BW) n).
Proof.
  intros w s r w' s' Hr. unfold Session.notify in Hr.
  apply est_bind_cases in Hr as [(sent & [w1 s1] & [= <- <- <-] & Hr)|(e & [=] & _)].
  case_decide as Hin; [injection Hr as <- <- <-; exists []; by apply emits_nil|].
  set (s2 := set_unacked ({[ n_id n ]} ∪ se_unacked s) (set_sent ({[ n_id n ]} ∪ se_sent s) s)) in *.
  assert (Hr2 : exists so, so_out so = so_out (se_socket s) ++ [FText (json_print (notification_json n))] /\
    s' = set_socket so s2).
  { unfold mbind, est_bind, update, send, send_text, send_frame in Hr. cbn in Hr.
    exists {| so_out := so_out (se_socket s) ++ [FText (json_print (notification_json n))];
              so_ok := so_ok (se_socket s) |}.
    destruct (so_ok _ _); injection Hr as _ _ <-; done. }
  destruct Hr2 as (so & Ho & ->). exists [(Some n, FText (json_print (notification_json n)))].
  split; cbn; try done.
  - by repeat constructor.
  - apply NoDup_singleton.
  - intros i ->%list_elem_of_singleton. done.
  - intros i. rewrite elem_of_union, elem_of_singleton, list_elem_of_singleton. naive_solver.
  - set_solver.
Qed.

(** ** Every operation of a session *)
Ltac talk := repeat first
  [ match goal with |- forall _, _ => intro end
  | assumption
  | solve [eauto 1 with talks nocore]
  | apply talks_ret | apply talks_self | apply talks_in_world | apply talks_notify | apply talks_close
  | apply talks_update, minor_unacked
  | apply talks_update; apply minor_fields
  | apply talks_send_frame; constructor
  | match goal with |- talks (match ?x with _ => _ end) => destruct x end
  | apply talks_bind ].

Lemma talks_send_all ms : talks (send_all (S := S) (BW := BW) ms).
Proof. induction ms; cbn; talk. Qed.
#[local] Hint Resolve talks_send_all : talks.
Lemma talks_next_batch app : talks (next_batch (S := S) app).
Proof. unfold next_batch. talk. Qed.
#[local] Hint Resolve talks_next_batch : talks.
Lemma talks_ack app u : talks (ack (S := S) app u).
Proof. unfold ack. talk. Qed.
#[local] Hint Resolve talks_ack : talks.
Lemma talks_ack_all app us : talks (ack_all (S := S) app us).
Proof. induction us; cbn; talk. Qed.
#[local] Hint Resolve talks_ack_all : talks.

(** The reply to a [register] message. *)
Definition is_register_reply (v : Value) : Prop := value_get v "messageType" = Str "register".
Lemma register_replies app c k w s v w' s' :
  Session.register (S := S) app c k (w, s) = (Ok v, (w', s')) -> is_register_reply v.
Proof.
  unfold Session.register. intros Hr.
  destruct (Subscription.channel_id c) as [ch|]; [|by injection Hr as <- _ _].
  destruct (vapid_key <$> k) as [[kk|]|]; [| by injection Hr as <- _ _|];
    (repeat apply est_bind_Ok in Hr as (? & [? ?] & _ & Hr));
    case_match; by injection Hr as <- _ _.
Qed.

Lemma talks_register app c k : talks (Session.register (S := S) app c k).
Proof. unfold Session.register. talk. Qed.
#[local] Hint Resolve talks_register : talks.

Lemma talks_handle app msg : talks (handle (S := S) app msg).
Proof.
  destruct msg as [u|c k|c|us| | |]; cbn [handle]; try by talk.
  - intros w s r w' s' Hr.
    apply est_bind_cases in Hr as [(v & [w1 s1] & H1 & H2)|(e & H1 & _)].
    + pose proof (register_replies _ _ _ _ _ _ _ _ H1) as Hv.
      destruct (talks_register _ _ _ _ _ _ _ _ H1) as [tr1 ?].
      destruct (talks_send v "register" Hv ltac:(set_solver) _ _ _ _ _ H2) as [tr2 ?].
      exists (tr1 ++ tr2). by eapply emits_trans.
    + by eapply talks_register.
  - talk. eapply talks_send; [reflexivity|set_solver].
Qed.
#[local] Hint Resolve talks_handle : talks.

Lemma talks_serve_step app step : talks (serve_step (S := S) app step).
Proof. unfold serve_step. talk. Qed.
#[local] Hint Resolve talks_serve_step : talks.
Lemma talks_serve_loop app steps : talks (serve_loop (S := S) app steps).
Proof. induction steps; cbn; talk. Qed.
#[local] Hint Resolve talks_serve_loop : talks.
Lemma talks_serve app steps : talks (serve (S := S) app steps).
Proof.
  unfold serve. talk.
  eapply talks_send; [reflexivity|set_solver].
Qed.

(** C10: along a whole session, whatever arrives and however it ends, every
    frame is a reply or carries a message, no message is sent twice, and only
    messages sent on this connection count as unacknowledged. *)
Theorem session_sends_once app socket uaid stored now steps w r w' s' :
  serve (S := S) app steps (w, new_session socket uaid stored now) = (r, (w', s')) ->
  exists tr, so_out (se_socket s') = so_out socket ++ tr.*2 /\ Forall frame_of tr /\
    NoDup (ids tr) /\ (forall i, i ∈ se_sent s' <-> i ∈ ids tr) /\ se_unacked s' ⊆ se_sent s'.
Proof.
  intros Hr. destruct (talks_serve _ _ _ _ _ _ _ Hr) as [tr [Ho Hf Hn _ Hs Hu _]].
  exists tr. split_and!; try done.
  - intros i. rewrite Hs. cbn. set_solver.
  - by apply Hu.
Qed.
End frames.

Section store.
Context {S BW F A : Type} `{St : Store S} `{MP : Mpsc} `{B64 : Base64} `{JS : Json} `{PK : P256}
  `{CS : ClientSerde}.
Context (view : S -> AStore) (inv : Env * S -> Prop).
Context (laws : StoreLaws view inv) (faults : FaultLaws view inv).
Abbreviation World := (World S BW).
Abbreviation App := (App BW F A).
Abbreviation winv := (winv inv).
Abbreviation wview := (wview view).
Implicit Types (w : World) (app : App) (s : Session).

Lemma in_world_Ok {X} (m : EST World BoxError X) w s x w' s' :
  in_world m (w, s) = (Ok x, (w', s')) -> m w = (Ok x, w') /\ s' = s.
Proof. unfold in_world. destruct (m w) as [r w1]. by intros [= -> -> ->]. Qed.

(** ** Acknowledgements *)

(** Room for a receipt, now and after anything that numbers none. *)
(** The receipt of an acknowledged message is queued, if the message owes one
    and its receipt subscription still exists. *)
Definition settled (m : Message) (status : N) (a a' : AStore) : Prop :=
  match receipt_for status m with
  | Some r =>
      match a_queues a !! r_rsub r with
      | Some _ => exists seq, a' = set_a_queues (enqueue (a_queues a) (seq, r)) a
      | None => a' = a
      end
  | None => a' = a
  end.

Lemma owe_receipt_spec app m status w w' u :
  winv w -> seq_room 1 (w_env w) -> owe_receipt app m status w = (Ok u, w') ->
  exists a, settled m status (wview w) a /\ routes_only a (wview w').
Proof.
  intros Hw Hroom Hr. unfold owe_receipt in Hr. unfold settled, receipt_for.
  destruct (m_rsub m) as [rsub|]; cbn; [|injection Hr as _ <-; by exists (wview w)].
  apply est_bind_Ok in Hr as (o & w1 & Hx & Hr).
  destruct (with_store_meets _ _ _ _ _ _ _ _ (law_enqueue_receipt _ _ laws _) Hw Hroom Hx)
    as (Hw1 & _ & _ & Hpost). cbn in Hpost.
  destruct (a_queues (wview w) !! rsub) as [q|].
  - destruct Hpost as (seq & -> & _ & Hv).
    apply lift_st_Ok in Hr as (? & Hr & _).
    destruct (notify_receipts_evolves view inv laws faults _ _ _ _ _ Hw1 Hr) as (_ & _ & _ & Hro).
    exists (wview w1). split; [by exists seq|done].
  - destruct Hpost as (-> & Hv & _). injection Hr as _ <-. exists (wview w1). by rewrite Hv.
Qed.

(** The receipt status of an acknowledgement's code. *)
Definition ack_status (u : AckUpdate) : option N :=
  match default 100%N (au_code u) with
  | 100 => Some 204
  | 101 | 102 => Some 410
  | _ => None
  end%N.

(** The stored message an acknowledgement of user agent [uaid] settles. *)
Definition acked (a : AStore) (uaid : string) (u : AckUpdate) : option (Message * N) :=
  status ← ack_status u;
  ch ← Subscription.channel_id (au_channel_id u);
  m ← a_msgs a !! au_version u;
  if is_id (au_version u) && bool_decide (m_owner m = (uaid, ch)) then Some (m, status) else None.

Lemma ack_settled app u w s w' s' x :
  winv w -> seq_room 1 (w_env w) ->
  ack app u (w, s) = (Ok x, (w', s')) ->
  s' = set_unacked (se_unacked s ∖ {[ au_version u ]}) s /\
  match acked (wview w) (se_uaid s) u with
  | Some (m, status) =>
      exists a, settled m status (set_a_msgs (base.delete (m_id m) (a_msgs (wview w))) (wview w)) a /\
        routes_only a (wview w')
  | None => wview w' = wview w
  end.
Proof.
  intros Hw Hroom Hr. unfold ack in Hr.
  apply est_bind_Ok in Hr as (? & [w1 s1] & [= _ <- <-] & Hr). fold (ack_status u) in Hr.
  cbv zeta in Hr. unfold acked. destruct (ack_status u) as [status|]; [|by injection Hr as _ <- <-].
  cbn [mbind option_bind].
  destruct (Subscription.channel_id (au_channel_id u)) as [ch|]; [|by injection Hr as _ <- <-].
  cbn [mbind option_bind]. destruct (is_id (au_version u)) eqn:Hid; cbn [negb andb] in *.
  2:{ injection Hr as _ <- <-. by destruct (_ !! _). }
  apply est_bind_Ok in Hr as (? & [w1 s1] & [= <- <- <-] & Hr).
  apply est_bind_Ok in Hr as (o & [w2 s2] & [Hx ->]%in_world_Ok & Hr).
  destruct (with_store_writes _ _ _ _ _ _ _ _ _ (law_delete_message _ _ laws _ _) Hw I Hx)
    as ((Hw2 & He2 & Hq2 & Hv2) & _ & Ho).
  destruct (a_msgs (wview w) !! au_version u) as [m|] eqn:Hm; cbn in Ho, Hv2 |- *;
    [case_bool_decide as Hown|]; subst o.
  - apply in_world_Ok in Hr as [Hr ->]. split; [done|].
    destruct (owe_receipt_spec _ _ _ _ _ _ Hw2 (seq_room_quiet _ _ _ He2 Hq2 Hroom) Hr) as (a & Ha & ?).
    exists a. split; [|done].
    pose proof (wf_msgs _ (law_wf _ _ laws _ _ Hw) _ _ Hm) as ->. by rewrite <- Hv2.
  - injection Hr as _ <- <-. done.
  - injection Hr as _ <- <-. done.
Qed.

(** C11: an acknowledgement removes exactly the message it names, and only if
    that message is on the user agent's own channel and the code is known;
    it then owes the receipt 204 or 410 to the application server, queued
    if its receipt subscription exists. Any other acknowledgement changes
    nothing in the store. Either way the message no longer counts as
    unacknowledged. *)
Theorem ack_spec app u w s w' s' x :
  winv w -> seq_room 1 (w_env w) ->
  ack app u (w, s) = (Ok x, (w', s')) ->
  s' = set_unacked (se_unacked s ∖ {[ au_version u ]}) s /\
  match acked (wview w) (se_uaid s) u with
  | Some (m, status) =>
      exists a, settled m status (set_a_msgs (base.delete (m_id m) (a_msgs (wview w))) (wview w)) a /\
        routes_only a (wview w')
  | None => wview w' = wview w
  end.
Proof. apply ack_settled. Qed.

(** ** The backlog *)

(** The notifications of messages not in [sent]. *)
Definition unsent (sent : gset string) (ms : list Message) : list Message :=
  filter (fun m => m_id m ∉ sent) ms.
Definition note_frame (m : Message) : Frame :=
  FText (json_print (notification_json (notification_from m))).

Lemma notify_Ok n w s b w' s' : Session.notify n (w, s) = (Ok b, (w', s')) ->
  w' = w /\ se_uaid s' = se_uaid s /\ se_more s' = se_more s /\
  if decide (n_id n ∈ se_sent s) then b = false /\ s' = s
  else b = true /\ se_sent s' = {[ n_id n ]} ∪ se_sent s /\
    so_out (se_socket s') = so_out (se_socket s) ++ [FText (json_print (notification_json n))].
Proof.
  intros Hr. unfold Session.notify in Hr.
  apply est_bind_Ok in Hr as (? & [w1 s1] & [= <- <- <-] & Hr). case_decide.
  - injection Hr as <- <- <-. done.
  - unfold mbind, est_bind, update, send, send_text, send_frame in Hr. cbn in Hr.
    destruct (so_ok _ _); [|done]. injection Hr as <- <- <-. done.
Qed.

Lemma unsent_cons_new m sent ms : m_id m ∉ m_id <$> ms ->
  unsent ({[ m_id m ]} ∪ sent) ms = unsent sent ms.
Proof.
  clear faults laws. intros Hn. unfold unsent. apply filter_ext_in. intros x Hx.
  assert (m_id x <> m_id m) by (intros He; apply Hn; rewrite <- He; by apply list_elem_of_fmap_2).
  set_solver.
Qed.

Lemma send_all_Ok ms : forall w s n w' s', NoDup (m_id <$> ms) ->
  send_all ms (w, s) = (Ok n, (w', s')) ->
  w' = w /\ se_uaid s' = se_uaid s /\ se_more s' = se_more s /\
  n = N.of_nat (length (unsent (se_sent s) ms)) /\
  so_out (se_socket s') = so_out (se_socket s) ++ (note_frame <$> unsent (se_sent s) ms) /\
  se_sent s' = se_sent s ∪ list_to_set (m_id <$> ms).
Proof.
  clear faults laws. induction ms as [|m ms IH]; intros w s n w' s' Hnd Hr; cbn [send_all] in Hr.
  - injection Hr as <- <- <-. split_and!; try done; [by rewrite app_nil_r|]. set_solver.
  - apply est_bind_Ok in Hr as (b & [w1 s1] & H1 & Hr).
    apply est_bind_Ok in Hr as (k & [w2 s2] & H2 & [= <- <- <-]). cbn in Hnd.
    apply NoDup_cons in Hnd as [Hnin Hnd].
    destruct (notify_Ok _ _ _ _ _ _ H1) as (-> & Hu & Hmo & Hcase).
    destruct (IH _ _ _ _ _ Hnd H2) as (-> & Hu2 & Hmo2 & -> & Hout & Hsent).
    cbn [unsent] in *. unfold unsent in *. rewrite filter_cons. cbn [n_id notification_from] in Hcase.
    case_decide as Hin.
    + destruct Hcase as [-> ->]. rewrite decide_False by auto. split_and!; try done.
      rewrite Hsent. set_solver.
    + destruct Hcase as (-> & Hs1 & Ho1). rewrite decide_True by done.
      pose proof (unsent_cons_new m (se_sent s) ms Hnin) as Hcons. unfold unsent in Hcons.
      rewrite Hs1, Hcons in *. split_and!; [done|congruence|congruence| | |].
      * cbn [length]. lia.
      * rewrite Hout, Ho1, <- app_assoc. done.
      * rewrite Hsent. set_solver.
Qed.

(** What is pending for a user agent, in delivery order. *)
Definition backlog (a : AStore) (u : string) (now : N) (all : list Message) : Prop :=
  StronglySorted msg_le all /\
  all ≡ₚ filter (fun m => m_uaid m = u /\ (now < m_expiry m)%N) (map_to_list (a_msgs a)).*2.

Lemma backlog_ids a u now all : a_wf a -> backlog a u now all -> NoDup (m_id <$> all).
Proof.
  intros Hwf [_ Hp]. rewrite Hp.
  assert (Hkeys : m_id <$> (map_to_list (a_msgs a)).*2 = (map_to_list (a_msgs a)).*1).
  { rewrite <- list_fmap_compose. apply list_fmap_ext. intros i [k m] Hi.
    apply (wf_msgs _ Hwf). apply elem_of_map_to_list. by eapply list_elem_of_lookup_2. }
  eapply sublist_NoDup; [|apply fmap_sublist, sublist_filter]. rewrite Hkeys.
  apply NoDup_fst_map_to_list.
Qed.

(** C17: reading the backlog sends, in delivery order, the oldest pending
    messages that were not sent on this connection, at most a batch of them,
    and deletes none. It is over only when every pending message was sent,
    or when a whole batch of old ones is still unacknowledged in storage:
    then a further read would bring nothing new. *)
Theorem next_batch_spec app w s w' s' x :
  winv w -> next_batch app (w, s) = (Ok x, (w', s')) ->
  let batch := backlog_batch (websocket (app_cfg app)) in
  exists t all, backlog (wview w) (se_uaid s) (N.min (env_clock (w_env w) t) u64_max) all /\
    wview w' = wview w /\ same_rest w w' /\
    so_out (se_socket s') = so_out (se_socket s) ++
      (note_frame <$> unsent (se_sent s) (truncate batch all)) /\
    se_sent s' = se_sent s ∪ list_to_set (m_id <$> truncate batch all) /\
    (se_more s' = false ->
       (forall m, m ∈ all -> m_id m ∈ se_sent s') \/
       (N.of_nat (length (truncate batch all)) = batch /\
        forall m, m ∈ truncate batch all -> m_id m ∈ se_sent s)) /\
    (se_more s' = true -> unsent (se_sent s) (truncate batch all) <> []).
Proof.
  intros Hw Hr batch. unfold next_batch in Hr. fold batch in Hr.
  apply est_bind_Ok in Hr as (? & [? ?] & [= <- <- <-] & Hr).
  apply est_bind_Ok in Hr as (now & [w1 s1] & [Hx ->]%in_world_Ok & Hr).
  apply lift_st_Ok in Hx as (now' & Hx & [= ->]).
  destruct (with_env_evolves view inv laws _ _ _ _ now_ms_env Hw Hx) as ((Hw1 & He1 & _ & Hv1) & Hs1 & ->).
  apply est_bind_Ok in Hr as (ms & [w2 s2] & [Hp ->]%in_world_Ok & Hr).
  destruct (with_store_meets _ _ _ _ _ _ _ _ (law_pending _ _ laws _ _ _) Hw1 I Hp)
    as (Hw2 & He2 & Hs2 & _ & Hv2 & all & Hsort & Hperm & ->).
  rewrite <- Hv1 in Hperm, Hv2.
  assert (Hback : backlog (wview w) (se_uaid s) (now_ms (w_env w)).1 all) by (by split).
  pose proof (backlog_ids _ _ _ _ (law_wf _ _ laws _ _ Hw) Hback) as Hnd.
  apply est_bind_Ok in Hr as (? & [w3 s3] & [= _ <- <-] & Hr).
  apply est_bind_Ok in Hr as (n & [w4 s4] & Hsend & Hr).
  apply send_all_Ok in Hsend as (-> & _ & Hmore & -> & Hout & Hsent).
  2:{ eapply sublist_NoDup; [|apply fmap_sublist; rewrite truncate_take; apply sublist_take]. exact Hnd. }
  cbn in Hmore, Hout, Hsent.
  set (new := unsent (se_sent s) (truncate batch all)) in *.
  set (full := (N.of_nat (length (truncate batch all)) =? batch)%N) in *.
  assert (Hend : w' = w2 /\ se_socket s' = se_socket s4 /\ se_sent s' = se_sent s4 /\
    se_more s' = full && negb (N.of_nat (length new) =? 0)%N).
  { change (unsent (se_sent (set_more full s)) (truncate batch all)) with new in Hr.
    destruct (_ =? 0)%N; injection Hr as _ <- <-; cbn; rewrite ?Hmore; destruct full; done. }
  destruct Hend as (-> & -> & -> & Hm).
  exists (env_ticks (w_env w)), all. split_and!; try done; [by etrans| |].
  - rewrite Hm. intros Hf. destruct full eqn:Hfull; [right|left]; subst full.
    + apply N.eqb_eq in Hfull. split; [done|]. cbn in Hf. apply negb_false_iff, N.eqb_eq in Hf.
      assert (new = []) as Hnil by (destruct new; [done|cbn in Hf; lia]).
      intros m Hin. apply dec_stable. intros Hno.
      assert (m ∈ new) as Hin' by (by apply list_elem_of_filter).
      rewrite Hnil in Hin'. by apply not_elem_of_nil in Hin'.
    + apply N.eqb_neq in Hfull. rewrite truncate_take in *. rewrite length_take in Hfull.
      rewrite take_ge in Hsent by lia. intros m Hin. rewrite Hsent. apply elem_of_union. right.
      apply elem_of_list_to_set. by apply list_elem_of_fmap_2.
  - rewrite Hm. intros [_ Hn]%andb_true_iff Hnil. change (new = []) in Hnil. by rewrite Hnil in Hn.
Qed.
End store.

(** ** Witnesses *)
#[local] Instance toy_client : ClientSerde := {| from_value := fun _ => None |}.

(** A connection on which every send succeeds. *)
Definition demo_socket : Socket := {| so_out := []; so_ok := fun _ => true |}.
Definition demo_session : Session := new_session demo_socket session_ua true 0.

Abbreviation demo_serve := (serve (demo_app None)
  [SFrame (Some (Ok (FText "{}"))); SStop] (demo_world, demo_session)).
Lemma session_sends_once_witness : exists tr, so_out (se_socket demo_serve.2.2) = tr.*2 /\
  NoDup (ids tr).
Proof.
  destruct demo_serve as [r [w' s']] eqn:Hr.
  destruct (session_sends_once _ _ _ _ _ _ _ _ _ _ Hr) as (tr & Ho & _ & Hn & _).
  exists tr. exact (conj Ho Hn).
Defined.

Definition demo_ack : AckUpdate :=
  {| au_channel_id := demo_channel; au_version := demo_id; au_code := None |}.
Abbreviation demo_acked := (Session.ack (demo_app None) demo_ack (demo_world, demo_session)).
Lemma demo_room_1 : seq_room 1 (w_env demo_world).
Proof.
  apply (demo_seq_room 1000); [done|done|vm_compute; reflexivity|].
  vm_compute. reflexivity.
Qed.
Lemma demo_acked_ok : is_ok demo_acked.1 = true /\
  acked (wview MemoryProofs.view demo_world) session_ua demo_ack =
    Some (demo_msg demo_id (Some demo_rsub), 204%N).
Proof. vm_compute. done. Qed.
Lemma ack_spec_witness : exists a,
  settled (demo_msg demo_id (Some demo_rsub)) 204
    (set_a_msgs (base.delete demo_id (a_msgs (wview MemoryProofs.view demo_world)))
      (wview MemoryProofs.view demo_world)) a /\
  routes_only a (wview MemoryProofs.view demo_acked.2.1).
Proof.
  destruct demo_acked_ok as [Hok Hac]. destruct demo_acked as [[x|] [w' s']] eqn:Hr; [|done].
  destruct (ack_spec _ _ memory_laws memory_faults _ _ _ _ _ _ _ demo_winv demo_room_1 Hr) as [_ Ha].
  change (se_uaid demo_session) with session_ua in Ha. rewrite Hac in Ha. exact Ha.
Defined.

Abbreviation demo_batch := (next_batch (demo_app None) (demo_world, demo_session)).
Lemma next_batch_spec_witness :
  wview MemoryProofs.view demo_batch.2.1 = wview MemoryProofs.view demo_world.
Proof.
  assert (Hok : is_ok demo_batch.1 = true) by (vm_compute; reflexivity).
  destruct demo_batch as [[x|] [w' s']] eqn:Hr; [|done].
  destruct (next_batch_spec _ _ memory_laws _ _ _ _ _ _ demo_winv Hr) as (t & all & _ & Hv & _).
  exact Hv.
Defined.
