(* ===== verification/Endpoint.v ===== *)
(** * The application server API

    [crates/webpush-server/src/endpoint.rs]: sending a push message, reading
    and withdrawing it, and deleting a receipt subscription. Extracting the
    path and reading the body within the size limit are [axum]'s; a handler
    receives their results as arguments. Metrics and logs are left out. *)
From S2P Require Import Prelude RustStr External StoreTypes Store Hub Bridge Config App Notify Headers Ece Vapid Response.

Definition REL_RECEIPT : string := "urn:ietf:params:push:receipt".

(** [valid] *)
Definition valid (id : string) : result Error string :=
  if is_id id then Ok id else Err (from_status 404).

Definition quote_s : string := String quote_c EmptyString.
(** [link] *)
Definition link (target rel : string) : string :=
  "<" +:+ target +:+ ">; rel=" +:+ quote_s +:+ rel +:+ quote_s.

(** [headers.get(name)] *)
Definition get `{Http} (headers : HeaderMap) (name : string) : option HeaderValue :=
  head (get_all headers name).

(** [struct Push] *)
Record Push : Type := {
  p_sub : Subscription;
  p_ttl : N;
  p_urgency : Urgency;
  p_topic : option string;
  p_respond_async : bool;
  p_rsub_link : option string;
  p_ctype : option string;
  p_cenc : option string;
  p_body : Bytes;
}.

(** The closure [text] of [push]: a header as text, if it is one. *)
Definition text `{Http} (headers : HeaderMap) (name : string) : option string :=
  v ← get headers name; to_str v.

Section endpoint.
Context {S BW F A : Type} `{St : Store S} `{MP : Mpsc} `{B64 : Base64} `{JS : Json} `{PK : P256}
  `{HT : Http} `{HD : HttpDate} `{RH : ResponseHeaders}.
Abbreviation World := (World S BW).
Abbreviation App := (App BW F A).
Abbreviation H X := (EST World Error X) (only parsing).
Implicit Types (app : App).

(** [check_vapid]: the verified key, if any. *)
Definition check_vapid (headers : HeaderMap) (restricted : option Bytes) (origin : string)
  : H (option Bytes) :=
  let forbidden := from_status 403 in
  creds ← (match to_str <$> get headers "authorization" with
           | None => mret None
           | Some None => refuse forbidden
           | Some (Some value) =>
               match parse_authorization value with
               | Err NotVapid => mret None
               | Err _ => refuse forbidden
               | Ok c => mret (Some c)
               end
           end);
  match creds with
  | None =>
      match restricted with
      | Some _ => refuse (unauthorized "vapid")
      | None => mret None
      end
  | Some creds =>
      now ← env now_ms;
      _ ← lift_result (map_err (fun _ => forbidden) (verify creds origin (now / 1000)));
      match restricted with
      | Some k => if decide (k <> c_k creds) then refuse forbidden else mret (Some (c_k creds))
      | None => mret (Some (c_k creds))
      end
  end.

(** Receipt subscription named by the request's [Link]. *)
Definition rsub_of_link app (headers : HeaderMap) (respond_async : bool) : H (option string) :=
  match Headers.link headers REL_RECEIPT with
  | Some target =>
      if respond_async then
        id ← header (ok_or Invalid_ (resource_id target (app_origin app) "/receipt-subscription/"));
        known ← stored (receipt_sub_exists id);
        if negb (known : bool) then refuse (from_invalid Invalid_) else mret (Some id)
      else mret None
  | None => mret None
  end.

(** [ece::parse_header(&body).is_ok_and(|(h, _)| h.keyid == k)] *)
Definition keyid_is (body k : Bytes) : bool :=
  match parse_header body with
  | Ok (h, _) => bool_decide (h_keyid h = k)
  | Err _ => false
  end.

(** The message [store_and_notify] stores. *)
Definition new_message (p : Push) (push_id id : string) (accepted : N) (rsub : option string)
  : Message := {|
  m_id := id;
  m_uaid := sub_uaid (p_sub p);
  m_channel_id := sub_channel_id (p_sub p);
  m_push := push_id;
  m_topic := p_topic p;
  m_body := p_body p;
  m_ctype := p_ctype p;
  m_cenc := p_cenc p;
  m_ttl := p_ttl p;
  m_urgency := p_urgency p;
  m_accepted := accepted;
  m_expiry := wrap64 (accepted + p_ttl p * 1000);
  m_rsub := rsub;
|}.

(** [store_and_notify] *)
Definition store_and_notify app (p : Push) (push_id : string) : H Response :=
  rsub ← (match p_rsub_link p with
          | Some id => mret (Some id)
          | None =>
              if p_respond_async p then id ← stored create_receipt_sub; mret (Some id)
              else mret None
          end);
  accepted ← env now_ms;
  id ← env new_id;
  let m := new_message p push_id id accepted rsub in
  _ ← stored (insert_message m);
  let o := app_origin app in
  let out := [("location", o +:+ "/message/" +:+ m_id m); ("ttl", to_string (p_ttl p))] in
  let out := match m_rsub m with
             | Some rsub => out ++ [("link", link (o +:+ "/receipt-subscription/" +:+ rsub) REL_RECEIPT)]
             | None => out
             end in
  let status := match m_rsub m with Some _ => 202 | None => 201 end%N in
  let event := EvMessage (notification_from m) in
  _ ← lift_st (notify app (RUserAgent (sub_uaid (p_sub p))) event);
  mret (into_response status out []).

(** [bridge_error] *)
Definition bridge_error app (uaid : string) (e : Bridge.Error) : ST World Error :=
  match e with
  | Bridge.TokenGone =>
      r ← attempt (with_store (delete_user_agent uaid));
      _ ← (match r with
           | Ok receipts => notify_receipts app receipts
           | Err _ => mret ()
           end);
      mret (from_status 410)
  | Bridge.TooLarge => mret (from_status 413)
  | Throttled after => mret (retry_after 429 after)
  | _ => mret (from_status 502)
  end.

(** The message handed to the platform. *)
Definition bridge_message (p : Push) (id : string) : BridgeMessage := {|
  bn_channel_id := sub_channel_id (p_sub p);
  bn_version := id;
  bn_data := match p_body p with [] => None | body => Some body end;
  bn_encoding := p_cenc p;
  bn_ttl := from_secs (p_ttl p);
  bn_priority := match p_urgency p with High => PHigh | _ => PNormal end;
|}.

(** [bridge] *)
Definition bridge app (p : Push) (to : BridgeAddress) : H Response :=
  match app_bridges app !! ba_bridge to with
  | None => refuse (from_status 502)
  | Some b =>
      id ← env new_id;
      let address := {| ad_app_id := ba_app_id to; ad_token := ba_token to |} in
      r ← lift_st (attempt (with_bridges (b_send b address (bridge_message p id))));
      match r with
      | Err e =>
          err ← lift_st (bridge_error app (sub_uaid (p_sub p)) e);
          refuse err
      | Ok _ =>
          mret (into_response 201
            [("location", app_origin app +:+ "/message/" +:+ id); ("ttl", to_string (p_ttl p))] [])
      end
  end.

(** The effective TTL of a push: saturated to a [u32], capped by the
    configuration. *)
Definition effective_ttl app (requested : N) : N :=
  let max_ttl := default u32_max (u32_try_from (as_secs (max_ttl (Config.push (app_cfg app))))) in
  N.min (default u32_max (u32_try_from requested)) max_ttl.

(** [push] *)
Definition push app (push_id : string) (headers : HeaderMap) (body : Bytes) : H Response :=
  push_id ← lift_result (valid push_id);
  sub ← stored (subscription_by_push push_id);
  sub ← or_status 404 sub;
  ttl ← header (ttl headers);
  let ttl := effective_ttl app ttl in
  urgency ← header (urgency headers);
  let urgency := default Normal urgency in
  topic ← header (topic headers);
  let respond_async := respond_async (prefer headers) in
  rsub_link ← rsub_of_link app headers respond_async;
  key ← check_vapid headers (sub_vapid sub) (app_origin app);
  let cenc := text headers "content-encoding" in
  let clash := match key with
               | Some k => bool_decide (cenc = Some "aes128gcm") && keyid_is body k
               | None => false
               end in
  if clash then refuse (from_invalid Invalid_)
  else
    let p := {| p_sub := sub; p_ttl := ttl; p_urgency := urgency; p_topic := topic;
                p_respond_async := respond_async; p_rsub_link := rsub_link;
                p_ctype := text headers "content-type"; p_cenc := cenc; p_body := body |} in
    ua ← stored (user_agent (sub_uaid (p_sub p)));
    ua ← or_status 404 ua;
    match ua_bridge ua with
    | Some to => bridge app p to
    | None => store_and_notify app p push_id
    end.

(** [h.insert(name, v)] of [read_message], skipped for a value that is no
    header value. *)
Definition put (h : list (string * string)) (name value : string) : list (string * string) :=
  if from_str_ok value then h ++ [(name, value)] else h.

(** [read_message] *)
Definition read_message app (id : string) : H Response :=
  id ← lift_result (valid id);
  m ← stored (message id);
  m ← (match m with
       | Some m => now ← env now_ms; mret (if (now <? m_expiry m)%N then Some m else None)
       | None => mret None
       end);
  m ← or_status 404 m;
  let h := put [] "last-modified" (http_date (m_accepted m)) in
  let h := put h "cache-control" "private" in
  let h := match m_ctype m with Some ct => put h "content-type" ct | None => h end in
  let h := match m_cenc m with Some ce => put h "content-encoding" ce | None => h end in
  mret {| rs_status := 200; rs_headers := extend octet_headers h; rs_body := m_body m |}.

(** [withdraw_message] *)
Definition withdraw_message app (id : string) : H StatusCode :=
  id ← lift_result (valid id);
  m ← stored (delete_message id None);
  _ ← or_status 404 m;
  mret 204%N.

(** [delete_receipt_sub] *)
Definition delete_receipt_sub app (id : string) : H StatusCode :=
  id ← lift_result (valid id);
  gone ← stored (Store.delete_receipt_sub id);
  if negb (gone : bool) then refuse (from_status 404)
  else _ ← lift_st (notify app (RReceipts id) EvGone); mret 204%N.
End endpoint.
