(* ===== verification/EndpointTheorems.v ===== *)
(** * What the application server API promises

    Which status a push gets, what an accepted push stores, and what reading
    and withdrawing a message do, for any store that meets the contract. *)
From S2P Require Import MemoryStore MemoryProofs HubTheorems Demo Instances Prelude RustStr External StoreTypes Store Hub Bridge Config App Notify Headers Ece Vapid Response Endpoint Worlds Delivery.

(** The first condition of a list that holds decides the outcome. *)
Fixpoint decides (l : list (Prop * N)) (o : option N) : Prop :=
  match l with
  | [] => o = None
  | (P, s) :: l => (P /\ o = Some s) \/ (~ P /\ decides l o)
  end.
Lemma decides_here (P : Prop) s l : P -> decides ((P, s) :: l) (Some s).
Proof. by left. Qed.
Lemma decides_next (P : Prop) s l o : ~ P -> decides l o -> decides ((P, s) :: l) o.
Proof. by right. Qed.

Section endpoint.
Context {S BW F A : Type} `{St : Store S} `{MP : Mpsc} `{B64 : Base64} `{JS : Json} `{PK : P256}
  `{HT : Http} `{HD : HttpDate} `{RH : ResponseHeaders}.
Context (view : S -> AStore) (inv : Env * S -> Prop).
Context (laws : StoreLaws view inv) (faults : FaultLaws view inv).
Abbreviation World := (World S BW).
Abbreviation App := (App BW F A).
Abbreviation winv := (winv inv).
Abbreviation wview := (wview view).
Abbreviation evolves := (evolves view inv).
Implicit Types (w : World) (app : App).

(** The subscription behind a push resource. *)
Definition sub_of (a : AStore) (push_id : string) (sub : Subscription) : Prop :=
  sub_push sub = push_id /\ a_subs a !! (sub_uaid sub, sub_channel_id sub) = Some sub.

(** The VAPID credentials a request presents: [None] when they are
    malformed, [Some None] when there are none. *)
Definition presented (h : HeaderMap) : option (option Credentials) :=
  match to_str <$> get h "authorization" with
  | None => Some None
  | Some None => None
  | Some (Some value) =>
      match parse_authorization value with
      | Ok c => Some (Some c)
      | Err NotVapid => Some None
      | Err _ => None
      end
  end.

(** A receipt [Link] that names no receipt subscription. *)
Definition bad_link app (a : AStore) (h : HeaderMap) : Prop :=
  exists target, Headers.link h REL_RECEIPT = Some target /\ respond_async (prefer h) = true /\
    forall id, resource_id target (app_origin app) "/receipt-subscription/" = Some id ->
      a_queues a !! id = None.

(** Credentials that do not verify at [now] seconds, or not for the key the
    subscription is restricted to. *)
Definition bad_vapid app (a : AStore) (push_id : string) (h : HeaderMap) (now : N) : Prop :=
  presented h = None \/
  exists c, presented h = Some (Some c) /\
    ((forall cl, verify c (app_origin app) now <> Ok cl) \/
     exists sub k, sub_of a push_id sub /\ sub_vapid sub = Some k /\ k <> c_k c).

(** The VAPID key used as the message encryption key. *)
Definition key_reused (h : HeaderMap) (body : Bytes) : Prop :=
  exists c hd data, presented h = Some (Some c) /\
    text h "content-encoding" = Some "aes128gcm" /\
    parse_header body = Ok (hd, data) /\ h_keyid hd = c_k c.

(** The documented order of the checks, and the status of each. *)
Definition checks app (a : AStore) (push_id : string) (h : HeaderMap) (body : Bytes) (now : N)
  : list (Prop * N) := [
  (is_id push_id = false, 404%N);
  ((forall sub, ~ sub_of a push_id sub), 404%N);
  ((forall n, ttl h <> Ok n), 400%N);
  ((forall u, urgency h <> Ok u), 400%N);
  ((forall t, topic h <> Ok t), 400%N);
  (bad_link app a h, 400%N);
  ((exists sub k, sub_of a push_id sub /\ sub_vapid sub = Some k /\ presented h = Some None), 401%N);
  (bad_vapid app a push_id h now, 403%N);
  (key_reused h body, 400%N);
  ((exists sub, sub_of a push_id sub /\ a_uas a !! sub_uaid sub = None), 404%N)].

(** The request [p] that passed the checks, and its user agent. *)
Record passed app (a : AStore) (push_id : string) (h : HeaderMap) (body : Bytes) (now : N)
    (p : Push) (ua : UserAgent) : Prop := {
  pa_id : is_id push_id = true;
  pa_sub : sub_of a push_id (p_sub p);
  pa_ttl : exists n, ttl h = Ok n /\ p_ttl p = effective_ttl app n;
  pa_urgency : exists u, urgency h = Ok u /\ p_urgency p = default Normal u;
  pa_topic : topic h = Ok (p_topic p);
  pa_async : p_respond_async p = respond_async (prefer h);
  pa_link : forall rsub, p_rsub_link p = Some rsub ->
    respond_async (prefer h) = true /\ is_Some (a_queues a !! rsub) /\
    exists target, Headers.link h REL_RECEIPT = Some target /\
      resource_id target (app_origin app) "/receipt-subscription/" = Some rsub;
  pa_vapid : forall k, sub_vapid (p_sub p) = Some k ->
    exists c cl, presented h = Some (Some c) /\ c_k c = k /\
      verify c (app_origin app) now = Ok cl;
  pa_ctype : p_ctype p = text h "content-type";
  pa_cenc : p_cenc p = text h "content-encoding";
  pa_body : p_body p = body;
  pa_ua : a_uas a !! sub_uaid (p_sub p) = Some ua;
}.

(** What [push] does once the checks passed. *)
Definition deliver app (p : Push) (ua : UserAgent) (push_id : string) : EST World Error Response :=
  match ua_bridge ua with
  | Some to => bridge app p to
  | None => store_and_notify app p push_id
  end.

(** ** The stages of a push *)
Definition seconds w (t : nat) : N := (N.min (env_clock (w_env w) t) u64_max / 1000)%N.

Lemma evolves_eq_trans w1 w2 w3 : evolves eq w1 w2 -> evolves eq w2 w3 -> evolves eq w1 w3.
Proof. apply evolves_trans. congruence. Qed.
Lemma evolves_eq_view w w' : evolves eq w w' -> wview w' = wview w.
Proof. by intros (_ & _ & _ & ->). Qed.
Lemma evolves_eq_refl w : winv w -> evolves eq w w.
Proof. apply evolves_refl, _. Qed.

Lemma check_vapid_spec h restricted o w r w' :
  winv w -> check_vapid h restricted o w = (r, w') ->
  evolves eq w w' /\ same_rest w w' /\ exists t,
  match r with
  | Ok None => presented h = Some None /\ restricted = None
  | Ok (Some k) => exists c cl, presented h = Some (Some c) /\ c_k c = k /\
      verify c o (seconds w t) = Ok cl /\ (restricted = None \/ restricted = Some k)
  | Err e => (e_status e = 401%N /\ is_Some restricted /\ presented h = Some None) \/
      (e_status e = 403%N /\ (presented h = None \/ exists c, presented h = Some (Some c) /\
        ((forall cl, verify c o (seconds w t) <> Ok cl) \/
         exists k, restricted = Some k /\ k <> c_k c)))
  end.
Proof.
  intros Hw Hr. unfold check_vapid in Hr.
  apply est_bind_cases in Hr as [(creds & w1 & Hc & Hr)|(e & Hc & ->)].
  2:{ assert (w' = w /\ e_status e = 403%N /\ presented h = None) as (-> & ? & ?).
      { unfold presented. unfold refuse, throw, mret, est_ret in Hc. repeat case_match; simplify_eq/=; auto. }
      split_and!; [by apply evolves_eq_refl|done|]. exists 0. eauto. }
  assert (w1 = w /\ presented h = Some creds) as [-> Hpres].
  { unfold presented. unfold refuse, throw, mret, est_ret in Hc. repeat case_match; simplify_eq/=; auto. }
  clear Hc. destruct creds as [c|].
  2:{ destruct restricted as [k|]; injection Hr as <- <-;
        (split_and!; [by apply evolves_eq_refl|done|]); exists 0; [|done]. left. cbn. eauto. }
  apply est_bind_cases in Hr as [(now & w1 & Hn & Hr)|(e & Hc & ->)].
  2:{ destruct (env_Ok view inv laws _ _ _ _ now_ms_env Hw Hc) as [? _]. done. }
  destruct (env_Ok view inv laws _ _ _ _ now_ms_env Hw Hn) as ([= ->] & He & Hs).
  apply est_bind_cases in Hr as [(cl & w2 & Hv & Hr)|(e & Hv & ->)];
    apply lift_result_inv in Hv as [Hv ->];
    destruct (verify c o _) as [cl'|] eqn:Hv'; cbn [map_err] in Hv; simplify_eq.
  - destruct restricted as [k|]; [case_decide|]; injection Hr as <- <-;
      (split_and!; [done..|]); exists (env_ticks (w_env w)); cbn.
    + right. split; [done|]. right. exists c. eauto.
    + exists c, cl'. split_and!; try done. right. by f_equal.
    + exists c, cl'. auto.
  - split_and!; [done..|]. exists (env_ticks (w_env w)). right.
    split; [done|]. right. exists c. split; [done|]. left. unfold seconds. congruence.
Qed.

Lemma rsub_of_link_spec app h w r w' :
  winv w -> rsub_of_link app h (respond_async (prefer h)) w = (r, w') ->
  r = Err (from_status 500) \/
  (evolves eq w w' /\ same_rest w w' /\
   match r with
   | Ok rsub => ~ bad_link app (wview w) h /\ forall i, rsub = Some i ->
       respond_async (prefer h) = true /\ is_Some (a_queues (wview w) !! i) /\
       exists target, Headers.link h REL_RECEIPT = Some target /\
         resource_id target (app_origin app) "/receipt-subscription/" = Some i
   | Err e => e_status e = 400%N /\ bad_link app (wview w) h
   end).
Proof.
  intros Hw Hr. unfold rsub_of_link in Hr. unfold bad_link.
  destruct (Headers.link h REL_RECEIPT) as [target|] eqn:Hl; [destruct (respond_async _) eqn:Ha|].
  2-3: injection Hr as <- <-; right; split_and!; [by apply evolves_eq_refl|done| |done];
    intros (? & ? & ? & _); congruence.
  apply est_bind_cases in Hr as [(i & w1 & Hi & Hr)|(e & Hi & ->)];
    apply lift_result_inv in Hi as [Hi ->];
    destruct (resource_id target (app_origin app) "/receipt-subscription/") as [i'|] eqn:Hid;
    cbn in Hi; simplify_eq.
  2:{ right. split_and!; [by apply evolves_eq_refl|done|done|]. exists target. split_and!; try done.
      congruence. }
  apply est_bind_cases in Hr as [(known & w2 & Hk & Hr)|(e & Hk & ->)];
    destruct (stored_reads _ _ _ _ _ _ _ (law_receipt_sub_exists _ _ laws i') Hw Hk)
      as [Hx|(Hx & He & Hs)]; simplify_eq; [|by left].
  right. destruct (a_queues (wview w) !! i') as [q|] eqn:Hq; cbn in Hr; injection Hr as <- <-;
    split_and!; try done.
  - intros (t & Ht & _ & Hall). simplify_eq. rewrite (Hall _ Hid) in Hq. done.
  - intros i [= <-]. split_and!; [done|by rewrite Hq|]. eauto.
  - exists target. split_and!; try done. intros i ?. by simplify_eq.
Qed.

Lemma is_id_valid push_id (w w' : World) r :
  lift_result (valid push_id) w = (r, w') -> w' = w /\
  (r = Ok push_id /\ is_id push_id = true \/ r = Err (from_status 404) /\ is_id push_id = false).
Proof. unfold valid. intros [-> ->]%lift_result_inv. destruct (is_id push_id); auto. Qed.

(** A header that parses, or a 400. *)
Lemma header_spec {X} (v : result Invalid X) (w w' : World) r :
  header v w = (r, w') -> w' = w /\
  ((exists x, v = Ok x /\ r = Ok x) \/
   r = Err (from_status 400) /\ forall x, v <> Ok x).
Proof. unfold header. intros [-> ->]%lift_result_inv. destruct v as [x|[]]; eauto. Qed.

Lemma or_status_spec {X} s (v : option X) (w w' : World) r :
  or_status s v w = (r, w') -> w' = w /\
  ((exists x, v = Some x /\ r = Ok x) \/ r = Err (from_status s) /\ v = None).
Proof. unfold or_status. intros [-> ->]%lift_result_inv. destruct v as [x|]; eauto. Qed.

Definition gated app (push_id : string) (h : HeaderMap) (body : Bytes) w
    (r : result Error Response) w' (l : list (Prop * N)) (t : nat) : Prop :=
  exists o, decides l o /\
  match o with
  | Some s => evolves eq w w' /\ same_rest w w' /\ exists e, r = Err e /\ e_status e = s
  | None => exists p ua w1,
      passed app (wview w) push_id h body (seconds w t) p ua /\
      evolves eq w w1 /\ same_rest w w1 /\ deliver app p ua push_id w1 = (r, w')
  end.

Lemma gated_here app push_id h body w e w' (P : Prop) s l t :
  P -> evolves eq w w' -> same_rest w w' -> e_status e = s ->
  gated app push_id h body w (Err e) w' ((P, s) :: l) t.
Proof. intros. exists (Some s). split; [by apply decides_here|]. eauto. Qed.
Lemma gated_next app push_id h body w r w' (P : Prop) s l t :
  ~ P -> gated app push_id h body w r w' l t ->
  gated app push_id h body w r w' ((P, s) :: l) t.
Proof. intros ? (o & ? & ?). exists o. split; [by apply decides_next|done]. Qed.

Lemma subscription_by_push_spec push_id w r w' :
  winv w -> stored (subscription_by_push push_id) w = (r, w') ->
  r = Err (from_status 500) \/
  (evolves eq w w' /\ same_rest w w' /\ exists o, r = Ok o /\
   forall sub, o = Some sub <-> sub_of (wview w) push_id sub).
Proof.
  intros Hw Hr. destruct r as [o|e]; [right|left; f_equal; by eapply stored_Err].
  apply stored_Ok in Hr.
  destruct (with_store_meets _ _ _ _ _ _ _ _ (law_subscription_by_push _ _ laws push_id) Hw I Hr)
    as (? & ? & ? & ? & Hv & Hsub).
  split_and!; [|done|by exists o]. by split_and!.
Qed.

(** Credentials accepted for the subscription's key: none of the conditions
    on them holds, and the key is the one presented. *)
Lemma key_accepted app a push_id sub h body now key :
  sub_of a push_id sub -> (forall s, sub_of a push_id s -> s = sub) ->
  match key with
  | None => presented h = Some None /\ sub_vapid sub = None
  | Some k => exists c cl, presented h = Some (Some c) /\ c_k c = k /\
      verify c (app_origin app) now = Ok cl /\ (sub_vapid sub = None \/ sub_vapid sub = Some k)
  end ->
  ~ (exists sub k, sub_of a push_id sub /\ sub_vapid sub = Some k /\ presented h = Some None) /\
  ~ bad_vapid app a push_id h now /\
  (forall k, sub_vapid sub = Some k -> exists c cl, presented h = Some (Some c) /\ c_k c = k /\
     verify c (app_origin app) now = Ok cl) /\
  (key_reused h body <->
   match key with
   | Some k => bool_decide (text h "content-encoding" = Some "aes128gcm") && keyid_is body k
   | None => false
   end = true).
Proof.
  intros Hof Huniq Hkey. unfold bad_vapid, key_reused, keyid_is.
  destruct key as [k|]; [destruct Hkey as (c & cl & Hp & <- & Hv & Hr)|destruct Hkey as [Hp Hr]].
  - split_and!.
    + intros (s & k' & _ & _ & ?). congruence.
    + intros [?|(c' & ? & [Hno|(s & k' & Hs%Huniq & ? & ?)])]; [congruence|..];
        assert (c' = c) as -> by congruence; [by eapply Hno|]. destruct Hr; congruence.
    + intros k' Hk'. exists c, cl. destruct Hr; split_and!; congruence.
    + rewrite andb_true_iff, bool_decide_eq_true. split.
      * intros (c' & hd & data & ? & ? & -> & ?). split; [done|].
        apply bool_decide_eq_true. congruence.
      * intros [? Hk]. destruct (parse_header body) as [[hd data]|]; [|done].
        apply bool_decide_eq_true in Hk. exists c, hd, data. done.
  - split_and!.
    + intros (s & k' & Hs%Huniq & ? & ?). congruence.
    + intros [?|(c' & ? & _)]; congruence.
    + congruence.
    + split; [|done]. intros (c' & ? & ? & ? & _). congruence.
Qed.

(** The three header fields that must parse. *)
Lemma gate_headers app push_id h body w r w' w1 K :
  evolves eq w w1 -> same_rest w w1 ->
  (n ← header (ttl h); u ← header (urgency h); tp ← header (topic h); K n u tp) w1 = (r, w') ->
  (exists n u tp, ttl h = Ok n /\ urgency h = Ok u /\ topic h = Ok tp /\ K n u tp w1 = (r, w')) \/
  forall l t, gated app push_id h body w r w' (((forall n, ttl h <> Ok n), 400%N) ::
    ((forall u, urgency h <> Ok u), 400%N) :: ((forall t, topic h <> Ok t), 400%N) :: l) t.
Proof.
  intros He Hs Hr.
  apply est_bind_cases in Hr as [(n & w2 & Hx & Hr)|(e & Hx & ->)];
    apply header_spec in Hx as [-> [(n' & Httl & ?)|[? Hno]]]; simplify_eq.
  2:{ right. intros l t. by apply gated_here. }
  apply est_bind_cases in Hr as [(u & w2 & Hx & Hr)|(e & Hx & ->)];
    apply header_spec in Hx as [-> [(u' & Hurg & ?)|[? Hno]]]; simplify_eq.
  2:{ right. intros l t. apply gated_next; [naive_solver|]. by apply gated_here. }
  apply est_bind_cases in Hr as [(tp & w2 & Hx & Hr)|(e & Hx & ->)];
    apply header_spec in Hx as [-> [(tp' & Htop & ?)|[? Hno]]]; simplify_eq.
  2:{ right. intros l t. do 2 (apply gated_next; [naive_solver|]). by apply gated_here. }
  left. by exists n', u', tp'.
Qed.

(** The user agent of the subscription, and what follows. *)
Lemma gate_user_agent app push_id h body w r w' w3 t p :
  winv w3 -> evolves eq w w3 -> same_rest w w3 ->
  sub_of (wview w) push_id (p_sub p) -> (forall s, sub_of (wview w) push_id s -> s = p_sub p) ->
  (forall ua, a_uas (wview w) !! sub_uaid (p_sub p) = Some ua -> passed app (wview w) push_id h body (seconds w t) p ua) ->
  (ua ← stored (user_agent (sub_uaid (p_sub p))); ua ← or_status 404 ua; deliver app p ua push_id) w3 = (r, w') ->
  r = Err (from_status 500) \/
  gated app push_id h body w r w' [((exists sub, sub_of (wview w) push_id sub /\ a_uas (wview w) !! sub_uaid sub = None), 404%N)] t.
Proof.
  intros Hw3 He13 Hs13 Hof Huniq Hpass Hr. pose proof (evolves_eq_view _ _ He13) as Hv3.
  apply est_bind_cases in Hr as [(ua & w4 & Hx4 & Hr)|(e & Hx4 & ->)];
    destruct (stored_reads _ _ _ _ _ _ _ (law_user_agent _ _ laws _) Hw3 Hx4)
      as [?|(? & He4 & Hs4)]; simplify_eq; [|by left].
  assert (He14 : evolves eq w w4) by (by eapply evolves_eq_trans).
  assert (Hs14 : same_rest w w4) by (by etrans).
  right. rewrite Hv3 in Hr.
  apply est_bind_cases in Hr as [(ua & w5 & Hx5 & Hr)|(e & Hx5 & ->)];
    apply or_status_spec in Hx5 as [-> [(ua' & Hua & ?)|[? Hua]]]; simplify_eq.
  2:{ apply gated_here; eauto. }
  apply gated_next; [intros (s' & ->%Huniq & ?); congruence|].
  exists None. split; [done|]. exists p, ua', w4. split_and!; [by apply Hpass|done..].
Qed.

(** The checks decide, in their order, what a push gets. *)
Lemma push_gate app push_id h body w r w' :
  winv w -> push app push_id h body w = (r, w') ->
  r = Err (from_status 500) \/
  exists t, gated app push_id h body w r w'
    (checks app (wview w) push_id h body (seconds w t)) t.
Proof.
  intros Hw Hr. unfold push in Hr.
  apply est_bind_cases in Hr as [(? & w0 & Hx & Hr)|(e & Hx & ->)];
    apply is_id_valid in Hx as [-> [[? Hid]|[? Hid]]]; simplify_eq.
  2:{ right. exists 0. by apply gated_here. }
  apply est_bind_cases in Hr as [(o & w1 & Hx & Hr)|(e & Hx & ->)];
    destruct (subscription_by_push_spec _ _ _ _ Hw Hx) as [?|(He1 & Hs1 & o' & Ho & Hsub)];
    simplify_eq; [|by left].
  apply est_bind_cases in Hr as [(sub & w2 & Hx2 & Hr)|(e & Hx2 & ->)];
    apply or_status_spec in Hx2 as [-> [(s & -> & ?)|[? ->]]]; simplify_eq.
  2:{ right. exists 0. apply gated_next; [congruence|]. apply gated_here; try done.
      intros s Hs. by apply Hsub in Hs. }
  assert (Hof : sub_of (wview w) push_id s) by (by apply Hsub).
  assert (Huniq : forall s', sub_of (wview w) push_id s' -> s' = s).
  { intros s' Hs'. apply Hsub in Hs'. congruence. }
  assert (Hn1 : ~ (is_id push_id = false)) by congruence.
  assert (Hn2 : ~ (forall sub, ~ sub_of (wview w) push_id sub)) by (intros Hall; by eapply Hall).
  destruct (gate_headers app push_id h body _ _ _ _ _ He1 Hs1 Hr) as [(n & u & tp & Httl & Hurg & Htop & Hr')|Hg]; clear Hr.
  2:{ right. exists 0. do 2 (apply gated_next; [done|]). apply Hg. }
  rename Hr' into Hr.
  assert (Hn3 : ~ (forall n, ttl h <> Ok n)) by naive_solver.
  assert (Hn4 : ~ (forall u, urgency h <> Ok u)) by naive_solver.
  assert (Hn5 : ~ (forall t, topic h <> Ok t)) by naive_solver.
  pose proof (evolves_eq_view _ _ He1) as Hv1. pose proof (proj1 He1) as Hw1.
  apply est_bind_cases in Hr as [(rsub & w2 & Hx2 & Hr)|(e & Hx2 & ->)];
    destruct (rsub_of_link_spec _ _ _ _ _ Hw1 Hx2) as [?|(He2 & Hs2 & Hlink)]; simplify_eq;
    try rewrite Hv1 in Hlink; [|by left|].
  2:{ destruct Hlink as [? Hbad]. right. exists 0. do 5 (apply gated_next; [done|]).
      apply gated_here; try done; [by eapply evolves_eq_trans|by etrans]. }
  destruct Hlink as [Hn6 Hlink].
  assert (He12 : evolves eq w w2) by (by eapply evolves_eq_trans).
  assert (Hs12 : same_rest w w2) by (by etrans).
  pose proof (evolves_eq_view _ _ He12) as Hv2. pose proof (proj1 He12) as Hw2.
  apply est_bind_cases in Hr as [(key & w3 & Hx3 & Hr)|(e & Hx3 & ->)];
    destruct (check_vapid_spec _ _ _ _ _ _ Hw2 Hx3) as (He3 & Hs3 & t & Hvap);
    assert (Hsec : seconds w2 t = seconds w t)
      by (unfold seconds; by rewrite (ext_clock _ _ (proj1 (proj2 He12))));
    rewrite Hsec in Hvap; pose proof (evolves_eq_trans _ _ _ He12 He3) as He13;
    assert (Hs13 : same_rest w _) by (etrans; [exact Hs12|exact Hs3]).
  2:{ right. exists t. do 6 (apply gated_next; [done|]).
      destruct Hvap as [(? & [k Hk] & ?)|[? Hbad]]; [apply gated_here; eauto|].
      apply gated_next.
      { intros (s' & k & _ & _ & ?). destruct Hbad as [?|(? & ? & _)]; congruence. }
      apply gated_here; try done. destruct Hbad as [?|(c & ? & [?|(k & ? & ?)])]; [by left|right..];
        exists c; split; auto. right. by exists s, k. }
  destruct (key_accepted app _ _ _ h body (seconds w t) key Hof Huniq) as (Hn7 & Hn8 & Hkey & Hn9).
  { by destruct key. }
  destruct (match key with Some k => _ | None => false end) eqn:Hclash.
  { injection Hr as <- <-. right. exists t. do 8 (apply gated_next; [done|]).
    apply gated_here; [by apply Hn9|done..]. }
  assert (Hn9' : ~ key_reused h body) by (intros ?%Hn9; done).
  eapply (gate_user_agent app push_id h body w r w' w3 t) in Hr as [?|Hg];
    [by left|right|exact (proj1 He13)|done|done|done|done|].
  - exists t. by do 9 (apply gated_next; [done|]).
  - intros ua Hua. split; cbn; eauto.
Qed.

(** ** Accepted pushes *)

(** No id still to be drawn is in use. *)
Definition fresh_ids w : Prop := forall e, env_extends (w_env w) e ->
  a_msgs (wview w) !! (new_id e).1 = None /\ a_queues (wview w) !! (new_id e).1 = None.

Lemma fresh_ids_evolves R w w' : (forall a a', R a a' -> a_msgs a' = a_msgs a /\
    a_queues a' = a_queues a) -> evolves R w w' -> fresh_ids w -> fresh_ids w'.
Proof.
  intros HR (_ & He & _ & Hv%HR) Hf e Hee. destruct Hv as [-> ->]. apply Hf. by etrans.
Qed.

(** The receipt subscription of a message: the one linked, a new one when a
    receipt was asked for, or none. *)
Definition receipt_target (p : Push) (a a' : AStore) (rsub : option string) : Prop :=
  match p_rsub_link p with
  | Some id => rsub = Some id /\ a_queues a' = a_queues a
  | None =>
      if p_respond_async p then exists id, rsub = Some id /\ a_queues a !! id = None /\
        a_queues a' = <[ id := ∅ ]> (a_queues a)
      else rsub = None /\ a_queues a' = a_queues a
  end.

(** The response of an accepted push. *)
Definition accepted_response app (p : Push) (m : Message) : Response :=
  let o := app_origin app in
  let base := [("location", o +:+ "/message/" +:+ m_id m); ("ttl", to_string (p_ttl p))] in
  match m_rsub m with
  | Some rsub => into_response 202
      (base ++ [("link", Endpoint.link (o +:+ "/receipt-subscription/" +:+ rsub) REL_RECEIPT)]) []
  | None => into_response 201 base []
  end.

(** One message was stored, replacing the one in its topic slot, and then its
    user agent was notified. *)
Definition stored_as app (p : Push) (push_id : string) (a a' : AStore) (resp : Response) : Prop :=
  exists id accepted rsub, let m := new_message p push_id id accepted rsub in
    a_msgs a !! id = None /\
    a_msgs a' = a_insert_message m (a_msgs a) /\ receipt_target p a a' rsub /\
    a_uas a' = a_uas a /\ a_subs a' = a_subs a /\ a_routes a' ⊆ a_routes a /\
    resp = accepted_response app p m.

Lemma receipt_target_spec p w r w' :
  winv w -> fresh_ids w ->
  (match p_rsub_link p with
   | Some id => mret (Some id)
   | None => if p_respond_async p then id ← stored create_receipt_sub; mret (Some id) else mret None
   end) w = (Ok r, w') ->
  winv w' /\ env_extends (w_env w) (w_env w') /\ same_rest w w' /\ receipt_target p (wview w) (wview w') r /\
  exists q, wview w' = set_a_queues q (wview w).
Proof.
  intros Hw Hf. unfold receipt_target. destruct (p_rsub_link p) as [id|]; [|destruct (p_respond_async p)].
  - intros [= <- <-]. split_and!; try done. exists (a_queues (wview w)). by destruct (wview w).
  - intros (id & w1 & Hx%stored_Ok & [= <- <-])%est_bind_Ok.
    destruct (Hf (w_env w) ltac:(reflexivity)) as [_ Hno].
    destruct (with_store_meets _ _ _ _ _ _ _ _ (law_create_receipt_sub _ _ laws) Hw Hno Hx)
      as (? & ? & ? & _ & -> & ->).
    split_and!; [done|done|done|by eexists|by eexists].
  - intros [= <- <-]. split_and!; try done. exists (a_queues (wview w)). by destruct (wview w).
Qed.

(** The message is stored before its user agent is notified; nothing but the
    store has changed by then. *)
Lemma store_and_notify_steps app p push_id w resp w' :
  winv w -> fresh_ids w -> store_and_notify app p push_id w = (Ok resp, w') ->
  exists e acc rsub q w1, let m := new_message p push_id (new_id e).1 acc rsub in
    env_extends (w_env w) e /\ a_msgs (wview w) !! m_id m = None /\
    winv w1 /\ same_rest w w1 /\ receipt_target p (wview w) (wview w1) rsub /\
    wview w1 = set_a_msgs (a_insert_message m (a_msgs (wview w))) (set_a_queues q (wview w)) /\
    notify app (RUserAgent (sub_uaid (p_sub p))) (EvMessage (notification_from m)) w1 = ((), w') /\
    resp = accepted_response app p m.
Proof.
  intros Hw Hf Hr. unfold store_and_notify in Hr.
  apply est_bind_Ok in Hr as (rsub & w1 & Hx & Hr).
  destruct (receipt_target_spec _ _ _ _ Hw Hf Hx) as (Hw1 & He1 & Hs1 & Ht & q & Hv1). clear Hx.
  apply est_bind_Ok in Hr as (acc & w2 & Hx & Hr).
  destruct (env_Ok view inv laws _ _ _ _ now_ms_env Hw1 Hx) as (_ & He2 & Hs2). clear Hx.
  apply est_bind_Ok in Hr as (id & w3 & Hx & Hr).
  destruct (env_Ok view inv laws _ _ _ _ new_id_env (proj1 He2) Hx) as ([= ->] & He3 & Hs3). clear Hx.
  pose proof (evolves_eq_trans _ _ _ He2 He3) as He13.
  pose proof (evolves_eq_view _ _ He13) as Hv3.
  set (id := (new_id (w_env w2)).1) in *. set (m := new_message p push_id id acc rsub) in *.
  assert (Hno : a_msgs (wview w) !! id = None).
  { apply Hf. etrans; [exact He1|apply He2]. }
  apply est_bind_Ok in Hr as (? & w4 & Hx%stored_Ok & Hr).
  assert (Hpre : a_msgs (wview w3) !! m_id m = None) by (by rewrite Hv3, Hv1).
  destruct (with_store_writes _ _ _ _ _ _ _ _ _ (law_insert_message _ _ laws m) (proj1 He3) Hpre Hx)
    as ((Hw4 & _ & _ & Hv4) & Hs4 & _). clear Hx. rewrite Hv3, Hv1 in Hv4.
  apply est_bind_Ok in Hr as (? & w5 & Hx & Hr).
  apply lift_st_Ok in Hx as ([] & Hx & _). injection Hr as <- <-.
  exists (w_env w2), acc, rsub, q, w4. cbv zeta. fold id m. split_and!; [etrans; [exact He1|apply He2]|done|done| | |done|done|].
  - etrans; [exact Hs1|]. etrans; [exact Hs2|]. by etrans.
  - unfold receipt_target in *. unfold Worlds.wview in *. rewrite Hv1 in Ht. by rewrite Hv4.
  - unfold accepted_response. by destruct rsub.
Qed.

Lemma store_and_notify_spec app p push_id w resp w' :
  winv w -> fresh_ids w -> store_and_notify app p push_id w = (Ok resp, w') ->
  winv w' /\ stored_as app p push_id (wview w) (wview w') resp.
Proof.
  intros Hw Hf Hr.
  destruct (store_and_notify_steps _ _ _ _ _ _ Hw Hf Hr) as (e & acc & rsub & q & w1 & _ & Hno & Hw1 & _ & Ht & Hv1 & Hn & ->).
  apply (notify_evolves view inv laws faults) in Hn as (Hw5 & _ & _ & Hro); [|done]. split; [done|].
  unfold Worlds.wview in *. rewrite Hv1 in *. destruct Hro as [Hro Hsub]. cbn in Hro, Hsub.
  exists (new_id e).1, acc, rsub. cbv zeta. unfold receipt_target in *. split_and!; try done; by rewrite Hro.
Qed.

(** ** Claims *)

(** C8: a push is answered by the first check that fails, in the documented
    order, with that check's status, and then nothing was stored, changed or
    sent; a push that passes them all reaches delivery as it was sent. A
    store that fails makes it a 500. *)
Theorem push_status_order app push_id h body w r w' :
  winv w -> push app push_id h body w = (r, w') ->
  r = Err (from_status 500) \/
  exists t o, decides (checks app (wview w) push_id h body (seconds w t)) o /\
  match o with
  | Some s => wview w' = wview w /\ same_rest w w' /\ exists e, r = Err e /\ e_status e = s
  | None => exists p ua w1,
      passed app (wview w) push_id h body (seconds w t) p ua /\
      wview w1 = wview w /\ same_rest w w1 /\ deliver app p ua push_id w1 = (r, w')
  end.
Proof.
  intros Hw Hr. destruct (push_gate _ _ _ _ _ _ _ Hw Hr) as [?|(t & o & Ho & Hm)]; [by left|].
  right. exists t, o. split; [done|]. destruct o.
  - destruct Hm as (? & ? & ?). split; [by apply evolves_eq_view|done].
  - destruct Hm as (p & ua & w1 & ? & ? & ? & ?). exists p, ua, w1.
    split_and!; try done. by apply evolves_eq_view.
Qed.

(** C7: a push to a user agent with a session is only accepted once the
    message is stored: exactly that message, for the subscription's channel,
    with the TTL answered, in its topic slot, owing its receipt to an
    existing receipt subscription, and the credentials of a restricted
    subscription verified for its key. Nothing else in the store changes but
    stale routes. *)
Theorem push_stores app push_id h body w resp w' :
  winv w -> fresh_ids w ->
  (forall ua sub, sub_of (wview w) push_id sub -> a_uas (wview w) !! sub_uaid sub = Some ua ->
     ua_bridge ua = None) ->
  push app push_id h body w = (Ok resp, w') ->
  exists t p ua, passed app (wview w) push_id h body (seconds w t) p ua /\
    stored_as app p push_id (wview w) (wview w') resp.
Proof.
  intros Hw Hf Hb Hr.
  destruct (push_gate _ _ _ _ _ _ _ Hw Hr) as [?|(t & [s|] & _ & Hm)]; [done|by naive_solver|].
  destruct Hm as (p & ua & w1 & Hp & He & _ & Hd). exists t, p, ua. split; [done|].
  unfold deliver in Hd. rewrite (Hb ua (p_sub p)) in Hd by apply Hp.
  destruct (store_and_notify_spec _ _ _ _ _ _ (proj1 He)
    (fresh_ids_evolves _ _ _ ltac:(by intros ? ? ->) He Hf) Hd) as [_ Hs].
  by rewrite (evolves_eq_view _ _ He) in Hs.
Qed.

(** C32: a push to a bridged user agent is only accepted when the platform
    took the message, for the registered device and as it was sent; nothing
    is stored and no receipt is offered. *)
Theorem push_bridges app push_id h body w resp w' to :
  winv w ->
  (forall ua sub, sub_of (wview w) push_id sub -> a_uas (wview w) !! sub_uaid sub = Some ua ->
     ua_bridge ua = Some to) ->
  push app push_id h body w = (Ok resp, w') ->
  exists t p ua b id, passed app (wview w) push_id h body (seconds w t) p ua /\
    app_bridges app !! ba_bridge to = Some b /\
    b_send b {| ad_app_id := ba_app_id to; ad_token := ba_token to |} (bridge_message p id)
      (w_bridges w) = (Ok (), w_bridges w') /\
    wview w' = wview w /\
    resp = into_response 201
      [("location", app_origin app +:+ "/message/" +:+ id); ("ttl", to_string (p_ttl p))] [].
Proof.
  intros Hw Hb Hr.
  destruct (push_gate _ _ _ _ _ _ _ Hw Hr) as [?|(t & [s|] & _ & Hm)]; [done|by naive_solver|].
  destruct Hm as (p & ua & w1 & Hp & He & Hs & Hd). unfold deliver in Hd.
  rewrite (Hb ua (p_sub p)) in Hd by apply Hp. unfold bridge in Hd.
  destruct (app_bridges app !! ba_bridge to) as [b|] eqn:Hbr; [|done].
  apply est_bind_Ok in Hd as (id & w2 & Hx & Hd).
  destruct (env_Ok view inv laws _ _ _ _ new_id_env (proj1 He) Hx) as (_ & He2 & Hs2).
  apply est_bind_Ok in Hd as (r & w3 & Hx3 & Hd). apply lift_st_Ok in Hx3 as (r' & Hx3 & [= ->]).
  unfold attempt, with_bridges in Hx3.
  destruct (b_send b _ _ (w_bridges w2)) as [r0 bw] eqn:Hsend. injection Hx3 as <- <-.
  destruct r0 as [[]|e].
  2:{ by apply est_bind_Ok in Hd as (? & ? & _ & ?). }
  injection Hd as <- <-. exists t, p, ua, b, id.
  rewrite (sr_bridges _ _ Hs2), (sr_bridges _ _ Hs) in Hsend.
  split_and!; try done. rewrite <- (evolves_eq_view _ _ He), <- (evolves_eq_view _ _ He2). done.
Qed.

(** reading a message answers its body and type as they were stored, as
    long as it is there and has not expired, and reveals nothing else of it;
    otherwise 404. Reading changes nothing. *)
Theorem read_message_spec app id w r w' :
  winv w -> read_message app id w = (r, w') ->
  r = Err (from_status 500) \/ wview w' = wview w /\
  ((r = Err (from_status 404) /\
    (is_id id = false \/ forall m, a_msgs (wview w) !! id = Some m ->
      exists t, (m_expiry m <= N.min (env_clock (w_env w) t) u64_max)%N)) \/
   exists m t hs, a_msgs (wview w) !! id = Some m /\ is_id id = true /\
     (N.min (env_clock (w_env w) t) u64_max < m_expiry m)%N /\
     r = Ok {| rs_status := 200; rs_headers := extend octet_headers hs; rs_body := m_body m |} /\
     forall n v, (n, v) ∈ hs ->
       n = "last-modified" /\ v = http_date (m_accepted m) \/ n = "cache-control" /\ v = "private" \/
       n = "content-type" /\ m_ctype m = Some v \/ n = "content-encoding" /\ m_cenc m = Some v).
Proof.
  intros Hw Hr. unfold read_message in Hr.
  apply est_bind_cases in Hr as [(i & w1 & Hx & Hr)|(e & Hx & ->)];
    apply is_id_valid in Hx as [-> [[? Hid]|[? Hid]]]; simplify_eq; [|by right; auto].
  apply est_bind_cases in Hr as [(o & w1 & Hx & Hr)|(e & Hx & ->)];
    destruct (stored_reads _ _ _ _ _ _ _ (law_message _ _ laws id) Hw Hx) as [?|(? & He & Hs)];
    simplify_eq; [|by left]. right.
  destruct (a_msgs (wview w) !! id) as [m|] eqn:Hm.
  2:{ injection Hr as <- <-. split; [by apply evolves_eq_view|]. left. split; [done|]. by right. }
  apply est_bind_cases in Hr as [(o & w2 & Hx2 & Hr)|(e & Hx2 & _)].
  2:{ apply est_bind_Err in Hx2 as [Hx2|(? & ? & _ & ?)]; [|done].
      by destruct (env_Ok view inv laws _ _ _ _ now_ms_env (proj1 He) Hx2) as [? _]. }
  apply est_bind_Ok in Hx2 as (now & w3 & Hx2 & [= <- <-]).
  destruct (env_Ok view inv laws _ _ _ _ now_ms_env (proj1 He) Hx2) as ([= ->] & He2 & _).
  assert (Hv : wview w3 = wview w) by (apply evolves_eq_view; by eapply evolves_eq_trans).
  rewrite (ext_clock _ _ (proj1 (proj2 He))) in Hr.
  destruct (N.ltb_spec (N.min (env_clock (w_env w) (env_ticks (w_env w1))) u64_max)
    (m_expiry m)) as [Hlt|Hge].
  - injection Hr as <- <-. split; [done|]. right. eexists m, _, _.
    split_and!; [done|done|exact Hlt|reflexivity|].
    intros n v Hin. unfold put in Hin.
    repeat match type of Hin with context [if ?b then _ else _] => destruct b end;
      destruct (m_ctype m), (m_cenc m); cbn in Hin; repeat case_match;
      repeat (apply elem_of_cons in Hin as [?|Hin]; [simplify_eq; naive_solver|]);
      by apply not_elem_of_nil in Hin.
  - injection Hr as <- <-. split; [done|]. left. split; [done|]. right. intros ? [= <-]. eauto.
Qed.

(** withdrawing a message removes exactly that message, and owes no
    receipt for it; it succeeds exactly when the message was there. *)
Theorem withdraw_spec app id w r w' :
  winv w -> withdraw_message app id w = (r, w') ->
  r = Err (from_status 500) \/
  match a_msgs (wview w) !! id with
  | Some _ => if is_id id
      then r = Ok 204%N /\ wview w' = set_a_msgs (delete id (a_msgs (wview w))) (wview w)
      else r = Err (from_status 404) /\ wview w' = wview w
  | None => r = Err (from_status 404) /\ wview w' = wview w
  end.
Proof.
  intros Hw Hr. unfold withdraw_message in Hr.
  apply est_bind_cases in Hr as [(i & w1 & Hx & Hr)|(e & Hx & ->)];
    apply is_id_valid in Hx as [-> [[? Hid]|[? Hid]]]; simplify_eq; rewrite Hid;
    [|right; by destruct (_ !! id)].
  apply est_bind_cases in Hr as [(o & w1 & Hx & Hr)|(e & Hx & ->)];
    [|left; by rewrite (stored_Err _ _ _ _ Hx)]. apply stored_Ok in Hx. right.
  destruct (with_store_writes _ _ _ _ _ _ _ _ _ (law_delete_message _ _ laws id None) Hw I Hx)
    as ((_ & _ & _ & Hv) & _ & ->).
  destruct (a_msgs (wview w) !! id) as [m|]; cbn in Hr, Hv; injection Hr as <- <-; by rewrite Hv.
Qed.
End endpoint.

(** ** Witnesses *)
Definition demo_headers : list (string * string) :=
  [("ttl", "60"); ("prefer", "respond-async"); ("content-encoding", "aes128gcm")].

Lemma demo_fresh : fresh_ids MemoryProofs.view demo_world.
Proof.
  intros e He. rewrite (demo_new_id _ He). split; apply eq_None_not_Some; intros [m Hm].
  - discriminate (proj1 demo_ids _ _ Hm).
  - discriminate (proj2 demo_ids _ _ Hm).
Qed.

(** The user agent of each push resource. *)
Lemma demo_subs p u b :
  map_Forall (fun _ s => sub_push s = p -> sub_uaid s = u) (channels (w_store demo_world)) ->
  (exists ua, MemoryStore.user_agents (w_store demo_world) !! u = Some ua /\ ua_bridge ua = b) ->
  forall ua sub, sub_of (wview MemoryProofs.view demo_world) p sub ->
    a_uas (wview MemoryProofs.view demo_world) !! sub_uaid sub = Some ua -> ua_bridge ua = b.
Proof.
  intros Hall (ua' & Hu & <-) ua sub [Hp Hs] Hua. rewrite (Hall _ _ Hs Hp) in Hua.
  change (MemoryStore.user_agents (w_store demo_world) !! u = Some ua) in Hua. congruence.
Qed.

Lemma demo_session_sub ua sub :
  sub_of (wview MemoryProofs.view demo_world) session_push sub ->
  a_uas (wview MemoryProofs.view demo_world) !! sub_uaid sub = Some ua -> ua_bridge ua = None.
Proof.
  apply (demo_subs _ session_ua); [apply (bool_decide_unpack _); vm_compute; exact I|].
  eexists. split; [vm_compute; reflexivity|done].
Qed.
Lemma demo_bridged_sub ua sub :
  sub_of (wview MemoryProofs.view demo_world) bridged_push sub ->
  a_uas (wview MemoryProofs.view demo_world) !! sub_uaid sub = Some ua ->
  ua_bridge ua = Some {| ba_bridge := "fcm"; ba_app_id := "app"; ba_token := "device" |}.
Proof.
  apply (demo_subs _ bridged_ua); [apply (bool_decide_unpack _); vm_compute; exact I|].
  eexists. split; [vm_compute; reflexivity|done].
Qed.

Abbreviation demo_push p := (push (HT := list_http) (demo_app (Some demo_cluster)) p demo_headers [x61] demo_world).
Definition ok_status (s : N) (r : result Error Response) : bool :=
  match r with Ok resp => (rs_status resp =? s)%N | Err e => false end.
Definition err_status (s : N) (r : result Error Response) : bool :=
  match r with Ok resp => false | Err e => (e_status e =? s)%N end.
Lemma demo_statuses :
  ok_status 202 (demo_push session_push).1 = true /\
  ok_status 201 (demo_push bridged_push).1 = true /\
  err_status 404 (demo_push demo_id).1 = true.
Proof. vm_compute. done. Qed.

Lemma demo_no_push k s : channels (w_store demo_world) !! k = Some s -> sub_push s = demo_id -> False.
Proof.
  assert (Hall : map_Forall (fun _ s => sub_push s <> demo_id) (channels (w_store demo_world)))
    by (apply (bool_decide_unpack _); vm_compute; exact I).
  intros Hs. exact (Hall _ _ Hs).
Qed.

Lemma push_status_order_witness :
  wview MemoryProofs.view (demo_push demo_id).2 = wview MemoryProofs.view demo_world.
Proof.
  destruct (demo_push demo_id) as [r w'] eqn:Hr.
  pose proof (proj2 (proj2 demo_statuses)) as Hs. rewrite Hr in Hs. cbn in Hs.
  destruct (push_status_order _ _ memory_laws _ _ _ _ _ _ _ demo_winv Hr)
    as [->|(t & [s|] & Ho & Hm)]; [done|apply Hm|].
  destruct Hm as (p & ua & w1 & [_ [Hp Hsub] _ _ _ _ _ _ _ _ _ _] & _).
  destruct (demo_no_push _ _ Hsub Hp).
Defined.

Lemma push_stores_witness : exists resp w' p,
  demo_push session_push = (Ok resp, w') /\ rs_status resp = 202%N /\
  stored_as (demo_app (Some demo_cluster)) p session_push (wview MemoryProofs.view demo_world)
    (wview MemoryProofs.view w') resp.
Proof.
  pose proof (proj1 demo_statuses) as Hs.
  destruct (demo_push session_push) as [[resp|e] w'] eqn:Hr; cbn in Hs; [|done].
  destruct (push_stores _ _ memory_laws memory_faults _ _ _ _ _ _ _ demo_winv demo_fresh
    demo_session_sub Hr) as (t & p & ua & _ & Hst).
  exists resp, w', p. split_and!; [done|by apply N.eqb_eq|exact Hst].
Defined.

Lemma push_bridges_witness : exists resp w',
  demo_push bridged_push = (Ok resp, w') /\
  wview MemoryProofs.view w' = wview MemoryProofs.view demo_world.
Proof.
  pose proof (proj1 (proj2 demo_statuses)) as Hs.
  destruct (demo_push bridged_push) as [[resp|e] w'] eqn:Hr; cbn in Hs; [|done].
  destruct (push_bridges _ _ memory_laws _ _ _ _ _ _ _ _ demo_winv demo_bridged_sub Hr)
    as (t & p & ua & b & id & _ & _ & _ & Hv & _).
  exists resp, w'. split; [done|exact Hv].
Defined.

Abbreviation demo_read := (read_message (demo_app None) demo_id demo_world).
Lemma read_message_spec_witness :
  wview MemoryProofs.view demo_read.2 = wview MemoryProofs.view demo_world.
Proof.
  assert (Hok : ok_status 200 demo_read.1 = true) by (vm_compute; reflexivity).
  destruct demo_read as [r w'] eqn:Hr.
  destruct (read_message_spec _ _ memory_laws _ _ _ _ _ demo_winv Hr) as [->|[Hv _]]; [done|exact Hv].
Defined.

Abbreviation demo_withdraw := (withdraw_message (demo_app None) demo_id demo_world).
Lemma withdraw_spec_witness : demo_withdraw.1 = Ok 204%N.
Proof.
  assert (Hm : exists m, a_msgs (wview MemoryProofs.view demo_world) !! demo_id = Some m)
    by (eexists; vm_compute; reflexivity).
  assert (Hok : exists s, demo_withdraw.1 = Ok s) by (eexists; vm_compute; reflexivity).
  destruct demo_withdraw as [r w'] eqn:Hr. destruct Hm as [m Hm], Hok as [s Hok]. cbn in Hok. subst r.
  destruct (withdraw_spec _ _ memory_laws _ _ _ _ _ demo_winv Hr) as [Hx|Hx]; [done|].
  rewrite Hm in Hx. exact (proj1 Hx).
Defined.
