(* ===== verification/Registration.v ===== *)
(** * The registration API for bridged user agents

    [crates/webpush-server/src/registration.rs]: the secrets that
    authenticate a user agent, and the six handlers. Extracting paths and
    JSON bodies is [axum]'s; [Json<Create>] and [Json<UpdateToken>] arrive
    decoded, and the optional [Subscribe] body is decoded by the parameter
    [subscribe_from_slice]. *)
From S2P Require Import Prelude RustStr External StoreTypes Store Hub Bridge Config App Notify Subscription Headers Session Response Endpoint.

(** [MAX_TOKEN] *)
Definition MAX_TOKEN : N := 4096.

(** ** Secrets *)
Section secrets.
Context `{Base64} `{Hmac}.

(** [Secrets::issue] *)
Definition issue (s : Secrets) (uaid : string) : option string :=
  key ← head (s_keys s);
  Some (b64_encode (hmac_sha256 key (as_bytes uaid))).

(** [Secrets::verify]; [hmac::verify] recomputes the tag and compares. *)
Definition verify (s : Secrets) (uaid secret : string) : bool :=
  match b64_decode secret with
  | None => false
  | Some tag => existsb (fun k => bool_decide (hmac_sha256 k (as_bytes uaid) = tag)) (s_keys s)
  end.
End secrets.

(** ** Requests *)
Record Create : Type := { c_bridge : string; c_app_id : string; c_token : string }.
Record UpdateToken : Type := { u_token : string }.
Record Subscribe : Type := { s_key : option string }.
Definition default_subscribe : Subscribe := {| s_key := None |}.

(** [serde_json::from_slice::<Subscribe>] *)
Class ApiSerde : Type := { subscribe_from_slice : Bytes -> option Subscribe }.

(** [valid_token] *)
Definition token_char (b : Ascii.ascii) : bool :=
  is_ascii_alphanumeric b || char_is 45 b || char_is 95 b || char_is 58 b || char_is 46 b.
Definition valid_token (token : string) : bool :=
  negb (str_is_empty token) && (str_len token <=? MAX_TOKEN)%N && str_all token_char token.

Section registration.
Context {S BW F A : Type} `{St : Store S} `{MP : Mpsc} `{B64 : Base64} `{JS : Json} `{PK : P256}
  `{HM : Hmac} `{HT : Http} `{RH : ResponseHeaders} `{AS : ApiSerde}.
Abbreviation World := (World S BW).
Abbreviation App := (App BW F A).
Abbreviation H X := (EST World Error X) (only parsing).
Implicit Types (app : App).

(** [authorize] *)
Definition authorize app (headers : HeaderMap) (uaid : string) : H UserAgent :=
  let secret := v ← get headers "authorization"; v ← to_str v; strip_prefix "Bearer " v in
  let known := match secret with Some s => verify (app_secrets app) uaid s | None => false end in
  if negb (is_uaid uaid) || negb known then refuse (unauthorized "Bearer")
  else
    ua ← stored (user_agent uaid);
    match ua with
    | Some ua => if is_some (ua_bridge ua) then mret ua else refuse (from_status 404)
    | None => refuse (from_status 404)
    end.

(** [endpoint] *)
Definition endpoint app (push : string) : string := app_origin app +:+ "/push/" +:+ push.

(** [Json(value).into_response()] *)
Definition json_response (status : StatusCode) (h : list (string * string)) (v : Value) : Response :=
  {| rs_status := status; rs_headers := extend json_headers h; rs_body := as_bytes (json_print v) |}.

(** [create] *)
Definition create app (body : Create) : H Response :=
  let known := match app_bridges app !! c_bridge body with
               | Some b => b_has_app b (c_app_id body)
               | None => false
               end in
  if negb known || negb (valid_token (c_token body)) then refuse (from_status 400)
  else
    uaid ← env new_uaid;
    now ← env now_ms;
    let ua := {| ua_uaid := uaid;
                 ua_bridge := Some {| ba_bridge := c_bridge body; ba_app_id := c_app_id body;
                                      ba_token := c_token body |};
                 ua_last_seen := now |} in
    secret ← or_status 503 (issue (app_secrets app) (ua_uaid ua));
    _ ← stored (create_user_agent ua);
    let location := app_origin app +:+ "/v1/user-agents/" +:+ ua_uaid ua in
    mret (if try_from_ok location then
            json_response 201 [("location", location)]
              (json [("uaid", Str (ua_uaid ua)); ("secret", Str secret)])
          else into_response 201 [("location", location)] []).

(** One entry of the reply of [read]. *)
Definition sub_json app (s : Subscription) : Value :=
  json [("channelID", Str (sub_channel_id s)); ("pushEndpoint", Str (endpoint app (sub_push s)))].

(** [read] *)
Definition read app (uaid : string) (headers : HeaderMap) : H Response :=
  _ ← authorize app headers uaid;
  now ← env now_ms;
  _ ← stored (touch_user_agent uaid now);
  subs ← stored (subscriptions uaid);
  mret (json_response 200 [] (json [("uaid", Str uaid);
                                    ("subscriptions", Array (sub_json app <$> subs))])).

(** [update_token] *)
Definition update_token app (uaid : string) (headers : HeaderMap) (body : UpdateToken)
  : H StatusCode :=
  _ ← authorize app headers uaid;
  if negb (valid_token (u_token body)) then refuse (from_status 400)
  else
    _ ← stored (update_bridge_token uaid (u_token body));
    now ← env now_ms;
    _ ← stored (touch_user_agent uaid now);
    mret 204%N.

(** [delete] *)
Definition delete app (uaid : string) (headers : HeaderMap) : H StatusCode :=
  _ ← authorize app headers uaid;
  receipts ← stored (delete_user_agent uaid);
  _ ← lift_st (notify_receipts app receipts);
  mret 204%N.

(** [subscribe] *)
Definition subscribe app (uaid channel : string) (headers : HeaderMap) (body : Bytes) : H Response :=
  _ ← authorize app headers uaid;
  body ← (match body with
          | [] => mret default_subscribe
          | _ => or_status 400 (subscribe_from_slice body)
          end);
  channel ← or_status 400 (channel_id channel);
  vapid ← (match vapid_key <$> s_key body with
           | None => mret None
           | Some (Some k) => mret (Some k)
           | Some None => refuse (from_status 400)
           end);
  r ← stored (Subscription.register uaid channel vapid);
  let reply := fun (status : StatusCode) sub => mret (json_response status [] (sub_json app sub)) in
  match r with
  | Created sub => reply 201%N sub
  | Existing sub => reply 200%N sub
  | Conflict => refuse (from_status 409)
  end.

(** [unsubscribe] *)
Definition unsubscribe app (uaid channel : string) (headers : HeaderMap) : H Response :=
  _ ← authorize app headers uaid;
  channel ← or_status 404 (channel_id channel);
  o ← stored (Store.channel uaid channel);
  match o with
  | None => refuse (from_status 404)
  | Some _ =>
      receipts ← stored (delete_subscription uaid channel);
      _ ← lift_st (notify_receipts app receipts);
      mret {| rs_status := 204; rs_headers := []; rs_body := [] |}
  end.
End registration.
