(* ===== verification/RegistrationTheorems.v ===== *)
(** * What the registration API promises

    Secrets survive key rotation, no call reaches a user agent without its
    secret, and what creating, subscribing and deleting leave in the store. *)
From S2P Require Import MemoryStore MemoryProofs HubTheorems Demo Instances Prelude RustStr External StoreTypes Store Hub Bridge Config App Notify Subscription Headers Session Response Endpoint Registration Worlds Delivery.

(** a secret issued for a user agent is accepted under every list of
    keys that still holds the key that signed it, whichever signs now; and a
    secret issued for another user agent only if the two have the same MAC
    under an accepted key. *)
Theorem secrets_rotate `{Base64Laws} `{Hmac} old uaid secret :
  issue old uaid = Some secret ->
  (forall front back, verify {| s_keys := front ++ s_keys old ++ back |} uaid secret = true) /\
  forall s uaid', verify s uaid' secret = true <->
    exists k k0, k ∈ s_keys s /\ head (s_keys old) = Some k0 /\
      hmac_sha256 k (as_bytes uaid') = hmac_sha256 k0 (as_bytes uaid).
Proof.
  unfold issue. intros Hi. destruct (s_keys old) as [|k0 ks] eqn:Hk; [done|]. injection Hi as <-.
  unfold verify. split.
  - intros front back. rewrite b64_decode_encode. apply existsb_exists. exists k0. split.
    + cbn. apply in_or_app. right. by left.
    + by apply bool_decide_eq_true.
  - intros s uaid'. rewrite b64_decode_encode, existsb_exists. split.
    + intros (k & Hin%list_elem_of_In & Heq%bool_decide_eq_true). exists k, k0. done.
    + intros (k & k0' & Hin & [= <-] & Heq). exists k. split; [by apply list_elem_of_In|].
      by apply bool_decide_eq_true.
Qed.

Lemma secrets_rotate_witness : exists secret,
  issue (new_secrets ["k"]) "u" = Some secret /\ verify (new_secrets ["n"; "k"; "o"]) "u" secret = true.
Proof.
  eexists. split; [reflexivity|].
  exact (proj1 (@secrets_rotate _ b64url_laws _ (new_secrets ["k"]) "u" _ eq_refl)
    [as_bytes "n"] [as_bytes "o"]).
Defined.

Section registration.
Context {S BW F A : Type} `{St : Store S} `{MP : Mpsc} `{B64 : Base64} `{JS : Json} `{PK : P256}
  `{HM : Hmac} `{HT : Http} `{RH : ResponseHeaders} `{AS : ApiSerde}.
Context (view : S -> AStore) (inv : Env * S -> Prop).
Context (laws : StoreLaws view inv) (faults : FaultLaws view inv).
Abbreviation World := (World S BW).
Abbreviation App := (App BW F A).
Abbreviation winv := (winv inv).
Abbreviation wview := (wview view).
Abbreviation evolves := (evolves view inv).
Implicit Types (w : World) (app : App).

(** ** Authorization *)

(** The request carries a secret that verifies for [uaid]. *)
Definition authentic app (h : HeaderMap) (uaid : string) : bool :=
  match v ← get h "authorization"; v ← to_str v; strip_prefix "Bearer " v with
  | Some s => is_uaid uaid && verify (app_secrets app) uaid s
  | None => false
  end.

Lemma authorize_spec app h uaid w r w' :
  winv w -> authorize app h uaid w = (r, w') ->
  if authentic app h uaid then
    r = Err (from_status 500) \/ (evolves eq w w' /\ same_rest w w' /\
    match a_uas (wview w) !! uaid with
    | Some ua => r = if is_some (ua_bridge ua) then Ok ua else Err (from_status 404)
    | None => r = Err (from_status 404)
    end)
  else r = Err (unauthorized "Bearer") /\ w' = w.
Proof.
  intros Hw Hr. unfold authorize in Hr. unfold authentic.
  set (secret := v ← get h "authorization"; v ← to_str v; strip_prefix "Bearer " v) in *.
  assert (Hno : (if negb (is_uaid uaid) || negb (match secret with Some s =>
      verify (app_secrets app) uaid s | None => false end) then false else true) =
    match secret with Some s => is_uaid uaid && verify (app_secrets app) uaid s | None => false end).
  { destruct secret as [s|]; destruct (is_uaid uaid); cbn; try done.
    by destruct (verify _ _ _). }
  rewrite <- Hno. clear Hno. destruct (_ || _).
  { injection Hr as <- <-. done. }
  apply est_bind_cases in Hr as [(o & w1 & Hx & Hr)|(e & Hx & ->)];
    destruct (stored_reads _ _ _ _ _ _ _ (law_user_agent _ _ laws uaid) Hw Hx)
      as [?|(? & He & Hs)]; simplify_eq; [|by left]. right.
  destruct (a_uas (wview w) !! uaid) as [ua|]; [|injection Hr as <- <-; done].
  destruct (is_some (ua_bridge ua)); injection Hr as <- <-; done.
Qed.

(** The calls that name a user agent. *)
Inductive Call : Type :=
| CRead
| CUpdateToken (body : UpdateToken)
| CDelete
| CSubscribe (channel : string) (body : Bytes)
| CUnsubscribe (channel : string).

Definition as_response (m : EST World Error StatusCode) : EST World Error Response :=
  s ← m; mret {| rs_status := s; rs_headers := []; rs_body := [] |}.
Definition call app (c : Call) (uaid : string) (h : HeaderMap) : EST World Error Response :=
  match c with
  | CRead => read app uaid h
  | CUpdateToken body => as_response (update_token app uaid h body)
  | CDelete => as_response (Registration.delete app uaid h)
  | CSubscribe channel body => subscribe app uaid channel h body
  | CUnsubscribe channel => unsubscribe app uaid channel h
  end.

(** Every call starts by authorizing. *)
Lemma call_authorizes app c uaid h w e w' :
  authorize app h uaid w = (Err e, w') -> call app c uaid h w = (Err e, w').
Proof.
  intros Ha. destruct c; cbn;
    unfold as_response, read, update_token, Registration.delete, subscribe, unsubscribe, mbind, est_bind;
    by rewrite Ha.
Qed.

(** C33: without a secret that verifies for the user agent a call is refused
    with 401 and changes nothing at all, and so it is, with 404, for a user
    agent that does not exist or that holds sessions instead of a bridge
    address. *)
Theorem registration_guarded app c uaid h w r w' :
  winv w -> call app c uaid h w = (r, w') ->
  (authentic app h uaid = false -> r = Err (unauthorized "Bearer") /\ w' = w) /\
  ((forall ua, a_uas (wview w) !! uaid = Some ua -> ua_bridge ua = None) ->
   authentic app h uaid = true ->
   r = Err (from_status 500) \/
   (r = Err (from_status 404) /\ wview w' = wview w /\ same_rest w w')).
Proof.
  intros Hw Hr. destruct (authorize app h uaid w) as [ra wa] eqn:Ha.
  pose proof (authorize_spec _ _ _ _ _ _ Hw Ha) as Hs. split.
  - intros Hau. rewrite Hau in Hs. destruct Hs as [-> ->].
    rewrite (call_authorizes _ _ _ _ _ _ _ Ha) in Hr. by injection Hr as <- <-.
  - intros Hno Hau. rewrite Hau in Hs.
    destruct Hs as [->|((_ & _ & _ & Hv) & Hsr & Hra)].
    { rewrite (call_authorizes _ _ _ _ _ _ _ Ha) in Hr. injection Hr as <- <-. by left. }
    assert (ra = Err (from_status 404)) as ->.
    { destruct (a_uas (wview w) !! uaid) as [ua|]; [|done]. by rewrite (Hno ua eq_refl) in Hra. }
    rewrite (call_authorizes _ _ _ _ _ _ _ Ha) in Hr. injection Hr as <- <-. right. by rewrite Hv.
Qed.

(** ** Creating and deleting *)

(** a user agent is created only for a known application and a token of
    the right form: it is stored with that bridge address under a well-formed
    id, and the secret that is answered is the one that later verifies for
    it. Otherwise the store is unchanged. *)
Theorem create_spec `{!Base64Laws} app body w r w' :
  winv w -> create app body w = (r, w') ->
  match r with
  | Ok resp => exists b uaid seen secret,
      app_bridges app !! c_bridge body = Some b /\ b_has_app b (c_app_id body) = true /\
      valid_token (c_token body) = true /\ is_uaid uaid = true /\
      wview w' = set_a_uas (<[ uaid := {| ua_uaid := uaid; ua_bridge := Some {|
          ba_bridge := c_bridge body; ba_app_id := c_app_id body; ba_token := c_token body |};
        ua_last_seen := seen |} ]> (a_uas (wview w))) (wview w) /\
      verify (app_secrets app) uaid secret = true /\
      (rs_status resp = 201%N ->
       rs_body resp = as_bytes (json_print (json [("uaid", Str uaid); ("secret", Str secret)])))
  | Err e => e_status e = 500%N \/ wview w' = wview w /\
      (e_status e = 400%N \/ e_status e = 503%N /\ s_keys (app_secrets app) = [])
  end.
Proof.
  intros Hw Hr. unfold create in Hr.
  set (known := match app_bridges app !! c_bridge body with
                | Some b => b_has_app b (c_app_id body) | None => false end) in *.
  destruct (negb known || negb (valid_token (c_token body))) eqn:Hbad.
  { injection Hr as <- <-. right. auto. }
  apply orb_false_iff in Hbad as [Hk%negb_false_iff Htok%negb_false_iff].
  assert (exists b, app_bridges app !! c_bridge body = Some b /\ b_has_app b (c_app_id body) = true)
    as (b & Hb & Happ)
    by (subst known; destruct (app_bridges app !! c_bridge body) as [b|]; [by exists b|done]).
  apply est_bind_cases in Hr as [(u & w1 & Hx & Hr)|(e & Hx & _)];
    destruct (env_Ok view inv laws _ _ _ _ new_uaid_env Hw Hx) as (? & He1 & _); simplify_eq.
  apply est_bind_cases in Hr as [(now & w2 & Hx2 & Hr)|(e & Hx2 & _)];
    destruct (env_Ok view inv laws _ _ _ _ now_ms_env (proj1 He1) Hx2) as (? & He2 & _); simplify_eq.
  assert (Hv2 : wview w2 = wview w).
  { destruct He1 as (_ & _ & _ & ->), He2 as (_ & _ & _ & ->). done. }
  apply est_bind_cases in Hr as [(sec & w3 & Hx3 & Hr)|(e & Hx3 & ->)];
    apply lift_result_inv in Hx3 as [Hsec ->];
    destruct (issue _ _) as [sec'|] eqn:Hi; cbn in Hsec; simplify_eq.
  2:{ right. rewrite Hv2. split; [done|]. right. split; [done|]. unfold issue in Hi.
      by destruct (s_keys (app_secrets app)). }
  apply est_bind_cases in Hr as [([] & w3 & Hx3 & Hr)|(e & Hx3 & ->)].
  2:{ left. by rewrite (stored_Err _ _ _ _ Hx3). }
  apply stored_Ok in Hx3.
  destruct (with_store_writes _ _ _ _ _ _ _ _ _ (law_create_user_agent _ _ laws _) (proj1 He2) I Hx3)
    as ((_ & _ & _ & Hv3) & _ & _).
  injection Hr as <- <-. eexists b, _, _, sec'. split_and!; [done..| |rewrite Hv3, Hv2; done| |].
  - apply new_uaid_is_uaid.
  - unfold issue in Hi. unfold verify. destruct (s_keys (app_secrets app)) as [|k ks]; [done|].
    injection Hi as <-. rewrite b64_decode_encode. cbn [existsb].
    by rewrite bool_decide_eq_true_2.
  - destruct (try_from_ok _) eqn:Hloc; [done|]. intros Hst. exfalso. revert Hst.
    unfold into_response. cbn. case_decide as Hd; [done|]. by destruct (Hd Hloc).
Qed.

(** deleting a user agent removes it with its subscriptions and the
    messages on them, queues exactly the 410 receipts those owe, and touches
    nothing else but stale routes. *)
Theorem delete_spec app uaid h w s w' :
  winv w -> (forall e, env_extends (w_env w) e -> quiet (w_env w) e -> room e (wview w)) ->
  Registration.delete app uaid h w = (Ok s, w') ->
  s = 204%N /\ authentic app h uaid = true /\
  exists rs e e' a, removes (of_user_agent (wview w) uaid) e (wview w) rs e' a /\
    a_uas a = base.delete uaid (a_uas (wview w)) /\
    a_subs a = filter (fun ks => ks.1.1 <> uaid) (a_subs (wview w)) /\
    routes_only a (wview w').
Proof.
  intros Hw Hroom Hr. unfold Registration.delete in Hr.
  apply est_bind_Ok in Hr as (ua & w1 & Hx & Hr).
  pose proof (authorize_spec _ _ _ _ _ _ Hw Hx) as Ha.
  destruct (authentic app h uaid); [|by destruct Ha]. destruct Ha as [?|(He & _ & _)]; [done|].
  apply est_bind_Ok in Hr as (rs & w2 & Hx2%stored_Ok & Hr).
  destruct He as (Hw1 & Hext & Hq & Hv1).
  destruct (with_store_meets _ _ _ _ _ _ _ _ (law_delete_user_agent _ _ laws uaid) Hw1
    ltac:(rewrite <- Hv1; by apply Hroom) Hx2) as (Hw2 & _ & _ & Hrm & Hu & Hsu).
  rewrite <- Hv1 in Hrm, Hu, Hsu.
  apply est_bind_Ok in Hr as (? & w3 & Hx3 & [= <- <-]).
  apply lift_st_Ok in Hx3 as (? & Hx3 & _).
  destruct (notify_receipts_evolves view inv laws faults _ _ _ _ _ Hw2 Hx3) as (_ & _ & _ & Hro).
  split_and!; [done..|]. by exists rs, (w_env w1), (w_env w2), (wview w2).
Qed.
End registration.

(** ** Subscribing, from the API or a session *)
Section register.
Context {S : Type} `{St : Store S} `{B64 : Base64}.
Context (view : S -> AStore) (inv : Env * S -> Prop) (laws : StoreLaws view inv).

(** registering a channel creates a subscription with a fresh push
    resource the first time, answers the same one when asked again with the
    same key, and refuses any other key; it never changes an existing
    subscription. *)
Theorem register_spec u c v e s r e' s' :
  inv (e, s) ->
  (forall e1, env_extends e e1 -> forall k sub, a_subs (view s) !! k = Some sub ->
     sub_push sub <> (new_id e1).1) ->
  Subscription.register u c v (e, s) = (Ok r, (e', s')) ->
  inv (e', s') /\
  match a_subs (view s) !! (u, c) with
  | Some sub => view s' = view s /\
      r = if decide (sub_vapid sub = v) then Existing sub else Conflict
  | None => exists sub, r = Created sub /\ sub_uaid sub = u /\ sub_channel_id sub = c /\
      sub_vapid sub = v /\ view s' = set_a_subs (<[ (u, c) := sub ]> (a_subs (view s))) (view s) /\
      forall k old, a_subs (view s) !! k = Some old -> sub_push old <> sub_push sub
  end.
Proof.
  intros Hi Hfresh Hr. unfold Subscription.register in Hr.
  apply est_bind_Ok in Hr as (o & [e1 s1] & Hc & Hr).
  destruct (law_channel _ _ laws u c _ _ _ _ _ Hi I Hc) as (Hi1 & He1 & _ & Hv1 & ->).
  destruct (a_subs (view s) !! (u, c)) as [sub|] eqn:Hsub.
  - assert (view s' = view s /\ inv (e', s') /\
      r = if decide (sub_vapid sub = v) then Existing sub else Conflict) as (? & ? & ?).
    { case_decide; injection Hr as <- <- <-; done. }
    done.
  - apply est_bind_Ok in Hr as (sub & [e2 s2] & Hcr & [= <- <- <-]).
    assert (Hpre : a_subs (view s1) !! (u, c) = None /\
      forall k old, a_subs (view s1) !! k = Some old -> sub_push old <> (new_id e1).1).
    { rewrite Hv1. split; [done|]. by apply Hfresh. }
    destruct (law_create_subscription _ _ laws u c v _ _ _ _ _ Hi1 Hpre Hcr) as (? & _ & _ & -> & Hv2).
    split; [done|]. eexists. split_and!; [reflexivity..| |].
    + by rewrite Hv2, Hv1.
    + by apply Hfresh.
Qed.
End register.

(** ** Witnesses *)
#[local] Instance toy_serde : ApiSerde := {| subscribe_from_slice := fun _ => Some default_subscribe |}.
Definition demo_secret : string :=
  default EmptyString (issue (app_secrets (demo_app None)) bridged_ua).
Definition demo_auth : list (string * string) := [("authorization", "Bearer " +:+ demo_secret)].
Abbreviation demo_delete_call h := (call (HT := list_http) (demo_app None) CDelete bridged_ua h demo_world).

Lemma registration_guarded_witness :
  (demo_delete_call []).1 = Err (unauthorized "Bearer").
Proof.
  assert (Hau : authentic (HT := list_http) (demo_app None) [] bridged_ua = false)
    by (vm_compute; reflexivity).
  destruct (demo_delete_call []) as [r w'] eqn:Hr.
  exact (proj1 (proj1 (registration_guarded _ _ memory_laws _ _ _ _ _ _ _ demo_winv Hr) Hau)).
Defined.

Abbreviation demo_create := (create (demo_app None)
  {| c_bridge := "fcm"; c_app_id := "app"; c_token := "device" |} demo_world).
Lemma create_spec_witness : exists resp uaid secret, demo_create.1 = Ok resp /\
  verify (app_secrets (demo_app None)) uaid secret = true.
Proof.
  assert (Hok : is_ok demo_create.1 = true) by (vm_compute; reflexivity).
  destruct demo_create as [r w'] eqn:Hr.
  pose proof (create_spec _ _ memory_laws _ _ _ _ _ demo_winv Hr) as Hs.
  destruct r as [resp|]; [|done].
  destruct Hs as (b & u & seen & sec & _ & _ & _ & _ & _ & Hv & _). exists resp, u, sec.
  split; [done|exact Hv].
Defined.

Lemma demo_room e : env_extends (w_env demo_world) e -> quiet (w_env demo_world) e ->
  room e (wview MemoryProofs.view demo_world).
Proof.
  intros He Hq. apply (demo_seq_room 1000).
  - intros i. by rewrite (ext_clock _ _ He).
  - done.
  - vm_compute. reflexivity.
  - rewrite Hq. vm_compute. reflexivity.
Qed.

Abbreviation demo_delete := (Registration.delete (HT := list_http) (demo_app None) bridged_ua demo_auth demo_world).
Lemma delete_spec_witness : demo_delete.1 = Ok 204%N.
Proof.
  assert (Hok : is_ok demo_delete.1 = true) by (vm_compute; reflexivity).
  destruct demo_delete as [[s|] w'] eqn:Hr; [|done].
  rewrite (proj1 (delete_spec _ _ memory_laws memory_faults _ _ _ _ _ _ demo_winv demo_room Hr)).
  reflexivity.
Defined.

Abbreviation demo_register := (Subscription.register session_ua "c" None
  (w_env demo_world, w_store demo_world)).
Lemma register_spec_witness : exists sub, demo_register.1 = Ok (Created sub) /\ sub_channel_id sub = "c".
Proof.
  assert (Hno : a_subs (MemoryProofs.view (w_store demo_world)) !! (session_ua, "c") = None)
    by (vm_compute; reflexivity).
  assert (Hok : is_ok demo_register.1 = true) by (vm_compute; reflexivity).
  assert (Hfresh : forall e1, env_extends (w_env demo_world) e1 -> forall k sub,
    a_subs (MemoryProofs.view (w_store demo_world)) !! k = Some sub -> sub_push sub <> (new_id e1).1).
  { intros e1 He k sub Hk. rewrite (demo_new_id _ He). exact (demo_pushes _ _ Hk). }
  destruct demo_register as [[r|] [e' s']] eqn:Hr; [|done].
  destruct (register_spec _ _ memory_laws _ _ _ _ _ _ _ _ demo_winv Hfresh Hr) as [_ Hs].
  rewrite Hno in Hs. destruct Hs as (sub & -> & _ & Hc & _). exists sub. split; [done|exact Hc].
Defined.
