(* ===== verification/Receipts.v ===== *)
(** * Receipt streams

    [crates/webpush-server/src/receipts.rs]: opening a stream on a receipt
    subscription, and the task that writes receipts to it. The response body
    is the list of chunks written and an oracle for the client still being
    connected; the loop of [run] is given the outcomes of its [select!], one
    [Step] at a time. *)
From S2P Require Import Prelude RustStr External StoreTypes Store Hub Bridge Config App Notify Headers Session Response Endpoint.

(** [enum Step] *)
Inductive PumpStep : Type :=
| PEvent (event : option Event)
| PKeepalive
| PClosed.

(** [struct Pump]: the body written so far and the numbers already written;
    [pu_ok n] says whether the client takes the [n]th chunk. *)
Record Pump : Type := {
  pu_out : list string;
  pu_ok : nat -> bool;
  pu_seen : gset N;
}.
Definition new_pump (ok : nat -> bool) : Pump := {| pu_out := []; pu_ok := ok; pu_seen := ∅ |}.

Section receipts.
Context {S BW F A : Type} `{St : Store S} `{MP : Mpsc} `{B64 : Base64} `{JS : Json} `{HT : Http}
  `{RH : ResponseHeaders}.
Abbreviation World := (World S BW).
Abbreviation App := (App BW F A).
Implicit Types (app : App).
Abbreviation P X := (ST (World * Pump) X) (only parsing).

(** [Pump::write]: a chunk the client does not take is lost. *)
Definition write (text : string) : P bool := fun '(w, p) =>
  if pu_ok p (length (pu_out p)) then
    (true, (w, {| pu_out := pu_out p ++ [text]; pu_ok := pu_ok p; pu_seen := pu_seen p |}))
  else (false, (w, p)).

Definition in_world {X} (m : ST World X) : P X := fun '(w, p) => let '(r, w) := m w in (r, (w, p)).
(** [self.seen.insert(seq)] *)
Definition seen_insert (seq : N) : P bool := fun '(w, p) =>
  (bool_decide (seq ∉ pu_seen p),
   (w, {| pu_out := pu_out p; pu_ok := pu_ok p; pu_seen := {[ seq ]} ∪ pu_seen p |})).

Definition nl : string := String (Ascii.ascii_of_N 10) EmptyString.

(** The event of one receipt. *)
Definition receipt_event app (seq : N) (r : Receipt) : string :=
  let data := json [("message", Str (app_origin app +:+ "/message/" +:+ r_msg_id r));
                    ("status", Num_ (r_status r))] in
  "event: receipt" +:+ nl +:+ "id: " +:+ to_string seq +:+ nl +:+
  "data: " +:+ json_print data +:+ nl +:+ nl.

(** [Pump::emit] *)
Definition emit app (seq : N) (r : Receipt) : P bool :=
  new ← seen_insert seq;
  if negb (new : bool) then mret true
  else
    open ← write (receipt_event app seq r);
    if negb (open : bool) then mret false
    else
      _ ← in_world (attempt (with_store (delete_receipt (r_rsub r) seq)));
      mret true.

Definition gone_event : string := "event: gone" +:+ nl +:+ "data: {}" +:+ nl +:+ nl.
Definition keepalive_event : string := ": keepalive" +:+ nl +:+ nl.

(** The loop over the backlog in [Pump::run]. *)
Fixpoint emit_backlog app (backlog : list (N * Receipt)) (open : bool) : P bool :=
  match backlog with
  | [] => mret open
  | (seq, r) :: backlog =>
      open ← (if open then emit app seq r else mret false);
      emit_backlog app backlog open
  end.

(** One turn of the live loop; whether the stream stays open. *)
Definition pump_step app (step : PumpStep) : P bool :=
  match step with
  | PEvent (Some (EvReceipt seq r)) => emit app seq r
  | PEvent (Some EvGone) | PEvent None => _ ← write gone_event; mret false
  | PEvent (Some (EvMessage _)) => mret true
  | PKeepalive => write keepalive_event
  | PClosed => mret false
  end.

(** The live loop, until the stream closes or the steps given run out. *)
Fixpoint pump_loop app (steps : list PumpStep) (open : bool) : P bool :=
  if negb open then mret false
  else
    match steps with
    | [] => mret open
    | step :: steps => open ← pump_step app step; pump_loop app steps open
    end.

(** [Pump::run]; a listener is dropped when the task ends. *)
Definition run app (listener : option Listener) (backlog : list (N * Receipt))
    (steps : list PumpStep) : P unit :=
  open ← emit_backlog app backlog true;
  match listener with
  | None => mret ()
  | Some l =>
      _ ← pump_loop app steps open;
      in_world (drop_listener app l)
  end.

(** What [stream] answers: a response of its own, or an event stream fed by
    a pump that starts with these. *)
Inductive Streamed : Type :=
| Plain (r : Response)
| Stream (headers : list (string * string)) (listener : option Listener)
    (backlog : list (N * Receipt)).

(** A failure after the listener exists drops it. *)
Definition or_drop {X} app (l : option Listener) (m : EST World Error X) : EST World Error X := fun w =>
  match m w with
  | (Err e, w) =>
      match l with
      | Some l => let '(_, w) := drop_listener app l w in (Err e, w)
      | None => (Err e, w)
      end
  | r => r
  end.

(** [stream] *)
Definition stream app (id : string) (headers : HeaderMap) : EST World Error Streamed :=
  rsub ← lift_result (valid id);
  let wait0 := bool_decide (wait (prefer headers) = Some 0%N) in
  listener ← (if wait0 then mret None
              else l ← boxed (listen app (RReceipts rsub)); mret (Some l));
  or_drop app listener (
    known ← stored (receipt_sub_exists rsub);
    if negb (known : bool) then refuse (from_status 404)
    else
      backlog ← stored (queued_receipts rsub);
      if wait0 && bool_decide (backlog = []) then
        mret (Plain {| rs_status := 204; rs_headers := []; rs_body := [] |})
      else
        mret (Stream [("content-type", "text/event-stream"); ("cache-control", "no-cache")]
                listener backlog)).
End receipts.
