(* ===== verification/ReceiptsTheorems.v ===== *)
(** * What a receipt stream promises

    Every receipt is written at most once on a stream and leaves the queue
    once written; the backlog is written in order. *)
From S2P Require Import MemoryStore MemoryProofs HubTheorems Demo Instances Prelude RustStr External StoreTypes Store Hub Bridge Config App Notify Headers Session Response Endpoint Receipts Worlds Delivery.

Section receipts.
Context {S BW F A : Type} `{St : Store S} `{MP : Mpsc} `{B64 : Base64} `{JS : Json} `{HT : Http}
  `{RH : ResponseHeaders}.
Context (view : S -> AStore) (inv : Env * S -> Prop) (laws : StoreLaws view inv).
Abbreviation World := (World S BW).
Abbreviation App := (App BW F A).
Abbreviation winv := (winv inv).
Abbreviation wview := (wview view).
Implicit Types (w : World) (app : App) (p : Pump).

(** The chunks of a stream: a receipt's event, or one of the two others. *)
Inductive chunk app : option (N * Receipt) * string -> Prop :=
| chunk_receipt seq r : chunk app (Some (seq, r), receipt_event app seq r)
| chunk_gone : chunk app (None, gone_event)
| chunk_keepalive : chunk app (None, keepalive_event).

(** The receipts of a trace of chunks, and their removal from the queues. *)
Definition written (tr : list (option (N * Receipt) * string)) : list (N * Receipt) := omap fst tr.
Definition dequeue_all (a : AStore) (rs : list (N * Receipt)) : AStore :=
  foldl (fun a sr => a_delete_receipt (r_rsub sr.2) sr.1 a) a rs.

(** A run of the pump that wrote the chunks [tr]. *)
Record pumped app w p w' p' tr : Prop := {
  pm_inv : winv w';
  pm_ok : pu_ok p' = pu_ok p;
  pm_out : pu_out p' = pu_out p ++ tr.*2;
  pm_chunks : Forall (chunk app) tr;
  pm_new : forall seq, seq ∈ ((written tr).*1) -> (seq ∉ pu_seen p) /\ seq ∈ pu_seen p';
  pm_seen : pu_seen p ⊆ pu_seen p';
  pm_once : NoDup ((written tr).*1);
  pm_view : wview w' = dequeue_all (wview w) (written tr);
}.

Lemma pumped_nil app w p p' :
  winv w -> pu_ok p' = pu_ok p -> pu_out p' = pu_out p -> pu_seen p ⊆ pu_seen p' ->
  pumped app w p w p' [].
Proof.
  intros ? ? Hout ?. split; try done; [by rewrite Hout, app_nil_r| |constructor].
  intros seq Hin. by apply not_elem_of_nil in Hin.
Qed.

Lemma pumped_trans app w1 p1 w2 p2 w3 p3 tr1 tr2 :
  pumped app w1 p1 w2 p2 tr1 -> pumped app w2 p2 w3 p3 tr2 ->
  pumped app w1 p1 w3 p3 (tr1 ++ tr2).
Proof.
  intros [] []. assert (Hw : written (tr1 ++ tr2) = written tr1 ++ written tr2) by apply omap_app.
  split; [done|congruence| | | | | |].
  - rewrite fmap_app, app_assoc. congruence.
  - by apply Forall_app.
  - intros seq. rewrite Hw, fmap_app, elem_of_app. naive_solver.
  - by etrans.
  - rewrite Hw, fmap_app. apply NoDup_app. split_and!; naive_solver.
  - rewrite Hw. unfold dequeue_all in *. rewrite foldl_app. congruence.
Qed.

(** Writing a chunk that is no receipt. *)
Lemma write_pumped app text w p b w' p' :
  winv w -> chunk app (None, text) -> write text (w, p) = (b, (w', p')) ->
  exists tr, pumped app w p w' p' tr.
Proof.
  intros Hw Hc. unfold write. destruct (pu_ok p _); intros [= <- <- <-].
  - exists [(None, text)]. split; try done; [by constructor| |constructor].
    intros seq Hin. by apply not_elem_of_nil in Hin.
  - exists []. by apply pumped_nil.
Qed.

(** What the queue is after a receipt is taken off it. *)
Lemma delete_receipt_view rsub seq w r w' :
  (forall es, is_ok (delete_receipt rsub seq es).1 = true) -> winv w ->
  with_store (delete_receipt rsub seq) w = (r, w') ->
  winv w' /\ wview w' = a_delete_receipt rsub seq (wview w).
Proof.
  intros Hok Hw Hr. destruct r as [[]|e].
  - destruct (with_store_writes _ _ _ _ _ _ _ _ _ (law_delete_receipt _ _ laws rsub seq) Hw I Hr)
      as ((Hw' & _ & _ & Hv) & _). by split.
  - apply with_store_inv in Hr as [Hr _]. specialize (Hok (w_env w, w_store w)). by rewrite Hr in Hok.
Qed.

Context (up : forall rsub seq es, is_ok (delete_receipt rsub seq es).1 = true).

Lemma emit_pumped app seq r w p b w' p' :
  winv w -> emit app seq r (w, p) = (b, (w', p')) ->
  exists tr, pumped app w p w' p' tr /\ pu_seen p' = {[ seq ]} ∪ pu_seen p /\
    (pu_ok p (length (pu_out p)) = true -> b = true /\
     tr = if decide (seq ∈ pu_seen p) then [] else [(Some (seq, r), receipt_event app seq r)]).
Proof.
  intros Hw He. unfold emit in He.
  apply st_bind_eq in He as (new & [w1 p1] & Hs & He). unfold seen_insert in Hs.
  injection Hs as <- <- <-. case_bool_decide as Hin; cbn [negb] in He.
  2:{ injection He as <- <- <-. exists []. split_and!; [apply pumped_nil; try done; set_solver|done|].
      rewrite decide_True by done. done. }
  apply st_bind_eq in He as (open & [w2 p2] & Hwr & He). unfold write in Hwr. cbn in Hwr.
  destruct (pu_ok p (length (pu_out p))) eqn:Hok; injection Hwr as <- <- <-; cbn [negb] in He.
  2:{ injection He as <- <- <-. exists []. split_and!; [apply pumped_nil; try done; set_solver|done..]. }
  apply st_bind_eq in He as (rd & [w3 p3] & Hd & [= <- <- <-]).
  unfold in_world, attempt in Hd.
  destruct (with_store (delete_receipt (r_rsub r) seq) w) as [rd' w4] eqn:Hdel.
  injection Hd as <- <- <-.
  destruct (delete_receipt_view _ _ _ _ _ (up _ _) Hw Hdel) as [Hw4 Hv4].
  exists [(Some (seq, r), receipt_event app seq r)].
  split; [|by rewrite decide_False]. split; try done; cbn.
  - by repeat constructor.
  - intros s Hs%list_elem_of_singleton. subst. set_solver.
  - set_solver.
  - apply NoDup_singleton.
Qed.

Lemma emit_backlog_pumped app backlog : forall open w p b w' p',
  winv w -> emit_backlog app backlog open (w, p) = (b, (w', p')) ->
  exists tr, pumped app w p w' p' tr.
Proof.
  induction backlog as [|[seq r] backlog IH]; intros open w p b w' p' Hw He; cbn in He.
  - injection He as _ <- <-. exists []. by apply pumped_nil.
  - apply st_bind_eq in He as (open' & [w1 p1] & H1 & H2).
    assert (exists tr, pumped app w p w1 p1 tr) as [tr1 Ht1].
    { destruct open; [|injection H1 as _ <- <-; exists []; by apply pumped_nil].
      destruct (emit_pumped _ _ _ _ _ _ _ _ Hw H1) as (tr & ? & _). eauto. }
    destruct (IH _ _ _ _ _ _ (pm_inv _ _ _ _ _ _ Ht1) H2) as [tr2 Ht2].
    exists (tr1 ++ tr2). by eapply pumped_trans.
Qed.

Lemma pump_step_pumped app step w p b w' p' :
  winv w -> pump_step app step (w, p) = (b, (w', p')) -> exists tr, pumped app w p w' p' tr.
Proof.
  intros Hw Hs.
  assert (Hgone : (_ ← write (S := S) (BW := BW) gone_event; mret false) (w, p) = (b, (w', p')) ->
    exists tr, pumped app w p w' p' tr).
  { intros (b' & [w1 p1] & Hwr & [= _ <- <-])%st_bind_eq.
    eapply write_pumped; [done|constructor|done]. }
  destruct step as [[[n|seq r|]|]| |]; cbn in Hs;
    try (injection Hs as _ <- <-; exists []; by apply pumped_nil); auto.
  - destruct (emit_pumped _ _ _ _ _ _ _ _ Hw Hs) as (tr & ? & _). eauto.
  - eapply write_pumped; [done|constructor|done].
Qed.

Lemma pump_loop_pumped app steps : forall open w p b w' p',
  winv w -> pump_loop app steps open (w, p) = (b, (w', p')) -> exists tr, pumped app w p w' p' tr.
Proof.
  induction steps as [|step steps IH]; intros [] w p b w' p' Hw Hl; cbn in Hl.
  1,2,4: injection Hl as _ <- <-; exists []; by apply pumped_nil.
  apply st_bind_eq in Hl as (open' & [w1 p1] & H1 & H2).
  destruct (pump_step_pumped _ _ _ _ _ _ _ Hw H1) as [tr1 Ht1].
  destruct (IH _ _ _ _ _ _ (pm_inv _ _ _ _ _ _ Ht1) H2) as [tr2 Ht2].
  exists (tr1 ++ tr2). by eapply pumped_trans.
Qed.

(** ** Queues after dequeuing *)
Lemma dequeue_all_other rs rsub : forall a r,
  (forall seq rc, (seq, rc) ∈ rs -> r_rsub rc = rsub) -> r <> rsub ->
  a_queues (dequeue_all a rs) !! r = a_queues a !! r.
Proof.
  induction rs as [|[seq rc] rs IH]; intros a r Hall Hne; cbn; [done|].
  unfold dequeue_all in IH. rewrite IH; [|intros s x Hin; apply (Hall s); by right|done]. cbn.
  apply lookup_alter_ne. intros <-. apply Hne. apply (Hall seq). left.
Qed.

Definition dequeue (q : gmap N Receipt) (rs : list (N * Receipt)) : gmap N Receipt :=
  foldl (fun q sr => base.delete sr.1 q) q rs.
Lemma dequeue_all_queue rs rsub : forall a,
  (forall seq rc, (seq, rc) ∈ rs -> r_rsub rc = rsub) ->
  default ∅ (a_queues (dequeue_all a rs) !! rsub) = dequeue (default ∅ (a_queues a !! rsub)) rs.
Proof.
  induction rs as [|[seq rc] rs IH]; intros a Hall; cbn; [done|].
  unfold dequeue_all in IH. rewrite IH by (intros s x Hin; apply (Hall s); by right).
  rewrite (Hall seq rc ltac:(left)). cbn. rewrite lookup_alter_eq. unfold dequeue. f_equal.
  destruct (a_queues a !! rsub); cbn; [done|]. by rewrite delete_empty.
Qed.

Lemma dequeued_sub rs : forall q seq, q !! seq = None -> dequeue q rs !! seq = None.
Proof.
  induction rs as [|[s rc] rs IH]; intros q seq Hn; cbn; [done|]. apply IH.
  by apply lookup_delete_None; right.
Qed.
Lemma dequeued_in rs : forall q seq, (exists r, (seq, r) ∈ rs) -> dequeue q rs !! seq = None.
Proof.
  induction rs as [|[s rc] rs IH]; intros q seq [r Hin]; cbn; [by apply not_elem_of_nil in Hin|].
  apply elem_of_cons in Hin as [[= <- <-]|Hin]; [|by apply IH; exists r].
  apply dequeued_sub. apply lookup_delete_eq.
Qed.

(** ** Claims *)

(** C16: whatever arrives on a stream, live or from the queue and in any
    order, each receipt is written at most once, and the receipts written
    are exactly those taken off the queues: none is dropped unwritten, as long
    as the store's [delete_receipt] does not fail. *)
Theorem stream_at_most_once app ok listener backlog steps w u w' p' :
  winv w -> Receipts.run app listener backlog steps (w, new_pump ok) = (u, (w', p')) ->
  exists tr, pu_out p' = tr.*2 /\ Forall (chunk app) tr /\ NoDup ((written tr).*1) /\
    wview w' = dequeue_all (wview w) (written tr).
Proof.
  intros Hw (open & [w1 p1] & H1 & H2)%st_bind_eq.
  destruct (emit_backlog_pumped _ _ _ _ _ _ _ _ Hw H1) as [tr1 Ht1].
  assert (Hend : exists tr w2, pumped app w1 p1 w2 p' tr /\ wview w' = wview w2) .
  { destruct listener as [l|].
    - apply st_bind_eq in H2 as (b & [w2 p2] & H2 & H3).
      destruct (pump_loop_pumped _ _ _ _ _ _ _ _ (pm_inv _ _ _ _ _ _ Ht1) H2) as [tr2 Ht2].
      unfold in_world in H3. destruct (drop_listener app l w2) as [u3 w3] eqn:Hd.
      injection H3 as _ <- <-. exists tr2, w2. split; [done|].
      destruct (drop_listener_evolves view inv _ _ _ _ _ (pm_inv _ _ _ _ _ _ Ht2) Hd) as (_ & _ & _ & ->).
      done.
    - injection H2 as _ <- <-. exists [], w1. split; [|done]. apply pumped_nil; try done. apply Ht1. }
  destruct Hend as (tr2 & w2 & Ht2 & Hv2).
  destruct (pumped_trans _ _ _ _ _ _ _ _ _ Ht1 Ht2) as [_ _ Hout Hch _ _ Honce Hview].
  exists (tr1 ++ tr2). split_and!; [exact Hout|done|done|]. by rewrite Hv2, Hview.
Qed.

(** The backlog as a trace. *)
Definition backlog_trace app (backlog : list (N * Receipt)) : list string :=
  (fun sr => receipt_event app sr.1 sr.2) <$> backlog.

Lemma emit_backlog_all app backlog : forall w p b w' p',
  winv w -> (forall n, pu_ok p n = true) -> NoDup backlog.*1 ->
  (forall seq, seq ∈ backlog.*1 -> seq ∉ pu_seen p) ->
  emit_backlog app backlog true (w, p) = (b, (w', p')) ->
  b = true /\ pu_out p' = pu_out p ++ backlog_trace app backlog /\
  wview w' = dequeue_all (wview w) backlog.
Proof.
  induction backlog as [|[seq r] backlog IH]; intros w p b w' p' Hw Hok Hnd Hseen He; cbn in He.
  - injection He as <- <- <-. by rewrite app_nil_r.
  - apply st_bind_eq in He as (open & [w1 p1] & H1 & H2). cbn in Hnd.
    apply NoDup_cons in Hnd as [Hnin Hnd].
    assert (Hs : seq ∉ pu_seen p) by (apply Hseen; left).
    destruct (emit_pumped _ _ _ _ _ _ _ _ Hw H1) as (tr & Ht & Hb).
    destruct Hb as [Hs1 Hb]. destruct (Hb (Hok _)) as [-> Htr]. rewrite decide_False in Htr by done.
    subst tr. destruct Ht as [Hw1 Hok1 Hout1 _ _ _ _ Hv1]. cbn in Hout1, Hv1.
    destruct (IH w1 p1 b w' p') as (-> & Hout & Hv); try done.
    + intros n. by rewrite Hok1.
    + intros s Hin. rewrite Hs1. specialize (Hseen s ltac:(by right)). set_solver.
    + split_and!; [done| |by rewrite Hv, Hv1]. by rewrite Hout, Hout1, <- app_assoc.
Qed.

Lemma sorted_NoDup (l : list N) : StronglySorted N.lt l -> NoDup l.
Proof.
  induction 1 as [|x l _ IH Hx]; constructor; [|done]. intros Hin.
  rewrite Forall_forall in Hx. specialize (Hx _ Hin). lia.
Qed.

(** C20: a client that stays connected gets the whole backlog, in order and
    once each, and afterwards none of it is queued: a [wait=0] read drains
    the queue it answers, when its deletions do not fail. *)
Theorem stream_drains_backlog app backlog w u w' p' ok rsub :
  winv w -> (forall n, ok n = true) ->
  StronglySorted N.lt backlog.*1 ->
  backlog ≡ₚ map_to_list (default ∅ (a_queues (wview w) !! rsub)) ->
  (forall seq r, (seq, r) ∈ backlog -> r_rsub r = rsub) ->
  Receipts.run app None backlog [] (w, new_pump ok) = (u, (w', p')) ->
  pu_out p' = backlog_trace app backlog /\
  default ∅ (a_queues (wview w') !! rsub) = ∅ /\
  (forall r, r <> rsub -> a_queues (wview w') !! r = a_queues (wview w) !! r).
Proof.
  intros Hw Hok Hsort Hq Hsub (open & [w1 p1] & H1 & H2)%st_bind_eq.
  injection H2 as _ <- <-.
  destruct (emit_backlog_all app backlog w (new_pump ok) open w1 p1) as (_ & Hout & Hv); try done.
  { by apply sorted_NoDup. }
  split; [exact Hout|]. rewrite Hv. split.
  - apply map_empty. intros seq. destruct (default ∅ (a_queues (wview w) !! rsub) !! seq) as [r|] eqn:Hl.
    + assert (Hin : (seq, r) ∈ backlog) by (rewrite Hq; by apply elem_of_map_to_list).
      rewrite (dequeue_all_queue _ rsub) by done. apply dequeued_in. by exists r.
    + rewrite (dequeue_all_queue _ rsub) by done. by apply dequeued_sub.
  - intros r Hne. by apply (dequeue_all_other _ rsub).
Qed.
End receipts.

(** ** Witnesses *)
Lemma memory_delete_receipt_ok rsub seq es : is_ok (delete_receipt rsub seq es).1 = true.
Proof. by destruct es. Qed.

Definition demo_backlog : list (N * Receipt) :=
  btree_iter (default ∅ (MemoryStore.receipts (w_store demo_world) !! demo_rsub)).
Lemma demo_backlog_eq : exists n, demo_backlog = [(n, demo_receipt)] /\
  map_to_list (default ∅ (a_queues (wview MemoryProofs.view demo_world) !! demo_rsub)) = [(n, demo_receipt)].
Proof. eexists. split; vm_compute; reflexivity. Qed.

Abbreviation demo_stream := (Receipts.run (demo_app None) None demo_backlog [] (demo_world, new_pump (fun _ => true))).

Lemma stream_at_most_once_witness : exists tr, pu_out demo_stream.2.2 = tr.*2 /\
  NoDup ((written tr).*1).
Proof.
  destruct demo_stream as [u [w' p']] eqn:Hr.
  destruct (stream_at_most_once _ _ memory_laws memory_delete_receipt_ok _ _ _ _ _ _ _ _ _
    demo_winv Hr) as (tr & Ho & _ & Hn & _).
  exists tr. exact (conj Ho Hn).
Defined.

Lemma stream_drains_backlog_witness : exists n,
  pu_out demo_stream.2.2 = [receipt_event (demo_app None) n demo_receipt] /\
  default ∅ (a_queues (wview MemoryProofs.view demo_stream.2.1) !! demo_rsub) = ∅.
Proof.
  destruct demo_backlog_eq as (n & Hb & Hq). exists n. rewrite Hb.
  destruct (Receipts.run _ _ _ _ _) as [u [w' p']] eqn:Hr.
  assert (Hsort : StronglySorted N.lt [(n, demo_receipt)].*1) by (repeat constructor).
  assert (Hsub : forall seq r, (seq, r) ∈ [(n, demo_receipt)] -> r_rsub r = demo_rsub)
    by (intros seq r [= -> ->]%list_elem_of_singleton; done).
  destruct (stream_drains_backlog _ _ memory_laws memory_delete_receipt_ok _ _ _ _ _ _ _ demo_rsub
    demo_winv (fun _ => eq_refl) Hsort ltac:(rewrite Hq; reflexivity) Hsub Hr) as (Ho & He & _).
  exact (conj Ho He).
Defined.
