(* ===== verification/Internal.v ===== *)
(** * The internal listener and background work

    The handlers of [crates/webpush-server/src/internal.rs] and the loops of
    [crates/webpush-server/src/maintenance.rs]. The timer of a loop is the
    sequence of events it wakes up for. *)
From S2P Require Import Prelude RustStr External StoreTypes Store Hub Bridge Config App Notify Headers Response Endpoint.

Section internal.
Context {S BW F A : Type} `{St : Store S} `{MP : Mpsc} `{B64 : Base64} `{HM : Hmac} `{HT : Http}.
Abbreviation World := (World S BW).
Abbreviation App := (App BW F A).
Implicit Types (app : App).

(** [ready] *)
Definition ready (draining : bool) : ST World StatusCode :=
  if draining then mret 503%N
  else
    r ← attempt (with_store (user_agent "00000000000000000000000000000000"));
    match r with Ok _ => mret 200%N | Err _ => mret 503%N end.

(** [version] *)
Definition version (name version : string) : Value :=
  json [("name", Str name); ("version", Str version)].

(** [deliver] *)
Definition deliver app (headers : HeaderMap) (envelope : Envelope) : ST World StatusCode :=
  match app_cluster app with
  | None => mret 404%N
  | Some cluster =>
      let token := v ← get headers "authorization"; v ← to_str v; strip_prefix "Bearer " v in
      let known := match token with Some t => authorized cluster t | None => false end in
      if negb known then mret 401%N
      else
        match open envelope with
        | None => mret 400%N
        | Some (to, event) =>
            n ← with_hub (Hub.notify to event);
            mret (match n with Delivered => 200 | Dropped => 200 | Absent => 404 end)%N
        end
  end.

(** [reap]; a failure is only logged. *)
Definition reap app : ST World unit :=
  now ← with_env now_ms;
  r ← attempt (with_store (Store.reap now));
  match r with
  | Ok receipts => notify_receipts app receipts
  | Err _ => mret ()
  end.

(** [u64::try_from(after.as_millis()).unwrap_or(u64::MAX)] *)
Definition millis_u64 (after : Duration) : N := N.min (as_millis after) u64_max.

(** [expire] *)
Definition expire app (after : Duration) : ST World unit :=
  let after_ms := millis_u64 after in
  now ← with_env now_ms;
  let cutoff := sat_sub now after_ms in
  r ← attempt (with_store (expire_user_agents cutoff));
  match r with
  | Ok (_, receipts) => notify_receipts app receipts
  | Err _ => mret ()
  end.

(** ** The loops *)
Inductive Work : Type := Reap | Expire (after : Duration).
Definition work app (k : Work) : ST World unit :=
  match k with Reap => reap app | Expire after => expire app after end.

(** [spawn]: the loops of this configuration and their intervals *)
Definition spawn (cfg : Config F A) : list (Duration * Work) :=
  (reaper_interval (Config.push cfg), Reap) ::
  match expire_after (user_agents cfg) with
  | Some after => [(sweep_interval (user_agents cfg), Expire after)]
  | None => []
  end.

(** What a loop's [select!] wakes up for, and how the loop stands after. *)
Inductive EveryWake : Type := Ticked | Cancelled.
Inductive EveryEnd : Type := Panicked | Stopped | Going.

Fixpoint every_loop app (k : Work) (wakes : list EveryWake) : ST World EveryEnd :=
  match wakes with
  | [] => mret Going
  | Ticked :: wakes => _ ← work app k; every_loop app k wakes
  | Cancelled :: _ => mret Stopped
  end.

(** [every]; [tokio::time::interval] panics when the period is zero. *)
Definition every app (interval : Duration) (k : Work) (wakes : list EveryWake) : ST World EveryEnd :=
  if (interval =? 0)%N then mret Panicked else every_loop app k wakes.
End internal.
