(* ===== verification/InternalTheorems.v ===== *)
(** * Between nodes, and in the background

    An event forwarded by one node and delivered by another, and a round of
    the reaper. *)
From S2P Require Import MemoryStore MemoryProofs MemoryRuns HubTheorems Demo Instances Prelude RustStr External StoreTypes Store Hub Bridge Config App Notify Headers Response Worlds Delivery NotifyTheorems Endpoint Internal.

Section internal.
Context {S BW F A : Type} `{St : Store S} `{MP : Mpsc} `{B64 : Base64} `{HM : Hmac} `{HT : Http}.
Context (view : S -> AStore) (inv : Env * S -> Prop) (laws : StoreLaws view inv).
Abbreviation World := (World S BW).
Abbreviation App := (App BW F A).
Abbreviation winv := (winv inv).
Abbreviation wview := (wview view).

(** The headers [reqwest] sends for [bearer_auth]. *)
Definition bears (headers : HeaderMap) (token : string) : Prop :=
  exists v, get headers "authorization" = Some v /\ to_str v = Some ("Bearer " +:+ token).

Lemma deliver_peer (app : App) c headers to event `{!Base64Laws} (w : World) :
  app_cluster app = Some (new_cluster_link c) -> bears headers (Config.token c) ->
  deliver app headers (new_envelope to event) w =
    let '(n, w') := with_hub (Hub.notify to event) w in
    (match n with Absent => 404 | _ => 200 end, w')%N.
Proof.
  intros Hc (v & Hv & Hs). unfold deliver. rewrite Hc, Hv. cbn [mbind option_bind]. rewrite Hs.
  cbn [mbind option_bind]. rewrite strip_prefix_app. unfold authorized. cbn [new_cluster_link cl_token_digest].
  rewrite bool_decide_true by done. cbn [negb].
  rewrite open_new_envelope. unfold mbind, st_bind. destruct (with_hub _ _) as [[] w']; done.
Qed.

(** C23: A node that forwards an event to another node of its cluster, when the
    request arrives and is answered, has it queued for the listener on that
    node exactly as if it had been notified there; and it removes the route
    exactly when that node holds no such listener. *)
Theorem forward_delivers `{!Base64Laws} (appa appb : App) ca cb headers to event node (wa wa' : World) (wb : World) u :
  winv wa -> (forall es, is_ok (clear_route to node es).1 = true) ->
  app_cluster appa = Some (new_cluster_link ca) -> app_cluster appb = Some (new_cluster_link cb) ->
  Config.token ca = Config.token cb -> bears headers (Config.token ca) ->
  w_http wa (length (w_posts wa)) = HttpStatus (deliver appb headers (new_envelope to event) wb).1 ->
  forward appa node to event wa = (u, wa') ->
  w_posts wa' = w_posts wa ++ [(node +:+ NOTIFY_PATH, Config.token ca, new_envelope to event)] /\
  let '(n, h) := Hub.notify to event (w_hub wb, w_chans wb) in
  let wb' := (deliver appb headers (new_envelope to event) wb).2 in
  (w_hub wb', w_chans wb') = h /\ w_store wb' = w_store wb /\
  wview wa' = match n with Absent => a_clear_route to node (wview wa) | _ => wview wa end.
Proof.
  intros Hw Hclear Ha Hb Htok Hbears Hnet Hf.
  destruct (forward_spec view inv laws appa _ node to event wa u wa' Hclear Hw Ha Hf) as (Hp & Hv & _).
  split; [exact Hp|]. rewrite Htok in Hbears. rewrite (deliver_peer _ _ _ _ _ _ Hb Hbears) in *. revert Hnet.
  unfold with_hub. destruct (Hub.notify to event (w_hub wb, w_chans wb)) as [n [h c]]. cbn [fst snd].
  intros Hnet. split_and!; [done..|]. rewrite Hv. unfold after_forward. rewrite Hnet. by destruct n.
Qed.

(** C25: A round of the reaper removes messages that have expired, and among them
    every one that asked for a receipt; each of those is owed a 410, which is
    in its receipt subscription's queue when the round is over. User agents
    and subscriptions stay as they are. The store's [reap] does not fail. *)
Theorem reap_round (faults : FaultLaws view inv) (app : App) (w : World) u w' :
  winv w -> room (w_env w) (wview w) -> (forall now es, is_ok (Store.reap now es).1 = true) ->
  reap app w = (u, w') ->
  exists P rs,
    (forall m, P m = true -> (m_expiry m <= (now_ms (w_env w)).1)%N) /\
    (forall m, (m_expiry m <= (now_ms (w_env w)).1)%N -> m_rsub m <> None -> P m = true) /\
    a_msgs (wview w') = filter (fun km => P km.2 = false) (a_msgs (wview w)) /\
    rs.*2 ≡ₚ omap (owed_410 (a_queues (wview w)))
      (filter (fun m => P m = true) (map_to_list (a_msgs (wview w))).*2) /\
    a_queues (wview w') = enqueue_all (a_queues (wview w)) rs /\
    a_uas (wview w') = a_uas (wview w) /\ a_subs (wview w') = a_subs (wview w).
Proof.
  intros Hw Hroom Hok (now & w1 & H1 & Hr)%st_bind_eq.
  destruct (with_env_evolves view inv laws _ _ _ _ now_ms_env Hw H1) as ((Hw1 & He1 & Hq1 & Hv1) & _ & ->).
  apply st_bind_eq in Hr as (r & w2 & H2 & Hr). unfold attempt in H2. destruct r as [rs|e].
  2:{ apply with_store_inv in H2 as [H2 _]. specialize (Hok (now_ms (w_env w)).1 (w_env w1, w_store w1)).
      by rewrite H2 in Hok. }
  assert (Hroom1 : room (w_env w1) (wview w1)).
  { unfold room. rewrite <- Hv1. by apply (seq_room_quiet _ (w_env w)). }
  destruct (with_store_meets view inv _ _ _ _ _ _ (law_reap _ _ laws _) Hw1 Hroom1 H2)
    as (Hw2 & _ & _ & P & HP & HP2 & Hrm & Hua & Hsub).
  apply (notify_receipts_evolves view inv laws faults) in Hr as (_ & _ & _ & Hro); [|done].
  apply routes_only_fields in Hro as (Hua2 & Hsub2 & Hm2 & Hq2).
  destruct Hrm as [Hmsgs Hrs _ Hqs _]. exists P, rs. rewrite <- Hv1 in *.
  split_and!; [done|done|congruence|done|congruence..].
Qed.
End internal.

(** ** Examples *)

(** The reaper runs a minute and a second after the message was accepted. *)
Definition minute_later : World State (list (Address * BridgeMessage)) := {|
  w_env := {| env_clock := fun _ => 61001; env_ticks := 0; env_random := fun _ => xff; env_drawn := 0;
              env_instant := fun _ => 0; env_instants := 0; env_last_seq := env_last_seq (w_env demo_world) |}%N;
  w_store := w_store demo_world; w_hub := w_hub demo_world; w_chans := w_chans demo_world;
  w_tasks := []; w_http := w_http demo_world; w_posts := []; w_bridges := [];
|}.
Lemma minute_winv : winv MemoryProofs.inv minute_later.
Proof. exact (inv_env (w_env demo_world) (w_env minute_later) _ (N.le_refl _) demo_winv). Qed.
Lemma minute_room : room (w_env minute_later) (wview MemoryProofs.view minute_later).
Proof. split; [|intros i]; vm_compute; reflexivity. Qed.
Lemma memory_reap_ok now es : is_ok (Store.reap now es).1 = true.
Proof.
  cbn. unfold MemoryStore.reap, lift_st. match goal with |- context [let (_, _) := ?m in _] => by destruct m end.
Qed.
Lemma minute_message :
  a_msgs (wview MemoryProofs.view minute_later) !! demo_id = Some (demo_msg demo_id (Some demo_rsub)).
Proof. vm_compute. reflexivity. Qed.

Abbreviation demo_round := (reap (demo_app None) minute_later).
Lemma reap_round_witness : a_msgs (wview MemoryProofs.view demo_round.2) !! demo_id = None.
Proof.
  destruct demo_round as [u w'] eqn:Hr.
  destruct (reap_round _ _ memory_laws memory_faults (demo_app None) minute_later u w' minute_winv minute_room
    memory_reap_ok Hr) as (P & rs & _ & Hall & Hm & _).
  cbn [snd]. rewrite Hm. apply map_lookup_filter_None. right. intros m Hin. cbn. rewrite minute_message in Hin.
  injection Hin as <-. rewrite Hall; [done|vm_compute; discriminate|done].
Defined.

(** Node [a] forwards to node [b], where a session waits; the request gets
    the answer [b] gives. *)
Definition peer_headers : list (string * string) := [("authorization", "Bearer secret")].
Definition listening : World State (list (Address * BridgeMessage)) :=
  (with_hub (Hub.register (RUserAgent session_ua)) demo_world).2.
Abbreviation demo_peer := (demo_app (Some demo_cluster)).
Abbreviation demo_forward := (forward demo_peer "http://b:9000" (RUserAgent session_ua) EvGone demo_world).
Abbreviation demo_delivery := (deliver (HT := list_http) demo_peer peer_headers
  (new_envelope (RUserAgent session_ua) EvGone) listening).
Lemma demo_delivered :
  w_http demo_world (length (w_posts demo_world)) = HttpStatus demo_delivery.1 /\
  (Hub.notify (RUserAgent session_ua) EvGone (w_hub listening, w_chans listening)).1 = Delivered.
Proof. split; vm_compute; reflexivity. Qed.

Lemma forward_delivers_witness :
  wview MemoryProofs.view demo_forward.2 = wview MemoryProofs.view demo_world /\
  (w_hub demo_delivery.2, w_chans demo_delivery.2) =
    (Hub.notify (RUserAgent session_ua) EvGone (w_hub listening, w_chans listening)).2.
Proof.
  destruct demo_delivered as [Hnet Hn]. destruct demo_forward as [u wa'] eqn:Hf.
  destruct (forward_delivers (HT := list_http) _ _ memory_laws demo_peer demo_peer demo_cluster demo_cluster
    peer_headers (RUserAgent session_ua) EvGone "http://b:9000" demo_world wa' listening u demo_winv
    (memory_clear_ok _ _) eq_refl eq_refl eq_refl (ex_intro _ "Bearer secret" (conj eq_refl eq_refl)) Hnet Hf)
    as [_ Hx].
  destruct (Hub.notify _ _ _) as [n h]. cbn [fst snd] in *. subst n. destruct Hx as (H1 & _ & H3).
  split; [exact H3|exact H1].
Defined.

(** ** Intervals of zero

    [Config::validate] does not look at the intervals of the loops. *)
Definition with_reaper_interval {F A} (d : Duration) (c : Config F A) : Config F A := {|
  role := role c; origin := origin c; public := public c; internal := internal c;
  Config.cluster := Config.cluster c;
  Config.push := {| max_ttl := max_ttl (Config.push c); max_payload := max_payload (Config.push c);
                    reaper_interval := d |};
  websocket := websocket c; receipts := receipts c; user_agents := user_agents c; cors := cors c;
  registration := registration c; bridges := bridges c; Config.store := Config.store c; log := log c;
  shutdown := shutdown c;
|}.

(** A configuration may pass validation with an interval of zero for the
    reaper. Its loop then panics before the first round, so that nothing is
    ever reaped. *)
Lemma zero_interval_panics :
  validate true true (with_reaper_interval 0 (demo_config None)) = Ok () /\
  exists k, Internal.spawn (with_reaper_interval 0 (demo_config None)) = [(0%N, k)] /\
    forall wakes (w : World State (list (Address * BridgeMessage))),
      every (demo_app None) 0 k wakes w = (Panicked, w).
Proof. split; [vm_compute; reflexivity|]. by exists Reap. Qed.
