(* ===== verification/Telemetry.v ===== *)
(** * Logs and metrics

    [crates/webpush-server/src/telemetry.rs]. The [metrics] and [tracing]
    macros hand what they are given to a recorder and a subscriber; the model
    collects it, in order, as a list of [Emission]s. The recorder, its
    rendering and the subscriber are third-party code. *)
From S2P Require Import Prelude RustStr External StoreTypes Store Hub Bridge Config App Response.

(** ** Names of the metrics *)
Definition CONNECTIONS : string := "webpush_connections".
Definition SESSIONS : string := "webpush_sessions".
Definition ACCEPTED : string := "webpush_messages_accepted_total".
Definition DELIVERED : string := "webpush_messages_delivered_total".
Definition BRIDGE_ERRORS : string := "webpush_bridge_errors_total".
Definition RECEIPTS : string := "webpush_receipts_total".
Definition REMOTE_NOTIFY : string := "webpush_remote_notify_total".
Definition EXPIRED : string := "webpush_user_agents_expired_total".
Definition LISTENER_DROPPED : string := "webpush_listener_dropped_total".

(** A metric with its labels. *)
Record Key : Type := { k_name : string; k_labels : list (string * string) }.
#[export] Instance key_eq_dec : EqDecision Key.
Proof. solve_decision. Defined.

(** What the macros hand on. A gauge is only moved by [1.0]; a histogram
    records the seconds of a duration. *)
Inductive Emission : Type :=
| Increment (k : Key) (by_ : N)
| GaugeUp (k : Key)
| GaugeDown (k : Key)
| Record_ (k : Key) (elapsed : Duration)
| RequestLog (method route : string) (status latency_ms : N).
#[export] Instance emission_eq_dec : EqDecision Emission.
Proof. solve_decision. Defined.

(** ** The process-wide recorder *)
Class Prometheus (O : Type) : Type := {
  Recorder : Type;
  PrometheusHandle : Type;
  build_recorder : ST O Recorder;
  handle : Recorder -> PrometheusHandle;
  set_global_recorder : Recorder -> ST O bool;
  run_upkeep : PrometheusHandle -> ST O unit;
  handle_render : PrometheusHandle -> O -> string;
  (** The cell of the [OnceLock]. *)
  once : O -> option PrometheusHandle;
  set_once : PrometheusHandle -> O -> O;
}.
Class PrometheusLaws O `{Prometheus O} : Prop := {
  once_set_once : forall h o, once (set_once h o) = Some h;
  once_upkeep : forall h o, once (run_upkeep h o).2 = once o;
}.

Section prometheus.
Context {O : Type} `{PR : Prometheus O}.

(** [prometheus]; a recorder that is already installed stays. *)
Definition prometheus : ST O PrometheusHandle := fun o =>
  match once o with
  | Some h => (h, o)
  | None =>
      let '(recorder, o) := build_recorder o in
      let h := handle recorder in
      let '(_, o) := set_global_recorder recorder o in
      (h, set_once h o)
  end.

(** [render] *)
Definition render : ST O string :=
  h ← prometheus; _ ← run_upkeep h; (fun o => (handle_render h o, o)) : ST O string.

Context `{!PrometheusLaws O}.
(** Every call gives the handle of the first. *)
Lemma prometheus_stable o h o' : prometheus o = (h, o') -> once o' = Some h /\ prometheus o' = (h, o').
Proof.
  unfold prometheus. destruct (once o) as [h0|] eqn:Ho; [intros [= <- <-]; by rewrite Ho|].
  destruct (build_recorder o) as [r o1], (set_global_recorder r o1) as [b o2]. intros [= <- <-].
  by rewrite once_set_once.
Qed.
Lemma render_same_recorder o h o1 : prometheus o = (h, o1) -> once (render o).2 = Some h.
Proof.
  intros Hp. destruct (prometheus_stable _ _ _ Hp) as [Ho _].
  cbv [render mbind st_bind]. rewrite Hp. destruct (run_upkeep h o1) as [u o2] eqn:Hu. cbn.
  by rewrite <- Ho, <- (once_upkeep h o1), Hu.
Qed.
End prometheus.

(** ** The log subscriber *)
Inductive Layer : Type := TextLayer | JsonLayer (flatten_event : bool).
Class Tracing (O : Type) : Type := {
  EnvFilter : Type;
  filter_try_new : string -> result BoxError EnvFilter;
  try_init : EnvFilter -> Layer -> EST O BoxError unit;
}.

(** [init_logging]; [rust_log] is the variable of that name when it is set
    and is UTF-8. *)
Definition init_logging {O} `{Tracing O} (rust_log : option string) (cfg : Log) : EST O BoxError unit :=
  filter ← lift_result (match rust_log with
                        | Some env => if bool_decide (env = "") then filter_try_new (level cfg) else filter_try_new env
                        | None => filter_try_new (level cfg)
                        end);
  match format cfg with
  | Text => try_init filter TextLayer
  | JsonLines => try_init filter (JsonLayer true)
  end.

(** ** Gauges

    [struct Gauge]: the value holds its key; [drop_gauge] is its [Drop]. *)
Record Gauge : Type := { gauge : Key }.
Definition new_gauge (name label : string) : Gauge * list Emission :=
  let gauge := if bool_decide (label = "") then {| k_name := name; k_labels := [] |}
               else {| k_name := name; k_labels := [("listener", label)] |} in
  ({| gauge := gauge |}, [GaugeUp gauge]).
Definition drop_gauge (g : Gauge) : list Emission := [GaugeDown (gauge g)].

(** What a recorder shows for a gauge and for a counter after a list of
    emissions, both from zero. *)
Definition moved (k : Key) (e : Emission) : Z :=
  match e with
  | GaugeUp k' => if decide (k = k') then 1 else 0
  | GaugeDown k' => if decide (k = k') then -1 else 0
  | _ => 0
  end%Z.
Definition gauge_value (k : Key) (l : list Emission) : Z := foldr Z.add 0%Z (moved k <$> l).
Definition counted (k : Key) (e : Emission) : N :=
  match e with Increment k' n => if decide (k = k') then n else 0 | _ => 0 end%N.
Definition counter_value (k : Key) (l : list Emission) : N := foldr N.add 0%N (counted k <$> l).

Lemma gauge_value_app k l l' : gauge_value k (l ++ l') = (gauge_value k l + gauge_value k l')%Z.
Proof. unfold gauge_value. rewrite fmap_app. induction (moved k <$> l); cbn; lia. Qed.
Lemma counter_value_app k l l' : counter_value k (l ++ l') = (counter_value k l + counter_value k l')%N.
Proof. unfold counter_value. rewrite fmap_app. induction (counted k <$> l); cbn; lia. Qed.

(** ** Requests

    A request as far as [observe] looks at it, and the rest of it: its path,
    headers and body. [rq_matched] is the [MatchedPath] that axum puts on a
    request it has found a route for. *)
Record Request (X : Type) : Type := {
  rq_method : string;
  rq_matched : option string;
  rq_rest : X;
}.
Arguments rq_method {X} _.
Arguments rq_matched {X} _.
Arguments rq_rest {X} _.

Definition REQUESTS : string := "webpush_http_requests_total".
Definition REQUEST_SECONDS : string := "webpush_http_request_duration_seconds".

Section observe.
Context {W X : Type} (instant : W -> Duration).

(** The route label, [u64::try_from(elapsed.as_millis()).unwrap_or(u64::MAX)]
    and [Instant::elapsed], which saturates. *)
Definition route_label (req : Request X) : string := default "unmatched" (rq_matched req).
Definition latency_ms (elapsed : Duration) : N :=
  if (as_millis elapsed <=? u64_max)%N then as_millis elapsed else u64_max.

(** [observe], over what was emitted so far. *)
Definition observe (req : Request X) (next : Request X -> ST W Response) : ST (W * list Emission) Response :=
  fun '(w, emitted) =>
    let method := rq_method req in
    let route := route_label req in
    let start := instant w in
    let '(resp, w) := next req w in
    let elapsed := sat_sub (instant w) start in
    let status := rs_status resp in
    (resp, (w, emitted ++
      [RequestLog method route status (latency_ms elapsed);
       Increment {| k_name := REQUESTS;
                    k_labels := [("method", method); ("route", route); ("status", to_string status)] |} 1;
       Record_ {| k_name := REQUEST_SECONDS; k_labels := [("method", method); ("route", route)] |} elapsed])).
End observe.
