(* ===== verification/Server.v ===== *)
(** * Starting a server

    [crates/webpush-server/src/lib.rs], the TLS configuration of
    [transport.rs] and [main.rs]: what is built from the settings before a
    server runs, in the order in which it can fail, and which routes are
    served where. Sockets, files, TLS material, decoding the settings and
    installing the logger are parameters; matching a request against the
    routes is [axum]'s. *)
From S2P Require Import Prelude RustStr External StoreTypes Store Hub Bridge Shutdown Transport Config App Notify Response Telemetry Endpoint Internal.

(** ** Routes *)
Inductive Method : Type := GET | POST | PUT | DELETE.
#[export] Instance method_eq_dec : EqDecision Method.
Proof. solve_decision. Defined.

(** The handlers, by the module they are in. *)
Inductive Handler : Type :=
| HPush | HReadMessage | HWithdrawMessage | HReceiptStream | HDeleteReceiptSub
| HCreate | HRead | HUpdateToken | HDelete | HSubscribe | HUnsubscribe
| HUpgrade
| HHealth | HReady | HVersion | HMetrics | HDeliver.
#[export] Instance handler_eq_dec : EqDecision Handler.
Proof. solve_decision. Defined.

(** A route: its pattern, the largest body it accepts if it is limited, and
    a handler per method. *)
Record Route : Type := {
  ro_pattern : string;
  ro_limit : option N;
  ro_handlers : list (Method * Handler);
}.
Abbreviation Router := (list Route).
Definition a_route (pattern : string) (handlers : list (Method * Handler)) : Route :=
  {| ro_pattern := pattern; ro_limit := None; ro_handlers := handlers |}.
(** [.layer(DefaultBodyLimit::max(n))] *)
Definition body_limit (n : N) (r : Router) : Router :=
  (fun x => {| ro_pattern := ro_pattern x; ro_limit := Some n; ro_handlers := ro_handlers x |}) <$> r.

(** [endpoint::router], [registration::router] and [internal::router] *)
Definition endpoint_router {F A} (cfg : Config F A) : Router :=
  body_limit (max_payload (Config.push cfg))
    [a_route "/push/{id}" [(POST, HPush)];
     a_route "/message/{id}" [(GET, HReadMessage); (DELETE, HWithdrawMessage)];
     a_route "/receipt-subscription/{id}" [(GET, HReceiptStream); (DELETE, HDeleteReceiptSub)]].
Definition registration_router : Router :=
  [a_route "/v1/user-agents" [(POST, HCreate)];
   a_route "/v1/user-agents/{uaid}" [(GET, HRead); (PUT, HUpdateToken); (DELETE, HDelete)];
   a_route "/v1/user-agents/{uaid}/subscriptions/{channel}" [(PUT, HSubscribe); (DELETE, HUnsubscribe)]].
Definition internal_router : Router :=
  [a_route "/health" [(GET, HHealth)];
   a_route "/ready" [(GET, HReady)];
   a_route "/version" [(GET, HVersion)];
   a_route "/metrics" [(GET, HMetrics)];
   a_route NOTIFY_PATH [(POST, HDeliver)]].

(** ** CORS *)
Inductive AllowOrigin : Type := AnyOrigin | Origins (l : list string).
Record CorsLayer : Type := {
  co_allow_origin : AllowOrigin;
  co_allow_methods : list Method;
  co_allow_headers : list string;
  co_expose_headers : list string;
}.

(** [cors] *)
Definition cors `{ResponseHeaders} (cfg : Cors) : option CorsLayer :=
  match allowed_origins cfg with
  | [] => None
  | origins =>
      let origin := if existsb (fun o => bool_decide (o = "*")) origins then AnyOrigin
                    else Origins (filter (fun o => from_str_ok o = true) origins) in
      Some {| co_allow_origin := origin;
              co_allow_methods := [GET; POST; DELETE];
              co_allow_headers := ["authorization"; "content-type"; "content-encoding"; "link"; "ttl";
                                   "urgency"; "topic"; "prefer"];
              co_expose_headers := ["location"; "link"; "ttl"] |}
  end.

(** ** The operating system *)
Class Os (O : Type) : Type := {
  Sock : Type;
  bind : string -> EST O BoxError Sock;
  read_file : string -> result string Bytes;
}.
(** [rustls]: certificates and a key from PEM, and a server configuration
    with the [ring] provider. *)
Class Rustls : Type := {
  Cert : Type;
  Key : Type;
  ServerConfig : Type;
  certs_from_pem : Bytes -> result BoxError (list Cert);
  key_from_pem : Bytes -> result BoxError Key;
  with_single_cert : list Cert -> Key -> result BoxError ServerConfig;
}.
Record TlsConfig `{Rustls} : Type := { tls_server : ServerConfig; alpn_protocols : list Bytes }.

(** [tls_config_pem] and [tls_config] *)
Definition tls_config_pem `{Rustls} (cert_pem key_pem : Bytes) : result BoxError TlsConfig :=
  certs ← certs_from_pem cert_pem;
  key ← key_from_pem key_pem;
  tls ← with_single_cert certs key;
  Ok {| tls_server := tls; alpn_protocols := [as_bytes "h2"; as_bytes "http/1.1"] |}.
Definition tls_config `{Rustls} (read : string -> result string Bytes) (tls : Tls) : result BoxError TlsConfig :=
  let read path := map_err (fun e => "reading " +:+ path +:+ ": " +:+ e) (read path) in
  cert ← read (cert_file tls);
  key ← read (key_file tls);
  tls_config_pem cert key.

(** ** The server *)
Section server.
Context {O S BW F A : Type} `{OS : Os O} `{PM : Prometheus O} `{RT : Rustls} `{HM : Hmac} `{RH : ResponseHeaders}.
Context (feature_fcm feature_apns : bool).
Abbreviation App := (App BW F A).
Abbreviation Config := (Config F A).
Abbreviation Listener := (Transport.Listener Sock TlsConfig).

(** [struct Server] with [new], [bridge] and [listeners] *)
Record Server : Type := {
  s_cfg : Config;
  s_store : S;
  s_bridges : list (SharedBridge BW);
  s_listeners : option (Sock * option Sock);
}.
Definition new (cfg : Config) (store : S) : Server :=
  {| s_cfg := cfg; s_store := store; s_bridges := []; s_listeners := None |}.
Definition bridge (b : SharedBridge BW) (s : Server) : Server :=
  {| s_cfg := s_cfg s; s_store := s_store s; s_bridges := s_bridges s ++ [b]; s_listeners := s_listeners s |}.
Definition listeners (public : Sock) (internal : option Sock) (s : Server) : Server :=
  {| s_cfg := s_cfg s; s_store := s_store s; s_bridges := s_bridges s; s_listeners := Some (public, internal) |}.

(** [public_router], with the CORS layer of its endpoint routes *)
Definition public_router (app : App) : Router * option CorsLayer :=
  let role := role (app_cfg app) in
  let '(router, layer) :=
    if serves_endpoint role then
      let api := endpoint_router (app_cfg app) in
      (if decide (app_bridges app = ∅) then api else api ++ registration_router,
       cors (Config.cors (app_cfg app)))
    else ([], None) in
  (if connects role then router ++ [a_route "/" [(GET, HUpgrade)]] else router, layer).

(** A server that is running: what [run] has handed to its tasks when it
    starts to wait for the signal. *)
Record Running : Type := {
  rn_app : App;
  rn_store : S;
  rn_public : Listener * (Router * option CorsLayer);
  rn_internal : option (Listener * Router);
  rn_maintenance : list (Duration * Work);
}.

(** [Server::run] up to [shutdown.run] *)
Definition start (s : Server) : EST O BoxError Running :=
  let cfg := s_cfg s in
  _ ← lift_result (validate feature_fcm feature_apns cfg);
  '(public, internal) ←
    (match s_listeners s with
     | Some l => mret l
     | None =>
         p ← bind (public_listen (Config.public cfg));
         i ← (match Config.internal cfg with
              | Some i => sock ← bind (internal_listen i); mret (Some sock)
              | None => mret None
              end);
         mret (p, i)
     end);
  tls ← lift_result (match Config.tls (Config.public cfg) with
                     | Some t => Some <$> tls_config read_file t
                     | None => Ok None
                     end);
  _ ← lift_st prometheus;
  app ← lift_result (new_app cfg (s_bridges s));
  let timeout := Config.handshake_timeout (Config.public cfg) in
  let public := {| tcp := public; Transport.tls := tls;
                   Transport.max_connections := Config.max_connections (Config.public cfg);
                   Transport.handshake_timeout := timeout; name := "public" |} in
  let internal := (fun tcp => ({| tcp := tcp; Transport.tls := None; Transport.max_connections := 1024;
                                  Transport.handshake_timeout := timeout; name := "internal" |},
                               internal_router)) <$> internal in
  mret {| rn_app := app; rn_store := s_store s;
          rn_public := (public, public_router app);
          rn_internal := internal;
          rn_maintenance := if serves_endpoint (role cfg) then Internal.spawn cfg else [] |}.

(** [bridges_from_config]: building a bridge may fail *)
Definition bridges_from_config (fcm_new : F -> result BoxError (SharedBridge BW))
    (apns_new : A -> result BoxError (SharedBridge BW)) (cfg : Config) : result BoxError (list (SharedBridge BW)) :=
  fcm ← (if feature_fcm then
           match fcm (bridges cfg) with Some f => b ← fcm_new f; Ok [b] | None => Ok [] end
         else Ok []);
  apns ← (if feature_apns then
            match apns (bridges cfg) with Some a => b ← apns_new a; Ok [b] | None => Ok [] end
          else Ok []);
  Ok (fcm ++ apns).
End server.
