(* ===== verification/Main.v ===== *)
(** * The process

    [crates/webpush-server/src/main.rs]: the settings are found and loaded,
    the store they ask for is opened, and a server over it is started. What
    [main] does up to the point where the server waits for its signal is a
    computation over the operating system and the Bigtable service. *)
From S2P Require Import Prelude RustStr External StoreTypes Store Hub Bridge Client GcpAuth BigtableWire Bigtable MemoryStore Config App Response Telemetry Server.

(** [config_path] *)
Definition config_path (args : list string) (webpush_config : option string)
  : result BoxError (option string) :=
  match args with
  | [] => Ok webpush_config
  | a :: path :: _ =>
      if decide (a = "--config") then Ok (Some path) else Err "usage: webpush-server [--config <file>]"
  | _ :: [] => Err "usage: webpush-server [--config <file>]"
  end.

Section main.
Context {O BW F A : Type} `{OS : Os O} `{PM : Prometheus O} `{TR : Tracing O} `{RT : Rustls} `{HM : Hmac} `{RH : ResponseHeaders}.
Context `{HT : Http} `{B64 : Base64} `{JS : Json} `{RSA : Rsa} `{HO : Host} `{GS : GcpSerde}
  `{SX : StatusText} `{CB : ClientBuilder} {T : Type} `{RPC : BigtableRpc T}.
Context (feature_bigtable feature_fcm feature_apns : bool).
Context (fcm_new : F -> result BoxError (SharedBridge BW)) (apns_new : A -> result BoxError (SharedBridge BW)).
Abbreviation Config := (Config F A).
Abbreviation W := (O * (Env * BtWorld (T := T)))%type.

(** A store that has been opened. *)
Inductive Opened : Type :=
| OpenMemory (s : State)
| OpenBigtable (s : Bigtable.BigtableStore).

Definition on_os {X} (m : EST O BoxError X) : EST W BoxError X := fun '(o, b) =>
  let '(r, o) := m o in (r, (o, b)).
Definition on_bigtable {X} (m : SM (BtWorld (T := T)) X) : EST W BoxError X := fun '(o, b) =>
  let '(r, b) := m b in (r, (o, b)).

(** The [BigtableConfig] of the settings *)
Definition bigtable_config (cfg : Config) (bt : Config.Bigtable) : BigtableConfig := {|
  Bigtable.endpoint := bt_endpoint bt;
  project := bt_project bt;
  instance := bt_instance bt;
  Bigtable.bt_table := Config.bt_table bt;
  Bigtable.max_ttl := default u32_max (u32_try_from (as_secs (Config.max_ttl (Config.push cfg))));
  credentials_file := bt_credentials_file bt;
  cfg_app_profile := bt_app_profile bt;
|}.

(** The [match] of [main] *)
Definition open_store (cfg : Config) : EST W BoxError Opened :=
  match Config.store cfg with
  | MemoryStoreConfig =>
      match Config.cluster cfg with
      | Some _ => throw "nodes of a cluster cannot share the memory store"
      | None => mret (OpenMemory MemoryStore.new)
      end
  | Config.BigtableStore bt =>
      if negb feature_bigtable then throw "store.bigtable requires a build with --features bigtable"
      else
        let bt' := bigtable_config cfg bt in
        _ ← (if bt_create_table bt then on_bigtable (ensure_table bt') else mret ());
        s ← on_bigtable (connect bt');
        mret (OpenBigtable s)
  end.

(** [run], until the server waits for the signal *)
Definition run {S} (cfg : Config) (store : S) : EST O BoxError (Running (S := S) (BW := BW) (F := F) (A := A)) :=
  bridges ← lift_result (bridges_from_config feature_fcm feature_apns fcm_new apns_new cfg);
  start feature_fcm feature_apns (foldl (fun s b => bridge b s) (Server.new cfg store) bridges).

Inductive Service : Type :=
| OverMemory (r : Running (S := State) (BW := BW) (F := F) (A := A))
| OverBigtable (r : Running (S := Bigtable.BigtableStore) (BW := BW) (F := F) (A := A)).

(** [main]; [extract] reads the settings, [webpush_config] and [rust_log] are
    the variables of these names. *)
Definition main (extract : option string -> result BoxError Config)
    (args : list string) (webpush_config rust_log : option string) : EST W BoxError Service :=
  path ← lift_result (config_path args webpush_config);
  cfg ← lift_result (load feature_fcm feature_apns extract path);
  _ ← on_os (init_logging rust_log (log cfg));
  store ← open_store cfg;
  match store with
  | OpenMemory s => r ← on_os (run cfg s); mret (OverMemory r)
  | OpenBigtable s => r ← on_os (run cfg s); mret (OverBigtable r)
  end.
End main.
