(* ===== verification/ServerTheorems.v ===== *)
(** * What a process that has started serves *)
From S2P Require Import MemoryStore MemoryRuns Demo PlatformDemo BigtableWire BigtableService BigtableDemo BigtableExamples Instances Prelude RustStr External StoreTypes Store Hub Bridge Client GcpAuth BigtableWire Bigtable Transport Config App Notify Response Worlds Telemetry Endpoint Internal Server Main.

Section server.
Context {O S BW F A : Type} `{OS : Os O} `{PM : Prometheus O} `{RT : Rustls} `{HM : Hmac} `{RH : ResponseHeaders}.
Context (ff fa : bool).
Abbreviation Running := (Running (S := S) (BW := BW) (F := F) (A := A)).
Abbreviation Config := (Config F A).

(** Which handlers a router has, and those of the three groups of routes. *)
Definition handlers (r : Router) : list Handler := concat ((fun x => (ro_handlers x).*2) <$> r).
Definition endpoint_handlers : list Handler :=
  [HPush; HReadMessage; HWithdrawMessage; HReceiptStream; HDeleteReceiptSub].
Definition registration_handlers : list Handler :=
  [HCreate; HRead; HUpdateToken; HDelete; HSubscribe; HUnsubscribe].

(** A running server does what its configuration [cfg] says. *)
Record serving (cfg : Config) (r : Running) : Prop := {
  sv_valid : validate ff fa cfg = Ok ();
  sv_cfg : app_cfg (rn_app r) = cfg;
  sv_limit : (0 < Transport.max_connections (rn_public r).1)%N;
  sv_tls : is_Some (Transport.tls (rn_public r).1) <-> is_Some (Config.tls (Config.public cfg));
  sv_public h : h ∈ handlers (rn_public r).2.1 <->
    (serves_endpoint (role cfg) = true /\ h ∈ endpoint_handlers) \/
    (serves_endpoint (role cfg) = true /\ app_bridges (rn_app r) <> ∅ /\ h ∈ registration_handlers) \/
    (connects (role cfg) = true /\ h = HUpgrade);
  sv_maintenance : rn_maintenance r = if serves_endpoint (role cfg) then Internal.spawn cfg else [];
}.

(** A node of a cluster can be reached by the others. *)
Definition reachable_node (cfg : Config) (r : Running) : Prop := forall c, Config.cluster cfg = Some c ->
  app_cluster (rn_app r) = Some (new_cluster_link c) /\
  exists l router, rn_internal r = Some (l, router) /\
    a_route NOTIFY_PATH [(POST, HDeliver)] ∈ router.

Lemma public_handlers (app : App BW F A) h : h ∈ handlers (public_router app).1 <->
  (serves_endpoint (role (app_cfg app)) = true /\ h ∈ endpoint_handlers) \/
  (serves_endpoint (role (app_cfg app)) = true /\ app_bridges app <> ∅ /\ h ∈ registration_handlers) \/
  (connects (role (app_cfg app)) = true /\ h = HUpgrade).
Proof.
  unfold public_router. destruct (role (app_cfg app)); cbn [serves_endpoint connects];
    try case_decide; cbn; rewrite ?app_nil_r; set_unfold; naive_solver.
Qed.

Lemma new_app_Ok (cfg : Config) bs (app : App BW F A) : new_app cfg bs = Ok app ->
  app_cfg app = cfg /\ app_cluster app = new_cluster_link <$> Config.cluster cfg.
Proof. unfold new_app. destruct (by_name bs ∅); [|done]. by intros [= <-]. Qed.

Lemma start_serving (s : Server) o r o' : start ff fa s o = (Ok r, o') ->
  serving (s_cfg s) r /\ rn_store r = s_store s /\ (s_listeners s = None -> reachable_node (s_cfg s) r).
Proof.
  unfold start. intros ([] & o1 & [= Hv <-] & Hr)%est_bind_Ok.
  apply est_bind_Ok in Hr as ([public internal] & o2 & Hsock & Hr).
  apply est_bind_Ok in Hr as (tls & o3 & [= Htls <-] & Hr).
  apply est_bind_Ok in Hr as (h & o3' & _ & Hr).
  apply est_bind_Ok in Hr as (app & o4 & [= Happ <-] & Hr).
  apply new_app_Ok in Happ as [Hcfg Hcl]. injection Hr as <- <-.
  destruct (validate_parts _ _ _ Hv) as [Hmax Hclv]. apply validate_cluster_Ok in Hclv as [_ Hclv].
  split; [split; cbn|split; [done|]]; rewrite ?Hcfg.
  - done.
  - done.
  - done.
  - destruct (Config.tls (Config.public (s_cfg s))); [|by injection Htls as <-].
    destruct (tls_config read_file t); [|done]. injection Htls as <-. split; eauto.
  - pose proof (public_handlers app) as Hp. rewrite Hcfg in Hp. exact Hp.
  - done.
  - intros Hl c Hc. cbn [rn_app]. rewrite Hcl, Hc. split; [done|]. rewrite Hl in Hsock.
    destruct (Hclv c Hc) as (Hint & _). destruct (Config.internal (s_cfg s)) as [i|]; [|done].
    apply est_bind_Ok in Hsock as (p & o5 & _ & Hsock). apply est_bind_Ok in Hsock as (i' & o6 & Hi & [= <- <- <-]).
    apply est_bind_Ok in Hi as (sock & o7 & _ & [= <- <-]). cbn. eexists _, _. split; [reflexivity|].
    apply list_elem_of_In. cbn. auto 10.
Qed.
End server.

Section main.
Context {O BW F A : Type} `{OS : Os O} `{PM : Prometheus O} `{TR : Tracing O} `{RT : Rustls} `{HM : Hmac} `{RH : ResponseHeaders}.
Context `{HT : Http} `{B64 : Base64} `{JS : Json} `{RSA : Rsa} `{HO : Host} `{GS : GcpSerde}
  `{SX : StatusText} `{CB : ClientBuilder} {T : Type} `{RPC : BigtableRpc T}.
Context (fb ff fa : bool).
Context (fcm_new : F -> result BoxError (SharedBridge BW)) (apns_new : A -> result BoxError (SharedBridge BW)).

Lemma with_bridges_added {S} (bs : list (SharedBridge BW)) : forall s : Server (S := S) (F := F) (A := A),
  let s' := foldl (fun s b => bridge b s) s bs in
  s_cfg s' = s_cfg s /\ s_store s' = s_store s /\ s_listeners s' = s_listeners s.
Proof. induction bs as [|b bs IH]; intros s; [done|]. exact (IH (bridge b s)). Qed.

Lemma run_serving {S} (cfg : Config F A) (store : S) (o : O) r o' :
  run ff fa fcm_new apns_new cfg store o = (Ok r, o') ->
  serving ff fa cfg r /\ rn_store r = store /\ reachable_node cfg r.
Proof.
  unfold run. intros (bs & o1 & _ & Hr)%est_bind_Ok.
  destruct (with_bridges_added bs (Server.new cfg store)) as (Hcfg & Hst & Hl).
  apply start_serving in Hr as (Hs & Hst' & Hre). rewrite Hcfg in *. rewrite Hst in Hst'.
  split_and!; [exact Hs|exact Hst'|exact (Hre Hl)].
Qed.

(** C24: A process that reaches the point where it waits for a signal runs with
    valid settings, read from the file its arguments or its environment name,
    and serves exactly the routes of its role. Over the memory store it is
    alone: it has no cluster and plays every role. In a cluster, the route
    that other nodes deliver events to is served on its internal listener. *)
Theorem main_starts extract args env rust_log w svc w' :
  main fb ff fa fcm_new apns_new extract args env rust_log w = (Ok svc, w') ->
  exists path cfg, config_path args env = Ok path /\ extract path = Ok cfg /\
  match svc with
  | OverMemory r => Config.store cfg = MemoryStoreConfig /\ Config.cluster cfg = None /\ role cfg = All /\
      rn_store r = MemoryStore.new /\ serving ff fa cfg r
  | OverBigtable r => (exists bt, Config.store cfg = Config.BigtableStore bt) /\
      serving ff fa cfg r /\ reachable_node cfg r
  end.
Proof.
  unfold main. intros (path & w1 & [= Hpath <-] & Hr)%est_bind_Ok.
  apply est_bind_Ok in Hr as (cfg & w2 & [= Hload <-] & Hr).
  apply result_bind_Ok in Hload as (cfg' & Hext & Hload). apply result_bind_Ok in Hload as ([] & Hval & [= ->]).
  apply est_bind_Ok in Hr as (u & w3 & _ & Hr). apply est_bind_Ok in Hr as (st & w4 & Hopen & Hr).
  exists path, cfg. split; [done|]. split; [done|]. unfold open_store in Hopen. destruct st as [s|s].
  - apply est_bind_Ok in Hr as (r & w5 & Hrun & [= <- _]). destruct w4 as [o b]. unfold on_os in Hrun.
    destruct (run _ _ _ _ cfg s o) as [r0 o'] eqn:Hr0. injection Hrun as -> _.
    apply run_serving in Hr0 as (Hs & Hst & _).
    destruct (Config.store cfg) as [|bt].
    2:{ destruct fb; cbn [negb] in Hopen; [|done]. apply est_bind_Ok in Hopen as (? & ? & _ & Hopen).
        by apply est_bind_Ok in Hopen as (? & ? & _ & ?). }
    destruct (Config.cluster cfg) eqn:Hcl; [done|]. injection Hopen as <- _.
    destruct (validate_parts _ _ _ Hval) as [_ [Hrole _]%validate_cluster_Ok]. split_and!; auto.
  - apply est_bind_Ok in Hr as (r & w5 & Hrun & [= <- _]). destruct w4 as [o b]. unfold on_os in Hrun.
    destruct (run _ _ _ _ cfg s o) as [r0 o'] eqn:Hr0. injection Hrun as -> _.
    apply run_serving in Hr0 as (Hs & Hst & Hre). destruct (Config.store cfg) as [|bt].
    + by destruct (Config.cluster cfg).
    + split_and!; [by eexists|exact Hs|exact Hre].
Qed.
End main.

(** ** Example: a single node over the memory store *)
#[export] Instance toy_os : Os (nat * option unit) := {|
  Sock := string;
  bind := fun addr o => (Ok addr, (S o.1, o.2));
  read_file := fun path => Err "no such file";
|}.
(** A recorder that shows nothing; the state counts the sockets bound and
    what was installed. *)
#[export] Instance toy_prometheus : Prometheus (nat * option unit) := {|
  Recorder := unit;
  PrometheusHandle := unit;
  build_recorder := fun o => ((), o);
  handle := fun r => r;
  set_global_recorder := fun _ o => (true, o);
  run_upkeep := fun _ o => ((), o);
  handle_render := fun _ _ => "";
  once := snd;
  set_once := fun h o => (o.1, Some h);
|}.
#[export] Instance toy_tracing : Tracing (nat * option unit) := {|
  EnvFilter := string;
  filter_try_new := fun s => Ok s;
  try_init := fun _ _ o => (Ok (), o);
|}.
#[export] Instance toy_rustls : Rustls := {|
  Cert := unit;
  Key := unit;
  ServerConfig := unit;
  certs_from_pem := fun _ => Ok [];
  key_from_pem := fun _ => Ok ();
  with_single_cert := fun _ _ => Ok ();
|}.
Abbreviation demo_main := (main (OS := toy_os) (BW := unit) false false false (fun _ => Err "no platform") (fun _ => Err "no platform")
  (fun _ => Ok (demo_config None)) ["--config"; "webpush.toml"] None None
  ((0, None), (demo_env 1000, empty_world.2))).
Lemma demo_main_ok : match demo_main.1 with Ok (OverMemory _) => true | _ => false end = true.
Proof. vm_compute. reflexivity. Qed.

Lemma main_starts_witness : exists r w',
  demo_main = (Ok (OverMemory r), w') /\ HPush ∈ handlers (rn_public r).2.1 /\ HUpgrade ∈ handlers (rn_public r).2.1.
Proof.
  pose proof demo_main_ok as Hok. destruct demo_main as [[[r|r]|e] w'] eqn:Hr; try discriminate Hok.
  destruct (main_starts _ _ _ _ _ _ _ _ _ _ _ _ Hr) as (path & cfg & _ & _ & _ & _ & Hrole & _ & Hs).
  exists r, w'. split; [done|]. rewrite !(sv_public _ _ _ _ Hs), Hrole. split; [left|right; right]; [|done].
  split; [done|]. apply list_elem_of_In. by left.
Defined.

(** The limits on the lengths of secrets count octets: sixteen characters of
    two octets each are accepted as a key of at least 32 characters. *)
Definition accented : string := "éééééééééééééééé".
Lemma octets_counted :
  utf8_valid accented = true /\ length (filter (fun b => b = xc3) (as_bytes accented)) = 16 /\
  validate (A := unit) (F := unit) false false {|
    Config.role := All; Config.origin := "https://push.example"; Config.public := default_public; Config.internal := None; Config.cluster := None;
    Config.push := default_push; Config.websocket := default_websocket; Config.receipts := default_receipts; Config.user_agents := default_user_agents;
    Config.cors := {| Config.allowed_origins := [] |}; Config.registration := {| Config.secret_keys := [accented] |};
    Config.bridges := {| Config.fcm := None; Config.apns := None |}; Config.store := MemoryStoreConfig; Config.log := default_log; Config.shutdown := default_shutdown
  |} = Ok ().
Proof. vm_compute. done. Qed.
