(* ===== verification/TelemetryTheorems.v ===== *)
(** * What is logged and measured

    Requests are observed without being changed and without their path, and
    the gauge of a listener shows its open connections. *)
From S2P Require Import Instances Demo Prelude RustStr External StoreTypes Store Hub Bridge Transport Config App Response Endpoint Server Telemetry.

(** ** Requests *)
Section observe.
Context {W X : Type} (instant : W -> Duration).
Implicit Types (req : Request X) (next : Request X -> ST W Response).

(** The time a handler takes, and the label set of a request's counter. *)
Definition took next req (w : W) : Duration := sat_sub (instant (next req w).2) (instant w).
Definition requests_key (method route : string) (status : N) : Key :=
  {| k_name := REQUESTS; k_labels := [("method", method); ("route", route); ("status", to_string status)] |}.

(** Observing a request changes neither its response nor what its handler
    does, and counts it once, under its own labels only. What is emitted
    depends on the method, the route template, the status and the time taken:
    two requests that differ in their path, headers or body alone leave the
    same log line and the same metrics. *)
Theorem observe_hides_path req req' next next' w w' emitted :
  rq_method req = rq_method req' -> rq_matched req = rq_matched req' ->
  rs_status (next req w).1 = rs_status (next' req' w').1 -> took next req w = took next' req' w' ->
  let '(resp, (w1, emitted1)) := observe instant req next (w, emitted) in
  (resp, w1) = next req w /\
  emitted1 = (observe instant req' next' (w', emitted)).2.2 /\
  forall k, counter_value k emitted1 = (counter_value k emitted +
      if decide (k = requests_key (rq_method req) (route_label req) (rs_status resp)) then 1 else 0)%N /\
    gauge_value k emitted1 = gauge_value k emitted.
Proof.
  unfold took, observe, route_label. destruct (next req w) as [resp w1] eqn:Hn, (next' req' w') as [resp' w1'].
  cbn [fst snd]. intros Hm Hr Hs Ht. split; [done|]. split.
  - by rewrite Hm, Hr, Hs, Ht.
  - intros k. rewrite counter_value_app, gauge_value_app. unfold counter_value, gauge_value, requests_key, route_label. cbn.
    split; [|lia]. case_decide; lia.
Qed.

(** With axum's promise that a matched path is one of the router's patterns,
    a route label names a template and never a resource. *)
Lemma route_label_template (r : Router) req :
  (forall p, rq_matched req = Some p -> p ∈ ro_pattern <$> r) ->
  route_label req ∈ "unmatched" :: (ro_pattern <$> r).
Proof. unfold route_label. destruct (rq_matched req) as [p|]; cbn; intros H; [right; by apply H|left]. Qed.
End observe.

(** ** Connections *)
Section connections.
Context {Sock TlsConfig : Type}.
Implicit Types (l : Listener Sock TlsConfig) (s : Serve).

(** What the task of a connection emits: its [_open] is made when it starts
    and dropped when it ends. *)
Definition conn_emissions l (w : Wake) s : list Emission :=
  let '(open_, made) := new_gauge CONNECTIONS (name l) in
  match w with
  | AcceptOk => made
  | HandshakeFailed _ | ConnDone _ => drop_gauge open_
  | _ => []
  end.
Fixpoint serve_emitting l s (events : list (bool * Wake)) : option (Serve * list Emission) :=
  match events with
  | [] => Some (s, [])
  | (stopping, w) :: events =>
      s' ← Transport.step l stopping w s;
      '(s'', emitted) ← serve_emitting l s' events;
      Some (s'', conn_emissions l w s ++ emitted)
  end.

Definition connections_key l : Key := gauge (new_gauge CONNECTIONS (name l)).1.

Lemma serve_emitting_serve l events : forall s s' em,
  serve_emitting l s events = Some (s', em) -> Transport.serve l s events = Some s'.
Proof.
  induction events as [|[stopping w] events IH]; cbn; intros s s' em; [by intros [= -> _]|].
  intros (s1 & -> & ([s2 em2] & H & [= <- _])%bind_Some)%bind_Some. cbn. by eapply IH.
Qed.

(** One step moves the gauge by the change in the number of connections. *)
Lemma step_moves_gauge l stopping w s s' : serve_inv l None s -> Transport.step l stopping w s = Some s' ->
  (gauge_value (connections_key l) (conn_emissions l w s) + Z.of_nat (size (sv_conns s)) = Z.of_nat (size (sv_conns s')))%Z.
Proof.
  intros Hs. assert (Hup : gauge_value (connections_key l) (conn_emissions l AcceptOk s) = 1%Z)
    by (unfold gauge_value, connections_key; cbn; by rewrite decide_True).
  assert (Hdown : forall id, gauge_value (connections_key l) (conn_emissions l (HandshakeFailed id) s) = (-1)%Z /\
      gauge_value (connections_key l) (conn_emissions l (ConnDone id) s) = (-1)%Z)
    by (intros id; unfold gauge_value, connections_key; cbn; by rewrite decide_True).
  assert (Hdrop : forall id s0, sv_conns (drop_permit id s0) = sv_conns s0)
    by (intros id s0; unfold drop_permit; by destruct (sv_refs s0 !! id) as [[|[|n]]|]).
  assert (Hnew : sv_conns s !! sv_next s = None).
  { destruct (sv_conns s !! sv_next s) eqn:E; [|done]. apply (si_conns _ _ _ Hs) in E. lia. }
  destruct w; cbn [Transport.step]; unfold loop_step;
    try (destruct (sv_loop s); try discriminate; try (destruct stopping; [|discriminate]);
         try (destruct (sv_free s); [discriminate|]); intros [= <-]; first
           [ done
           | rewrite Hup; cbn; rewrite map_size_insert_None by done; lia ]).
  all: intros (x & Hx & H)%bind_Some.
  all: try (injection H as <-; rewrite Hdrop; done).
  all: destruct x; cbn in H; try discriminate; try (destruct stopping; [|discriminate]); injection H as <-;
    rewrite ?Hdrop; cbn [set_conns sv_conns upgrade clone_permit].
  all: try (rewrite map_size_insert_Some by eauto; done); try done.
  all: rewrite ?(proj1 (Hdown _)), ?(proj2 (Hdown _)), (size_delete_S _ _ _ Hx); lia.
Qed.

(** C36: However the accepts, handshakes, upgrades, ends and shutdown of a listener
    interleave, its gauge shows the number of its open connections, which is
    at most the configured limit, and the gauges of other listeners do not
    move. *)
Theorem connections_gauge l events s emitted :
  serve_emitting l (serve_new l) events = Some (s, emitted) ->
  gauge_value (connections_key l) emitted = Z.of_nat (size (sv_conns s)) /\
  (gauge_value (connections_key l) emitted <= Z.of_N (Transport.max_connections l))%Z /\
  forall l' : Listener Sock TlsConfig, name l' <> name l -> gauge_value (connections_key l') emitted = 0%Z.
Proof.
  assert (Hrun : forall s0, serve_inv l None s0 -> serve_emitting l s0 events = Some (s, emitted) ->
    serve_inv l None s /\
    (gauge_value (connections_key l) emitted + Z.of_nat (size (sv_conns s0)) = Z.of_nat (size (sv_conns s)))%Z /\
    forall l' : Listener Sock TlsConfig, name l' <> name l -> gauge_value (connections_key l') emitted = 0%Z).
  { revert emitted. induction events as [|[stopping w] events IH]; intros em s0 Hs0; cbn [serve_emitting].
    { intros [= <- <-]. split; [done|]. split; [by cbn|done]. }
    intros (s1 & H1 & ([s2 em2] & H & [= -> <-])%bind_Some)%bind_Some.
    destruct (IH _ s1 ltac:(by eapply permit_step_inv) H) as (Hs & Hg & Ho). split; [done|].
    pose proof (step_moves_gauge _ _ _ _ _ Hs0 H1) as Hm. split; [rewrite gauge_value_app; lia|].
    intros l' Hl'. rewrite gauge_value_app, Ho by done.
    assert (Hk : connections_key l' <> connections_key l).
    { unfold connections_key, new_gauge. cbn. repeat case_bool_decide; congruence. }
    destruct w; cbn; unfold gauge_value; cbn; try done; by rewrite decide_False by exact Hk. }
  intros Hrun'. destruct (Hrun _ (serve_new_inv l) Hrun') as (Hs & Hg & Ho). cbn [serve_new sv_conns] in Hg. rewrite map_size_empty in Hg.
  split; [lia|]. split; [|exact Ho].
  enough (size (sv_conns s) <= size (sv_refs s)) by (pose proof (si_count _ _ _ Hs); lia).
  rewrite <- !size_dom. apply subseteq_size. intros id Hid.
  apply elem_of_dom in Hid as [ph Hid]. apply elem_of_dom. rewrite (si_refs _ _ _ Hs id). unfold holders. rewrite Hid.
  rewrite of_count_pos; [eauto|cbn; lia].
Qed.
End connections.

Lemma connections_gauge_witness : exists s emitted,
  serve_emitting one_listener (serve_new one_listener) (take 6 one_session) = Some (s, emitted) /\
  gauge_value (connections_key one_listener) emitted = 1%Z.
Proof.
  eexists _, _. split; [vm_compute; reflexivity|].
  exact (proj1 (connections_gauge one_listener (take 6 one_session) _ _ eq_refl)).
Defined.

(** Two reads of different messages leave the same traces. *)
Definition read_of (path : string) : Request string :=
  {| rq_method := "GET"; rq_matched := Some "/message/{id}"; rq_rest := path |}.
Definition read_next (req : Request string) : ST N Response := fun now =>
  ({| rs_status := 200; rs_headers := []; rs_body := as_bytes (rq_rest req) |}, (now + 1000000)%N).
Lemma observe_hides_path_witness :
  (observe id (read_of "/message/a") read_next (0%N, [])).2.2 =
  (observe id (read_of "/message/b") read_next (7%N, [])).2.2.
Proof.
  exact (proj1 (proj2 (observe_hides_path id (read_of "/message/a") (read_of "/message/b")
    read_next read_next 0%N 7%N [] eq_refl eq_refl eq_refl eq_refl))).
Defined.

