(* ===== verification/Calls.v ===== *)
(** * The store calls of a handler, whatever else goes on

    Handlers run concurrently over one store, so between two calls of one
    handler the store may change in any way. [Calls] is a store whose every
    operation is answered by an oracle and written to a log: running a handler
    over it gives the calls it makes in an arbitrary environment. *)
From S2P Require Import Prelude RustStr External StoreTypes Store Hub Bridge Config App Notify.

(** ** Calls *)
Inductive Call : Type -> Type :=
| CCreateUserAgent (ua : UserAgent) : Call unit
| CUserAgent (u : string) : Call (option UserAgent)
| CTouchUserAgent (u : string) (now : N) : Call bool
| CUpdateBridgeToken (u token : string) : Call bool
| CDeleteUserAgent (u : string) : Call (list (N * Receipt))
| CExpireUserAgents (cutoff : N) : Call (N * list (N * Receipt))
| CSubscriptions (u : string) : Call (list Subscription)
| CChannel (u c : string) : Call (option Subscription)
| CCreateSubscription (u c : string) (vapid : option Bytes) : Call Subscription
| CSubscriptionByPush (p : string) : Call (option Subscription)
| CDeleteSubscription (u c : string) : Call (list (N * Receipt))
| CInsertMessage (m : Message) : Call unit
| CPending (u : string) (now limit : N) : Call (list Message)
| CMessage (id : string) : Call (option Message)
| CDeleteMessage (id : string) (owner : option (string * string)) : Call (option Message)
| CCreateReceiptSub : Call string
| CReceiptSubExists (r : string) : Call bool
| CDeleteReceiptSub (r : string) : Call bool
| CEnqueueReceipt (r : Receipt) : Call (option N)
| CQueuedReceipts (r : string) : Call (list (N * Receipt))
| CDeleteReceipt (r : string) (sq : N) : Call unit
| CReap (now : N) : Call (list (N * Receipt))
| CSetRoute (to : Recipient) (node : string) : Call (option string)
| CRoute (to : Recipient) : Call (option string)
| CClearRoute (to : Recipient) (node : string) : Call bool.

(** A call and its answer. *)
Inductive Entry : Type :=
| Called {X : Type} (c : Call X) (r : result BoxError X).

(** A call made on an actual store. *)
Definition perform {S} `{Store S} {X} (c : Call X) : SM S X :=
  match c in Call X return SM S X with
  | CCreateUserAgent ua => create_user_agent ua
  | CUserAgent u => user_agent u
  | CTouchUserAgent u now => touch_user_agent u now
  | CUpdateBridgeToken u token => update_bridge_token u token
  | CDeleteUserAgent u => delete_user_agent u
  | CExpireUserAgents cutoff => expire_user_agents cutoff
  | CSubscriptions u => subscriptions u
  | CChannel u c => channel u c
  | CCreateSubscription u c vapid => create_subscription u c vapid
  | CSubscriptionByPush p => subscription_by_push p
  | CDeleteSubscription u c => delete_subscription u c
  | CInsertMessage m => insert_message m
  | CPending u now limit => pending u now limit
  | CMessage id => message id
  | CDeleteMessage id owner => delete_message id owner
  | CCreateReceiptSub => create_receipt_sub
  | CReceiptSubExists r => receipt_sub_exists r
  | CDeleteReceiptSub r => delete_receipt_sub r
  | CEnqueueReceipt r => enqueue_receipt r
  | CQueuedReceipts r => queued_receipts r
  | CDeleteReceipt r sq => delete_receipt r sq
  | CReap now => reap now
  | CSetRoute to node => set_route to node
  | CRoute to => route to
  | CClearRoute to node => clear_route to node
  end.

(** ** A store that is asked

    The answer may depend on everything called before, and the environment
    moves on as the oracle says. *)
Record Asked : Type := {
  as_log : list Entry;
  as_answer : forall X, Call X -> list Entry -> result BoxError X;
  as_env : list Entry -> Env -> Env;
}.
Definition ask {X} (c : Call X) : SM Asked X := fun '(e, t) =>
  let r := as_answer t X c (as_log t) in
  let log := as_log t ++ [Called c r] in
  (r, (as_env t log e, {| as_log := log; as_answer := as_answer t; as_env := as_env t |})).

#[export] Instance asked_store : Store Asked := {|
  create_user_agent ua := ask (CCreateUserAgent ua);
  user_agent u := ask (CUserAgent u);
  touch_user_agent u now := ask (CTouchUserAgent u now);
  update_bridge_token u token := ask (CUpdateBridgeToken u token);
  delete_user_agent u := ask (CDeleteUserAgent u);
  expire_user_agents cutoff := ask (CExpireUserAgents cutoff);
  subscriptions u := ask (CSubscriptions u);
  channel u c := ask (CChannel u c);
  create_subscription u c vapid := ask (CCreateSubscription u c vapid);
  subscription_by_push p := ask (CSubscriptionByPush p);
  delete_subscription u c := ask (CDeleteSubscription u c);
  insert_message m := ask (CInsertMessage m);
  pending u now limit := ask (CPending u now limit);
  message id := ask (CMessage id);
  delete_message id owner := ask (CDeleteMessage id owner);
  create_receipt_sub := ask CCreateReceiptSub;
  receipt_sub_exists r := ask (CReceiptSubExists r);
  delete_receipt_sub r := ask (CDeleteReceiptSub r);
  enqueue_receipt r := ask (CEnqueueReceipt r);
  queued_receipts r := ask (CQueuedReceipts r);
  delete_receipt r sq := ask (CDeleteReceipt r sq);
  reap now := ask (CReap now);
  set_route to node := ask (CSetRoute to node);
  route to := ask (CRoute to);
  clear_route to node := ask (CClearRoute to node);
|}.

(** ** Logs of a computation

    [makes m P]: the calls that [m] makes, in any environment, satisfy [P]. *)
Class HasLog (W : Type) : Type := log_of : W -> list Entry.
#[export] Instance log_asked : HasLog (Env * Asked) := fun '(_, t) => as_log t.
#[export] Instance log_world {BW} `{Mpsc} : HasLog (World Asked BW) := fun w => as_log (w_store w).
#[export] Instance log_with {W X} `{HasLog W} : HasLog (W * X) | 10 := fun '(w, _) => log_of w.

Definition makes {W X} `{HasLog W} (P : list Entry -> Prop) (m : ST W X) : Prop :=
  forall w, exists l, log_of (m w).2 = log_of w ++ l /\ P l.

(** Properties of logs that hold of the empty log and of concatenations. *)
Class LogProp (P : list Entry -> Prop) : Prop := {
  lp_nil : P [];
  lp_app l l' : P l -> P l' -> P (l ++ l');
}.

Section makes.
Context {W : Type} `{HasLog W} (P : list Entry -> Prop) `{!LogProp P}.

Lemma makes_silent {X} (m : ST W X) : (forall w, log_of (m w).2 = log_of w) -> makes P m.
Proof. intros Hm w. exists []. rewrite app_nil_r. split; [apply Hm|apply lp_nil]. Qed.

Lemma makes_ret {X} (x : X) : makes P (mret x : ST W X).
Proof. by apply makes_silent. Qed.
Lemma makes_bind {X Y} (m : ST W X) (f : X -> ST W Y) :
  makes P m -> (forall x, makes P (f x)) -> makes P (m ≫= f : ST W Y).
Proof.
  intros Hm Hf w. destruct (Hm w) as (l & Hl & Pl). unfold mbind, st_bind.
  destruct (m w) as [x w1] eqn:E. cbn in Hl. destruct (Hf x w1) as (l' & Hl' & Pl').
  exists (l ++ l'). rewrite Hl', Hl, app_assoc. split; [done|by apply lp_app].
Qed.

Lemma makes_est_ret {E X} (x : X) : makes P (mret x : EST W E X).
Proof. by apply makes_silent. Qed.
Lemma makes_throw {E X} (e : E) : makes P (throw e : EST W E X).
Proof. by apply makes_silent. Qed.
Lemma makes_lift_result {E X} (r : result E X) : makes P (lift_result r : EST W E X).
Proof. by apply makes_silent. Qed.
Lemma makes_lift_st {E X} (m : ST W X) : makes P m -> makes P (lift_st m : EST W E X).
Proof.
  intros Hm w. destruct (Hm w) as (l & Hl & Pl). exists l. unfold lift_st. by destruct (m w).
Qed.
Lemma makes_est_bind {E X Y} (m : EST W E X) (f : X -> EST W E Y) :
  makes P m -> (forall x, makes P (f x)) -> makes P (m ≫= f : EST W E Y).
Proof.
  intros Hm Hf w. destruct (Hm w) as (l & Hl & Pl). unfold mbind, est_bind.
  destruct (m w) as [[x|e] w1] eqn:E0; cbn in Hl; [|by exists l].
  destruct (Hf x w1) as (l' & Hl' & Pl'). exists (l ++ l'). rewrite Hl', Hl, app_assoc.
  split; [done|by apply lp_app].
Qed.
Lemma makes_attempt {E X} (m : EST W E X) : makes P m -> makes (X := result E X) P m.
Proof. done. Qed.
End makes.
