(* ===== verification/System.v ===== *)
(** * Many tasks over one store

    What each handler and background task may call, and the runs of any number
    of them whose calls interleave. A store call is one step: a lock or a
    conditional write makes it so. *)
From S2P Require Import Prelude RustStr External StoreTypes Store Hub Bridge Config App Notify Headers Subscription Session Ece Vapid Response Endpoint Registration Receipts Internal Calls.

(** ** What a task may call *)
Section serves.
Context {BW F A : Type} `{MP : Mpsc} `{B64 : Base64} `{JS : Json} `{PK : P256} `{HT : Http} `{HD : HttpDate}
  `{RH : ResponseHeaders} `{HM : Hmac} `{AS : ApiSerde} `{CS : ClientSerde}.
Abbreviation World := (World Asked BW).
Abbreviation App := (App BW F A).

(** [l] is what [m] calls, from some world in some environment. *)
Definition logged {W X} `{HasLog W} (m : ST W X) (l : list Entry) : Prop :=
  exists w, log_of (m w).2 = log_of w ++ l.

Lemma logged_run {W X} `{HasLog W} (m : ST W X) w : log_of w = [] -> logged m (log_of (m w).2).
Proof. intros Hw. exists w. by rewrite Hw. Qed.

(** The calls of a session, a request, a stream, or a background task.
    [PR] holds of the receipts that reach a stream through the hub, [PT] of
    the tasks that listeners leave behind. *)
Definition step_holds (PR : Receipt -> Prop) (st : PumpStep) : Prop :=
  match st with PEvent (Some (EvReceipt _ r)) => PR r | _ => True end.
Inductive serves (PR : Receipt -> Prop) (PT : Task -> Prop) : list Entry -> Prop :=
| on_session (app : App) socket first steps l : logged (Session.run app socket first steps : ST World _) l -> serves PR PT l
| on_push (app : App) id headers body l : logged (push app id headers body) l -> serves PR PT l
| on_read_message (app : App) id l : logged (read_message app id) l -> serves PR PT l
| on_withdraw_message (app : App) id l : logged (withdraw_message app id : ST World _) l -> serves PR PT l
| on_delete_receipt_sub (app : App) id l : logged (Endpoint.delete_receipt_sub app id) l -> serves PR PT l
| on_stream (app : App) id headers l : logged (stream app id headers) l -> serves PR PT l
| on_receipts (app : App) listener backlog steps l :
    Forall (fun nr => PR nr.2) backlog -> Forall (step_holds PR) steps -> logged (Receipts.run app listener backlog steps) l -> serves PR PT l
| on_create (app : App) body l : logged (Registration.create app body) l -> serves PR PT l
| on_read (app : App) u headers l : logged (Registration.read app u headers) l -> serves PR PT l
| on_update_token (app : App) u headers body l : logged (update_token app u headers body : ST World _) l -> serves PR PT l
| on_delete (app : App) u headers l : logged (Registration.delete app u headers) l -> serves PR PT l
| on_subscribe (app : App) u c headers body l : logged (subscribe app u c headers body) l -> serves PR PT l
| on_unsubscribe (app : App) u c headers l : logged (unsubscribe app u c headers) l -> serves PR PT l
| on_ready draining l : logged (ready draining : ST World _) l -> serves PR PT l
| on_deliver (app : App) headers envelope l : logged (deliver app headers envelope) l -> serves PR PT l
| on_work (app : App) k l : logged (work app k) l -> serves PR PT l
| on_task (app : App) t l : PT t -> logged (run_task app t) l -> serves PR PT l.

End serves.

(** ** Runs *)

(** The log of one task. *)
Definition of_task (t : nat) (log : list (nat * Entry)) : list Entry := (filter (fun te => te.1 = t) log).*2.

Lemma of_task_cons t en log t' : of_task t' ((t, en) :: log) = if decide (t = t') then en :: of_task t' log else of_task t' log.
Proof. unfold of_task. rewrite filter_cons. cbn. by case_decide. Qed.


(** By the law of its operation, what a successful call did. *)
Ltac store_law laws Hp :=
  first [ apply (law_create_user_agent _ _ laws) in Hp | apply (law_user_agent _ _ laws) in Hp
        | apply (law_touch_user_agent _ _ laws) in Hp | apply (law_update_bridge_token _ _ laws) in Hp
        | apply (law_delete_user_agent _ _ laws) in Hp | apply (law_expire_user_agents _ _ laws) in Hp
        | apply (law_subscriptions _ _ laws) in Hp | apply (law_channel _ _ laws) in Hp
        | apply (law_create_subscription _ _ laws) in Hp | apply (law_subscription_by_push _ _ laws) in Hp
        | apply (law_delete_subscription _ _ laws) in Hp | apply (law_insert_message _ _ laws) in Hp
        | apply (law_pending _ _ laws) in Hp | apply (law_message _ _ laws) in Hp
        | apply (law_delete_message _ _ laws) in Hp | apply (law_create_receipt_sub _ _ laws) in Hp
        | apply (law_receipt_sub_exists _ _ laws) in Hp | apply (law_delete_receipt_sub _ _ laws) in Hp
        | apply (law_enqueue_receipt _ _ laws) in Hp | apply (law_queued_receipts _ _ laws) in Hp
        | apply (law_delete_receipt _ _ laws) in Hp | apply (law_reap _ _ laws) in Hp
        | apply (law_set_route _ _ laws) in Hp | apply (law_route _ _ laws) in Hp
        | apply (law_clear_route _ _ laws) in Hp ]; [|done..].

Section system.
Context {S : Type} `{St : Store S} `{B64 : Base64}.
Context (view : S -> AStore).

(** What the ids and numbers drawn by a call are relied on for. *)
Definition fresh_for (e : Env) (a : AStore) {X} (c : Call X) : Prop :=
  match c with
  | CCreateSubscription u ch _ => a_subs a !! (u, ch) = None /\
      forall k s, a_subs a !! k = Some s -> sub_push s <> (new_id e).1
  | CInsertMessage m => a_msgs a !! m_id m = None
  | CCreateReceiptSub => a_queues a !! (new_id e).1 = None
  | CDeleteUserAgent _ | CExpireUserAgents _ | CDeleteSubscription _ _ | CReap _ => room e a
  | CEnqueueReceipt _ => seq_room 1 e
  | _ => True
  end.

(** What the contract allows a call to do and to answer. *)
Definition a_step {X} (c : Call X) (e : Env) (a : AStore) : X -> Env -> AStore -> Prop :=
  match c in Call X return X -> Env -> AStore -> Prop with
  | CCreateUserAgent ua => fun _ e' a' =>
      quiet e e' /\ a' = set_a_uas (<[ ua_uaid ua := ua ]> (a_uas a)) a
  | CUserAgent u => fun r e' a' => quiet e e' /\ a' = a /\ r = a_uas a !! u
  | CTouchUserAgent u now => fun r e' a' => quiet e e' /\ match a_uas a !! u with
      | None => r = false /\ a' = a
      | Some ua => r = true /\ exists seen,
          (seen = now \/ seen = ua_last_seen ua /\ now <= seen)%N /\
          a' = set_a_uas (<[ u := {| ua_uaid := ua_uaid ua; ua_bridge := ua_bridge ua;
                                     ua_last_seen := seen |} ]> (a_uas a)) a
      end
  | CUpdateBridgeToken u t => fun r e' a' => quiet e e' /\ match a_uas a !! u with
      | Some {| ua_uaid := i; ua_bridge := Some b; ua_last_seen := seen |} =>
          let b := {| ba_bridge := ba_bridge b; ba_app_id := ba_app_id b; ba_token := t |} in
          r = true /\
          a' = set_a_uas (<[ u := {| ua_uaid := i; ua_bridge := Some b;
                                     ua_last_seen := seen |} ]> (a_uas a)) a
      | _ => r = false /\ a' = a
      end
  | CDeleteUserAgent u => fun rs e' a' => removes (of_user_agent a u) e a rs e' a' /\
      a_uas a' = base.delete u (a_uas a) /\ a_subs a' = filter (fun ks => ks.1.1 <> u) (a_subs a)
  | CExpireUserAgents cutoff => fun r e' a' =>
      removes (fun m => stale a cutoff (m_uaid m) && of_user_agent a (m_uaid m) m) e a r.2 e' a' /\
      a_uas a' = filter (fun ku => stale a cutoff ku.1 = false) (a_uas a) /\
      a_subs a' = filter (fun ks => stale a cutoff ks.1.1 = false) (a_subs a) /\
      r.1 = N.of_nat (size (filter (fun ku => stale a cutoff ku.1 = true) (a_uas a)))
  | CSubscriptions u => fun r e' a' => quiet e e' /\ a' = a /\
      r ≡ₚ filter (fun s => sub_uaid s = u) (map_to_list (a_subs a)).*2
  | CChannel u c => fun r e' a' => quiet e e' /\ a' = a /\ r = a_subs a !! (u, c)
  | CCreateSubscription u c v => fun sub e' a' => quiet e e' /\
      sub = {| sub_uaid := u; sub_channel_id := c; sub_push := (new_id e).1; sub_vapid := v |} /\
      a' = set_a_subs (<[ (u, c) := sub ]> (a_subs a)) a
  | CSubscriptionByPush p => fun r e' a' => quiet e e' /\ a' = a /\
      forall sub, r = Some sub <-> sub_push sub = p /\
        a_subs a !! (sub_uaid sub, sub_channel_id sub) = Some sub
  | CDeleteSubscription u c => fun rs e' a' => match a_subs a !! (u, c) with
      | None => rs = [] /\ a' = a /\ quiet e e'
      | Some _ => removes (fun m => bool_decide (m_owner m = (u, c))) e a rs e' a' /\
          a_uas a' = a_uas a /\ a_subs a' = base.delete (u, c) (a_subs a)
      end
  | CInsertMessage m => fun _ e' a' =>
      quiet e e' /\ a' = set_a_msgs (a_insert_message m (a_msgs a)) a
  | CPending u now limit => fun ms e' a' => quiet e e' /\ a' = a /\ exists all,
      StronglySorted msg_le all /\
      all ≡ₚ filter (fun m => m_uaid m = u /\ (now < m_expiry m)%N) (map_to_list (a_msgs a)).*2 /\
      ms = truncate limit all
  | CMessage id => fun r e' a' => quiet e e' /\ a' = a /\ r = a_msgs a !! id
  | CDeleteMessage id owner => fun r e' a' => quiet e e' /\
      a' = match m ← a_msgs a !! id; if owned_by owner m then Some m else None with
           | Some _ => set_a_msgs (base.delete id (a_msgs a)) a
           | None => a
           end /\
      r = (m ← a_msgs a !! id; if owned_by owner m then Some m else None)
  | CCreateReceiptSub => fun r e' a' =>
      quiet e e' /\ r = (new_id e).1 /\ a' = set_a_queues (<[ r := ∅ ]> (a_queues a)) a
  | CReceiptSubExists r => fun b e' a' => quiet e e' /\ a' = a /\ b = bool_decide (is_Some (a_queues a !! r))
  | CDeleteReceiptSub r => fun b e' a' => quiet e e' /\
      a' = set_a_queues (base.delete r (a_queues a)) a /\ b = bool_decide (is_Some (a_queues a !! r))
  | CEnqueueReceipt rc => fun o e' a' => match a_queues a !! r_rsub rc with
      | None => o = None /\ a' = a /\ quiet e e'
      | Some _ => exists seq, o = Some seq /\ numbered e [(seq, rc)] e' /\
          a' = set_a_queues (enqueue (a_queues a) (seq, rc)) a
      end
  | CQueuedReceipts r => fun rs e' a' => quiet e e' /\ a' = a /\ StronglySorted N.lt rs.*1 /\
      rs ≡ₚ map_to_list (default ∅ (a_queues a !! r))
  | CDeleteReceipt r seq => fun _ e' a' => quiet e e' /\ a' = a_delete_receipt r seq a
  | CReap now => fun rs e' a' => exists P,
      (forall m, P m = true -> (m_expiry m <= now)%N) /\
      (forall m, (m_expiry m <= now)%N -> m_rsub m <> None -> P m = true) /\
      removes P e a rs e' a' /\ a_uas a' = a_uas a /\ a_subs a' = a_subs a
  | CSetRoute to node => fun r e' a' => quiet e e' /\
      a' = set_a_routes (<[ to := node ]> (a_routes a)) a /\ r = a_routes a !! to
  | CRoute to => fun r e' a' => quiet e e' /\ a' = a /\ r = a_routes a !! to
  | CClearRoute to node => fun b e' a' => quiet e e' /\ a' = a_clear_route to node a /\
      b = bool_decide (a_routes a !! to = Some node)
  end.

(** A run of the system: tasks call the store one after the other, and the
    clocks move on. A task whose call fails does nothing any more. *)
Inductive system : Env * S -> list (nat * Entry) -> Env * S -> Prop :=
| sys_nil w : system w [] w
| sys_env e e' s log w : env_extends e e' -> quiet e e' -> system (e', s) log w -> system (e, s) log w
| sys_call {X} t (c : Call X) (x : X) e s e' s' log w :
    fresh_for e (view s) c -> perform c (e, s) = (Ok x, (e', s')) ->
    system (e', s') log w -> system (e, s) ((t, Called c (Ok x)) :: log) w.

(** The same of the contract alone: what any store that keeps it may do. *)
Inductive contract : Env * AStore -> list (nat * Entry) -> Env * AStore -> Prop :=
| ct_nil w : contract w [] w
| ct_env e e' a log w : env_extends e e' -> quiet e e' -> contract (e', a) log w -> contract (e, a) log w
| ct_call {X} t (c : Call X) (x : X) e a e' a' log w :
    a_wf a -> fresh_for e a c -> env_extends e e' -> a_step c e a x e' a' ->
    contract (e', a') log w -> contract (e, a) ((t, Called c (Ok x)) :: log) w.

(** A schedule of calls is a run of the system when they all succeed. *)
Inductive ACall : Type :=
| Some_call {X : Type} (c : Call X).
Fixpoint play (schedule : list (nat * ACall)) (w : Env * S) : list (nat * Entry) * (Env * S) :=
  match schedule with
  | [] => ([], w)
  | (t, Some_call c) :: schedule =>
      let '(r, w) := perform c w in
      let '(log, w) := play schedule w in
      ((t, Called c r) :: log, w)
  end.
Fixpoint plays (schedule : list (nat * ACall)) (w : Env * S) : Prop :=
  match schedule with
  | [] => True
  | (t, Some_call c) :: schedule =>
      fresh_for w.1 (view w.2) c /\ is_ok (perform c w).1 = true /\ plays schedule (perform c w).2
  end.
Lemma play_system schedule : forall w, plays schedule w -> system w (play schedule w).1 (play schedule w).2.
Proof.
  induction schedule as [|[t [X c]] schedule IH]; intros w; cbn; [intros _; apply sys_nil|].
  intros (Hf & Hok & Hp). apply IH in Hp. destruct w as [e s], (perform c (e, s)) as [[x|] [e' s']] eqn:Hr; [|done].
  cbn in *. destruct (play schedule (e', s')) as [log w']. by eapply sys_call.
Qed.

(** A store that keeps the contract answers its calls so. *)
Lemma perform_step (inv : Env * S -> Prop) {X} (c : Call X) e s x e' s' : StoreLaws view inv ->
  inv (e, s) -> fresh_for e (view s) c -> perform c (e, s) = (Ok x, (e', s')) ->
  inv (e', s') /\ env_extends e e' /\ a_step c e (view s) x e' (view s').
Proof.
  intros laws Hi Hf Hp. destruct c; cbn in Hf, Hp; (store_law laws Hp); destruct Hp as (Hi' & He & Hpost);
    (split; [exact Hi'|split; [exact He|exact Hpost || (destruct Hpost as (? & ? & _); by split)]]).
Qed.
Lemma system_contract (inv : Env * S -> Prop) w log w' : StoreLaws view inv -> inv w -> system w log w' ->
  inv w' /\ contract (w.1, view w.2) log (w'.1, view w'.2).
Proof.
  intros laws Hi Hsys. revert Hi. induction Hsys as [w|e e' s log w He Hq _ IH|X t c x e s e' s' log w Hf Hp _ IH]; intros Hi.
  - split; [done|apply ct_nil].
  - destruct IH as [Hi' Hc]; [by eapply (law_env _ _ laws)|]. split; [done|]. by eapply ct_env.
  - pose proof (law_wf _ _ laws _ _ Hi) as Hwf. destruct (perform_step inv c _ _ _ _ _ laws Hi Hf Hp) as (Hi1 & He & Hst).
    destruct (IH Hi1) as [Hi' Hc]. split; [done|]. by eapply ct_call.
Qed.
End system.
