(* ===== verification/Concurrency.v ===== *)
(** * At most one receipt per message

    What every handler and task queues receipts for, and what follows for any
    number of sessions, requests, streams and background tasks over one
    store, their store calls in any order. *)
From S2P Require Import Prelude RustStr External StoreTypes Store Hub Bridge Config App Notify Headers Subscription Session Ece Vapid Response Endpoint Registration Receipts Internal Calls System.

(** ** Who queues receipts

    Every handler and background task, run in an arbitrary environment: a
    receipt is queued only for the message that the handler's own previous
    call deleted, to the receipt subscription of that message. *)

(** The receipt that a call leaves owed. *)
Definition debt_after {X} (c : Call X) : result BoxError X -> option Message :=
  match c in Call X return result BoxError X -> option Message with
  | CDeleteMessage _ _ => fun r => match r with Ok o => o | Err _ => None end
  | _ => fun _ => None
  end.
(** A call that queues a receipt settles the debt [d]. *)
Definition settles (d : option Message) {X} (c : Call X) : Prop :=
  match c with
  | CEnqueueReceipt rc => exists m st, d = Some m /\ receipt_for st m = Some rc /\ (st = 204 \/ st = 410)%N
  | _ => True
  end.
Fixpoint pays (d : option Message) (log : list Entry) : Prop :=
  match log with
  | [] => True
  | Called c r :: log => settles d c /\ pays (debt_after c r) log
  end.

Lemma pays_any d log : pays None log -> pays d log.
Proof.
  destruct log as [|[X c r] log]; [done|]. cbn. intros [Hs Hp]. split; [|done].
  destruct c; try done. by destruct Hs as (m & st & [=] & _).
Qed.
Lemma pays_app l' : pays None l' -> forall l d, pays d l -> pays d (l ++ l').
Proof.
  intros Hl'. induction l as [|[X c r] l IH]; intros d; cbn; [intros _; by apply pays_any|].
  intros [Hs Hp]. split; [done|]. by apply IH.
Qed.
Lemma pays_prefix l l' : forall d, pays d (l ++ l') -> pays d l.
Proof. induction l as [|[X c r] l IH]; intros d; cbn; [done|]. intros [Hs Hp]. split; [done|by eapply IH]. Qed.
#[export] Instance pays_log : LogProp (pays None).
Proof. split; [exact I|]. intros l l' Hl Hl'. by apply pays_app. Qed.

Abbreviation safe m := (makes (pays None) m).
Create HintDb calls discriminated.
#[export] Hint Resolve makes_ret makes_est_ret makes_throw makes_lift_result : calls.

(** Take a handler apart. *)
Ltac calls_step := intros; cbv zeta; lazymatch goal with
  | |- makes _ (let '(_, _) := ?p in _) => destruct p
  | |- makes _ (@mbind _ (@est_bind _ _) _ _ _ _) => apply makes_est_bind; [apply _| |]
  | |- makes _ (@mbind _ (@st_bind _) _ _ _ _) => apply makes_bind; [apply _| |]
  | |- makes _ (lift_st _) => apply makes_lift_st
  | |- makes _ (match ?x with _ => _ end) => destruct x
  | |- makes _ (attempt ?m) => change (safe m)
  | |- _ => solve [eauto with calls typeclass_instances]
  end.
Ltac calls := repeat calls_step.

Section debts.
Context {BW F A : Type} `{MP : Mpsc} `{B64 : Base64}.
Abbreviation World := (World Asked BW).
Implicit Types (app : App BW F A).

(** ** The store and the rest of the world *)
Lemma world_ask {X} (c : Call X) (w : World) : exists r, (with_store (ask c) w).1 = r /\
  log_of (with_store (ask c) w).2 = log_of w ++ [Called c r].
Proof. eexists. split; reflexivity. Qed.

Definition queues {X} (c : Call X) : bool := match c with CEnqueueReceipt _ => true | _ => false end.
Lemma safe_ask {X} (c : Call X) : queues c = false -> safe (ask c).
Proof.
  intros Hq [e t]. eexists. split; [reflexivity|]. split; [by destruct c|done].
Qed.
Lemma safe_with_store {X} (m : SM Asked X) : safe m -> safe (with_store m : EST World BoxError X).
Proof.
  intros Hm w. destruct (Hm (w_env w, w_store w)) as (l & Hl & Hp). exists l. unfold with_store.
  by destruct (m (w_env w, w_store w)) as [r [e t]].
Qed.
Lemma safe_stored {X} (m : SM Asked X) : safe m -> safe (stored m : EST World Error X).
Proof.
  intros Hm w. destruct (safe_with_store m Hm w) as (l & Hl & Hp). exists l. unfold stored.
  by destruct (with_store m w).
Qed.
Lemma safe_boxed {X} (m : EST World BoxError X) : safe m -> safe (boxed m).
Proof.
  intros Hm w. destruct (Hm w) as (l & Hl & Hp). exists l. unfold boxed. by destruct (m w).
Qed.

Lemma safe_with_env {X} (m : ST Env X) : safe (with_env m : ST World X).
Proof. apply makes_silent; [apply _|]. intros w. unfold with_env. by destruct (m _). Qed.
Lemma safe_with_hub {X} (m : ST (Hub * Chans) X) : safe (with_hub m : ST World X).
Proof. apply makes_silent; [apply _|]. intros w. unfold with_hub. by destruct (m _) as [? [? ?]]. Qed.
Lemma safe_with_bridges {E X} (m : EST BW E X) : safe (with_bridges m : EST World E X).
Proof. apply makes_silent; [apply _|]. intros w. unfold with_bridges. by destruct (m _). Qed.
Lemma safe_spawn t : safe (App.spawn t : ST World unit).
Proof. by apply makes_silent; [apply _|]. Qed.
Lemma safe_post url token body : safe (post url token body : ST World HttpOutcome).
Proof. by apply makes_silent; [apply _|]. Qed.

#[local] Hint Resolve safe_boxed safe_with_env safe_with_hub safe_with_bridges safe_spawn safe_post : calls.
Ltac handler_step := first [calls_step | intros; lazymatch goal with
  | |- makes _ (with_store _) => apply safe_with_store; try (apply safe_ask; reflexivity)
  | |- makes _ (stored _) => apply safe_stored; try (apply safe_ask; reflexivity)
  end].
Ltac handler := repeat handler_step.

(** ** Delivering events *)
Lemma safe_clear_stale to node : safe (clear_stale to node : ST World unit).
Proof. unfold clear_stale. handler. Qed.
#[local] Hint Resolve safe_clear_stale : calls.
Lemma safe_forward app node to event : safe (forward app node to event).
Proof. unfold forward. handler. Qed.
#[local] Hint Resolve safe_forward : calls.
Lemma safe_notify app to event : safe (Notify.notify app to event).
Proof. unfold Notify.notify. handler. Qed.
#[local] Hint Resolve safe_notify : calls.
Lemma safe_notify_receipts app rs : safe (notify_receipts app rs).
Proof. induction rs as [|[sq r] rs IH]; cbn; handler. Qed.
#[local] Hint Resolve safe_notify_receipts : calls.
Lemma safe_drop_listener app l : safe (drop_listener app l : ST World unit).
Proof. unfold drop_listener, with_chans. handler. Qed.
#[local] Hint Resolve safe_drop_listener : calls.
Lemma safe_listen app to : safe (listen app to : EST World BoxError Listener).
Proof. unfold listen. handler. Qed.
#[local] Hint Resolve safe_listen : calls.
Lemma safe_run_task app t : safe (run_task app t).
Proof. unfold run_task. handler. Qed.

(** ** Settling a debt *)
Lemma settles_receipt (m : Message) rsub status : m_rsub m = Some rsub -> (status = 204 \/ status = 410)%N ->
  settles (Some m) (CEnqueueReceipt {| r_rsub := rsub; r_msg_id := m_id m; r_status := status |}).
Proof. intros Hr Hs. exists m, status. unfold receipt_for. by rewrite Hr. Qed.

Lemma owe_receipt_pays app (m : Message) status : (status = 204 \/ status = 410)%N ->
  makes (pays (Some m)) (owe_receipt app m status).
Proof.
  intros Hs w. unfold owe_receipt. destruct (m_rsub m) as [rsub|] eqn:Hr.
  2:{ exists []. by rewrite app_nil_r. }
  set (c := CEnqueueReceipt {| r_rsub := rsub; r_msg_id := m_id m; r_status := status |}).
  change (enqueue_receipt {| r_rsub := rsub; r_msg_id := m_id m; r_status := status |}) with (ask c).
  unfold mbind, est_bind. destruct (world_ask c w) as (r & Hfst & Hl).
  destruct (with_store (ask c) w) as [r0 w1]. cbn in Hfst, Hl. subst r0.
  destruct r as [[seq|]|e].
  - assert (Hn : safe (lift_st (notify_receipts app [(seq, {| r_rsub := rsub; r_msg_id := m_id m; r_status := status |})])
      : EST World BoxError unit)) by handler.
    destruct (Hn w1) as (l & Hl' & Hp). exists (Called c (Ok (Some seq)) :: l). split.
    + by rewrite Hl', Hl, <- app_assoc.
    + split; [by apply settles_receipt|exact Hp].
  - exists [Called c (Ok None)]. split; [exact Hl|]. split; [by apply settles_receipt|done].
  - exists [Called c (Err e)]. split; [exact Hl|]. split; [by apply settles_receipt|done].
Qed.
Lemma deletes_then {Y} id owner (f : option Message -> EST World BoxError Y) :
  (forall o, makes (pays o) (f o)) ->
  safe (with_store (delete_message id owner) ≫= f).
Proof.
  intros Hf w. change (delete_message id owner) with (ask (CDeleteMessage id owner)).
  unfold mbind, est_bind. destruct (world_ask (CDeleteMessage id owner) w) as (r & Hfst & Hl).
  destruct (with_store _ w) as [r0 w1]. cbn in Hfst, Hl. subst r0. destruct r as [o|e].
  - destruct (Hf o w1) as (l & Hl' & Hp). exists (Called (CDeleteMessage id owner) (Ok o) :: l).
    split; [by rewrite Hl', Hl, <- app_assoc|]. by split.
  - exists [Called (CDeleteMessage id owner) (Err e)]. by split.
Qed.

(** ** The application server API *)
Lemma safe_env {X} (m : ST Env X) : safe (env m : EST World Error X).
Proof. unfold env. handler. Qed.
Lemma safe_or_status {X} st (o : option X) : safe (or_status st o : EST World Error X).
Proof. unfold or_status. handler. Qed.
Lemma safe_header {X} (r : result Invalid X) : safe (header r : EST World Error X).
Proof. unfold header. handler. Qed.
Lemma safe_refuse {X} e : safe (refuse e : EST World Error X).
Proof. unfold refuse. handler. Qed.
#[local] Hint Resolve safe_env safe_or_status safe_header safe_refuse : calls.
Context `{JS : Json} `{PK : P256} `{HT : Http} `{HD : HttpDate} `{RH : ResponseHeaders}.

Lemma safe_check_vapid headers restricted origin : safe (check_vapid (BW := BW) headers restricted origin).
Proof. unfold check_vapid. handler. Qed.
Lemma safe_rsub_of_link app headers b : safe (rsub_of_link app headers b).
Proof. unfold rsub_of_link. handler. Qed.
#[local] Hint Resolve safe_check_vapid safe_rsub_of_link : calls.
Lemma safe_store_and_notify app p id : safe (store_and_notify app p id).
Proof. unfold store_and_notify. handler. Qed.
Lemma safe_bridge_error app u e : safe (bridge_error app u e).
Proof. unfold bridge_error. handler. Qed.
#[local] Hint Resolve safe_store_and_notify safe_bridge_error : calls.
Lemma safe_bridge app p to : safe (bridge app p to).
Proof. unfold bridge. handler. Qed.
#[local] Hint Resolve safe_bridge : calls.
Lemma safe_push app id headers body : safe (push app id headers body).
Proof. unfold push. handler. Qed.
Lemma safe_read_message app id : safe (read_message app id).
Proof. unfold read_message. handler. Qed.
Lemma safe_withdraw_message app id : safe (withdraw_message app id : EST World Error StatusCode).
Proof. unfold withdraw_message. handler. Qed.
Lemma safe_delete_receipt_sub app id : safe (Endpoint.delete_receipt_sub app id).
Proof. unfold Endpoint.delete_receipt_sub. handler. Qed.

(** ** The registration API *)
Lemma safe_register u c v : safe (Subscription.register (S := Asked) u c v).
Proof.
  unfold Subscription.register. calls; try (apply safe_ask; reflexivity); calls.
Qed.
#[local] Hint Resolve safe_register : calls.
Context `{HM : Hmac} `{AS : ApiSerde}.
Lemma safe_authorize app headers u : safe (authorize app headers u).
Proof. unfold authorize. handler. Qed.
#[local] Hint Resolve safe_authorize : calls.
Lemma safe_create app body : safe (Registration.create app body).
Proof. unfold Registration.create. handler. Qed.
Lemma safe_read app u headers : safe (Registration.read app u headers).
Proof. unfold Registration.read. handler. Qed.
Lemma safe_update_token app u headers body : safe (update_token app u headers body : EST World Error StatusCode).
Proof. unfold update_token. handler. Qed.
Lemma safe_delete app u headers : safe (Registration.delete app u headers).
Proof. unfold Registration.delete. handler. Qed.
Lemma safe_subscribe app u c headers body : safe (subscribe app u c headers body).
Proof. unfold subscribe. handler. Qed.
Lemma safe_unsubscribe app u c headers : safe (unsubscribe app u c headers).
Proof. unfold unsubscribe. handler. Qed.

(** ** The internal listener and the background work *)
Lemma safe_ready draining : safe (ready (BW := BW) (S := Asked) draining).
Proof. unfold ready. handler. Qed.
Lemma safe_deliver app headers envelope : safe (deliver app headers envelope).
Proof. unfold deliver. handler. Qed.
Lemma safe_work app k : safe (work app k).
Proof. destruct k; cbn; unfold Internal.reap, expire; handler. Qed.

(** ** Receipt streams *)
Lemma safe_or_drop {X} app l (m : EST World Error X) : safe m -> safe (or_drop app l m).
Proof.
  intros Hm w. destruct (Hm w) as (k & Hk & Hp). unfold or_drop. destruct (m w) as [[x|e] w1]; cbn in Hk; [by exists k|].
  destruct l as [l|]; [|by exists k]. destruct (safe_drop_listener app l w1) as (k' & Hk' & Hp').
  destruct (drop_listener app l w1) as [u w2]. exists (k ++ k'). cbn in *. rewrite Hk', Hk, app_assoc.
  split; [done|by apply lp_app].
Qed.
#[local] Hint Resolve safe_or_drop : calls.
Lemma safe_stream app id headers : safe (stream app id headers).
Proof.
  unfold stream. cbv zeta. apply makes_est_bind; [apply _|calls|]. intros rsub.
  apply makes_est_bind; [apply _|handler|]. intros l. apply safe_or_drop. handler.
Qed.

Abbreviation P X := (ST (World * Pump) X) (only parsing).
Lemma safe_write text : safe (write text : P bool).
Proof. apply makes_silent; [apply _|]. intros [w p]. unfold write. by destruct (pu_ok _ _). Qed.
Lemma safe_seen_insert sq : safe (seen_insert sq : P bool).
Proof. apply makes_silent; [apply _|]. by intros [w p]. Qed.
Lemma safe_receipts_world {X} (m : ST World X) : safe m -> safe (Receipts.in_world m : P X).
Proof.
  intros Hm [w p]. destruct (Hm w) as (k & Hk & Hp). exists k. unfold Receipts.in_world. by destruct (m w).
Qed.
#[local] Hint Resolve safe_write safe_seen_insert : calls.
Lemma safe_emit app sq r : safe (emit app sq r).
Proof. unfold emit. handler. apply safe_receipts_world. handler. Qed.
#[local] Hint Resolve safe_emit : calls.
Lemma safe_emit_backlog app backlog : forall open, safe (emit_backlog app backlog open).
Proof. induction backlog as [|[sq r] backlog IH]; cbn; handler. Qed.
Lemma safe_pump_loop app steps : forall open, safe (pump_loop app steps open).
Proof.
  induction steps as [|step steps IH]; intros [|]; cbn; handler; unfold pump_step; handler.
Qed.
Lemma safe_receipts_run app listener backlog steps : safe (Receipts.run app listener backlog steps).
Proof.
  unfold Receipts.run. apply makes_bind; [apply _|apply safe_emit_backlog|]. intros open. destruct listener as [l|]; [|calls].
  apply makes_bind; [apply _|apply safe_pump_loop|]. intros u. apply safe_receipts_world. handler.
Qed.

(** ** Sessions *)
Context `{CS : ClientSerde}.
Abbreviation SE X := (EST (World * Session) BoxError X) (only parsing).
Lemma safe_self {X} (f : Session -> X) : safe (self f : SE X).
Proof. apply makes_silent; [apply _|]. by intros [w s]. Qed.
Lemma safe_update f : safe (update f : SE unit).
Proof. apply makes_silent; [apply _|]. by intros [w s]. Qed.
Lemma safe_in_world {X} (m : EST World BoxError X) : safe m -> safe (Session.in_world m : SE X).
Proof.
  intros Hm [w s]. destruct (Hm w) as (k & Hk & Hp). exists k. unfold Session.in_world. by destruct (m w).
Qed.
Lemma safe_send_frame f : safe (send_frame f : SE unit).
Proof. apply makes_silent; [apply _|]. intros [w s]. unfold send_frame. by destruct (so_ok _ _). Qed.
Lemma safe_close code reason : safe (close code reason : SE unit).
Proof.
  apply makes_silent; [apply _|]. intros [w s]. unfold close, send_frame. by destruct (so_ok _ _).
Qed.
#[local] Hint Resolve safe_self safe_update safe_send_frame safe_close : calls.
Ltac session := repeat first [handler_step | intros; lazymatch goal with
  | |- makes _ (Session.in_world _) => apply safe_in_world
  end].

Lemma safe_send_text t : safe (send_text t : SE unit).
Proof. unfold send_text. session. Qed.
#[local] Hint Resolve safe_send_text : calls.
Lemma safe_send v : safe (send v : SE unit).
Proof. unfold send. session. Qed.
#[local] Hint Resolve safe_send : calls.
Lemma safe_session_notify n : safe (Session.notify n : SE bool).
Proof. unfold Session.notify. session. Qed.
#[local] Hint Resolve safe_session_notify : calls.
Lemma safe_send_all pending : safe (send_all pending : SE N).
Proof. induction pending as [|m pending IH]; cbn; session. Qed.
#[local] Hint Resolve safe_send_all : calls.
Lemma safe_next_batch app : safe (next_batch app : SE unit).
Proof. unfold next_batch. session. Qed.
#[local] Hint Resolve safe_next_batch : calls.

(** The two calls of an acknowledgement, in the session. *)
Lemma in_world_bind {X} (m : EST World BoxError (option X)) (f : X -> EST World BoxError unit) w s :
  ((o ← Session.in_world m; match o with Some x => Session.in_world (f x) | None => mret () end) : SE unit) (w, s) =
  Session.in_world (o ← m; match o with Some x => f x | None => mret () end) (w, s).
Proof.
  cbv [mbind est_bind Session.in_world]. destruct (m w) as [[[x|]|e] w1]; [|done..]. by destruct (f x w1).
Qed.
Lemma ack_settles app id owner status : (status = 204 \/ status = 410)%N ->
  safe (o ← Session.in_world (with_store (delete_message id owner));
        match o with
        | Some m => Session.in_world (owe_receipt app m status)
        | None => mret ()
        end : SE unit).
Proof.
  intros Hst [w s].
  assert (Hf : forall o : option Message, makes (pays o)
    (match o with Some m => owe_receipt app m status | None => mret () end : EST World BoxError unit)).
  { intros [m|]; [by apply owe_receipt_pays|]. intros w'. exists []. by rewrite app_nil_r. }
  destruct (safe_in_world _ (deletes_then id owner _ Hf) (w, s)) as (l & Hl & Hp).
  exists l. split; [|exact Hp]. rewrite <- Hl. by rewrite <- in_world_bind.
Qed.
Lemma safe_ack app u : safe (ack app u : SE unit).
Proof.
  unfold ack. apply makes_est_bind; [apply _|calls|]. intros _. cbv zeta. set (c := default 100%N (au_code u)).
  assert (Hst : forall status, match c with 100 => Some 204 | 101 | 102 => Some 410 | _ => None end%N = Some status ->
    (status = 204 \/ status = 410)%N) by (intros status; repeat case_match; intros [= <-]; auto).
  destruct (match c with 100 => _ | _ => _ end)%N as [status|]; [|calls].
  specialize (Hst _ eq_refl).
  destruct (Subscription.channel_id _); [|calls]. destruct (negb _); [calls|].
  apply makes_est_bind; [apply _|calls|]. intros u0. by apply ack_settles.
Qed.
#[local] Hint Resolve safe_ack : calls.
Lemma safe_ack_all app us : safe (ack_all app us : SE unit).
Proof. induction us as [|u us IH]; cbn; session. Qed.
#[local] Hint Resolve safe_ack_all : calls.
Lemma safe_session_register app c k : safe (Session.register app c k : SE Value).
Proof. unfold Session.register. session. Qed.
#[local] Hint Resolve safe_session_register : calls.
Lemma safe_handle app msg : safe (handle app msg : SE unit).
Proof. unfold handle. session. Qed.
#[local] Hint Resolve safe_handle : calls.
Lemma safe_serve_step app step : safe (serve_step app step : SE bool).
Proof. unfold serve_step. session. Qed.
#[local] Hint Resolve safe_serve_step : calls.
Lemma safe_serve_loop app steps : safe (serve_loop app steps : SE unit).
Proof. induction steps as [|step steps IH]; cbn; session. Qed.
#[local] Hint Resolve safe_serve_loop : calls.
Lemma safe_serve app steps : safe (Session.serve app steps : SE unit).
Proof. unfold Session.serve. session. Qed.
Lemma safe_handshake app uaid : safe (handshake app uaid : EST World BoxError _).
Proof. unfold handshake. session. Qed.

Lemma safe_session_run app socket first steps : safe (Session.run app socket first steps : ST World _).
Proof.
  intros w. unfold Session.run.
  destruct (next_text first) as [[uaid| | | | | |]|]; try (exists []; by rewrite app_nil_r).
  destruct (safe_handshake app uaid w) as (l1 & H1 & P1).
  destruct (handshake app uaid w) as [[[[[listener u] stored] now]|e] w1]; cbn in H1; [|by exists l1].
  destruct (safe_serve app steps (w1, new_session socket u stored now)) as (l2 & H2 & P2).
  destruct (Session.serve app steps _) as [r [w2 session]]. cbn in H2.
  destruct (safe_drop_listener app listener w2) as (l3 & H3 & P3).
  destruct (drop_listener app listener w2) as [u3 w3]. cbn in *. exists (l1 ++ l2 ++ l3).
  rewrite H3, H2, H1, !app_assoc. split; [done|]. repeat apply lp_app; done.
Qed.
End debts.

(** ** At most one receipt per message

    Any number of sessions, requests, streams and background tasks over one
    store, their store calls in any order: a message that several of them
    delete or acknowledge is answered once. *)

(** ** The tasks' part *)
Section serves.
Context {BW F A : Type} `{MP : Mpsc} `{B64 : Base64} `{JS : Json} `{PK : P256} `{HT : Http} `{HD : HttpDate}
  `{RH : ResponseHeaders} `{HM : Hmac} `{AS : ApiSerde} `{CS : ClientSerde}.
Abbreviation World := (World Asked BW).
Abbreviation App := (App BW F A).

Lemma logged_safe {W X} `{HasLog W} (m : ST W X) l : safe m -> logged m l -> pays None l.
Proof. intros Hm [w Hl]. destruct (Hm w) as (k & Hk & Hp). rewrite Hk in Hl. by apply app_inv_head in Hl as ->. Qed.

Lemma serves_pays PR PT l : serves (BW := BW) (F := F) (A := A) PR PT l -> pays None l.
Proof.
  destruct 1; (lazymatch goal with H : logged _ _ |- _ => refine (logged_safe _ _ _ H) end);
    first [apply safe_session_run | apply safe_push | apply safe_read_message | apply safe_withdraw_message
      | apply safe_delete_receipt_sub | apply safe_stream | apply safe_receipts_run | apply safe_create
      | apply safe_read | apply safe_update_token | apply safe_delete | apply safe_subscribe
      | apply safe_unsubscribe | apply safe_ready | apply safe_deliver | apply safe_work | apply safe_run_task].
Qed.
End serves.

(** ** The store's part *)

(** The receipts a call brings into being. *)
Definition receipts_of {X} (c : Call X) : result BoxError X -> list Receipt :=
  match c in Call X return result BoxError X -> list Receipt with
  | CEnqueueReceipt rc => fun r => match r with Ok (Some _) => [rc] | _ => [] end
  | CDeleteUserAgent _ | CDeleteSubscription _ _ | CReap _ => fun r => match r with Ok rs => rs.*2 | Err _ => [] end
  | CExpireUserAgents _ => fun r => match r with Ok r => r.2.*2 | Err _ => [] end
  | _ => fun _ => []
  end.
Definition inserts {X} (c : Call X) : list Message :=
  match c with CInsertMessage m => [m] | _ => [] end.
Definition receipts_in (log : list (nat * Entry)) : list Receipt :=
  concat ((fun te => match te.2 with Called c r => receipts_of c r end) <$> log).
Definition inserted_in (log : list (nat * Entry)) : list Message :=
  concat ((fun te => match te.2 with Called c _ => inserts c end) <$> log).
Section system.
Context {S : Type} `{St : Store S} `{B64 : Base64}.
Context (view : S -> AStore) (inv : Env * S -> Prop) (laws : StoreLaws view inv).
(** What a call does to the messages. *)
Record moves (a : AStore) {X} (c : Call X) (x : X) (a' : AStore) : Prop := {
  mv_msgs k m : a_msgs a' !! k = Some m -> a_msgs a !! k = Some m \/ inserts c = [m] /\ k = m_id m;
  mv_debt m : debt_after c (Ok x) = Some m -> a_msgs a !! m_id m = Some m /\ a_msgs a' !! m_id m = None;
  mv_receipts : queues c = false -> NoDup (r_msg_id <$> receipts_of c (Ok x)) /\
    forall rc, rc ∈ receipts_of c (Ok x) -> exists m, a_msgs a !! r_msg_id rc = Some m /\ m_id m = r_msg_id rc /\
      m_rsub m = Some (r_rsub rc) /\ a_msgs a' !! r_msg_id rc = None;
}.

Lemma receipts_once P e a rs e' a' : a_wf a -> removes P e a rs e' a' ->
  NoDup (r_msg_id <$> rs.*2) /\
  forall rc, rc ∈ rs.*2 -> exists m, a_msgs a !! r_msg_id rc = Some m /\ m_id m = r_msg_id rc /\
    m_rsub m = Some (r_rsub rc) /\ a_msgs a' !! r_msg_id rc = None.
Proof.
  intros Hwf [Hm Hr _ _ _]. split.
  - rewrite Hr. apply (sublist_NoDup _ (m_id <$> (map_to_list (a_msgs a)).*2)).
    + rewrite <- list_fmap_compose.
      rewrite (list_fmap_ext _ fst); [apply NoDup_fst_map_to_list|].
      intros i [k m] Hk%list_elem_of_lookup_2%elem_of_map_to_list. exact (wf_msgs _ Hwf _ _ Hk).
    + generalize (map_to_list (a_msgs a)).*2. intros l. induction l as [|m l IH]; [constructor|].
      rewrite filter_cons. cbn [fmap list_fmap]. case_decide; [|by constructor]. cbn [omap list_omap].
      unfold owed_410, receipt_for. destruct (m_rsub m) as [r|]; cbn; [|by constructor].
      destruct (a_queues a !! r); cbn; by constructor.
  - intros rc. rewrite Hr, list_elem_of_omap. intros (m & [HP (k & Hk)%elem_of_values]%list_elem_of_filter & Ho).
    pose proof (wf_msgs _ Hwf _ _ Hk) as Hid. unfold owed_410, receipt_for in Ho.
    destruct (m_rsub m) as [r|] eqn:Hrs; [|done]. cbn in Ho. destruct (a_queues a !! r); [|done]. injection Ho as <-.
    cbn. exists m. rewrite Hid. split_and!; [done|done|done|]. rewrite Hm.
    apply map_lookup_filter_None. right. intros m' Hm'. rewrite Hk in Hm'. injection Hm' as <-. cbn. by rewrite HP.
Qed.

Lemma removes_moves P e a rs e' a' : removes P e a rs e' a' ->
  forall k m, a_msgs a' !! k = Some m -> a_msgs a !! k = Some m.
Proof. intros [-> _ _ _ _] k m. by intros [? _]%map_lookup_filter_Some. Qed.

(** Calls that leave the messages alone, and calls that remove some. *)
Lemma moves_same {X} (c : Call X) x a a' : a_msgs a' = a_msgs a ->
  debt_after c (Ok x) = None -> (queues c = false -> receipts_of c (Ok x) = []) -> moves a c x a'.
Proof.
  intros Hm Hd Hr. split.
  - intros k m. rewrite Hm. by left.
  - by rewrite Hd.
  - intros ->%Hr. split; [constructor|]. by intros rc ?%not_elem_of_nil.
Qed.
Lemma moves_removes {X} (c : Call X) x P e a rs e' a' : a_wf a -> removes P e a rs e' a' ->
  debt_after c (Ok x) = None -> receipts_of c (Ok x) = rs.*2 -> moves a c x a'.
Proof.
  intros Hwf Hr Hd Hrs. split.
  - intros k m Hk. left. by eapply removes_moves.
  - by rewrite Hd.
  - intros _. rewrite Hrs. by eapply receipts_once.
Qed.

Lemma step_moves {X} (c : Call X) e a x e' a' : a_wf a -> a_step c e a x e' a' -> moves a c x a'.
Proof.
  intros Hwf Hp. destruct c; cbn in Hp;
    try (apply moves_same; [|done..]; destruct_ex; repeat case_match; cbv zeta in *; destruct_ex; by subst).
  - destruct Hp as (Hr & _). by apply (moves_removes _ _ _ _ _ _ _ _ Hwf Hr).
  - destruct Hp as (Hr & _). by apply (moves_removes _ _ _ _ _ _ _ _ Hwf Hr).
  - case_match; [destruct Hp as (Hr & _); by apply (moves_removes _ _ _ _ _ _ _ _ Hwf Hr)|destruct_ex].
    subst. by apply moves_same.
  - destruct Hp as (_ & ->). split; [|done|intros _; split; [constructor|by intros rc ?%not_elem_of_nil]].
    intros k m'. cbn -[a_insert_message]. unfold a_insert_message.
    intros [[<- <-]|[_ Hk]]%lookup_insert_Some; [by right|left]. destruct (m_slot m); [|done].
    by apply map_lookup_filter_Some in Hk as [? _].
  - destruct Hp as (_ & -> & ->). destruct (a_msgs a !! id) as [m|] eqn:Hm; cbn; [|by apply moves_same].
    destruct (owned_by owner m); [|by apply moves_same]. split.
    + cbn. intros k m' [_ ?]%lookup_delete_Some. by left.
    + cbn. intros m' [= <-]. rewrite (wf_msgs _ Hwf _ _ Hm). split; [done|]. apply lookup_delete_eq.
    + intros _. split; [constructor|by intros rc ?%not_elem_of_nil].
  - destruct Hp as (P & _ & _ & Hr & _). by apply (moves_removes _ _ _ _ _ _ _ _ Hwf Hr).
  - apply moves_same; [|done..]. destruct Hp as (_ & -> & _). unfold a_clear_route. by case_decide.
Qed.
(** ** At most one receipt per message

    What is known when [past] has been inserted, [spent] has been queued and
    each task with an entry in [debts] has just deleted that message. *)
Record accounts (past : list Message) (spent : list Receipt) (debts : gmap nat Message) (a : AStore) : Prop := {
  ac_msgs k m : a_msgs a !! k = Some m -> m ∈ past;
  ac_debts t m : debts !! t = Some m -> m ∈ past /\ a_msgs a !! m_id m = None /\ m_id m ∉ r_msg_id <$> spent;
  ac_once t t' m m' : debts !! t = Some m -> debts !! t' = Some m' -> m_id m = m_id m' -> t = t';
  ac_spent : NoDup (r_msg_id <$> spent);
  ac_gone rc : rc ∈ spent -> a_msgs a !! r_msg_id rc = None /\
    exists m, m ∈ past /\ m_id m = r_msg_id rc /\ m_rsub m = Some (r_rsub rc);
}.
Definition debts_after (t : nat) {X} (c : Call X) (x : X) (debts : gmap nat Message) : gmap nat Message :=
  match debt_after c (Ok x) with Some m => <[ t := m ]> debts | None => base.delete t debts end.

(** An id of the past that is not stored stays that way. *)
Lemma stays_gone past {X} (c : Call X) x a a' id : moves a c x a' ->
  NoDup (m_id <$> past ++ inserts c) -> id ∈ m_id <$> past -> a_msgs a !! id = None -> a_msgs a' !! id = None.
Proof.
  intros Hm Hnd Hid Hno. destruct (a_msgs a' !! id) as [m|] eqn:Hk; [|done].
  destruct (mv_msgs _ _ _ _ Hm _ _ Hk) as [?|[Hin ->]]; [congruence|]. rewrite fmap_app, NoDup_app, Hin in Hnd.
  destruct Hnd as (_ & Hnd & _). destruct (Hnd _ Hid). by left.
Qed.

Lemma debt_no_receipt {X} (c : Call X) x m : debt_after c (Ok x) = Some m ->
  receipts_of c (Ok x) = [] /\ queues c = false /\ inserts c = [].
Proof. by destruct c. Qed.

(** The receipts of a call are of messages not answered before. *)
Lemma new_receipts past spent debts a t {X} (c : Call X) x a' :
  accounts past spent debts a -> moves a c x a' -> settles (debts !! t) c -> NoDup (m_id <$> past ++ inserts c) ->
  NoDup (r_msg_id <$> receipts_of c (Ok x)) /\
  forall rc, rc ∈ receipts_of c (Ok x) ->
    (r_msg_id rc ∉ r_msg_id <$> spent) /\ a_msgs a' !! r_msg_id rc = None /\
    (exists m, m ∈ past /\ m_id m = r_msg_id rc /\ m_rsub m = Some (r_rsub rc)) /\
    forall t' m, debts_after t c x debts !! t' = Some m -> m_id m <> r_msg_id rc.
Proof.
  intros Ha Hm Hs Hnd. assert (Hwf : forall k m, a_msgs a !! k = Some m -> k ∉ r_msg_id <$> spent).
  { intros k m Hk (rc & -> & Hrc)%list_elem_of_fmap. apply (ac_gone _ _ _ _ Ha) in Hrc as [Hno _]. congruence. }
  destruct (queues c) eqn:Hq.
  - destruct c; try done. destruct Hs as (m & st & Hd & Hr & _). unfold receipt_for in Hr.
    destruct (m_rsub m) as [rsub|] eqn:Hrs; [|done]. injection Hr as <-.
    destruct (ac_debts _ _ _ _ Ha _ _ Hd) as (Hp & Hno & Hsp).
    assert (Hin : m_id m ∈ m_id <$> past) by (apply list_elem_of_fmap; eauto).
    cbn. split; [destruct x; repeat constructor; by intros ?%not_elem_of_nil|].
    intros rc Hrc. destruct x as [sq|]; [|by apply not_elem_of_nil in Hrc]. apply list_elem_of_singleton in Hrc as ->. cbn.
    split_and!; [done|by eapply stays_gone|by exists m|].
    intros t' m'. unfold debts_after. cbn. intros [Ht Hd']%lookup_delete_Some Heq. apply Ht. by eapply (ac_once _ _ _ _ Ha).
  - destruct (mv_receipts _ _ _ _ Hm Hq) as [Hn Hr]. split; [done|]. intros rc Hrc.
    destruct (Hr _ Hrc) as (m & Hk & Hid & Hrs & Hno). split_and!; [by eapply Hwf|done| |].
    + exists m. split_and!; [by eapply (ac_msgs _ _ _ _ Ha)|done|done].
    + intros t' m' Hd Heq. unfold debts_after in Hd. destruct (debt_after c (Ok x)) as [md|] eqn:Hdebt.
      * apply debt_no_receipt in Hdebt as (Hrno & _). rewrite Hrno in Hrc. by apply not_elem_of_nil in Hrc.
      * apply lookup_delete_Some in Hd as [_ Hd]. apply (ac_debts _ _ _ _ Ha) in Hd as (_ & Hno' & _).
        rewrite Heq in Hno'. congruence.
Qed.

Lemma accounts_step past spent debts a t {X} (c : Call X) x a' :
  accounts past spent debts a -> moves a c x a' -> settles (debts !! t) c -> NoDup (m_id <$> past ++ inserts c) ->
  accounts (past ++ inserts c) (spent ++ receipts_of c (Ok x)) (debts_after t c x debts) a'.
Proof.
  intros Ha Hm Hs Hnd. destruct (new_receipts _ _ _ _ _ _ _ _ Ha Hm Hs Hnd) as [Hrn Hrc].
  assert (Hpast : forall m, m ∈ past -> m_id m ∈ m_id <$> past) by (intros; apply list_elem_of_fmap; eauto).
  assert (Hold : forall t' m, debts !! t' = Some m -> a_msgs a' !! m_id m = None).
  { intros t' m Hd. apply (ac_debts _ _ _ _ Ha) in Hd as (Hp & Hno & _). eapply stays_gone; eauto. }
  assert (Hda : forall t' m, debts_after t c x debts !! t' = Some m ->
    debts !! t' = Some m \/ t' = t /\ debt_after c (Ok x) = Some m).
  { intros t' m. unfold debts_after. destruct (debt_after c (Ok x)) as [md|].
    - intros [[-> ->]|[_ ?]]%lookup_insert_Some; auto.
    - intros [_ ?]%lookup_delete_Some. auto. }
  split.
  - intros k m Hk. apply elem_of_app. destruct (mv_msgs _ _ _ _ Hm _ _ Hk) as [?|[-> ->]].
    + left. by eapply (ac_msgs _ _ _ _ Ha).
    + right. by left.
  - intros t' m Hd. rewrite fmap_app, !elem_of_app.
    assert (Hnr : m_id m ∉ r_msg_id <$> receipts_of c (Ok x)).
    { intros (rc & Heq & Hin)%list_elem_of_fmap. apply Hrc in Hin as (_ & _ & _ & Hin). exact (Hin _ _ Hd Heq). }
    destruct (Hda _ _ Hd) as [Hd0|[_ Hd0]].
    + destruct (ac_debts _ _ _ _ Ha _ _ Hd0) as (Hp & _ & Hsp). split_and!; [by left|by eapply Hold|by intros [?|?]].
    + destruct (mv_debt _ _ _ _ Hm _ Hd0) as [Hk Hno]. split_and!; [left; by eapply (ac_msgs _ _ _ _ Ha)|done|].
      intros [(rc & Heq & Hin)%list_elem_of_fmap|?]; [|done]. apply (ac_gone _ _ _ _ Ha) in Hin as [Hno' _].
      rewrite <- Heq in Hno'. congruence.
  - intros t1 t2 m1 m2 H1 H2 Heq.
    assert (Hnew : forall t0 m0 md, debts !! t0 = Some m0 -> debt_after c (Ok x) = Some md -> m_id m0 <> m_id md).
    { intros t0 m0 md Hd Hdm He. apply (mv_debt _ _ _ _ Hm) in Hdm as [Hk _].
      apply (ac_debts _ _ _ _ Ha) in Hd as (_ & Hno & _). rewrite He in Hno. congruence. }
    destruct (Hda _ _ H1) as [D1|[-> D1]], (Hda _ _ H2) as [D2|[-> D2]];
      [by eapply (ac_once _ _ _ _ Ha)|by destruct (Hnew _ _ _ D1 D2)|by destruct (Hnew _ _ _ D2 D1)|done].
  - rewrite fmap_app. apply NoDup_app. split_and!; [apply (ac_spent _ _ _ _ Ha)| |done].
    intros id Hid (rc & -> & Hin)%list_elem_of_fmap. by apply Hrc in Hin as [? _].
  - intros rc [Hin|Hin]%elem_of_app.
    + apply (ac_gone _ _ _ _ Ha) in Hin as (Hno & m & Hp & Hid & Hrs). split.
      * eapply stays_gone; eauto. rewrite <- Hid. by apply Hpast.
      * exists m. rewrite elem_of_app. auto.
    + apply Hrc in Hin as (_ & Hno & (m & Hp & Hid & Hrs) & _). split; [done|]. exists m. rewrite elem_of_app. auto.
Qed.

Lemma contract_accounts w log w' : contract w log w' -> forall past spent debts,
  accounts past spent debts w.2 ->
  (forall t, pays (debts !! t) (of_task t log)) -> NoDup (m_id <$> past ++ inserted_in log) ->
  exists debts', accounts (past ++ inserted_in log) (spent ++ receipts_in log) debts' w'.2.
Proof.
  induction 1 as [w|e e' a log w He Hq _ IH|X t c x e a e' a' log w Hwf Hf He Hp _ IH]; intros past spent debts Ha Hpay Hnd.
  - unfold inserted_in, receipts_in. cbn. rewrite !app_nil_r. eauto.
  - cbn in IH. eapply IH; eauto.
  - pose proof (step_moves _ _ _ _ _ _ Hwf Hp) as Hm.
    assert (Hs : settles (debts !! t) c).
    { specialize (Hpay t). rewrite of_task_cons, decide_True in Hpay by done. by destruct Hpay. }
    unfold inserted_in, receipts_in in *. cbn [fmap list_fmap concat snd] in *. rewrite app_assoc in Hnd.
    destruct (IH (past ++ inserts c) (spent ++ receipts_of c (Ok x)) (debts_after t c x debts)) as (d' & Ha2).
    + apply (accounts_step _ _ _ _ _ _ _ _ Ha Hm Hs). rewrite fmap_app in Hnd. by apply NoDup_app in Hnd as [? _].
    + intros t'. specialize (Hpay t'). rewrite of_task_cons in Hpay. unfold debts_after. case_decide as Ht.
      * subst t'. destruct Hpay as [_ Hpay]. destruct (debt_after c (Ok x)).
        -- by rewrite lookup_insert_eq.
        -- by rewrite lookup_delete_eq.
      * destruct (debt_after c (Ok x)); [by rewrite lookup_insert_ne|by rewrite lookup_delete_ne].
    + done.
    + exists d'. by rewrite !app_assoc in *.
Qed.

Lemma accounts_start a : a_wf a -> accounts (map_to_list (a_msgs a)).*2 [] ∅ a.
Proof.
  intros Hwf. split.
  - intros k m Hk. apply elem_of_values. eauto.
  - intros t m. by rewrite lookup_empty.
  - intros t t' m m'. by rewrite lookup_empty.
  - constructor.
  - by intros rc ?%not_elem_of_nil.
Qed.
Lemma stored_ids a : a_wf a -> m_id <$> (map_to_list (a_msgs a)).*2 = (map_to_list (a_msgs a)).*1.
Proof.
  intros Hwf. rewrite <- list_fmap_compose. apply list_fmap_ext.
  intros i [k m] Hk%list_elem_of_lookup_2%elem_of_map_to_list. exact (wf_msgs _ Hwf _ _ Hk).
Qed.

(** Receipts of a run of the contract by tasks that pay their debts. *)
Lemma contract_receipts e a log w' : contract (e, a) log w' -> a_wf a -> (forall t, pays None (of_task t log)) ->
  NoDup (m_id <$> inserted_in log) -> (forall m, m ∈ inserted_in log -> a_msgs a !! m_id m = None) ->
  NoDup (r_msg_id <$> receipts_in log) /\
  forall rc, rc ∈ receipts_in log -> exists m,
    (m ∈ inserted_in log \/ a_msgs a !! m_id m = Some m) /\ m_id m = r_msg_id rc /\ m_rsub m = Some (r_rsub rc).
Proof.
  intros Hc Hwf Hpay Hnd Hnew.
  destruct (contract_accounts _ _ _ Hc (map_to_list (a_msgs a)).*2 [] ∅ (accounts_start _ Hwf)) as (d & Ha).
  - intros t. by rewrite lookup_empty.
  - rewrite fmap_app, stored_ids by done. apply NoDup_app. split_and!; [apply NoDup_fst_map_to_list| |done].
    intros id ([k m] & -> & Hk%elem_of_map_to_list)%list_elem_of_fmap (m' & Heq & Hin)%list_elem_of_fmap.
    cbn in Heq. apply Hnew in Hin. rewrite <- Heq in Hin. congruence.
  - split; [exact (ac_spent _ _ _ _ Ha)|]. intros rc Hrc.
    destruct (ac_gone _ _ _ _ Ha _ Hrc) as (_ & m & [Hp|Hp]%elem_of_app & Hid & Hrs); exists m; (split; [|done]).
    + right. apply elem_of_values in Hp as [k Hk]. by rewrite (wf_msgs _ Hwf _ _ Hk).
    + by left.
Qed.
Lemma tasks_pay `{MP : Mpsc} {JS : Json} {PK : P256} {HT : Http} {HD : HttpDate} {RH : ResponseHeaders}
    {HM : Hmac} {AS : ApiSerde} {CS : ClientSerde} {BW F A : Type} PR PT log :
  (forall t, exists l, serves (BW := BW) (F := F) (A := A) PR PT (of_task t log ++ l)) -> forall t, pays None (of_task t log).
Proof. intros Ht t. destruct (Ht t) as [l Hl]. apply serves_pays in Hl. by eapply pays_prefix. Qed.

(** C3: Any number of sessions, requests, receipt streams, reapers and other
    background tasks of any nodes run over one store, their calls in any
    order and each of them stopped anywhere. As long as message ids are not
    used twice, and no two registrations of one channel overlap, every message is answered by at most one receipt, and each
    receipt goes to the receipt subscription its message asked for. *)
Theorem receipts_at_most_once `{MP : Mpsc} {JS : Json} {PK : P256} {HT : Http} {HD : HttpDate} {RH : ResponseHeaders}
    {HM : Hmac} {AS : ApiSerde} {CS : ClientSerde} {BW F A : Type} w log w' :
  inv w -> system view w log w' ->
  (forall t, exists l, serves (BW := BW) (F := F) (A := A) (fun _ => True) (fun _ => True) (of_task t log ++ l)) ->
  NoDup (m_id <$> inserted_in log) ->
  (forall m, m ∈ inserted_in log -> a_msgs (view w.2) !! m_id m = None) ->
  NoDup (r_msg_id <$> receipts_in log) /\
  forall rc, rc ∈ receipts_in log -> exists m,
    (m ∈ inserted_in log \/ a_msgs (view w.2) !! m_id m = Some m) /\
    m_id m = r_msg_id rc /\ m_rsub m = Some (r_rsub rc).
Proof.
  intros Hi Hsys Htasks Hnd Hnew. apply (contract_receipts w.1 (view w.2) log (w'.1, view w'.2)); [|by eapply (law_wf _ _ laws w.1 w.2); destruct w|by eapply tasks_pay|done..].
  by eapply system_contract.
Qed.
End system.
