(* ===== verification/Scenarios.v ===== *)
(** * Operations of several components together

    Two registrations of one channel at the same time, and the life of a
    message from the push that brings it to its receipt. *)
From S2P Require Import MemoryStore MemoryProofs MemoryRuns HubTheorems Demo Instances Prelude RustStr External StoreTypes Store Hub Bridge Config App Notify Subscription Headers Ece Vapid Response Worlds Delivery Session Endpoint EndpointTheorems SessionTheorems.

(** ** Two registrations of one channel at the same time

    [register] looks the channel up and then creates it; the two calls are
    two steps of the store. When two registrations both look first, both
    create, and the push resource answered to the first outlives its own
    subscription in [MemoryStore]. *)

Module Race.
Import MemoryStore MemoryProofs Instances Subscription.

(** What [register] does once it has looked. *)
Definition after_lookup {S} `{Store S} (u c : string) (v : option Bytes) (o : option Subscription) : SM S Registered :=
  match o with
  | Some sub => if decide (sub_vapid sub = v) then mret (Existing sub) else mret Conflict
  | None => sub ← Store.create_subscription u c v; mret (Created sub)
  end.
Lemma register_steps {S} `{Store S} u c v :
  Subscription.register u c v = (o ← Store.channel u c; after_lookup u c v o).
Proof. reflexivity. Qed.

Section race.
Context {HO : HashOrder} {B64 : Base64}.

(** Both look, then both go on. *)
Definition race (u c : string) (v1 v2 : option Bytes) : SM State (Registered * Registered) :=
  o1 ← Store.channel u c;
  o2 ← Store.channel u c;
  r1 ← after_lookup u c v1 o1;
  r2 ← after_lookup u c v2 o2;
  mret (r1, r2).

(** ** The push index *)
Lemma remove_all_index ids : forall w rs w', remove_all ids w = (rs, w') ->
  push w'.2 = push w.2 /\ channels w'.2 = channels w.2.
Proof.
  induction ids as [|id ids IH]; intros w rs w'; cbn; [by intros [= _ <-]|]. cbv [mbind st_bind with_state].
  destruct (remove_message id w.2) as [o s1] eqn:Hrm.
  assert (Hs1 : push s1 = push w.2 /\ channels s1 = channels w.2).
  { unfold remove_message in Hrm. repeat case_match; by injection Hrm as _ <-. }
  destruct o as [m|].
  - destruct (owe_410 m (w.1, s1)) as [r w1] eqn:Ho.
    assert (Hw1 : push w1.2 = push s1 /\ channels w1.2 = channels s1).
    { unfold owe_410 in Ho. repeat case_match; by injection Ho as _ <-. }
    cbn. destruct (remove_all ids w1) as [rest w2] eqn:Hrest. intros [= _ <-]. apply IH in Hrest. intuition congruence.
  - cbn. destruct (remove_all ids _) as [rest w2] eqn:Hrest. intros [= _ <-]. apply IH in Hrest. cbn in *. intuition congruence.
Qed.

Lemma create_index u c v w sub w' : MemoryStore.create_subscription u c v w = (Ok sub, w') ->
  sub_vapid sub = v /\ push w'.2 = <[ sub_push sub := (u, c) ]> (push w.2) /\
  channels w'.2 = <[ (u, c) := sub ]> (channels w.2).
Proof.
  unfold MemoryStore.create_subscription, lift_st, with_env. cbv [mbind st_bind].
  destruct (new_id w.1) as [id e]. cbn. by intros [= <- <-].
Qed.
Lemma delete_index u c sub w rs w' : channels w.2 !! (u, c) = Some sub ->
  MemoryStore.delete_subscription u c w = (Ok rs, w') ->
  push w'.2 = delete (sub_push sub) (push w.2) /\ channels w'.2 = delete (u, c) (channels w.2).
Proof.
  intros Hsub. unfold MemoryStore.delete_subscription, lift_st, remove_subscription. cbv [mbind st_bind get with_state].
  cbn. rewrite Hsub. unfold modify, with_state. cbn.
  destruct (remove_all _ _) as [rs' w1] eqn:Hr. intros [= _ <-]. by apply remove_all_index in Hr.
Qed.
Lemma by_push_index p (w : Env * State) k sub : push w.2 !! p = Some k -> channels w.2 !! k = sub ->
  MemoryStore.subscription_by_push p w = (Ok sub, w).
Proof.
  intros Hp Hc. unfold MemoryStore.subscription_by_push, lift_st. cbv [mbind st_bind get with_state]. cbn.
  rewrite Hp. cbn. rewrite Hc. by destruct w.
Qed.

(** C15: Two registrations of a new channel that both look before either creates
    it are both told [Created], with a push resource of their own. From then
    on the first push resource finds the subscription of the second, with the
    second's key or none, so that a restriction it was created with is lost;
    and when that subscription is deleted and the channel registered again,
    the first push resource finds the new subscription too. *)
Theorem registration_race u c v1 v2 w r1 r2 w1 rs w2 v3 sub3 w3 :
  channels w.2 !! (u, c) = None ->
  race u c v1 v2 w = (Ok (r1, r2), w1) ->
  MemoryStore.delete_subscription u c w1 = (Ok rs, w2) ->
  MemoryStore.create_subscription u c v3 w2 = (Ok sub3, w3) ->
  exists sub1 sub2, r1 = Created sub1 /\ r2 = Created sub2 /\
    sub_vapid sub1 = v1 /\ sub_vapid sub2 = v2 /\
    (sub_push sub1 <> sub_push sub2 ->
     (MemoryStore.subscription_by_push (sub_push sub1) w1).1 = Ok (Some sub2) /\
     (MemoryStore.subscription_by_push (sub_push sub1) w2).1 = Ok None /\
     (MemoryStore.subscription_by_push (sub_push sub1) w3).1 = Ok (Some sub3)).
Proof.
  intros Hnew Hrace Hdel Hcr3. unfold race in Hrace.
  apply est_bind_Ok in Hrace as (o1 & wa & Ha & Hrace). injection Ha as <- <-.
  apply est_bind_Ok in Hrace as (o2 & wb & Hb & Hrace). injection Hb as <- <-.
  destruct w as [e s]. cbn [fst snd] in *. rewrite Hnew in Hrace. cbn [after_lookup] in Hrace.
  apply est_bind_Ok in Hrace as (x1 & wc & Hc & Hrace). apply est_bind_Ok in Hc as (sub1 & wc' & Hc1 & [= <- <-]).
  apply est_bind_Ok in Hrace as (x2 & wd & Hd & [= <- <- <-]). apply est_bind_Ok in Hd as (sub2 & wd' & Hd1 & [= <- <-]).
  exists sub1, sub2.
  apply create_index in Hc1 as (Hv1 & Hp1 & Hch1). apply create_index in Hd1 as (Hv2 & Hp2 & Hch2).
  split_and!; [done..|]. intros Hne.
  assert (Hat2 : channels wd'.2 !! (u, c) = Some sub2) by (rewrite Hch2; apply lookup_insert_eq).
  destruct (delete_index _ _ _ _ _ _ Hat2 Hdel) as [Hp3 Hch3]. apply create_index in Hcr3 as (_ & Hp4 & Hch4).
  assert (Hk : push wd'.2 !! sub_push sub1 = Some (u, c))
    by (rewrite Hp2, lookup_insert_ne, Hp1 by done; apply lookup_insert_eq).
  assert (Hk3 : push w2.2 !! sub_push sub1 = Some (u, c)) by (by rewrite Hp3, lookup_delete_ne).
  split_and!.
  - by rewrite (by_push_index _ _ _ _ Hk Hat2).
  - rewrite (by_push_index _ _ _ None Hk3); [done|]. rewrite Hch3. apply lookup_delete_eq.
  - rewrite (by_push_index _ _ (u, c) (Some sub3)); [done| |rewrite Hch4; apply lookup_insert_eq].
    rewrite Hp4. destruct (decide (sub_push sub3 = sub_push sub1)) as [->|Hn3].
    + apply lookup_insert_eq.
    + by rewrite lookup_insert_ne.
Qed.
End race.

(** A restricted registration and an open one: the restriction of the first
    does not hold for its own push resource. *)
#[local] Existing Instance default_order.
Abbreviation race_start := (demo_env 1000, MemoryStore.new).
Abbreviation raced := (race "u" "c" (Some [x04]) None race_start).
Lemma raced_distinct : match raced.1 with
  | Ok (Created s1, Created s2) => bool_decide (sub_push s1 = sub_push s2)
  | _ => true
  end = false.
Proof. vm_compute. reflexivity. Qed.

Lemma registration_race_witness : exists sub1 sub2 w1,
  raced = (Ok (Created sub1, Created sub2), w1) /\ sub_vapid sub1 = Some [x04] /\ sub_vapid sub2 = None /\
  (MemoryStore.subscription_by_push (sub_push sub1) w1).1 = Ok (Some sub2).
Proof.
  pose proof raced_distinct as Hd. destruct raced as [[[r1 r2]|e] w1] eqn:Hr; [|discriminate Hd].
  destruct (MemoryStore.delete_subscription "u" "c" w1) as [[rs|e] w2] eqn:Hdel.
  2:{ exfalso. unfold MemoryStore.delete_subscription, lift_st in Hdel. by destruct (remove_subscription _ _ w1). }
  destruct (MemoryStore.create_subscription "u" "c" None w2) as [[sub3|e] w3] eqn:Hcr.
  2:{ exfalso. unfold MemoryStore.create_subscription, lift_st in Hcr. by destruct ((_ : ST (Env * State) _) w2). }
  destruct (registration_race "u" "c" (Some [x04]) None race_start r1 r2 w1 rs w2 None sub3 w3 eq_refl Hr Hdel Hcr)
    as (sub1 & sub2 & -> & -> & Hv1 & Hv2 & Hall).
  exists sub1, sub2, w1. split; [reflexivity|]. split; [exact Hv1|]. split; [exact Hv2|].
  apply Hall. cbn in Hd. by apply bool_decide_eq_false in Hd.
Defined.
End Race.

(** ** From a push to its receipt

    The life of a message whose user agent is connected to the node that
    accepts it: the endpoint stores it, the hub queues it for the session, the
    session sends it, the user agent acknowledges it, and the receipt waits
    for the application server. *)

Section life.
Context {S BW F A : Type} `{St : Store S} `{MP : Mpsc} {ML : MpscLaws} `{B64 : Base64} {BL : Base64Laws} `{JS : Json}
  `{PK : P256} `{HT : Http} `{HD : HttpDate} `{RH : ResponseHeaders} `{CS : ClientSerde}.
Context (view : S -> AStore) (inv : Env * S -> Prop).
Context (laws : StoreLaws view inv) (faults : FaultLaws view inv).
Abbreviation World := (World S BW).
Abbreviation App := (App BW F A).
Abbreviation winv := (winv inv).
Abbreviation wview := (wview view).
Implicit Types (w : World) (app : App).

(** [listener.rx.recv()] when something is there or the sender is gone *)
Definition recv (l : Listener) : ST World TryRecv :=
  with_hub (fun '(hub, ch) => let '(r, ch) := try_recv (l_rx l) ch in (r, (hub, ch))).

(** [l] is the listener for [to], with [queue] waiting for it and room for
    more. *)
Definition listening l to queue w : Prop :=
  exists slot cs, slots (w_hub w) !! to = Some slot /\ slot_tx slot = l_rx l /\
    chan_view (w_chans w) (l_rx l) = Some cs /\ ch_queue cs = queue /\ ch_rx cs = true /\
    (N.of_nat (length queue) < ch_cap cs)%N.

Lemma listening_rest l to queue w w' : same_rest w w' -> listening l to queue w -> listening l to queue w'.
Proof. intros Hs (slot & cs & H). exists slot, cs. by rewrite (sr_hub _ _ Hs), (sr_chans _ _ Hs). Qed.

(** An event for a recipient that listens here is queued behind the others,
    and nothing else happens. *)
Lemma notify_queues app l to queue ev w u w' : listening l to queue w -> Notify.notify app to ev w = (u, w') ->
  w_env w' = w_env w /\ w_store w' = w_store w /\
  exists cs, chan_view (w_chans w') (l_rx l) = Some cs /\ ch_queue cs = queue ++ [ev].
Proof.
  intros (slot & cs & Hslot & Htx & Hc & Hq & Hrx & Hcap) Hn.
  unfold Notify.notify in Hn. apply st_bind_eq in Hn as (n & w1 & Hh & Hn).
  unfold with_hub, Hub.notify in Hh. rewrite Hslot, Htx in Hh.
  destruct (try_send (l_rx l) ev (w_chans w)) as [r ch] eqn:Hs.
  pose proof (try_send_law _ _ _ _ _ _ Hc Hs) as Hlaw. cbn in Hlaw. rewrite Hrx, Hq in Hlaw. cbn in Hlaw.
  destruct (N.leb_spec (ch_cap cs) (N.of_nat (length queue))); [lia|]. destruct Hlaw as [-> Hv].
  injection Hh as <- <-. injection Hn as _ <-. cbn. split_and!; [done|done|]. rewrite Hv, decide_True by done. by eexists.
Qed.

(** What is queued is what the session wakes up for. *)
Lemma recv_first l ev queue w r w' cs : chan_view (w_chans w) (l_rx l) = Some cs -> ch_queue cs = ev :: queue ->
  recv l w = (r, w') -> r = Received ev /\ w_env w' = w_env w /\ w_store w' = w_store w.
Proof.
  intros Hc Hq. unfold recv, with_hub. destruct (try_recv (l_rx l) (w_chans w)) as [r0 ch] eqn:Hr.
  pose proof (try_recv_law _ _ _ _ _ Hc Hr) as Hlaw. rewrite Hq in Hlaw. destruct Hlaw as [-> _].
  by intros [= <- <-].
Qed.

(** A notification that was not sent before goes out at once. *)
Lemma serve_event app m w s : (forall n, so_ok (se_socket s) n = true) -> m_id m ∉ se_sent s ->
  exists s', serve_step app (SEvent (Some (EvMessage (notification_from m)))) (w, s) = (Ok false, (w, s')) /\
    se_uaid s' = se_uaid s /\ so_out (se_socket s') = so_out (se_socket s) ++ [note_frame m].
Proof.
  intros Hok Hnew. unfold serve_step, Session.notify, mbind, est_bind, self, update, send, send_text, send_frame.
  cbn. rewrite decide_False by done. cbn. rewrite Hok. eexists. split; [reflexivity|]. done.
Qed.

(** The ids a generator may still give out were not sent. *)
Definition unsent_ids w (s : Session) : Prop := forall e, env_extends (w_env w) e -> ~ (new_id e).1 ∈ se_sent s.

Lemma push_queues app push_id h body l queue w resp w1 (s : Session) :
  winv w -> fresh_ids view w -> unsent_ids w s ->
  (forall ua sub, sub_of (wview w) push_id sub -> a_uas (wview w) !! sub_uaid sub = Some ua ->
     sub_uaid sub = se_uaid s /\ Subscription.channel_id (sub_channel_id sub) = Some (sub_channel_id sub) /\
     ua_bridge ua = None) ->
  listening l (RUserAgent (se_uaid s)) queue w ->
  push app push_id h body w = (Ok resp, w1) ->
  exists m cs, winv w1 /\ a_msgs (wview w1) !! m_id m = Some m /\ m_body m = body /\ m_push m = push_id /\
    m_uaid m = se_uaid s /\ Subscription.channel_id (m_channel_id m) = Some (m_channel_id m) /\
    is_id (m_id m) = true /\ ~ (m_id m ∈ se_sent s) /\
    (forall rsub, m_rsub m = Some rsub -> is_Some (a_queues (wview w1) !! rsub)) /\
    chan_view (w_chans w1) (l_rx l) = Some cs /\ ch_queue cs = queue ++ [EvMessage (notification_from m)].
Proof.
  intros Hw Hf Huns Hsub Hl Hr.
  destruct (push_gate view inv laws _ _ _ _ _ _ _ Hw Hr) as [?|(t & [st|] & _ & Hm)]; [done|by naive_solver|].
  destruct Hm as (p & ua & w0 & Hp & He & Hs & Hd).
  destruct (Hsub ua (p_sub p) (pa_sub _ _ _ _ _ _ _ _ Hp) (pa_ua _ _ _ _ _ _ _ _ Hp)) as (Hu & Hch & Hbr).
  unfold deliver in Hd. rewrite Hbr in Hd.
  pose proof (fresh_ids_evolves view inv _ _ _ ltac:(by intros ? ? ->) He Hf) as Hf0.
  destruct (store_and_notify_steps view inv laws _ _ _ _ _ _ (proj1 He) Hf0 Hd)
    as (e & acc & rsub & q & w2 & Hee & Hno & Hw2 & Hs2 & Ht & Hv2 & Hn & _).
  rewrite Hu in Hn. pose proof (listening_rest _ _ _ _ _ Hs2 (listening_rest _ _ _ _ _ Hs Hl)) as Hl2.
  destruct (notify_queues _ _ _ _ _ _ _ _ Hl2 Hn) as (Henv & Hst & cs & Hc & Hq).
  set (m := new_message p push_id (new_id e).1 acc rsub) in *. exists m, cs.
  assert (Hv1 : wview w1 = wview w2) by (unfold Worlds.wview; by rewrite Hst).
  assert (He0 : env_extends (w_env w) e) by (etrans; [exact (proj1 (proj2 He))|exact Hee]).
  rewrite Hv1. split_and!; [by unfold Worlds.winv; rewrite Hst, Henv| |apply Hp|done|done|done|apply new_id_is_id| | |done|done].
  - rewrite Hv2. apply lookup_insert_eq.
  - by apply Huns.
  - intros r Hrs. change (rsub = Some r) in Hrs. subst rsub. unfold receipt_target in Ht.
    assert (Hv0 : wview w0 = wview w) by exact (evolves_eq_view view inv _ _ He).
    destruct (p_rsub_link p) as [id|] eqn:Hlink.
    + destruct Ht as [[= <-] ->]. rewrite Hv0. by apply (pa_link _ _ _ _ _ _ _ _ Hp).
    + destruct (p_respond_async p); [|by destruct Ht as [? _]]. destruct Ht as (id & [= <-] & _ & ->).
      eexists. apply lookup_insert_eq.
Qed.

(** C6: An accepted push to a user agent that is connected here becomes, without
    another read of the store, the next event of its session; the session
    sends it; and when the user agent acknowledges it, the message is gone,
    and the receipt it asked for, with status 204, waits in the queue of its
    receipt subscription, which exists. *)
Theorem message_life app push_id h body l w resp w1 ev w2 (s : Session) :
  winv w -> fresh_ids view w -> unsent_ids w s -> (forall n, so_ok (se_socket s) n = true) ->
  (forall ua sub, sub_of (wview w) push_id sub -> a_uas (wview w) !! sub_uaid sub = Some ua ->
     sub_uaid sub = se_uaid s /\ Subscription.channel_id (sub_channel_id sub) = Some (sub_channel_id sub) /\
     ua_bridge ua = None) ->
  listening l (RUserAgent (se_uaid s)) [] w ->
  push app push_id h body w = (Ok resp, w1) -> recv l w1 = (ev, w2) ->
  exists m s', m_body m = body /\ m_push m = push_id /\ a_msgs (wview w2) !! m_id m = Some m /\
    ev = Received (EvMessage (notification_from m)) /\
    serve_step app (SEvent (Some (EvMessage (notification_from m)))) (w2, s) = (Ok false, (w2, s')) /\
    so_out (se_socket s') = so_out (se_socket s) ++ [note_frame m] /\
    forall x w3 s3, seq_room 1 (w_env w2) ->
      ack app {| au_channel_id := m_channel_id m; au_version := m_id m; au_code := None |} (w2, s') = (Ok x, (w3, s3)) ->
      a_msgs (wview w3) !! m_id m = None /\
      forall rsub, m_rsub m = Some rsub -> exists q seq, a_queues (wview w3) !! rsub = Some q /\
        q !! seq = Some {| r_rsub := rsub; r_msg_id := m_id m; r_status := 204 |}.
Proof.
  intros Hw Hf Huns Hok Hsub Hl Hpush Hrecv.
  destruct (push_queues _ _ _ _ _ _ _ _ _ _ Hw Hf Huns Hsub Hl Hpush)
    as (m & cs & Hw1 & Hm & Hb & Hp & Hu & Hch & Hid & Hnew & Hrs & Hc & Hq).
  destruct (recv_first _ _ _ _ _ _ _ Hc Hq Hrecv) as (-> & He2 & Hs2).
  assert (Hw2 : winv w2) by (by unfold Worlds.winv; rewrite Hs2, He2).
  assert (Hv2 : wview w2 = wview w1) by (unfold Worlds.wview; by rewrite Hs2).
  destruct (serve_event app m w2 s Hok Hnew) as (s' & Hserve & Hu' & Hout).
  exists m, s'. rewrite Hv2. split_and!; [done..|]. intros x w3 s3 Hroom Hack.
  destruct (ack_settled _ _ laws faults _ _ _ _ _ _ _ Hw2 Hroom Hack) as [_ Ha]. unfold acked in Ha. cbn in Ha.
  rewrite Hch in Ha. cbn in Ha. rewrite Hv2, Hm in Ha. cbn in Ha.
  rewrite Hid, bool_decide_true in Ha by (unfold m_owner; by rewrite Hu', Hu).
  destruct Ha as (a & Hset & Hro). apply routes_only_fields in Hro as (_ & _ & Hms & Hqs).
  rewrite Hms, Hqs. unfold settled, receipt_for in Hset. destruct (m_rsub m) as [rsub|] eqn:Hr; cbn in Hset.
  2:{ subst a. cbn. split; [apply lookup_delete_eq|done]. }
  destruct (Hrs _ eq_refl) as [q Hqr]. rewrite Hqr in Hset. destruct Hset as [seq ->]. cbn.
  split; [apply lookup_delete_eq|]. intros ? [= <-]. eexists _, seq. unfold enqueue. cbn.
  rewrite lookup_alter_eq, Hqr. cbn. split; [reflexivity|apply lookup_insert_eq].
Qed.
End life.

(** ** Example: a session of the demonstration's user agent *)
Definition live_hub := (Hub.register (RUserAgent session_ua) (new_hub 8, (∅, 0%N))).
Definition live_world : World State (list (Address * BridgeMessage)) := {|
  w_env := w_env demo_world; w_store := w_store demo_world;
  w_hub := live_hub.2.1; w_chans := live_hub.2.2; w_tasks := []; w_http := w_http demo_world;
  w_posts := []; w_bridges := [];
|}.
Definition live_listener : Listener :=
  {| l_rx := live_hub.1.2; l_to := RUserAgent session_ua; l_id := live_hub.1.1 |}.
Abbreviation live_push := (push (HT := list_http) (demo_app None) session_push demo_headers [x61] live_world).
Lemma live_push_ok : ok_status 202 live_push.1 = true.
Proof. vm_compute. reflexivity. Qed.
Lemma live_sub ua sub :
  sub_of (wview MemoryProofs.view live_world) session_push sub ->
  a_uas (wview MemoryProofs.view live_world) !! sub_uaid sub = Some ua ->
  sub_uaid sub = session_ua /\ Subscription.channel_id (sub_channel_id sub) = Some (sub_channel_id sub) /\
  ua_bridge ua = None.
Proof.
  intros Hsub Hua. pose proof (demo_session_sub ua sub Hsub Hua) as Hb. destruct Hsub as [Hp Hs].
  assert (Hall : map_Forall (fun _ sub => sub_push sub = session_push ->
    sub_uaid sub = session_ua /\ Subscription.channel_id (sub_channel_id sub) = Some (sub_channel_id sub))
    (MemoryStore.channels (w_store demo_world))) by (apply (bool_decide_unpack _); vm_compute; exact I).
  destruct (Hall _ _ Hs Hp). done.
Qed.
Lemma live_listening : listening live_listener (RUserAgent session_ua) [] live_world.
Proof. eexists _, _. split; [vm_compute; reflexivity|]. split; [reflexivity|]. split; [vm_compute; reflexivity|]. done. Qed.

#[local] Instance toy_client : ClientSerde := {| from_value := fun _ => None |}.
Lemma message_life_witness : exists resp w1 m s',
  live_push = (Ok resp, w1) /\
  (recv live_listener w1).1 = Received (EvMessage (notification_from m)) /\
  so_out (se_socket s') = [note_frame m].
Proof.
  pose proof live_push_ok as Hok. destruct live_push as [[resp|e] w1] eqn:Hr; [|discriminate Hok].
  destruct (recv live_listener w1) as [ev w2] eqn:Hv.
  destruct (message_life (HT := list_http) MemoryProofs.view MemoryProofs.inv memory_laws memory_faults (demo_app None) session_push
    demo_headers [x61] live_listener live_world resp w1 ev w2 demo_session demo_winv demo_fresh
    (fun e _ => not_elem_of_empty _) (fun _ => eq_refl) live_sub live_listening Hr Hv)
    as (m & s' & _ & _ & _ & Hev & _ & Hout & _).
  exists resp, w1, m, s'. split; [reflexivity|]. split; [by rewrite Hv|exact Hout].
Defined.
