(* ===== verification/Typing.v ===== *)
(** * The types of what is stored

    Ids, channels, topics and tokens are strings with a form of their own. The
    handlers check what comes from outside and pass on what the store
    answers, so that only well-formed values ever reach the store, whatever
    the other tasks do. Among others, the parts of a Bigtable row key never
    hold the [#] that separates them. *)
From Stdlib Require Import Ascii.
From S2P Require Import Prelude RustStr External StoreTypes Store Hub Bridge Config App Notify Headers Subscription Session Ece Vapid Response Endpoint Registration Receipts Internal Calls System.

(** ** Well-formed values *)
Definition topic_ok (t : string) : Prop :=
  str_is_empty t = false /\ (str_len t <= 32)%N /\ str_all is_b64url t = true.
Definition channel_ok (c : string) : Prop := Subscription.channel_id c = Some c.
Abbreviation id_ok i := (is_id i = true).
Abbreviation uaid_ok u := (is_uaid u = true).

Record ua_typed (ua : UserAgent) : Prop := {
  ut_uaid : uaid_ok (ua_uaid ua);
  ut_token b : ua_bridge ua = Some b -> valid_token (ba_token b) = true;
}.
Record sub_typed (sub : Subscription) : Prop := {
  st_uaid : uaid_ok (sub_uaid sub);
  st_channel : channel_ok (sub_channel_id sub);
  st_push : id_ok (sub_push sub);
  st_vapid k : sub_vapid sub = Some k -> length k = 65;
}.
Record msg_typed (m : Message) : Prop := {
  mt_id : id_ok (m_id m);
  mt_uaid : uaid_ok (m_uaid m);
  mt_channel : channel_ok (m_channel_id m);
  mt_push : id_ok (m_push m);
  mt_topic t : m_topic m = Some t -> topic_ok t;
  mt_ttl : (m_ttl m <= u32_max)%N;
  mt_rsub r : m_rsub m = Some r -> id_ok r;
}.
Record receipt_typed (r : Receipt) : Prop := {
  rt_rsub : id_ok (r_rsub r);
  rt_msg : id_ok (r_msg_id r);
  rt_status : r_status r = 204%N \/ r_status r = 410%N;
}.
Definition to_typed (to : Recipient) : Prop :=
  match to with RUserAgent u => uaid_ok u | RReceipts r => id_ok r end.
Definition opt {X} (P : X -> Prop) (o : option X) : Prop := forall x, o = Some x -> P x.
Definition receipts_typed (rs : list (N * Receipt)) : Prop := Forall (fun nr => receipt_typed nr.2) rs.

(** The arguments and the answer of a call. *)
Definition call_typed {X} (c : Call X) : Prop :=
  match c with
  | CCreateUserAgent ua => ua_typed ua
  | CUserAgent u | CTouchUserAgent u _ | CDeleteUserAgent u | CSubscriptions u | CPending u _ _ => uaid_ok u
  | CUpdateBridgeToken u token => uaid_ok u /\ valid_token token = true
  | CChannel u c | CDeleteSubscription u c => uaid_ok u /\ channel_ok c
  | CCreateSubscription u c v => uaid_ok u /\ channel_ok c /\ opt (fun k => length k = 65) v
  | CSubscriptionByPush i | CMessage i | CReceiptSubExists i | CDeleteReceiptSub i
  | CQueuedReceipts i | CDeleteReceipt i _ => id_ok i
  | CInsertMessage m => msg_typed m
  | CDeleteMessage i owner => id_ok i /\ opt (fun uc => uaid_ok uc.1 /\ channel_ok uc.2) owner
  | CEnqueueReceipt r => receipt_typed r
  | CSetRoute to _ | CRoute to | CClearRoute to _ => to_typed to
  | CExpireUserAgents _ | CReap _ | CCreateReceiptSub => True
  end.
Definition answer_typed {X} (c : Call X) : X -> Prop :=
  match c in Call X return X -> Prop with
  | CUserAgent u => opt (fun ua => ua_typed ua /\ ua_uaid ua = u)
  | CDeleteUserAgent _ | CDeleteSubscription _ _ | CReap _ | CQueuedReceipts _ => receipts_typed
  | CExpireUserAgents _ => fun r => receipts_typed r.2
  | CSubscriptions _ => Forall sub_typed
  | CChannel _ _ | CSubscriptionByPush _ => opt sub_typed
  | CCreateSubscription _ _ _ => sub_typed
  | CPending _ _ _ => Forall msg_typed
  | CMessage _ | CDeleteMessage _ _ => opt msg_typed
  | CCreateReceiptSub => fun i => id_ok i
  | _ => fun _ => True
  end.

(** On a result: nothing is known of an error. *)
Definition on_ok {E X} (Q : X -> Prop) (r : result E X) : Prop := match r with Ok x => Q x | Err _ => True end.

(** A log that keeps to the types as long as its answers do, and what holds
    at its end. *)
Fixpoint keeps (end_ : Prop) (log : list Entry) : Prop :=
  match log with
  | [] => end_
  | Called c r :: log => call_typed c /\ (on_ok (answer_typed c) r -> keeps end_ log)
  end.
Lemma keeps_app (P Q : Prop) l l' : keeps P l -> (P -> keeps Q l') -> keeps Q (l ++ l').
Proof. induction l as [|[X c r] l IH]; cbn; [auto|]. intros [Hc Hl] Hq. auto. Qed.
Lemma keeps_impl (P Q : Prop) l : (P -> Q) -> keeps P l -> keeps Q l.
Proof. intros HPQ. induction l as [|[X c r] l IH]; cbn; [auto|]. intros [Hc Hl]. auto. Qed.

(** ** Checking a computation

    [checks A m Q]: assuming [A], [m] keeps to the types and ends with a
    result satisfying [Q]. A session knows its own user agent. *)
Class HasInv (W : Type) : Type := inv_of : W -> Prop.
#[export] Instance inv_asked : HasInv (Env * Asked) := fun _ => True.
#[export] Instance inv_world {BW} `{Mpsc} : HasInv (World Asked BW) := fun _ => True.
#[export] Instance inv_session {W} : HasInv (W * Session) := fun '(_, s) => uaid_ok (se_uaid s).
#[export] Instance inv_pump {W} : HasInv (W * Pump) := fun _ => True.

Definition checks {W X} `{HasLog W, HasInv W} (A : Prop) (m : ST W X) (Q : X -> Prop) : Prop :=
  forall w, exists l, log_of (m w).2 = log_of w ++ l /\
    (A -> inv_of w -> keeps (Q (m w).1 /\ inv_of (m w).2) l).

Section checks.
Context {W : Type} `{HasLog W, HasInv W}.
Implicit Types (A : Prop).

Lemma checks_silent {X} A (m : ST W X) (Q : X -> Prop) : (forall w, log_of (m w).2 = log_of w) ->
  (forall w, A -> inv_of w -> Q (m w).1 /\ inv_of (m w).2) -> checks A m Q.
Proof. intros Hl Hq w. exists []. rewrite app_nil_r. split; [apply Hl|]. cbn. auto. Qed.
Lemma checks_weaken {X} A (m : ST W X) (Q Q' : X -> Prop) :
  checks A m Q -> (forall x, A -> Q x -> Q' x) -> checks A m Q'.
Proof.
  intros Hm HQ w. destruct (Hm w) as (l & Hl & Hk). exists l. split; [done|]. intros HA Hi.
  eapply keeps_impl; [|by apply Hk]. intros [? ?]. auto.
Qed.
Lemma checks_assume {X} A A' (m : ST W X) Q : checks A' m Q -> (A -> A') -> checks A m Q.
Proof. intros Hm HA w. destruct (Hm w) as (l & Hl & Hk). exists l. auto. Qed.

Lemma checks_bind {X Y} A (m : ST W X) (f : X -> ST W Y) Q R :
  checks A m Q -> (forall x, checks (A /\ Q x) (f x) R) -> checks A (m ≫= f : ST W Y) R.
Proof.
  intros Hm Hf w. destruct (Hm w) as (l & Hl & Hk). unfold mbind, st_bind.
  destruct (m w) as [x w1]. cbn in Hl, Hk. destruct (Hf x w1) as (l' & Hl' & Hk').
  exists (l ++ l'). rewrite Hl', Hl, app_assoc. split; [done|]. intros HA Hi.
  eapply keeps_app; [by apply Hk|]. intros [? ?]. auto.
Qed.
Lemma checks_est_bind {E X Y} A (m : EST W E X) (f : X -> EST W E Y) (Q : X -> Prop) (R : Y -> Prop) :
  checks A m (on_ok Q) -> (forall x, checks (A /\ Q x) (f x) (on_ok R)) ->
  checks (X := result E Y) A (m ≫= f : EST W E Y) (on_ok R).
Proof.
  intros Hm Hf w. destruct (Hm w) as (l & Hl & Hk). unfold mbind, est_bind.
  destruct (m w) as [[x|e] w1]; cbn in Hl, Hk.
  - destruct (Hf x w1) as (l' & Hl' & Hk'). exists (l ++ l'). rewrite Hl', Hl, app_assoc. split; [done|].
    intros HA Hi. eapply keeps_app; [by apply Hk|]. intros [? ?]. auto.
  - exists l. cbn. auto.
Qed.
Lemma checks_ret {X} A (x : X) (Q : X -> Prop) : (A -> Q x) -> checks A (mret x : ST W X) Q.
Proof. intros HQ. apply checks_silent; [done|]. intros w HA Hi. split; [by apply HQ|done]. Qed.
Lemma checks_est_ret {E X} A (x : X) (Q : X -> Prop) : (A -> Q x) -> checks (X := result E X) A (mret x : EST W E X) (on_ok Q).
Proof. intros HQ. apply checks_silent; [done|]. intros w HA Hi. split; [by apply HQ|done]. Qed.
Lemma checks_throw {E X} A (e : E) (Q : X -> Prop) : checks (X := result E X) A (throw e : EST W E X) (on_ok Q).
Proof. apply checks_silent; [done|]. intros w HA Hi. by split. Qed.
Lemma checks_lift_result {E X} A (r : result E X) (Q : X -> Prop) : (forall x, A -> r = Ok x -> Q x) ->
  checks (X := result E X) A (lift_result r : EST W E X) (on_ok Q).
Proof. intros HQ. apply checks_silent; [done|]. intros w HA Hi. split; [|done]. destruct r; cbn; auto. Qed.
Lemma checks_lift_st {E X} A (m : ST W X) (Q : X -> Prop) : checks A m Q ->
  checks (X := result E X) A (lift_st m : EST W E X) (on_ok Q).
Proof. intros Hm w. destruct (Hm w) as (l & Hl & Hk). exists l. unfold lift_st. by destruct (m w). Qed.
Lemma checks_attempt {E X} A (m : EST W E X) (Q : X -> Prop) : checks (X := result E X) A m (on_ok Q) ->
  checks (X := result E X) A m (on_ok Q).
Proof. done. Qed.
End checks.

(** ** The store and the rest of the world *)
Section world.
Context {BW F A : Type} `{MP : Mpsc} `{B64 : Base64} {BL : Base64Laws}.
Abbreviation World := (World Asked BW).
Implicit Types (app : App BW F A) (H : Prop).

Lemma checks_ask {X} H (c : Call X) : (H -> call_typed c) -> checks H (ask c) (on_ok (answer_typed c)).
Proof.
  intros Hc [e t]. eexists. split; [reflexivity|]. intros HH _. cbn. split; [auto|]. by intros Ha.
Qed.
Lemma checks_with_store {X} H (m : SM Asked X) Q : checks H m Q -> checks H (with_store m : EST World BoxError X) Q.
Proof.
  intros Hm w. destruct (Hm (w_env w, w_store w)) as (l & Hl & Hp). exists l. unfold with_store.
  destruct (m (w_env w, w_store w)) as [r [e t]]. split; [done|]. intros HH _. by apply Hp.
Qed.
Lemma checks_map_err {E E' X} H (m : EST World E X) (f : E -> E') (Q : X -> Prop) : checks H m (on_ok Q) ->
  checks H (fun w => let '(r, w) := m w in (map_err f r, w) : result E' X * World) (on_ok Q).
Proof.
  intros Hm w. destruct (Hm w) as (l & Hl & Hp). exists l. destruct (m w) as [r w1]. split; [done|].
  intros HH Hi. eapply keeps_impl; [|by apply Hp]. intros [? ?]. split; [by destruct r|done].
Qed.
Lemma checks_stored {X} H (m : SM Asked X) (Q : X -> Prop) : checks H m (on_ok Q) ->
  checks H (stored m : EST World Error X) (on_ok Q).
Proof. intros Hm. by apply checks_map_err, checks_with_store. Qed.
Lemma checks_boxed {X} H (m : EST World BoxError X) (Q : X -> Prop) : checks H m (on_ok Q) ->
  checks H (boxed m) (on_ok Q).
Proof. apply checks_map_err. Qed.

Lemma checks_with_env {X} H (m : ST Env X) (Q : X -> Prop) : (forall e, H -> Q (m e).1) ->
  checks H (with_env m : ST World X) Q.
Proof.
  intros HQ. apply checks_silent; intros w; unfold with_env; destruct (m (w_env w)) as [x e] eqn:E; [done|].
  intros HH _. split; [|done]. cbn. specialize (HQ (w_env w) HH). by rewrite E in HQ.
Qed.
Lemma checks_with_hub {X} H (m : ST (Hub * Chans) X) (Q : X -> Prop) : (forall x, Q x) ->
  checks H (with_hub m : ST World X) Q.
Proof. intros HQ. apply checks_silent; intros w; unfold with_hub; destruct (m _) as [? [? ?]]; [done|by intros; split; [apply HQ|]]. Qed.
Lemma checks_with_bridges {E X} H (m : EST BW E X) (Q : X -> Prop) : (forall x, Q x) ->
  checks H (with_bridges m : EST World E X) (on_ok Q).
Proof.
  intros HQ. apply checks_silent; intros w; unfold with_bridges; destruct (m _) as [r b]; [done|].
  intros _ _. split; [destruct r; [apply HQ|done]|done].
Qed.
Lemma checks_spawn H t (Q : unit -> Prop) : Q () -> checks H (App.spawn t : ST World unit) Q.
Proof. intros HQ. by apply checks_silent. Qed.
Lemma checks_post H url token body (Q : HttpOutcome -> Prop) : (forall x, Q x) ->
  checks H (post url token body : ST World HttpOutcome) Q.
Proof. intros HQ. by apply checks_silent. Qed.
End world.

(** Take a handler apart. A condition of the form [checks _ m ?Q] is closed by
    the first call it meets. *)
Ltac nothing := fun _ => exact I.
Ltac result_step Q :=
  tryif has_evar Q then (apply (checks_lift_result _ _ (fun _ => True)); done) else apply checks_lift_result.
Ltac ty_step := intros; cbv zeta; lazymatch goal with
  | |- checks _ (let '(_, _) := ?p in _) _ => destruct p
  | |- checks _ (@mbind _ (@est_bind _ _) _ _ _ _) _ => eapply checks_est_bind
  | |- checks _ (@mbind _ (@st_bind _) _ _ _ _) _ => eapply checks_bind
  | |- checks _ (@mret _ (@est_ret _ _) _ _) _ => apply checks_est_ret
  | |- checks _ (@mret _ (@st_ret _) _ _) _ => apply checks_ret
  | |- checks _ (throw _) _ => apply checks_throw
  | |- checks _ (refuse _) _ => apply checks_throw
  | |- checks _ (lift_result _) ?Q => result_step Q
  | |- checks _ (header _) ?Q => result_step Q
  | |- checks _ (or_status _ _) ?Q => result_step Q
  | |- checks _ (env _) _ => apply checks_lift_st
  | |- checks _ (lift_st _) _ => apply checks_lift_st
  | |- checks ?H (attempt ?m) ?Q => change (checks H m Q)
  | |- checks _ (with_store _) _ => apply checks_with_store
  | |- checks _ (stored _) _ => apply checks_stored
  | |- checks _ (boxed _) _ => apply checks_boxed
  | |- checks _ (with_hub _) _ => apply (checks_with_hub _ _ (fun _ => True)); done
  | |- checks _ (App.spawn _) _ => apply (checks_spawn _ _ (fun _ => True)); done
  | |- checks _ (post _ _ _) _ => apply (checks_post _ _ _ _ (fun _ => True)); done
  | |- checks _ (with_env _) ?Q =>
      tryif has_evar Q then (apply (checks_with_env _ _ (fun _ => True)); done) else apply checks_with_env
  | |- checks _ (match ?x with _ => _ end) ?Q => tryif has_evar Q then fail else destruct x eqn:?
  | |- checks _ _ _ => apply checks_ask
  end.
Ltac ty := repeat ty_step.
(** What is left are facts about values. *)
Ltac values := intros; cbn [call_typed answer_typed on_ok] in *; destruct_ex; subst; try done; eauto.

Section notify.
Context {BW F A : Type} `{MP : Mpsc} `{B64 : Base64} {BL : Base64Laws}.
Abbreviation World := (World Asked BW).
Implicit Types (app : App BW F A) (H : Prop).
Abbreviation unit_ok := (fun _ : unit => True).

Lemma ty_clear_stale H to node : (H -> to_typed to) -> checks H (clear_stale to node : ST World unit) unit_ok.
Proof. intros Ht. unfold clear_stale. ty; values. Qed.
Lemma ty_forward H app node to ev : (H -> to_typed to) -> checks H (forward app node to ev) unit_ok.
Proof.
  intros Ht. unfold forward. ty; values; apply ty_clear_stale; values.
Qed.
Lemma ty_notify H app to ev : (H -> to_typed to) -> checks H (Notify.notify app to ev) unit_ok.
Proof.
  intros Ht. unfold Notify.notify. ty; values; try (apply ty_clear_stale; values); try (apply ty_forward; values).
Qed.
Lemma ty_notify_receipts app rs : forall H, (H -> receipts_typed rs) -> checks H (notify_receipts app rs) unit_ok.
Proof.
  induction rs as [|[sq r] rs IH]; intros H Hrs; cbn [notify_receipts]; ty; values.
  - apply ty_notify. intros HH. apply Hrs in HH. apply Forall_cons in HH as [Hr _]. by apply rt_rsub in Hr.
  - apply IH. intros [HH _]. apply Hrs in HH. by apply Forall_cons in HH as [_ Hr].
Qed.
Lemma ty_owe_receipt app m status H : (H -> msg_typed m) -> (status = 204 \/ status = 410)%N ->
  checks H (owe_receipt app m status) (on_ok unit_ok).
Proof.
  intros Hm Hst. unfold owe_receipt. destruct (m_rsub m) as [rsub|] eqn:Hr; [|ty; values].
  assert (Hrc : H -> receipt_typed {| r_rsub := rsub; r_msg_id := m_id m; r_status := status |}).
  { intros HH%Hm. split; [by apply (mt_rsub _ HH)|apply (mt_id _ HH)|done]. }
  eapply checks_est_bind; [ty; values|]. intros [sq|]; ty; values.
  apply ty_notify_receipts. intros [HH _]. constructor; [by apply Hrc|constructor].
Qed.
Lemma ty_drop_listener H app l : checks H (drop_listener app l : ST World unit) unit_ok.
Proof.
  unfold drop_listener, with_chans. apply (checks_bind _ _ _ (fun _ => True)); [ty|]. intros b.
  apply (checks_bind _ _ _ (fun _ => True)); [|intros u; ty]. destruct b; [destruct (app_cluster app)|]; ty; values.
Qed.
Lemma ty_listen H app to : (H -> to_typed to) -> checks H (listen app to : EST World BoxError Listener) (on_ok (fun _ => True)).
Proof.
  intros Ht. unfold listen. apply (checks_est_bind _ _ _ (fun _ => True)); [ty|]. intros [id rx].
  destruct (app_cluster app) as [c|]; [|ty; values]. eapply checks_est_bind; [ty; values|]. intros [previous|e].
  - apply (checks_est_bind _ _ _ (fun _ => True)); [|ty; values].
    destruct previous as [node|]; [case_decide|]; ty; values.
  - apply (checks_est_bind _ _ _ (fun _ => True)); [|ty; values]. apply checks_lift_st, ty_drop_listener.
Qed.
Definition task_typed (t : Task) : Prop := match t with TClearRoute to _ | TForward _ to _ => to_typed to end.
Lemma ty_run_task H app t : (H -> task_typed t) -> checks H (run_task app t) unit_ok.
Proof. intros Ht. destruct t; cbn; [by apply ty_clear_stale|by apply ty_forward]. Qed.
End notify.

(** ** The application server API *)
Section endpoint.
Context {BW F A : Type} `{MP : Mpsc} `{B64 : Base64} {BL : Base64Laws} `{JS : Json} `{PK : P256} `{HT : Http}
  `{HD : HttpDate} `{RH : ResponseHeaders}.
Abbreviation World := (World Asked BW).
Implicit Types (app : App BW F A) (H : Prop).
Abbreviation anything := (on_ok (fun _ => True)).

Lemma ty_valid H i : checks H (lift_result (valid i) : EST World Error string) (on_ok (fun j => id_ok j)).
Proof. ty. unfold valid. intros j _. destruct (is_id i) eqn:Hi; [by intros [= <-]|done]. Qed.

Record push_typed (p : Push) : Prop := {
  pt_sub : sub_typed (p_sub p);
  pt_ttl : (p_ttl p <= u32_max)%N;
  pt_topic : opt topic_ok (p_topic p);
  pt_link : opt (fun i => id_ok i) (p_rsub_link p);
}.
Lemma topic_typed h o : topic h = Ok o -> opt topic_ok o.
Proof.
  unfold topic. intros (v & _ & Ht)%result_bind_Ok t ->. destruct v as [s|]; [|done].
  destruct (str_is_empty s) eqn:He, (N.ltb_spec 32 (str_len s)) as [?|Hl], (str_all is_b64url s) eqn:Ha; try done.
  injection Ht as <-. by split_and!.
Qed.
Lemma effective_ttl_bound app n : (effective_ttl app n <= u32_max)%N.
Proof.
  unfold effective_ttl. etrans; [apply N.le_min_l|]. unfold u32_try_from. case_decide; cbn; lia.
Qed.

Lemma ty_check_vapid H headers restricted origin : checks H (check_vapid (BW := BW) headers restricted origin) anything.
Proof.
  unfold check_vapid. apply (checks_est_bind _ _ _ (fun _ => True)); [ty; values|]. intros [creds|]; ty; values.
Qed.
Lemma ty_rsub_of_link H app headers b : checks H (rsub_of_link app headers b) (on_ok (opt (fun i => id_ok i))).
Proof.
  unfold rsub_of_link. destruct (Headers.link headers REL_RECEIPT) as [target|]; [|ty; by intros _ i].
  destruct b; [|ty; by intros _ i].
  apply (checks_est_bind _ _ _ (fun i => id_ok i)).
  - ty. intros i _ Hi. unfold resource_id in Hi. destruct (strip_prefix _ _) as [j|]; [|done]. cbn in Hi.
    destruct (is_id j) eqn:?; [|done]. cbn in Hi. by injection Hi as <-.
  - intros i. ty; values. intros j [= <-]. naive_solver.
Qed.
Lemma ty_store_and_notify H app p push_id : (H -> push_typed p /\ id_ok push_id) ->
  checks H (store_and_notify app p push_id) anything.
Proof.
  intros Hp. unfold store_and_notify.
  apply (checks_est_bind _ _ _ (opt (fun i => id_ok i))).
  { destruct (p_rsub_link p) as [i|] eqn:Hi; [|destruct (p_respond_async p)]; ty; values.
    - intros ? [= <-]. destruct (Hp H0) as [[_ _ _ Hl] _]. by apply Hl.
    - by intros ? [= <-]. }
  intros rsub. apply (checks_est_bind _ _ _ (fun _ => True)); [ty; values|]. intros accepted.
  apply (checks_est_bind _ _ _ (fun i => id_ok i)); [ty; intros; apply new_id_is_id|]. intros id. cbv zeta.
  eapply checks_est_bind; [ty|].
  - intros [[[HH Hr] _] Hi]. destruct (Hp HH) as [[Hs Ht Hto _] Hpi]. split; cbn; try done; try apply Hs.
  - intros []. apply (checks_est_bind _ _ _ (fun _ => True)); [|ty; values]. apply checks_lift_st, ty_notify.
    intros HH. destruct HH as [[[[HH _] _] _] _]. destruct (Hp HH) as [[Hs _ _ _] _]. apply Hs.
Qed.
Lemma ty_bridge_error H app u e : (H -> uaid_ok u) -> checks H (bridge_error app u e) (fun _ => True).
Proof.
  intros Hu. destruct e; cbn [bridge_error]; try solve [ty; values].
  eapply checks_bind; [ty; values|]. intros a.
  apply (checks_bind _ _ _ (fun _ => True)); [|ty; values]. destruct a as [rs|er]; [|ty; values].
  apply ty_notify_receipts. by intros [_ Hrs].
Qed.
Lemma ty_bridge H app p to : (H -> push_typed p) -> checks H (bridge app p to) anything.
Proof.
  intros Hp. unfold bridge. destruct (app_bridges app !! ba_bridge to); [|ty].
  apply (checks_est_bind _ _ _ (fun _ => True)); [ty; values|]. intros id. cbv zeta.
  apply (checks_est_bind _ _ _ (fun _ => True)).
  { apply checks_lift_st. change (checks (H /\ True) (with_bridges (b_send s {| ad_app_id := ba_app_id to; ad_token := ba_token to |}
      (bridge_message p id)) : EST World Bridge.Error unit) (fun _ => True)).
    eapply checks_weaken; [by apply (checks_with_bridges _ _ (fun _ => True))|done]. }
  intros [[]|e]; [ty; values|]. apply (checks_est_bind _ _ _ (fun _ => True)); [|ty].
  apply checks_lift_st, ty_bridge_error. intros [[HH _] _]. apply (pt_sub _ (Hp HH)).
Qed.

Lemma ty_push H app i headers body : checks H (push app i headers body) anything.
Proof.
  unfold push. eapply checks_est_bind; [apply ty_valid|]. intros push_id.
  eapply checks_est_bind; [ty; values|]. intros o. cbn [answer_typed].
  apply (checks_est_bind _ _ _ sub_typed). { ty. intros sub [_ Hs] Ho. destruct o; [|done]. injection Ho as ->. by apply Hs. }
  intros sub. apply (checks_est_bind _ _ _ (fun _ => True)); [ty; values|]. intros n. cbv zeta.
  apply (checks_est_bind _ _ _ (fun _ => True)); [ty; values|]. intros u.
  apply (checks_est_bind _ _ _ (opt topic_ok)).
  { ty. intros t _ Ht. destruct (topic headers) as [t'|] eqn:E; [|done]. injection Ht as <-. by eapply topic_typed. }
  intros t. eapply checks_est_bind; [apply ty_rsub_of_link|]. intros link.
  eapply checks_est_bind; [apply ty_check_vapid|]. intros key.
  match goal with |- checks _ (if ?c then _ else _) _ => destruct c end; [ty|].
  eapply checks_est_bind; [ty; values; apply st_uaid; naive_solver|]. intros ua.
  apply (checks_est_bind _ _ _ (fun _ => True)); [ty; values|]. intros ua'.
  assert (Hp : forall p, p_sub p = sub -> p_ttl p = effective_ttl app n -> p_topic p = t -> p_rsub_link p = link ->
    sub_typed sub -> opt topic_ok t -> opt (fun i => id_ok i) link -> push_typed p).
  { intros p <- Httl <- <- Hs Ht Hl. split; try done. rewrite Httl. apply effective_ttl_bound. }
  destruct (ua_bridge ua') as [to|].
  - apply ty_bridge. intros HH. apply Hp; naive_solver.
  - apply ty_store_and_notify. intros HH. split; [apply Hp; naive_solver|naive_solver].
Qed.
Lemma ty_read_message H app i : checks H (read_message app i) anything.
Proof.
  unfold read_message. eapply checks_est_bind; [apply ty_valid|]. intros id.
  eapply checks_est_bind; [ty; values|]. intros m. apply (checks_est_bind _ _ _ (fun _ => True)); ty; values.
Qed.
Lemma ty_withdraw_message H app i : checks H (withdraw_message app i : EST World Error StatusCode) anything.
Proof.
  unfold withdraw_message. eapply checks_est_bind; [apply ty_valid|]. intros id. ty; values.
Qed.
Lemma ty_delete_receipt_sub H app i : checks H (Endpoint.delete_receipt_sub app i) anything.
Proof.
  unfold Endpoint.delete_receipt_sub. eapply checks_est_bind; [apply ty_valid|]. intros id. ty; values.
  apply ty_notify. naive_solver.
Qed.
End endpoint.

(** ** The registration API and the internal listener *)
Section registration.
Context {BW F A : Type} `{MP : Mpsc} `{B64 : Base64} {BL : Base64Laws} `{JS : Json} `{PK : P256} `{HT : Http}
  `{HM : Hmac} `{RH : ResponseHeaders} `{AS : ApiSerde}.
Abbreviation World := (World Asked BW).
Implicit Types (app : App BW F A) (H : Prop).
Abbreviation anything := (on_ok (fun _ => True)).

Lemma channel_id_ok s c : Subscription.channel_id s = Some c -> channel_ok c.
Proof.
  unfold channel_ok, Subscription.channel_id. destruct (_ && _) eqn:E; [|done]. intros [= <-].
  apply andb_true_iff in E as [El Eu]. unfold to_ascii_lowercase at 1. rewrite str_len_map, uuid_bytes_lower, El, Eu. cbn.
  by rewrite lowercase_idempotent.
Qed.
Lemma vapid_key_length s k : vapid_key s = Some k -> length k = 65.
Proof. unfold vapid_key. intros (b & _ & Hk)%bind_Some. repeat case_match; naive_solver. Qed.

Lemma ty_register H u c v : (H -> uaid_ok u /\ channel_ok c /\ opt (fun k => length k = 65) v) ->
  checks H (Subscription.register (S := Asked) u c v) anything.
Proof.
  intros Hu. unfold Subscription.register. eapply checks_est_bind; [ty; values; naive_solver|].
  intros [sub|]; [case_decide|]; ty; values.
Qed.
Lemma ty_authorize H app headers u : checks H (authorize app headers u) (on_ok (fun _ => uaid_ok u)).
Proof.
  unfold authorize. cbv zeta.
  match goal with |- context [negb (is_uaid u) || ?k] => destruct (is_uaid u) eqn:Hu; cbn [negb orb]; [destruct k|] end; [ty| |ty].
  eapply checks_est_bind; [ty; values|]. intros o. ty; values.
Qed.
Lemma ty_create H app body : checks H (Registration.create app body) anything.
Proof.
  unfold Registration.create. cbv zeta.
  match goal with |- context [?k || negb (valid_token ?t)] =>
    destruct k; cbn [orb]; [ty|destruct (valid_token t) eqn:Ht; cbn [negb]; [|ty]] end.
  apply (checks_est_bind _ _ _ (fun u => uaid_ok u)); [ty; intros; apply new_uaid_is_uaid|]. intros u.
  apply (checks_est_bind _ _ _ (fun _ => True)); [ty; values|]. intros now. cbv zeta.
  apply (checks_est_bind _ _ _ (fun _ => True)); [ty; values|]. intros secret.
  eapply checks_est_bind; [ty|ty; values]. intros HH. split; cbn; [naive_solver|]. by intros b [= <-].
Qed.
Lemma ty_read H app u headers : checks H (Registration.read app u headers) anything.
Proof.
  unfold Registration.read. eapply checks_est_bind; [apply ty_authorize|]. intros ua. ty; values; naive_solver.
Qed.
Lemma ty_update_token H app u headers body : checks H (update_token app u headers body : EST World Error StatusCode) anything.
Proof.
  unfold update_token. eapply checks_est_bind; [apply ty_authorize|]. intros ua.
  destruct (valid_token (u_token body)) eqn:Ht; cbn [negb]; [|ty]. ty; values; naive_solver.
Qed.
Lemma ty_delete H app u headers : checks H (Registration.delete app u headers) anything.
Proof.
  unfold Registration.delete. eapply checks_est_bind; [apply ty_authorize|]. intros ua.
  eapply checks_est_bind; [ty; values; naive_solver|]. intros rs. cbn [answer_typed].
  apply (checks_est_bind _ _ _ (fun _ => True)); [|ty; values]. apply checks_lift_st, ty_notify_receipts. naive_solver.
Qed.
Lemma ty_subscribe H app u c headers body : checks H (subscribe app u c headers body) anything.
Proof.
  unfold subscribe. eapply checks_est_bind; [apply ty_authorize|]. intros ua.
  apply (checks_est_bind _ _ _ (fun _ => True)); [ty; values|]. intros b.
  apply (checks_est_bind _ _ _ channel_ok).
  { ty. intros ch _ Hc. destruct (Subscription.channel_id c) eqn:E; [|done]. injection Hc as <-. by eapply channel_id_ok. }
  intros ch. apply (checks_est_bind _ _ _ (opt (fun k => length k = 65))).
  { destruct (s_key b) as [k|]; cbn; [destruct (vapid_key k) eqn:Hk|]; ty; values.
    intros ? [= <-]. by eapply vapid_key_length. }
  intros v. apply (checks_est_bind _ _ _ (fun _ => True)); [|ty; values].
  apply checks_stored, ty_register. naive_solver.
Qed.
Lemma ty_unsubscribe H app u c headers : checks H (unsubscribe app u c headers) anything.
Proof.
  unfold unsubscribe. eapply checks_est_bind; [apply ty_authorize|]. intros ua.
  apply (checks_est_bind _ _ _ channel_ok).
  { ty. intros ch _ Hc. destruct (Subscription.channel_id c) eqn:E; [|done]. injection Hc as <-. by eapply channel_id_ok. }
  intros ch. eapply checks_est_bind; [ty; values; naive_solver|]. intros [sub|]; [|ty].
  eapply checks_est_bind; [ty; values; naive_solver|]. intros rs.
  apply (checks_est_bind _ _ _ (fun _ => True)); [|ty; values]. apply checks_lift_st, ty_notify_receipts. naive_solver.
Qed.

Lemma ty_ready H draining : checks H (ready (S := Asked) draining : ST World StatusCode) (fun _ => True).
Proof. unfold ready. ty; values. Qed.
Lemma ty_deliver H app headers envelope : checks H (deliver app headers envelope) (fun _ => True).
Proof. unfold deliver. ty; values. Qed.
Lemma ty_work H app k : checks H (work app k) (fun _ => True).
Proof.
  destruct k; cbn [work]; [unfold Internal.reap|unfold expire]; cbv zeta; (eapply checks_bind; [ty; values|]); intros now;
    (eapply checks_bind; [ty; values|]); intros [r|e]; try (ty; values; fail).
  - apply ty_notify_receipts. by intros [_ Hr].
  - destruct r as [n rs]. apply ty_notify_receipts. by intros [_ Hr].
Qed.
End registration.

(** ** Receipt streams *)
Section receipts.
Context {BW F A : Type} `{MP : Mpsc} `{B64 : Base64} {BL : Base64Laws} `{JS : Json} `{HT : Http} `{RH : ResponseHeaders}.
Abbreviation World := (World Asked BW).
Implicit Types (app : App BW F A) (H : Prop).
Abbreviation P X := (ST (World * Pump) X) (only parsing).

Lemma ty_or_drop {X} H app l (m : EST World Error X) (Q : X -> Prop) :
  checks H m (on_ok Q) -> checks H (or_drop app l m) (on_ok Q).
Proof.
  intros Hm w. destruct (Hm w) as (k & Hk & Hp). unfold or_drop.
  destruct (m w) as [[x|e] w1]; cbn in Hk; [by exists k|]. destruct l as [l|]; [|by exists k].
  destruct (ty_drop_listener True app l w1) as (k' & Hk' & Hp').
  destruct (drop_listener app l w1) as [u w2]. exists (k ++ k'). cbn in *. rewrite Hk', Hk, app_assoc.
  split; [done|]. intros HH Hi. eapply keeps_app; [by apply Hp|]. intros _. eapply keeps_impl; [|by apply Hp']. done.
Qed.
Lemma ty_stream H app i headers : checks H (stream app i headers) (on_ok (fun _ => True)).
Proof.
  unfold stream. cbv zeta. eapply checks_est_bind; [apply ty_valid|]. intros rsub.
  apply (checks_est_bind _ _ _ (fun _ => True)).
  - case_bool_decide; [ty; values|]. apply (checks_est_bind _ _ _ (fun _ => True)); [|ty; values].
    apply checks_boxed, ty_listen. naive_solver.
  - intros l. apply ty_or_drop. eapply checks_est_bind; [ty; values; naive_solver|]. intros known.
    destruct known; cbn [negb]; [|ty]. eapply checks_est_bind; [ty; values; naive_solver|]. intros backlog. ty; values.
Qed.

(** The receipts of an event. *)
Definition pump_typed (st : PumpStep) : Prop :=
  match st with PEvent (Some (EvReceipt _ r)) => receipt_typed r | _ => True end.
Lemma ty_pump {X} H (m : P X) (Q : X -> Prop) : (forall w, log_of (m w).2 = log_of w) -> (forall x, Q x) -> checks H m Q.
Proof. intros Hl HQ. by apply checks_silent. Qed.
Lemma ty_write H text : checks H (write text : P bool) (fun _ => True).
Proof. apply ty_pump; [|done]. intros [w p]. unfold write. by destruct (pu_ok _ _). Qed.
Lemma ty_receipts_world {X} H (m : ST World X) (Q : X -> Prop) : checks H m Q -> checks H (Receipts.in_world m : P X) Q.
Proof.
  intros Hm [w p]. destruct (Hm w) as (k & Hk & Hp). exists k. unfold Receipts.in_world. destruct (m w). split; [done|].
  intros HH _. eapply keeps_impl; [|by apply Hp]. by intros [? _].
Qed.
Lemma ty_emit H app sq r : (H -> receipt_typed r) -> checks H (emit app sq r) (fun _ => True).
Proof.
  intros Hr. unfold emit. apply (checks_bind _ _ _ (fun _ => True)); [apply ty_pump; [by intros [w p]|done]|]. intros new.
  destruct new; cbn [negb]; [|ty; values]. eapply checks_bind; [apply ty_write|]. intros open.
  destruct open; cbn [negb]; [|ty; values]. eapply checks_bind; [|intros u; ty; values].
  apply ty_receipts_world. ty; values. by apply rt_rsub, Hr.
Qed.
Lemma ty_emit_backlog app backlog : forall H open, (H -> receipts_typed backlog) ->
  checks H (emit_backlog app backlog open) (fun _ => True).
Proof.
  induction backlog as [|[sq r] backlog IH]; intros H open Hb; cbn [emit_backlog]; [ty; values|].
  apply (checks_bind _ _ _ (fun _ => True)).
  - destruct open; [|ty; values]. apply ty_emit. intros HH%Hb. by apply Forall_cons in HH as [? _].
  - intros open'. apply IH. intros [HH%Hb _]. by apply Forall_cons in HH as [_ ?].
Qed.
Lemma ty_pump_loop app steps : forall H open, (H -> Forall pump_typed steps) ->
  checks H (pump_loop app steps open) (fun _ => True).
Proof.
  induction steps as [|step steps IH]; intros H [|] Hs; cbn [pump_loop negb]; try (ty; values; fail).
  apply (checks_bind _ _ _ (fun _ => True)).
  - assert (Hst : H -> pump_typed step) by (intros HH%Hs; by apply Forall_cons in HH as [? _]).
    destruct step as [[[n|sq r|]|]| |]; cbn [pump_step]; try (ty; values; fail); [by apply ty_emit|..];
      first [apply ty_write | eapply checks_bind; [apply ty_write|]; ty; values].
  - intros open. apply IH. intros [HH%Hs _]. by apply Forall_cons in HH as [_ ?].
Qed.
Lemma ty_receipts_run H app listener backlog steps : (H -> receipts_typed backlog /\ Forall pump_typed steps) ->
  checks H (Receipts.run app listener backlog steps) (fun _ => True).
Proof.
  intros HH. unfold Receipts.run. eapply checks_bind; [apply ty_emit_backlog; naive_solver|]. intros open.
  destruct listener as [l|]; [|ty; values]. eapply checks_bind; [apply ty_pump_loop; naive_solver|]. intros u.
  apply ty_receipts_world. eapply checks_weaken; [apply ty_drop_listener|done].
Qed.
End receipts.

(** ** Sessions *)
Section session.
Context {BW F A : Type} `{MP : Mpsc} `{B64 : Base64} {BL : Base64Laws} `{JS : Json} `{PK : P256} `{CS : ClientSerde}.
Abbreviation World := (World Asked BW).
Implicit Types (app : App BW F A) (H : Prop).
Abbreviation SE X := (EST (World * Session) BoxError X) (only parsing).
Abbreviation anything := (on_ok (fun _ => True)).

Lemma ty_self {X} H (f : Session -> X) (Q : X -> Prop) : (forall s, uaid_ok (se_uaid s) -> Q (f s)) ->
  checks H (self f : SE X) (on_ok Q).
Proof. intros HQ. apply checks_silent; [by intros [w s]|]. intros [w s] _ Hi. split; [by apply HQ|done]. Qed.
Lemma ty_update H f : (forall s, se_uaid (f s) = se_uaid s) -> checks H (update f : SE unit) anything.
Proof.
  intros Hf. apply checks_silent; [by intros [w s]|]. intros [w s] _ Hi. split; [done|].
  change (uaid_ok (se_uaid (f s))). by rewrite Hf.
Qed.
Lemma ty_in_world {X} H (m : EST World BoxError X) (Q : X -> Prop) : checks H m (on_ok Q) ->
  checks H (Session.in_world m : SE X) (on_ok Q).
Proof.
  intros Hm [w s]. destruct (Hm w) as (k & Hk & Hp). exists k. unfold Session.in_world. destruct (m w). split; [done|].
  intros HH Hi. eapply keeps_impl; [|by apply Hp]. by intros [? _].
Qed.
Lemma ty_send_frame H f : checks H (send_frame f : SE unit) anything.
Proof. apply checks_silent; intros [w s]; unfold send_frame; by destruct (so_ok _ _). Qed.
Lemma ty_close H code reason : checks H (close code reason : SE unit) anything.
Proof. apply checks_silent; intros [w s]; unfold close, send_frame; by destruct (so_ok _ _). Qed.

(** Sending, and looking at the session's own fields. *)
Ltac se_step := first [ty_step | intros; lazymatch goal with
  | |- checks _ (self _) ?Q => tryif has_evar Q then apply (ty_self _ _ (fun _ => True)); done else apply ty_self
  | |- checks _ (update _) _ => apply ty_update; by intros []
  | |- checks _ (send_frame _) _ => apply ty_send_frame
  | |- checks _ (send_text _) _ => apply ty_send_frame
  | |- checks _ (send _) _ => apply ty_send_frame
  | |- checks _ (close _ _) _ => apply ty_close
  | |- checks _ (Session.in_world _) _ => apply ty_in_world
  end].
Ltac se := repeat se_step.

Lemma ty_session_notify H n : checks H (Session.notify n : SE bool) anything.
Proof. unfold Session.notify. se; values. Qed.
Lemma ty_send_all pending : forall H, checks H (send_all pending : SE N) anything.
Proof.
  induction pending as [|m pending IH]; intros H; cbn [send_all]; [se; values|].
  eapply checks_est_bind; [apply ty_session_notify|]. intros b. eapply checks_est_bind; [apply IH|]. se; values.
Qed.
(** The user agent's own id is well-formed. *)
Lemma ty_uaid H : checks H (self se_uaid : SE string) (on_ok (fun u => uaid_ok u)).
Proof. by apply ty_self. Qed.
Lemma ty_next_batch H app : checks H (next_batch app : SE unit) anything.
Proof.
  unfold next_batch. cbv zeta. eapply checks_est_bind; [apply ty_uaid|]. intros u.
  eapply checks_est_bind; [se; values|]. intros now. eapply checks_est_bind; [se; values; naive_solver|]. intros ms.
  eapply checks_est_bind; [se; values|]. intros []. eapply checks_est_bind; [apply ty_send_all|]. se; values.
Qed.
Lemma ty_ack H app u : checks H (ack app u : SE unit) anything.
Proof.
  unfold ack. eapply checks_est_bind; [se; values|]. intros []. cbv zeta.
  set (c := default 100%N (au_code u)).
  assert (Hst : forall status, match c with 100 => Some 204 | 101 | 102 => Some 410 | _ => None end%N = Some status ->
    (status = 204 \/ status = 410)%N) by (intros status; repeat case_match; intros [= <-]; auto).
  destruct (match c with 100 => _ | _ => _ end)%N as [status|]; [|se; values]. specialize (Hst _ eq_refl).
  destruct (Subscription.channel_id (au_channel_id u)) as [ch|] eqn:Hch; [|se; values].
  destruct (is_id (au_version u)) eqn:Hid; cbn [negb]; [|se; values].
  eapply checks_est_bind; [apply ty_uaid|]. intros uaid. eapply checks_est_bind.
  - apply ty_in_world, checks_with_store, checks_ask. intros [_ Hu]. split; [done|].
    intros ? [= <-]. split; [done|]. by eapply channel_id_ok.
  - intros [m|]; [|se; values]. apply ty_in_world, ty_owe_receipt; [|done]. intros [_ Ho]. by apply Ho.
Qed.
Lemma ty_ack_all app us : forall H, checks H (ack_all app us : SE unit) anything.
Proof.
  induction us as [|u us IH]; intros H; cbn [ack_all]; [se; values|].
  eapply checks_est_bind; [apply ty_ack|]. intros []. apply IH.
Qed.
Lemma ty_session_register H app c k : checks H (Session.register app c k : SE Value) anything.
Proof.
  unfold Session.register. cbv zeta. destruct (Subscription.channel_id c) as [ch|] eqn:Hch; [|se; values].
  assert (Hv : opt (fun key => length key = 65) (match vapid_key <$> k with Some (Some key) => Some key | _ => None end)).
  { intros key Hk. destruct k as [k|]; [|done]. cbn in Hk. destruct (vapid_key k) eqn:E; [|done]. injection Hk as ->.
    by eapply vapid_key_length. }
  destruct (vapid_key <$> k) as [[key|]|]; [|se; values|];
    (eapply checks_est_bind; [se; values|]); intros stored; (eapply checks_est_bind; [apply ty_uaid|]); intros u;
    (apply (checks_est_bind _ _ _ (fun _ => True));
     [destruct stored; [se; values|]; (eapply checks_est_bind; [se; values|]); intros now;
      (eapply checks_est_bind; [|se; values]); apply ty_in_world, checks_with_store, checks_ask; intros HH; split; [naive_solver|done]
     |]);
    intros []; (eapply checks_est_bind; [|se; values]); apply ty_in_world, checks_with_store, ty_register;
    intros HH; (split_and!; [naive_solver|by eapply channel_id_ok|done]).
Qed.
Lemma ty_handle H app msg : checks H (handle app msg : SE unit) anything.
Proof.
  destruct msg as [u|c k|c|us| | |]; cbn [handle]; try (se; values; fail).
  - eapply checks_est_bind; [apply ty_session_register|]. se; values.
  - eapply checks_est_bind; [se; values|]. intros stored. eapply checks_est_bind; [apply ty_uaid|]. intros u.
    apply (checks_est_bind _ _ _ (fun _ => True)); [|se; values].
    destruct (Subscription.channel_id c) as [ch|] eqn:Hch; [destruct stored|]; try (se; values; fail).
    eapply checks_est_bind.
    + apply ty_in_world, checks_with_store, checks_ask. intros HH. split; [naive_solver|by eapply channel_id_ok].
    + intros rs. apply ty_in_world, checks_lift_st, ty_notify_receipts. naive_solver.
  - eapply checks_est_bind; [apply ty_ack_all|]. intros []. eapply checks_est_bind; [se; values|]. intros unacked.
    eapply checks_est_bind; [se; values|]. intros more. case_decide; [destruct more|]; [apply ty_next_batch|..]; se; values.
Qed.
Lemma ty_serve_step H app step : checks H (serve_step app step : SE bool) anything.
Proof.
  destruct step as [[[f|[]]|]|[[n|sq r|]|]| | |]; cbn [serve_step]; cbv zeta; try (se; values; fail).
  - destruct f as [text| | | |code]; try (se; values; fail). eapply checks_est_bind; [se; values|]. intros now.
    eapply checks_est_bind; [se; values|]. intros []. destruct (parse text) as [msg|]; [|se; values].
    eapply checks_est_bind; [apply ty_handle|]. se; values.
  - eapply checks_est_bind; [apply ty_session_notify|]. se; values.
  - eapply checks_est_bind; [se; values|]. intros now. eapply checks_est_bind; [se; values|]. intros heard.
    match goal with |- checks _ (if ?c then _ else _) _ => destruct c end; [se; values|].
    eapply checks_est_bind; [se; values|]. intros []. eapply checks_est_bind; [se; values|]. intros stored.
    destruct stored; cbn [negb]; [|se; values]. eapply checks_est_bind; [se; values|]. intros touched.
    eapply checks_est_bind; [se; values|]. intros now2. match goal with |- checks _ (if ?c then _ else _) _ => destruct c end; [se; values|].
    eapply checks_est_bind; [se; values|]. intros now3. eapply checks_est_bind; [se; values|]. intros [].
    eapply checks_est_bind; [apply ty_uaid|]. intros u. eapply checks_est_bind; [se; values|]. intros now4.
    eapply checks_est_bind; [se; values; naive_solver|]. se; values.
Qed.
Lemma ty_serve_loop app steps : forall H, checks H (serve_loop app steps : SE unit) anything.
Proof.
  induction steps as [|step steps IH]; intros H; cbn [serve_loop]; [se; values|].
  eapply checks_est_bind; [apply ty_serve_step|]. intros [|]; [se; values|apply IH].
Qed.
Lemma ty_serve H app steps : checks H (Session.serve app steps : SE unit) anything.
Proof.
  unfold Session.serve. eapply checks_est_bind; [se; values|]. intros u. eapply checks_est_bind; [se; values|]. intros [].
  eapply checks_est_bind; [se; values|]. intros stored. eapply checks_est_bind; [|intros []; apply ty_serve_loop].
  destruct stored; [apply ty_next_batch|se; values].
Qed.

(** A session starts with an id that was checked or is new. *)
Lemma ty_handshake H app uaid : checks H (handshake app uaid : EST World BoxError (Listener * string * bool * N))
  (on_ok (fun r => uaid_ok r.1.1.2)).
Proof.
  unfold handshake. apply (checks_est_bind _ _ _ (opt ua_typed)).
  { destruct uaid as [u|]; [destruct (is_uaid u) eqn:Hu|]; [|ty; values..].
    eapply checks_weaken; [ty; values|]. intros [o|e] _ Ho; [|done]. intros ua ->. by destruct (Ho _ eq_refl). }
  intros known. apply (checks_est_bind _ _ _ (fun us => uaid_ok us.1)).
  { assert (Hn : forall H', checks H' (u ← lift_st (with_env new_uaid); mret (u, false) : EST World BoxError (string * bool))
      (on_ok (fun us => uaid_ok us.1))).
    { intros H'. apply (checks_est_bind _ _ _ (fun u => uaid_ok u)); [ty; intros; apply new_uaid_is_uaid|]. ty; values. }
    destruct known as [[u [b|] seen]|]; [apply Hn| |apply Hn].
    assert (Hu : H /\ opt ua_typed (Some {| ua_uaid := u; ua_bridge := None; ua_last_seen := seen |}) -> uaid_ok u)
      by (intros [_ HH]; exact (ut_uaid _ (HH _ eq_refl))).
    eapply checks_est_bind; [ty; values|]. intros now. eapply checks_est_bind; [ty; intros; naive_solver|]. ty; values. }
  intros [u stored]. eapply checks_est_bind; [apply ty_listen; naive_solver|]. intros listener.
  eapply checks_est_bind; [ty; values|]. ty; values.
Qed.
Lemma ty_session_run H app socket first steps : checks H (Session.run app socket first steps : ST World _) (fun _ => True).
Proof.
  intros w. unfold Session.run.
  destruct (next_text first) as [[uaid| | | | | |]|]; try (exists []; by rewrite app_nil_r).
  destruct (ty_handshake H app uaid w) as (l1 & H1 & P1).
  destruct (handshake app uaid w) as [[[[[listener u] stored] now]|e] w1]; cbn in H1, P1.
  2:{ exists l1. split; [done|]. intros HH Hi. by eapply keeps_impl; [|by apply P1]. }
  destruct (ty_serve True app steps (w1, new_session socket u stored now)) as (l2 & H2 & P2).
  destruct (Session.serve app steps _) as [r [w2 session]]. cbn in H2.
  destruct (ty_drop_listener True app listener w2) as (l3 & H3 & P3).
  destruct (drop_listener app listener w2) as [u3 w3]. cbn in *. exists (l1 ++ l2 ++ l3).
  rewrite H3, H2, H1, !app_assoc. split; [done|]. intros HH Hi. rewrite <- app_assoc.
  eapply keeps_app; [by apply P1|]. intros [Hu _]. eapply keeps_app; [apply P2; done|]. intros _.
  eapply keeps_impl; [|by apply P3]. done.
Qed.
End session.

(** ** Only well-formed values are ever stored

    A store that holds well-formed values, called with well-formed arguments,
    answers and keeps well-formed values; so the handlers, which keep to the
    types as long as they are answered, do so in every run. *)

(** ** Tasks *)
Section serves.
Context {BW F A : Type} `{MP : Mpsc} `{B64 : Base64} {BL : Base64Laws} `{JS : Json} `{PK : P256} `{HT : Http}
  `{HD : HttpDate} `{RH : ResponseHeaders} `{HM : Hmac} `{AS : ApiSerde} `{CS : ClientSerde}.

Lemma logged_keeps {W X} `{HasLog W, HasInv W} (m : ST W X) (Q : X -> Prop) l :
  checks True m Q -> (forall w, inv_of w) -> logged m l -> keeps True l.
Proof.
  intros Hm Hi [w Hl]. destruct (Hm w) as (k & Hk & Hp). rewrite Hk in Hl. apply app_inv_head in Hl as <-.
  eapply keeps_impl; [|by apply Hp]. done.
Qed.

Lemma serves_keeps l : serves (BW := BW) (F := F) (A := A) receipt_typed task_typed l -> keeps True l.
Proof.
  destruct 1; (lazymatch goal with H : logged _ _ |- _ => refine (logged_keeps _ _ _ _ _ H); [|done] end);
    first [apply ty_session_run | apply ty_push | apply ty_read_message | apply ty_withdraw_message
      | apply ty_delete_receipt_sub | apply ty_stream | apply ty_receipts_run | apply ty_create
      | apply ty_read | apply ty_update_token | apply ty_delete | apply ty_subscribe
      | apply ty_unsubscribe | apply ty_ready | apply ty_deliver | apply ty_work | apply ty_run_task]; by intros _.
Qed.
End serves.

(** ** The store *)
Record store_typed (a : AStore) : Prop := {
  sy_uas k ua : a_uas a !! k = Some ua -> ua_typed ua;
  sy_subs k sub : a_subs a !! k = Some sub -> sub_typed sub;
  sy_msgs k m : a_msgs a !! k = Some m -> msg_typed m;
  sy_queues k q : a_queues a !! k = Some q -> id_ok k /\ map_Forall (fun _ r => receipt_typed r) q;
  sy_routes to node : a_routes a !! to = Some node -> to_typed to;
}.

Section store.
Context {S : Type} `{St : Store S} `{B64 : Base64} {BL : Base64Laws}.
Context (view : S -> AStore) (inv : Env * S -> Prop) (laws : StoreLaws view inv).

Abbreviation queues_typed qs :=
  (forall k q, qs !! k = Some q -> id_ok k /\ map_Forall (fun _ r => receipt_typed r) q).

Lemma queues_typed_enqueue qs sr : receipt_typed sr.2 -> queues_typed qs -> queues_typed (enqueue qs sr).
Proof.
  intros Hr Hq k q. unfold enqueue. intros [(<- & q0 & H0 & ->)|[_ H0]]%lookup_alter_Some; [|by apply Hq].
  destruct (Hq _ _ H0) as [Hk Hf]. split; [done|]. by apply map_Forall_insert_2.
Qed.
Lemma queues_typed_all rs : receipts_typed rs -> forall qs, queues_typed qs -> queues_typed (enqueue_all qs rs).
Proof.
  induction 1 as [|sr rs Hr Hrs IH]; intros qs Hq; [done|]. unfold enqueue_all. cbn [foldl]. apply IH.
  by apply queues_typed_enqueue.
Qed.

Lemma owed_typed a m r : msg_typed m -> owed_410 (a_queues a) m = Some r -> receipt_typed r.
Proof.
  intros Hm. unfold owed_410, receipt_for. destruct (m_rsub m) as [rsub|] eqn:Hr; [|done]. cbn.
  destruct (a_queues a !! rsub); [|done]. intros [= <-]. split; cbn; [by apply (mt_rsub _ Hm)|apply Hm|by right].
Qed.
Lemma removes_typed P e a rs e' a' : store_typed a -> removes P e a rs e' a' -> receipts_typed rs.
Proof.
  intros Ha [_ Hr _ _ _]. apply Forall_forall. intros sr Hin. assert (Hs : sr.2 ∈ rs.*2) by by apply list_elem_of_fmap_2.
  rewrite Hr in Hs. apply list_elem_of_omap in Hs as (m & [_ (k & Hk)%elem_of_values]%list_elem_of_filter & Ho).
  eapply owed_typed; [|done]. by eapply sy_msgs.
Qed.
(** A removal, which may take user agents and subscriptions out. *)
Lemma removes_keeps P e a rs e' a' : store_typed a -> removes P e a rs e' a' ->
  a_uas a' ⊆ a_uas a -> a_subs a' ⊆ a_subs a -> store_typed a' /\ receipts_typed rs.
Proof.
  intros Ha Hr Hu Hs. pose proof (removes_typed _ _ _ _ _ _ Ha Hr) as Hrs. split; [|done]. destruct Hr as [Hm _ _ Hq Hro]. split.
  - intros k ua H0. eapply sy_uas; [done|]. by eapply lookup_weaken.
  - intros k sub H0. eapply sy_subs; [done|]. by eapply lookup_weaken.
  - intros k m. rewrite Hm. intros [H0 _]%map_lookup_filter_Some. by eapply sy_msgs.
  - rewrite Hq. apply queues_typed_all; [done|]. apply Ha.
  - rewrite Hro. apply Ha.
Qed.

(** One field put in place of another. *)
Lemma typed_uas a u ua : store_typed a -> ua_typed ua -> store_typed (set_a_uas (<[ u := ua ]> (a_uas a)) a).
Proof. intros Ha Hu. split; try apply Ha. cbn. intros k ua' [[_ <-]|[_ Hk]]%lookup_insert_Some; [done|by eapply sy_uas]. Qed.
Lemma typed_queues a qs : store_typed a -> queues_typed qs -> store_typed (set_a_queues qs a).
Proof. intros Ha Hq. split; try apply Ha. exact Hq. Qed.
Lemma typed_subs a k sub : store_typed a -> sub_typed sub -> store_typed (set_a_subs (<[ k := sub ]> (a_subs a)) a).
Proof. intros Ha Hs. split; try apply Ha. cbn. intros k' s' [[_ <-]|[_ Hk]]%lookup_insert_Some; [done|by eapply sy_subs]. Qed.
Lemma typed_msgs a ms : store_typed a -> (forall k m, ms !! k = Some m -> msg_typed m) -> store_typed (set_a_msgs ms a).
Proof. intros Ha Hm. split; try apply Ha. exact Hm. Qed.
Lemma typed_routes a rs : store_typed a -> (forall to node, rs !! to = Some node -> to_typed to) -> store_typed (set_a_routes rs a).
Proof. intros Ha Hr. split; try apply Ha. exact Hr. Qed.

Lemma typed_insert a m : store_typed a -> msg_typed m -> store_typed (set_a_msgs (a_insert_message m (a_msgs a)) a).
Proof.
  intros Ha Hm. apply typed_msgs; [done|]. intros k m'. unfold a_insert_message.
  intros [[_ <-]|[_ Hk]]%lookup_insert_Some; [done|]. destruct (m_slot m).
  - apply map_lookup_filter_Some in Hk as [Hk _]. by eapply sy_msgs.
  - by eapply sy_msgs.
Qed.
Lemma values_typed {K V} `{Countable K} (P : V -> Prop) (M : gmap K V) l (Q : V -> Prop) `{!forall v, Decision (Q v)} :
  (forall k v, M !! k = Some v -> P v) -> l ≡ₚ filter Q (map_to_list M).*2 -> Forall P l.
Proof.
  intros HP ->. apply Forall_forall. intros v [_ (k & Hk)%elem_of_values]%list_elem_of_filter. by eapply HP.
Qed.
Lemma typed_remove_message a id : store_typed a -> store_typed (set_a_msgs (base.delete id (a_msgs a)) a).
Proof. intros Ha. apply typed_msgs; [done|]. intros k m [_ Hk]%lookup_delete_Some. by eapply sy_msgs. Qed.
Lemma typed_new_queue a k : store_typed a -> id_ok k -> store_typed (set_a_queues (<[ k := ∅ ]> (a_queues a)) a).
Proof.
  intros Ha Hk0. apply typed_queues; [done|].
  intros k' q [[<- <-]|[_ Hk]]%lookup_insert_Some; [split; [done|apply map_Forall_empty]|by eapply sy_queues].
Qed.
Lemma typed_delete_receipt a r sq : store_typed a -> store_typed (set_a_queues (alter (base.delete sq) r (a_queues a)) a).
Proof.
  intros Ha. apply typed_queues; [done|]. intros k q [(<- & q0 & Hq & ->)|[_ Hk]]%lookup_alter_Some; [|by eapply sy_queues].
  destruct (sy_queues _ Ha _ _ Hq) as [Hr Hf]. split; [done|]. by apply map_Forall_delete.
Qed.
Lemma queue_typed a r rs : store_typed a -> rs ≡ₚ map_to_list (default ∅ (a_queues a !! r)) -> receipts_typed rs.
Proof.
  intros Ha Hrs. apply Forall_forall. intros [sq rc] Hin. rewrite Hrs in Hin.
  apply elem_of_map_to_list in Hin. destruct (a_queues a !! r) as [q|] eqn:Hq; cbn in Hin; [|done].
  destruct (sy_queues _ Ha _ _ Hq) as [_ Hf]. exact (Hf _ _ Hin).
Qed.

Lemma updated_typed a u ua seen b : store_typed a -> a_uas a !! u = Some ua ->
  (forall x, b = Some x -> valid_token (ba_token x) = true) ->
  store_typed (set_a_uas (<[ u := {| ua_uaid := ua_uaid ua; ua_bridge := b; ua_last_seen := seen |} ]> (a_uas a)) a).
Proof. intros Ha Hu Hb. apply typed_uas; [done|]. destruct (sy_uas _ Ha _ _ Hu) as [? _]. by split. Qed.
Lemma deleted_typed a id owner :
  store_typed a -> let o := m ← a_msgs a !! id; if owned_by owner m then Some m else None in
  store_typed (match o with Some _ => set_a_msgs (base.delete id (a_msgs a)) a | None => a end) /\ opt msg_typed o.
Proof.
  intros Ha. cbv zeta. destruct (a_msgs a !! id) as [m|] eqn:Hm; cbn; [|done].
  destruct (owned_by owner m); [|done]. split; [by apply typed_remove_message|]. intros ? [= <-]. by eapply sy_msgs.
Qed.
Lemma cleared_typed a to node : store_typed a -> store_typed (a_clear_route to node a).
Proof.
  intros Ha. unfold a_clear_route. case_decide; [|done]. apply typed_routes; [done|].
  intros to' node' [_ Hk]%lookup_delete_Some. by eapply sy_routes.
Qed.
Lemma unqueued_typed a r : store_typed a -> store_typed (set_a_queues (base.delete r (a_queues a)) a).
Proof. intros Ha. apply typed_queues; [done|]. intros k q [_ Hk]%lookup_delete_Some. by eapply sy_queues. Qed.
Lemma routed_typed a to node : store_typed a -> to_typed to -> store_typed (set_a_routes (<[ to := node ]> (a_routes a)) a).
Proof.
  intros Ha Ht. apply typed_routes; [done|]. intros to' node' [[<- _]|[_ Hk]]%lookup_insert_Some; [done|by eapply sy_routes].
Qed.
Lemma queued_typed a sr : store_typed a -> receipt_typed sr.2 -> store_typed (set_a_queues (enqueue (a_queues a) sr) a).
Proof. intros Ha Hr. apply typed_queues; [done|]. apply queues_typed_enqueue; [done|]. apply Ha. Qed.

(** A step of the contract keeps to the types. *)
Lemma step_typed {X} (c : Call X) e a x e' a' :
  a_wf a -> a_step c e a x e' a' -> store_typed a -> call_typed c -> store_typed a' /\ answer_typed c x.
Proof.
  intros Hwf Hp Ha Hc. destruct c; cbn in Hp, Hc; cbn [answer_typed].
  - destruct Hp as (_ & ->). split; [by apply typed_uas|done].
  - destruct Hp as (_ & -> & ->). split; [done|]. intros ua Hu. split; [by eapply sy_uas|by eapply wf_uas].
  - destruct Hp as (_ & Hp). split; [|done]. destruct (a_uas a !! u) as [ua|] eqn:Hu; destruct_ex; subst; [|done].
    apply updated_typed; [done..|]. apply (sy_uas _ Ha _ _ Hu).
  - destruct Hp as (_ & Hp). split; [|done].
    destruct (a_uas a !! u) as [[i [b|] seen]|] eqn:Hu; cbn in Hp; destruct_ex; subst; try done.
    apply (updated_typed a u {| ua_uaid := i; ua_bridge := Some b; ua_last_seen := seen |}); [done..|]. by intros ? [= <-].
  - destruct Hp as (Hr & Hu & Hs). eapply removes_keeps; [done..| |]; [rewrite Hu; apply delete_subseteq|].
    rewrite Hs. apply map_filter_subseteq.
  - destruct Hp as (Hr & Hu & Hs & _). eapply removes_keeps; [done..| |]; [rewrite Hu|rewrite Hs]; apply map_filter_subseteq.
  - destruct Hp as (_ & -> & Hp). split; [done|]. eapply values_typed; [|done]. apply Ha.
  - destruct Hp as (_ & -> & ->). split; [done|]. intros sub Hs. by eapply sy_subs.
  - destruct Hp as (_ & -> & ->). destruct Hc as (? & ? & ?).
    split; [apply typed_subs; [done|]|]; (split; cbn; [done|done|apply new_id_is_id|done]).
  - destruct Hp as (_ & -> & Hp). split; [done|]. intros sub [_ Hk]%Hp. by eapply sy_subs.
  - case_match; [|destruct Hp as (-> & -> & _); by split; [|constructor]]. destruct Hp as (Hr & Hu & Hs).
    eapply removes_keeps; [done..| |]; [by rewrite Hu|rewrite Hs; apply delete_subseteq].
  - destruct Hp as (_ & ->). split; [by apply typed_insert|done].
  - destruct Hp as (_ & -> & all & _ & Hp & ->). split; [done|]. rewrite truncate_take. apply Forall_take.
    eapply values_typed; [|done]. apply Ha.
  - destruct Hp as (_ & -> & ->). split; [done|]. intros m Hm. by eapply sy_msgs.
  - destruct Hp as (_ & -> & ->). by apply deleted_typed.
  - destruct Hp as (_ & -> & ->). split; [|apply new_id_is_id]. apply typed_new_queue; [done|apply new_id_is_id].
  - destruct Hp as (_ & -> & _). done.
  - destruct Hp as (_ & -> & _). split; [by apply unqueued_typed|done].
  - split; [|done]. case_match; destruct_ex; subst; [by apply queued_typed|done].
  - destruct Hp as (_ & -> & _ & Hp). split; [done|]. by eapply queue_typed.
  - destruct Hp as (_ & ->). split; [by apply typed_delete_receipt|done].
  - destruct Hp as (P & _ & _ & Hr & Hu & Hs). eapply removes_keeps; [done..| |]; [by rewrite Hu|by rewrite Hs].
  - destruct Hp as (_ & -> & _). split; [by apply routed_typed|done].
  - destruct Hp as (_ & -> & _). done.
  - destruct Hp as (_ & -> & _). split; [by apply cleared_typed|done].
Qed.
(** ** Runs *)
Lemma keeps_prefix P l l' : keeps P (l ++ l') -> keeps True l.
Proof. induction l as [|[X c r] l IH]; cbn; [done|]. intros [Hc Hl]. auto. Qed.

Definition entry_typed (en : Entry) : Prop :=
  match en with Called c r => call_typed c /\ on_ok (answer_typed c) r end.

Lemma contract_typed w log w' : contract w log w' -> store_typed w.2 ->
  (forall t, keeps True (of_task t log)) -> store_typed w'.2 /\ Forall (fun te => entry_typed te.2) log.
Proof.
  induction 1 as [w|e e' a log w He Hq _ IH|X t c x e a e' a' log w Hwf Hf He Hp _ IH]; intros Ha Hk; [done|by apply IH|].
  assert (Hc : call_typed c).
  { specialize (Hk t). rewrite of_task_cons, decide_True in Hk by done. by destruct Hk. }
  destruct (step_typed _ _ _ _ _ _ Hwf Hp Ha Hc) as (Ha' & Hx).
  destruct IH as [Hw Hl]; [done| |split; [done|by constructor]].
  intros t'. specialize (Hk t'). rewrite of_task_cons in Hk. case_decide; [|done]. destruct Hk as [_ Hk]. by apply Hk.
Qed.

(** C14: Any number of sessions, requests, receipt streams and background tasks of
    any nodes run over one store that holds well-formed values, their calls in
    any order and each of them stopped anywhere; registrations of one channel
    do not overlap. Every id, channel, token,
    topic and receipt that reaches the store, as an argument of a call, is
    well-formed, and so is everything the store answers and holds, whatever
    the clients, application servers and other nodes send. *)
Theorem stored_values_typed `{MP : Mpsc} {JS : Json} {PK : P256} {HT : Http} {HD : HttpDate} {RH : ResponseHeaders}
    {HM : Hmac} {AS : ApiSerde} {CS : ClientSerde} {BW F A : Type} w log w' :
  inv w -> store_typed (view w.2) -> system view w log w' ->
  (forall t, exists l, serves (BW := BW) (F := F) (A := A) receipt_typed task_typed (of_task t log ++ l)) ->
  store_typed (view w'.2) /\
  forall t X (c : Call X) r, (t, Called c r) ∈ log -> call_typed c /\ on_ok (answer_typed c) r.
Proof.
  intros Hi Ha Hsys Htasks. apply (system_contract view inv) in Hsys as [_ Hsys]; [|done..].
  destruct (contract_typed _ _ _ Hsys Ha) as [Hw Hl].
  - intros t. destruct (Htasks t) as [l Hl]. eapply keeps_prefix. by eapply serves_keeps.
  - split; [done|]. intros t X c r Hin. rewrite Forall_forall in Hl. exact (Hl _ Hin).
Qed.
End store.
