(* ===== verification/TaskExamples.v ===== *)
(** * Two sessions acknowledge the same message

    Concrete runs of many tasks, for the theorems of [Concurrency] and
    [Typing]. *)
From S2P Require Import MemoryRuns Demo Instances Prelude RustStr External StoreTypes Store MemoryStore MemoryProofs Hub HubTheorems Bridge Config App Notify Headers Subscription Session Ece Vapid Response Endpoint Registration Calls System Concurrency Typing.

(** ** Two sessions acknowledge the same message

    The user agent is connected twice, and both connections read the message
    and acknowledge it; their calls alternate. *)

(** Two frames that can be read. *)
#[export] Instance talk_json : Json := {|
  json_parse := fun b => Some (Str (of_bytes b));
  json_print := print_json;
|}.
#[export] Instance talk_serde : ClientSerde := {|
  from_value := fun v =>
    if decide (as_str v = Some "hello") then Some (Hello (Some session_ua))
    else Some (Ack [{| au_channel_id := demo_channel; au_version := demo_id; au_code := None |}]);
|}.
#[export] Instance talk_api : ApiSerde := {| subscribe_from_slice := fun _ => None |}.

(** The store's part: the calls in the order they are made. *)
Definition talk_env : Env * State := (later_env (demo_es 8).1, (demo_es 8).2).
Definition talk_now : N := 1000.
Definition talk_calls : list ACall :=
  [Some_call (CUserAgent session_ua);
   Some_call (CTouchUserAgent session_ua talk_now);
   Some_call (CPending session_ua (talk_now + 1) (backlog_batch default_websocket));
   Some_call (CDeleteMessage demo_id (Some (session_ua, demo_channel)))].
Definition talk_schedule : list (nat * ACall) :=
  concat ((fun c => [(0, c); (1, c)]) <$> talk_calls) ++
  [(0, Some_call (CEnqueueReceipt {| r_rsub := demo_rsub; r_msg_id := demo_id; r_status := 204 |}))].
Definition talk_log : list (nat * Entry) := (play talk_schedule talk_env).1.

(** What the tasks are answered: their calls take turns. *)
Definition talk_state (n : nat) : Env * State := (play (take n talk_schedule) talk_env).2.
Definition talk_asked (t : nat) : Asked := {|
  as_log := [];
  as_answer := fun X c log => (perform c (talk_state (2 * length log + t))).1;
  as_env := fun _ e => e;
|}.
Definition talk_world (t : nat) : World Asked (list (Address * BridgeMessage)) := {|
  w_env := later_env (demo_env talk_now);
  w_store := talk_asked t;
  w_hub := new_hub 8;
  w_chans := (∅, 0%N);
  w_tasks := [];
  w_http := fun _ => HttpStatus 200;
  w_posts := [];
  w_bridges := [];
|}.
Abbreviation talk t := (Session.run (demo_app None) {| so_out := []; so_ok := fun _ => true |}
  [Ok (FText "hello")] [SFrame (Some (Ok (FText "ack"))); SStop] (talk_world t)).

(** Each session makes exactly the calls of its turns. *)
Lemma talk_logs : log_of (talk 0).2 = of_task 0 talk_log /\ log_of (talk 1).2 = of_task 1 talk_log.
Proof. vm_compute. split; reflexivity. Qed.
Lemma talk_others t : of_task (S (S t)) talk_log = [].
Proof.
  assert (Hall : Forall (fun te => te.1 < 2) talk_log) by (apply (bool_decide_unpack _); vm_compute; exact I).
  unfold of_task. rewrite filter_none; [done|]. intros te Hin.
  rewrite Forall_forall in Hall. apply Hall in Hin. lia.
Qed.
Lemma talk_serves t : serves (BW := list (Address * BridgeMessage)) (F := unit) (A := unit) (fun _ => True) (fun _ => True) (of_task t talk_log ++ []).
Proof.
  rewrite app_nil_r. destruct talk_logs as [H0 H1]. destruct t as [|[|t]].
  - rewrite <- H0. eapply on_session, logged_run. reflexivity.
  - rewrite <- H1. eapply on_session, logged_run. reflexivity.
  - rewrite talk_others. apply (on_ready _ _ true). exists (talk_world 0). by rewrite app_nil_r.
Qed.
Lemma talk_plays : plays MemoryProofs.view talk_schedule talk_env.
Proof.
  cbn [plays talk_schedule concat fmap list_fmap talk_calls app fresh_for].
  repeat (split; [exact I|split; [vm_compute; reflexivity|]]). split; [|split; [vm_compute; reflexivity|exact I]].
  apply (demo_seq_room 1000); [done|done|vm_compute; reflexivity|]. vm_compute. reflexivity.
Qed.
Lemma talk_inv : MemoryProofs.inv talk_env.
Proof. exact demo_winv. Qed.

Lemma receipts_at_most_once_witness :
  receipts_in talk_log = [{| r_rsub := demo_rsub; r_msg_id := demo_id; r_status := 204 |}] /\
  NoDup (r_msg_id <$> receipts_in talk_log).
Proof.
  split; [vm_compute; reflexivity|].
  refine (proj1 (receipts_at_most_once MemoryProofs.view MemoryProofs.inv memory_laws talk_env talk_log _ talk_inv
    (play_system MemoryProofs.view talk_schedule talk_env talk_plays)
    (fun t => ex_intro _ [] (talk_serves t)) _ _)).
  - vm_compute. constructor.
  - intros m Hm. exfalso. revert Hm. vm_compute. apply not_elem_of_nil.
Defined.

(** ** The two sessions again, with types

    The store of the two sessions that acknowledge one message holds
    well-formed values only, so their run does too. *)

(** ** Deciding that values are well-formed *)
Definition opt_b {X} (P : X -> bool) (o : option X) : bool := match o with Some x => P x | None => true end.
Definition channel_b (c : string) : bool := bool_decide (Subscription.channel_id c = Some c).
Definition topic_b (t : string) : bool := negb (str_is_empty t) && (str_len t <=? 32)%N && str_all is_b64url t.
Definition ua_b (ua : UserAgent) : bool :=
  is_uaid (ua_uaid ua) && opt_b (fun b => valid_token (ba_token b)) (ua_bridge ua).
Definition sub_b (sub : Subscription) : bool :=
  is_uaid (sub_uaid sub) && channel_b (sub_channel_id sub) && is_id (sub_push sub) &&
  opt_b (fun k => length k =? 65) (sub_vapid sub).
Definition msg_b (m : Message) : bool :=
  is_id (m_id m) && is_uaid (m_uaid m) && channel_b (m_channel_id m) && is_id (m_push m) &&
  opt_b topic_b (m_topic m) && (m_ttl m <=? u32_max)%N && opt_b is_id (m_rsub m).
Definition receipt_b (r : Receipt) : bool :=
  is_id (r_rsub r) && is_id (r_msg_id r) && ((r_status r =? 204)%N || (r_status r =? 410)%N).
Definition to_b (to : Recipient) : bool := match to with RUserAgent u => is_uaid u | RReceipts r => is_id r end.

Lemma opt_b_sound {X} (P : X -> bool) (Q : X -> Prop) o : (forall x, P x = true -> Q x) -> opt_b P o = true ->
  forall x, o = Some x -> Q x.
Proof. intros HPQ Ho x ->. by apply HPQ. Qed.
Ltac both := rewrite ?andb_true_iff; intros; destruct_ex.
Lemma channel_b_sound c : channel_b c = true -> channel_ok c.
Proof. apply bool_decide_eq_true. Qed.
Lemma topic_b_sound t : topic_b t = true -> topic_ok t.
Proof. unfold topic_b. both. split_and!; [by apply negb_true_iff|by apply N.leb_le|done]. Qed.
Lemma ua_b_sound ua : ua_b ua = true -> ua_typed ua.
Proof. unfold ua_b. both. split; [done|]. by apply (opt_b_sound (fun b => valid_token (ba_token b))). Qed.
Lemma sub_b_sound sub : sub_b sub = true -> sub_typed sub.
Proof.
  unfold sub_b. both. split; [done|by apply channel_b_sound|done|].
  apply (opt_b_sound (fun k => length k =? 65)); [|done]. intros k. apply Nat.eqb_eq.
Qed.
Lemma msg_b_sound m : msg_b m = true -> msg_typed m.
Proof.
  unfold msg_b. both. split; [done|done|by apply channel_b_sound|done| |by apply N.leb_le|].
  - apply (opt_b_sound topic_b); [|done]. apply topic_b_sound.
  - by apply (opt_b_sound is_id).
Qed.
Lemma receipt_b_sound r : receipt_b r = true -> receipt_typed r.
Proof. unfold receipt_b. both. split; [done|done|]. by rewrite <- !N.eqb_eq, <- orb_true_iff. Qed.

Definition all_b {K V} `{Countable K} (f : K -> V -> bool) (M : gmap K V) : bool :=
  forallb (fun kv => f kv.1 kv.2) (map_to_list M).
Lemma all_b_sound {K V} `{Countable K} (f : K -> V -> bool) M k v : all_b f M = true -> M !! k = Some v -> f k v = true.
Proof.
  unfold all_b. rewrite forallb_forall. intros Hf Hk. apply (Hf (k, v)), list_elem_of_In. by apply elem_of_map_to_list.
Qed.
Definition store_b (a : AStore) : bool :=
  all_b (fun _ => ua_b) (a_uas a) && all_b (fun _ => sub_b) (a_subs a) && all_b (fun _ => msg_b) (a_msgs a) &&
  all_b (fun k q => is_id k && all_b (fun _ => receipt_b) q) (a_queues a) &&
  all_b (fun to _ => to_b to) (a_routes a).
Lemma store_b_sound a : store_b a = true -> store_typed a.
Proof.
  unfold store_b. both. split.
  - intros k ua Hk. eapply ua_b_sound, (all_b_sound (fun _ => ua_b)); eauto.
  - intros k sub Hk. eapply sub_b_sound, (all_b_sound (fun _ => sub_b)); eauto.
  - intros k m Hk. eapply msg_b_sound, (all_b_sound (fun _ => msg_b)); eauto.
  - intros k q Hk. eapply (all_b_sound (fun k q => is_id k && all_b (fun _ => receipt_b) q)) in Hk as Hq; [|done].
    apply andb_true_iff in Hq as [Hi Hq]. split; [done|]. intros sq r Hr. eapply receipt_b_sound, (all_b_sound (fun _ => receipt_b)); eauto.
  - intros [u|r] node Hk; by eapply (all_b_sound (fun to _ => to_b to)) in Hk.
Qed.

(** ** The run *)
Lemma talk_typed : store_typed (MemoryProofs.view talk_env.2).
Proof. apply store_b_sound. vm_compute. reflexivity. Qed.
Lemma talk_serves_typed t :
  serves (BW := list (Address * BridgeMessage)) (F := unit) (A := unit) receipt_typed task_typed (of_task t talk_log ++ []).
Proof.
  rewrite app_nil_r. destruct talk_logs as [H0 H1]. destruct t as [|[|t]].
  - rewrite <- H0. eapply on_session, logged_run. reflexivity.
  - rewrite <- H1. eapply on_session, logged_run. reflexivity.
  - rewrite talk_others. apply (on_ready _ _ true). exists (talk_world 0). by rewrite app_nil_r.
Qed.

Lemma stored_values_typed_witness :
  length talk_log = 9 /\ store_typed (MemoryProofs.view (play talk_schedule talk_env).2.2).
Proof.
  split; [vm_compute; reflexivity|].
  exact (proj1 (stored_values_typed MemoryProofs.view MemoryProofs.inv memory_laws talk_env talk_log _ talk_inv talk_typed
    (play_system MemoryProofs.view talk_schedule talk_env talk_plays)
    (fun t => ex_intro _ [] (talk_serves_typed t)))).
Defined.
