(* ===== verification/Handoff.v ===== *)
(** * Handing a message over to a connection

    An application server's request stores a message and then looks for the
    node its user agent is connected to; a session sets the route to its node
    and then reads the backlog ([endpoint.rs], [notify.rs], [session.rs]). The
    two are the handlers themselves, and their store calls interleave with
    each other and with those of other tasks. *)
From S2P Require Import MemoryRuns HubTheorems Demo Instances Prelude RustStr External StoreTypes Store MemoryStore MemoryProofs Hub Bridge Config App Notify Headers Subscription Session Ece Vapid Response Worlds Delivery Endpoint EndpointTheorems Calls System Concurrency TaskExamples.

(** ** What calls leave in place *)
Section keeps.
Context `{B64 : Base64}.
Context (m : Message) (node : string).
Abbreviation hto := (RUserAgent (m_uaid m)).

(** A stored [m] stays stored. *)
Definition keeps_message {X} (c : Call X) : Prop :=
  match c with
  | CDeleteMessage id _ => id <> m_id m
  | CReap now => (now < m_expiry m)%N
  | CDeleteUserAgent u => u <> m_uaid m
  | CExpireUserAgents _ => False
  | CDeleteSubscription u ch => (u, ch) <> m_owner m
  | CInsertMessage m' => m_slot m' = None \/ m_slot m' <> m_slot m
  | _ => True
  end.
(** A route of its user agent to [node] stays. *)
Definition keeps_route {X} (c : Call X) : Prop :=
  match c with
  | CSetRoute to _ => to <> hto
  | CClearRoute to n => to = hto -> n <> node
  | _ => True
  end.
Definition on_call (P : forall X, Call X -> Prop) (en : Entry) : Prop := match en with @Called X c _ => P X c end.
Abbreviation message_kept := (on_call (@keeps_message)).
Abbreviation route_kept := (on_call (@keeps_route)).
Definition undisturbing (en : Entry) : Prop := message_kept en /\ route_kept en.

Definition stored_in (a : AStore) : Prop := a_msgs a !! m_id m = Some m.
Definition routed_in (a : AStore) : Prop := a_routes a !! hto = Some node.

(** What a successful call did, by the contract. *)
Definition entry_step (en : Entry) (e : Env) (a : AStore) (e' : Env) (a' : AStore) : Prop :=
  match en with Called c r => match r with Ok x => fresh_for e a c /\ a_step c e a x e' a' | Err _ => False end end.

Lemma removes_stored P e a rs e' a' : removes P e a rs e' a' -> P m = false -> stored_in a -> stored_in a'.
Proof. intros [Hm _ _ _ _] HP Hs. unfold stored_in. rewrite Hm. by apply map_lookup_filter_Some. Qed.
Lemma removes_routed P e a rs e' a' : removes P e a rs e' a' -> routed_in a -> routed_in a'.
Proof. intros [_ _ _ _ Hr] Hs. unfold routed_in. by rewrite Hr. Qed.

Lemma step_keeps_message en e a e' a' : entry_step en e a e' a' -> message_kept en -> stored_in a -> stored_in a'.
Proof.
  destruct en as [X c [x|err]]; [|done]. intros [Hf Hst] Hk Hs. destruct c; cbn in Hf, Hst, Hk; try done;
    try (destruct_ex; repeat case_match; cbv zeta in *; destruct_ex; subst; exact Hs).
  - eapply removes_stored; [apply Hst| |done]. unfold of_user_agent. by rewrite bool_decide_false.
  - case_match; [|destruct_ex; by subst]. eapply removes_stored; [apply Hst| |done]. apply bool_decide_eq_false. congruence.
  - destruct Hst as [_ ->]. unfold stored_in, a_insert_message. cbn -[m_slot].
    rewrite lookup_insert_ne by (intros Heq; unfold stored_in in Hs; congruence).
    destruct (m_slot m0) as [sl|] eqn:Hsl; [|done]. apply map_lookup_filter_Some. split; [done|]. cbn.
    destruct Hk; congruence.
  - destruct Hst as (_ & -> & _). destruct (m0 ← _; _); [|done]. unfold stored_in. cbn. by rewrite lookup_delete_ne.
  - destruct Hst as (P & HP & _ & Hr & _). eapply removes_stored; [exact Hr| |done].
    apply not_true_is_false. intros Hm%HP. lia.
  - destruct Hst as (_ & -> & _). unfold a_clear_route. by case_decide.
Qed.

Lemma step_keeps_route en e a e' a' : entry_step en e a e' a' -> route_kept en -> routed_in a -> routed_in a'.
Proof.
  destruct en as [X c [x|err]]; [|done]. intros [Hf Hst] Hk Hs. destruct c; cbn in Hf, Hst, Hk; try done;
    try (destruct_ex; repeat case_match; cbv zeta in *; destruct_ex; subst; exact Hs).
  - by eapply removes_routed; [apply Hst|].
  - by eapply removes_routed; [apply Hst|].
  - case_match; [|destruct_ex; by subst]. by eapply removes_routed; [apply Hst|].
  - destruct Hst as (P & _ & _ & Hr & _). by eapply removes_routed.
  - destruct Hst as (_ & -> & _). unfold routed_in. cbn. by rewrite lookup_insert_ne.
  - destruct Hst as (_ & -> & _). unfold a_clear_route. case_decide as Hd; [|done].
    unfold routed_in in *. cbn. rewrite lookup_delete_ne; [done|]. intros ->. destruct Hk; congruence.
Qed.
End keeps.

(** ** Runs

    How far each side has got: the request has stored the message and looked
    up the route, the session has set the route and read the backlog. *)
Inductive Side : Type := Before | Between | After.

Section runs.
Context `{B64 : Base64}.
Context (m : Message) (node : string) (batch : N) (p c : nat) (Hpc : p <> c).
Context (ans : result BoxError (option string)) (set : result BoxError (option string)) (now : N)
  (got : result BoxError (list Message)).
Abbreviation hto := (RUserAgent (m_uaid m)).
Abbreviation message_kept := (on_call (@keeps_message m)).
Abbreviation route_kept := (on_call (@keeps_route m node)).
Abbreviation undisturbing := (undisturbing m node).

Definition request_left (s : Side) (l : list Entry) : Prop :=
  match s with
  | Before => exists pre post, l = pre ++ Called (CInsertMessage m) (Ok ()) :: Called (CRoute hto) ans :: post /\
      Forall undisturbing pre /\ Forall message_kept post
  | Between => exists post, l = Called (CRoute hto) ans :: post /\ Forall message_kept post
  | After => Forall message_kept l
  end.
Definition session_left (s : Side) (l : list Entry) : Prop :=
  match s with
  | Before => exists pre post, l = pre ++ Called (CSetRoute hto node) set :: Called (CPending (m_uaid m) now batch) got :: post /\
      Forall undisturbing pre /\ Forall route_kept post
  | Between => exists post, l = Called (CPending (m_uaid m) now batch) got :: post /\ Forall route_kept post
  | After => Forall route_kept l
  end.

(** The backlog has the message, or is full of messages that come before it. *)
Definition read_ahead (ms : list Message) : Prop :=
  m ∈ ms \/ (N.of_nat (length ms) = batch /\ Forall (fun x => msg_le x m) ms).
Definition met : Prop := ans = Ok (Some node) \/ exists ms, got = Ok ms /\ read_ahead ms.

Definition at_state (ps cs : Side) (a : AStore) : Prop :=
  (ps <> Before -> cs <> After -> stored_in m a) /\ (cs <> Before -> ps <> After -> routed_in m node a).

Definition not_over (ps cs : Side) : Prop := ~ (ps = After /\ cs = After).

Lemma request_step ps l en e a e' a' cs : request_left ps (en :: l) -> at_state ps cs a -> not_over ps cs ->
  entry_step en e a e' a' -> met \/ exists ps', request_left ps' l /\ at_state ps' cs a' /\ not_over ps' cs.
Proof.
  intros Hl [Hst Hro] Hov He. destruct ps.
  - destruct Hl as (pre & post & Hl & Hpre & Hpost). right. destruct pre as [|en' pre]; injection Hl as -> ->.
    + exists Between. cbn in He. destruct He as (_ & _ & ->). split_and!; [by exists post| |by intros []].
      split; [|intros; by apply Hro]. intros _ _. apply lookup_insert_eq.
    + apply Forall_cons in Hpre as [[_ Hk] Hpre]. exists Before. split_and!; [by exists pre, post| |by intros []].
      split; [done|]. intros Hc Hp. eapply step_keeps_route; eauto.
  - destruct Hl as (post & Hl & Hpost). injection Hl as -> ->. cbn in He. destruct ans as [o|] eqn:Ha; [|done].
    destruct He as (_ & _ & -> & ->). destruct cs.
    + right. exists After. split_and!; [done| |by intros []]. split; [|done]. intros _ _. by apply Hst.
    + left. left. rewrite Ha. f_equal. by apply Hro.
    + left. left. rewrite Ha. f_equal. by apply Hro.
  - right. apply Forall_cons in Hl as [Hk Hl]. exists After. split_and!; [done| |done]. split; [|done].
    intros _ Hc. eapply step_keeps_message; eauto.
Qed.

Lemma pending_ahead e a x e' a' : a_step (CPending (m_uaid m) now batch) e a x e' a' -> stored_in m a ->
  (now < m_expiry m)%N -> read_ahead x.
Proof.
  intros (_ & _ & all & Hs & Hall & ->) Hm Hnow.
  assert (Hin : m ∈ all).
  { rewrite Hall. apply list_elem_of_filter. split; [done|]. apply elem_of_values. by exists (m_id m). }
  rewrite truncate_take. set (n := N.to_nat batch) in *. rewrite <- (take_drop n all) in Hin, Hs.
  apply elem_of_app in Hin as [Hin|Hin]; [by left|right]. split.
  - rewrite length_take. destruct (decide (length all <= n)) as [Hle|]; [|lia].
    rewrite drop_ge in Hin by done. by apply not_elem_of_nil in Hin.
  - apply Forall_forall. intros y Hy. eapply StronglySorted_app_1_elem_of; eauto.
Qed.

Lemma session_step cs l en e a e' a' ps : (now < m_expiry m)%N -> session_left cs (en :: l) -> at_state ps cs a ->
  not_over ps cs -> entry_step en e a e' a' ->
  met \/ exists cs', session_left cs' l /\ at_state ps cs' a' /\ not_over ps cs'.
Proof.
  intros Hnow Hl [Hst Hro] Hov He. destruct cs.
  - destruct Hl as (pre & post & Hl & Hpre & Hpost). right. destruct pre as [|en' pre]; injection Hl as -> ->.
    + exists Between. cbn in He. destruct set as [o|]; [|done]. destruct He as (_ & _ & -> & _).
      split_and!; [by exists post| |by intros []].
      split; [intros; by apply Hst|]. intros _ _. apply lookup_insert_eq.
    + apply Forall_cons in Hpre as [[Hk _] Hpre]. exists Before. split_and!; [by exists pre, post| |by intros []].
      split; [|done]. intros Hc Hp. eapply step_keeps_message; eauto.
  - destruct Hl as (post & Hl & Hpost). injection Hl as -> ->. cbn [entry_step] in He.
    destruct got as [ms|] eqn:Hg; [|done]. destruct He as [_ He]. pose proof He as (_ & -> & _).
    assert (Hst' : ps <> Before -> met).
    { intros Hps. right. exists ms. split; [done|]. eapply pending_ahead; [exact He|by apply Hst|done]. }
    destruct ps; [|left; by apply Hst'..]. right. exists After. split_and!; [done| |by intros []].
    split; [done|]. intros _ _. by apply Hro.
  - right. apply Forall_cons in Hl as [Hk Hl]. exists After. split_and!; [done| |done]. split; [done|].
    intros _ Hc. eapply step_keeps_route; eauto.
Qed.

Lemma handed_over w log w' : contract w log w' -> (now < m_expiry m)%N -> forall ps cs,
  request_left ps (of_task p log) -> session_left cs (of_task c log) ->
  Forall (fun te => te.1 = p \/ te.1 = c \/ undisturbing te.2) log ->
  at_state ps cs w.2 -> not_over ps cs -> met.
Proof.
  intros Hrun Hnow. induction Hrun as [w|e e' a log w _ _ _ IH|X t cl x e a e' a' log w Hwf Hf _ Hst _ IH];
    intros ps cs Hp Hc Hoth Hat Hov.
  - destruct ps; [by destruct Hp as ([|] & ? & [=] & _)|by destruct Hp as (? & [=] & _)|].
    destruct cs; [by destruct Hc as ([|] & ? & [=] & _)|by destruct Hc as (? & [=] & _)|]. by destruct Hov.
  - by apply (IH ps cs).
  - assert (He : entry_step (Called cl (Ok x)) e a e' a') by done.
    generalize dependent (Called cl (Ok x)). clear dependent cl. intros en Hp Hc Hoth He.
    apply Forall_cons in Hoth as [Ht Hoth]. rewrite of_task_cons in Hp, Hc. cbn [fst snd] in *.
    destruct (decide (t = p)) as [->|Htp].
    + rewrite decide_False in Hc by done.
      destruct (request_step _ _ _ _ _ _ _ _ Hp Hat Hov He) as [?|(ps' & Hp' & Hat' & Hov')]; [done|]. by apply (IH ps' cs).
    + destruct (decide (t = c)) as [->|Htc].
      * destruct (session_step _ _ _ _ _ _ _ _ Hnow Hc Hat Hov He) as [?|(cs' & Hc' & Hat' & Hov')]; [done|].
        by apply (IH ps cs').
      * destruct Ht as [?|[?|[Hm Hr]]]; [done..|]. apply (IH ps cs); [done..| |done]. destruct Hat as [Hs Hro].
        split; [intros; eapply step_keeps_message; eauto|intros; eapply step_keeps_route; eauto].
Qed.
End runs.

(** ** What the handlers call *)
Definition no_insert {X} (c : Call X) : Prop := match c with CInsertMessage _ => False | _ => True end.
Definition aside {X} (c : Call X) : Prop :=
  match c with
  | CInsertMessage _ | CSetRoute (RUserAgent _) _ | CClearRoute (RUserAgent _) _ => False
  | _ => True
  end.
#[export] Instance on_call_log (P : forall X, Call X -> Prop) : LogProp (Forall (on_call P)).
Proof. split; [constructor|]. intros l l' ? ?. by apply Forall_app. Qed.
Abbreviation only Q M := (makes (Forall (on_call Q)) M).
Abbreviation asides M := (only (@aside) M).

Create HintDb asides discriminated.
#[export] Hint Resolve makes_ret makes_est_ret makes_throw makes_lift_result : asides.
Ltac only_step := intros; cbv zeta; lazymatch goal with
  | |- makes _ (let '(_, _) := ?p in _) => destruct p
  | |- makes _ (@mbind _ (@est_bind _ _) _ _ _ _) => apply makes_est_bind; [apply _| |]
  | |- makes _ (@mbind _ (@st_bind _) _ _ _ _) => apply makes_bind; [apply _| |]
  | |- makes _ (lift_st _) => apply makes_lift_st
  | |- makes _ (match ?x with _ => _ end) => destruct x
  | |- makes _ (attempt _) => unfold attempt
  | |- _ => solve [eauto with asides typeclass_instances]
  end.

Section calls.
Context {BW F A : Type} `{MP : Mpsc} `{B64 : Base64}.
Abbreviation World := (World Asked BW).
Implicit Types (app : App BW F A).

Section only.
Context (Q : forall X, Call X -> Prop).
Lemma only_ask {X} (c : Call X) : Q X c -> only Q (ask c).
Proof. intros Hq [e t]. eexists. split; [reflexivity|]. by repeat constructor. Qed.
Lemma only_with_store {X} (M : SM Asked X) : only Q M -> only Q (with_store M : EST World BoxError X).
Proof.
  intros Hm w. destruct (Hm (w_env w, w_store w)) as (l & Hl & Hp). exists l. unfold with_store.
  by destruct (M (w_env w, w_store w)) as [r [e t]].
Qed.
Lemma only_with_env {X} (M : ST Env X) : only Q (App.with_env M : ST World X).
Proof. apply makes_silent; [apply _|]. intros w. unfold App.with_env. by destruct (M _). Qed.
Lemma only_with_hub {X} (M : ST (Hub * Chans) X) : only Q (with_hub M : ST World X).
Proof. apply makes_silent; [apply _|]. intros w. unfold with_hub. by destruct (M _) as [? [? ?]]. Qed.
Lemma only_with_bridges {E X} (M : EST BW E X) : only Q (with_bridges M : EST World E X).
Proof. apply makes_silent; [apply _|]. intros w. unfold with_bridges. by destruct (M _). Qed.
Lemma only_spawn t : only Q (App.spawn t : ST World unit).
Proof. by apply makes_silent; [apply _|]. Qed.
Lemma only_post url token body : only Q (post url token body : ST World HttpOutcome).
Proof. by apply makes_silent; [apply _|]. Qed.
End only.
#[local] Hint Resolve only_with_env only_with_hub only_with_bridges only_spawn only_post : asides.
Ltac world_step := first [only_step | intros; lazymatch goal with
  | |- makes _ (with_store _) => apply only_with_store; try (apply (only_ask _); solve [done|eauto])
  end].
Ltac world := repeat world_step.

Lemma only_clear_stale (Q : forall X, Call X -> Prop) to node : Q _ (CClearRoute to node) -> only Q (clear_stale to node : ST World unit).
Proof. intros Hq. unfold clear_stale. world. Qed.
Lemma only_notify (Q : forall X, Call X -> Prop) app to event : Q _ (CRoute to) -> (forall n, Q _ (CClearRoute to n)) ->
  only Q (Notify.notify app to event : ST World unit).
Proof.
  intros Hr Hc. pose proof (only_clear_stale Q to) as Hs. unfold Notify.notify, forward. world; by apply Hs.
Qed.
Lemma asides_notify_receipts app rs : asides (notify_receipts app rs : ST World unit).
Proof.
  induction rs as [|[sq r] rs IH]; cbn; [world|]. apply makes_bind; [apply _|by apply only_notify|]. by intros _.
Qed.
#[local] Hint Resolve asides_notify_receipts : asides.
Lemma asides_owe_receipt app (m : Message) status : asides (owe_receipt app m status : EST World BoxError unit).
Proof. unfold owe_receipt. world. Qed.
Lemma asides_drop_listener app l : asides (drop_listener app l : ST World unit).
Proof. unfold drop_listener, with_chans. world. Qed.
#[local] Hint Resolve asides_owe_receipt asides_drop_listener : asides.

(** ** A push *)
Lemma only_stored Q {X} (M : SM Asked X) : only Q M -> only Q (stored M : EST World Error X).
Proof.
  intros Hm w. destruct (only_with_store Q M Hm w) as (l & Hl & Hp). exists l. unfold stored.
  by destruct (with_store M w).
Qed.
Context `{JS : Json} `{PK : P256} `{HT : Http} `{HD : HttpDate} `{RH : ResponseHeaders}.
Lemma asides_bridge app p to : asides (bridge app p to : EST World Error Response).
Proof. unfold bridge, bridge_error, refuse, env. world. Qed.

(** What a push calls before it stores the message, and after it has looked
    for the listener's node. *)
Definition preparing {X} (c : Call X) : Prop :=
  match c with CSubscriptionByPush _ | CReceiptSubExists _ | CUserAgent _ | CCreateReceiptSub => True | _ => False end.
Definition clearing {X} (c : Call X) : Prop := match c with CClearRoute _ _ => True | _ => False end.

Definition calm {E X} (M : EST World E X) : Prop := forall w, exists l,
  log_of (M w).2 = log_of w ++ l /\ Forall (on_call (@preparing)) l /\ w_hub (M w).2 = w_hub w.
Lemma calm_silent {E X} (M : EST World E X) :
  (forall w, log_of (M w).2 = log_of w /\ w_hub (M w).2 = w_hub w) -> calm M.
Proof. intros Hm w. exists []. destruct (Hm w) as [-> ->]. by rewrite app_nil_r. Qed.
Lemma calm_bind {E X Y} (M : EST World E X) (f : X -> EST World E Y) : calm M -> (forall x, calm (f x)) -> calm (M ≫= f).
Proof.
  intros Hm Hf w. destruct (Hm w) as (l & Hl & Hp & Hh). unfold mbind, est_bind.
  destruct (M w) as [[x|e] w1]; [|by exists l]. destruct (Hf x w1) as (l' & Hl' & Hp' & Hh').
  exists (l ++ l'). cbn in *. rewrite Hl', Hl, app_assoc, Hh'. split_and!; [done|by apply Forall_app|done].
Qed.
Lemma calm_stored {X} (c : Call X) : preparing c -> calm (stored (ask c)).
Proof. intros Hc w. eexists [_]. split_and!; [reflexivity| |reflexivity]. by repeat constructor. Qed.

Lemma clear_stale_logs to node (w : World) : exists r,
  log_of (clear_stale to node w).2 = log_of w ++ [Called (CClearRoute to node) r] /\
  w_posts (clear_stale to node w).2 = w_posts w.
Proof. eexists. split; reflexivity. Qed.

Definition hand_over (ca : ClusterLink) (node : string) (m : Message) : string * string * Envelope :=
  (node +:+ NOTIFY_PATH, cl_token ca, new_envelope (RUserAgent (m_uaid m)) (EvMessage (notification_from m))).

Lemma forward_logs app ca node to event (w : World) : app_cluster app = Some ca -> exists l,
  log_of (forward app node to event w).2 = log_of w ++ l /\ Forall (on_call (@clearing)) l /\
  w_posts (forward app node to event w).2 = w_posts w ++ [(node +:+ NOTIFY_PATH, cl_token ca, new_envelope to event)].
Proof.
  intros Hca. unfold forward. rewrite Hca. unfold mbind, st_bind. cbn [post].
  set (w2 := {| w_env := _ |}).
  assert (Hend : forall M : ST World unit, M = mret () \/ M = clear_stale to node -> exists l,
    log_of (M w2).2 = log_of w ++ l /\ Forall (on_call (@clearing)) l /\ w_posts (M w2).2 = w_posts w2).
  { intros M [->| ->]; [exists []; by rewrite app_nil_r|]. destruct (clear_stale_logs to node w2) as (r & Hr & Hp).
    exists [Called (CClearRoute to node) r]. rewrite Hr, Hp. split_and!; [done|by repeat constructor|done]. }
  destruct (w_http w _) as [s| |]; [|apply (Hend (clear_stale to node)); by right|apply (Hend (mret ())); by left].
  destruct (_ && _); [apply (Hend (mret ())); by left|].
  destruct (s =? 404)%N; [apply (Hend (clear_stale to node)); by right|apply (Hend (mret ())); by left].
Qed.

(** With no listener here, an event goes where the route says. *)
Lemma notify_looks app ca to event (w : World) : app_cluster app = Some ca -> slots (w_hub w) !! to = None ->
  exists ans post, log_of (Notify.notify app to event w).2 = log_of w ++ Called (CRoute to) ans :: post /\
    Forall (on_call (@clearing)) post /\
    forall node, ans = Ok (Some node) -> node <> cl_node_url ca ->
      (node +:+ NOTIFY_PATH, cl_token ca, new_envelope to event) ∈ w_posts (Notify.notify app to event w).2.
Proof.
  intros Hca Hno. unfold Notify.notify, mbind, st_bind.
  assert (Hn : with_hub (Hub.notify to event) w = (Absent, w)).
  { unfold with_hub, Hub.notify. rewrite Hno. by destruct w. }
  rewrite Hn, Hca. destruct (world_ask (CRoute to) w) as (ans & Hans & Hl). unfold attempt.
  change (Store.route to) with (ask (CRoute to)).
  destruct (with_store (ask (CRoute to)) w) as [r w1]. cbn in Hans, Hl. subst r. exists ans.
  destruct ans as [[node|]|err]; [|exists []; (split_and!; [exact Hl|constructor|by intros ? [=]])..].
  cbv beta iota. case_decide as Hd.
  - destruct (clear_stale_logs to node w1) as (r & Hr & _). exists [Called (CClearRoute to node) r].
    rewrite Hr, Hl, <- app_assoc. split_and!; [done|by repeat constructor|]. by intros n [= <-] ?.
  - destruct (forward_logs app ca node to event w1 Hca) as (l & Hf & Hc & Hp). exists l.
    rewrite Hf, Hl, <- app_assoc. split_and!; [done..|]. intros n [= <-] _. rewrite Hp. apply elem_of_app. right. by left.
Qed.

(** What a push that stores [m] has called, and posted. *)
Definition handed app (m : Message) (l : list Entry) (posts : list (string * string * Envelope)) : Prop :=
  exists pre ans post,
    l = pre ++ Called (CInsertMessage m) (Ok ()) :: Called (CRoute (RUserAgent (m_uaid m))) ans :: post /\
    Forall (on_call (@preparing)) pre /\ Forall (on_call (@clearing)) post /\
    forall ca node, app_cluster app = Some ca -> ans = Ok (Some node) -> node <> cl_node_url ca -> hand_over ca node m ∈ posts.
Definition hands app {X} (M : EST World Error X) : Prop := forall w, exists l, log_of (M w).2 = log_of w ++ l /\
  forall m, Called (CInsertMessage m) (Ok ()) ∈ l -> slots (w_hub w) !! RUserAgent (m_uaid m) = None ->
    handed app m l (w_posts (M w).2).


(** The message a call has stored. *)
Definition stored_by (en : Entry) : option Message :=
  match en with
  | Called c r =>
      (match c in Call X return result BoxError X -> option Message with
       | CInsertMessage m => fun r => match r with Ok _ => Some m | Err _ => None end
       | _ => fun _ => None
       end) r
  end.
Lemma only_no_insert (Q : forall X, Call X -> Prop) m l : (forall X (c : Call X), Q X c -> no_insert c) ->
  Forall (on_call Q) l -> Called (CInsertMessage m) (Ok ()) ∈ l -> False.
Proof.
  intros HQ Hl Hin. rewrite Forall_forall in Hl. specialize (Hl _ Hin). cbn in Hl. by apply HQ in Hl.
Qed.

Lemma hands_only app (Q : forall X, Call X -> Prop) {X} (M : EST World Error X) :
  (forall X (c : Call X), Q X c -> no_insert c) -> only Q M -> hands app M.
Proof.
  intros HQ Hm w. destruct (Hm w) as (l & Hl & Hp). exists l. split; [done|]. intros m Hin.
  by destruct (only_no_insert Q m l HQ Hp Hin).
Qed.
Lemma preparing_no_insert X (c : Call X) : preparing c -> no_insert c.
Proof. by destruct c. Qed.
Lemma aside_no_insert X (c : Call X) : aside c -> no_insert c.
Proof. by destruct c. Qed.
Lemma hands_bind app {X Y} (M : EST World Error X) (f : X -> EST World Error Y) :
  calm M -> (forall x, hands app (f x)) -> hands app (M ≫= f).
Proof.
  intros Hm Hf w. destruct (Hm w) as (l & Hl & Hp & Hh). unfold mbind, est_bind.
  destruct (M w) as [[x|e] w1]; cbn in Hl, Hh.
  - destruct (Hf x w1) as (l' & Hl' & Hp'). exists (l ++ l'). rewrite Hl', Hl, app_assoc. split; [done|].
    intros m [Hin|Hin]%elem_of_app Hno; [by destruct (only_no_insert _ m l preparing_no_insert Hp Hin)|].
    rewrite <- Hh in Hno. destruct (Hp' m Hin Hno) as (pre & ans & post & -> & Hpre & Hpost & Hposts).
    exists (l ++ pre), ans, post. rewrite <- app_assoc. split_and!; [done|by apply Forall_app|done|done].
  - exists l. split; [done|]. intros m Hin. by destruct (only_no_insert _ m l preparing_no_insert Hp Hin).
Qed.

Lemma hands_stored app ca (mm : Message) (resp : Response) : app_cluster app = Some ca ->
  hands app (_ ← stored (Store.insert_message mm);
             _ ← lift_st (Notify.notify app (RUserAgent (m_uaid mm)) (EvMessage (notification_from mm)));
             mret resp).
Proof.
  intros Hca w. change (Store.insert_message mm) with (ask (CInsertMessage mm)).
  set (to := RUserAgent (m_uaid mm)). set (ev := EvMessage (notification_from mm)).
  destruct (world_ask (CInsertMessage mm) w) as (r & Hr & Hl). unfold mbind, est_bind, stored, lift_st.
  assert (Hhub : w_hub (with_store (ask (CInsertMessage mm)) w).2 = w_hub w) by done.
  destruct (with_store (ask (CInsertMessage mm)) w) as [r0 w1]. cbn in Hr, Hl, Hhub. subst r0.
  destruct r as [[]|err]; cbn [map_err].
  - destruct (only_notify (@no_insert) app to ev I (fun _ => I) w1) as (l2 & Hl2 & Hno2).
    exists (Called (CInsertMessage mm) (Ok ()) :: l2). split.
    { destruct (Notify.notify app to ev w1) as [u w2]. cbn in *. by rewrite Hl2, Hl, <- app_assoc. }
    intros m [Heq|Hin]%elem_of_cons Hno; [|by destruct (only_no_insert _ m l2 (fun _ _ H => H) Hno2 Hin)].
    apply (f_equal stored_by) in Heq. injection Heq as ->. rewrite <- Hhub in Hno.
    destruct (notify_looks app ca to ev w1 Hca Hno) as (ans & post & Hl3 & Hpost & Hposts).
    rewrite Hl2 in Hl3. apply app_inv_head in Hl3 as ->. exists [], ans, post.
    destruct (Notify.notify app to ev w1) as [u w2]. cbn in *. split_and!; [done|constructor|done|].
    intros ca' node Hca'. rewrite Hca in Hca'. injection Hca' as <-. apply Hposts.
  - exists [Called (CInsertMessage mm) (Err err)]. split; [exact Hl|].
    intros m Heq%list_elem_of_singleton. by apply (f_equal stored_by) in Heq.
Qed.

(** Take the calm parts off a handler. *)
Lemma calm_result {E X} (r : result E X) : calm (lift_result r : EST World E X).
Proof. by apply calm_silent. Qed.
Lemma calm_ret {E X} (x : X) : calm (mret x : EST World E X).
Proof. by apply calm_silent. Qed.
Lemma calm_throw {E X} (e : E) : calm (throw e : EST World E X).
Proof. by apply calm_silent. Qed.
Lemma calm_env {X} (M : ST Env X) : calm (env M : EST World Error X).
Proof. apply calm_silent. intros w. unfold env, lift_st, App.with_env. by destruct (M _). Qed.
Ltac calm_step := intros; cbv zeta; lazymatch goal with
  | |- calm (_ ≫= _) => apply calm_bind
  | |- calm (stored _) => apply (calm_stored _); exact I
  | |- calm (env _) => apply calm_env
  | |- calm (match ?x with _ => _ end) => destruct x
  | |- calm (mret _) => apply calm_ret
  | |- calm _ => first [apply calm_result|apply calm_throw]
  end.
Ltac calmly := repeat calm_step.

Lemma hands_store_and_notify app ca p id : app_cluster app = Some ca -> hands app (store_and_notify app p id).
Proof.
  intros Hca. unfold store_and_notify. apply hands_bind; [calmly|]. intros rsub.
  apply hands_bind; [calmly|]. intros accepted. apply hands_bind; [calmly|]. intros i.
  cbv zeta. by apply (hands_stored app ca (new_message p id i accepted rsub)).
Qed.
Lemma hands_push app ca id headers body : app_cluster app = Some ca -> hands app (push app id headers body).
Proof.
  intros Hca. unfold push, or_status, header, rsub_of_link, check_vapid, refuse.
  repeat (apply hands_bind; [calmly|intros ?; cbv zeta]).
  lazymatch goal with |- hands _ (if ?clash then _ else _) => destruct clash end.
  - apply (hands_only _ (@preparing)); [apply preparing_no_insert|]. by apply makes_silent; [apply _|].
  - repeat (apply hands_bind; [calmly|intros ?; cbv zeta]). destruct (ua_bridge _).
    + apply (hands_only _ (@aside)); [apply aside_no_insert|]. apply asides_bridge.
    + by eapply hands_store_and_notify.
Qed.

(** ** A session *)
Context `{CS : ClientSerde}.
Abbreviation SE X := (EST (World * Session) BoxError X) (only parsing).
Lemma asides_self {X} (f : Session -> X) : asides (self f : SE X).
Proof. apply makes_silent; [apply _|]. by intros [w s]. Qed.
Lemma asides_update f : asides (update f : SE unit).
Proof. apply makes_silent; [apply _|]. by intros [w s]. Qed.
Lemma asides_in_world {X} (M : EST World BoxError X) : asides M -> asides (Session.in_world M : SE X).
Proof.
  intros Hm [w s]. destruct (Hm w) as (k & Hk & Hp). exists k. unfold Session.in_world. by destruct (M w).
Qed.
Lemma asides_send_frame f : asides (send_frame f : SE unit).
Proof. apply makes_silent; [apply _|]. intros [w s]. unfold send_frame. by destruct (so_ok _ _). Qed.
Lemma asides_close code reason : asides (close code reason : SE unit).
Proof. apply makes_silent; [apply _|]. intros [w s]. unfold close, send_frame. by destruct (so_ok _ _). Qed.
#[local] Hint Resolve asides_self asides_update asides_send_frame asides_close : asides.
Ltac session := repeat first [world_step | intros; lazymatch goal with
  | |- makes _ (Session.in_world _) => apply asides_in_world
  end].
Lemma asides_sub_register u c v : asides (Subscription.register (S := Asked) u c v).
Proof. unfold Subscription.register. world; try (apply only_ask; exact I); world. Qed.
#[local] Hint Resolve asides_sub_register : asides.

Lemma asides_send v : asides (send v : SE unit).
Proof. unfold send, send_text. session. Qed.
#[local] Hint Resolve asides_send : asides.
Lemma asides_session_notify n : asides (Session.notify n : SE bool).
Proof. unfold Session.notify, send_text. session. Qed.
#[local] Hint Resolve asides_session_notify : asides.
Lemma asides_send_all pending : asides (send_all pending : SE N).
Proof. induction pending as [|m pending IH]; cbn; session. Qed.
#[local] Hint Resolve asides_send_all : asides.
Lemma asides_next_batch app : asides (next_batch app : SE unit).
Proof. unfold next_batch. session. Qed.
#[local] Hint Resolve asides_next_batch : asides.
Lemma asides_ack_all app us : asides (ack_all app us : SE unit).
Proof. induction us as [|u us IH]; cbn; unfold ack; session. Qed.
#[local] Hint Resolve asides_ack_all : asides.
Lemma asides_register app c k : asides (Session.register app c k : SE Value).
Proof. unfold Session.register. session. Qed.
#[local] Hint Resolve asides_register : asides.
Lemma asides_handle app msg : asides (handle app msg : SE unit).
Proof. unfold handle, send_text. session. Qed.
#[local] Hint Resolve asides_handle : asides.
Lemma asides_serve_loop app steps : asides (serve_loop app steps : SE unit).
Proof. induction steps as [|step steps IH]; cbn; [session|]. unfold serve_step. session. Qed.
#[local] Hint Resolve asides_serve_loop : asides.

(** The backlog is the first thing a session reads. *)
Definition reads_backlog (u : string) (batch : N) (l : list Entry) : Prop :=
  l = [] \/ exists now r post, l = Called (CPending u now batch) r :: post /\ Forall (on_call (@aside)) post.
Lemma next_batch_reads app (w : World) s : exists l,
  log_of (next_batch app (w, s)).2 = log_of w ++ l /\
  reads_backlog (se_uaid s) (backlog_batch (websocket (app_cfg app))) l /\ l <> [].
Proof.
  unfold next_batch. set (batch := backlog_batch _). destruct (now_ms (w_env w)) as [now e] eqn:Hn.
  set (w1 := {| w_env := e; w_store := w_store w; w_hub := w_hub w; w_chans := w_chans w; w_tasks := w_tasks w;
                w_http := w_http w; w_posts := w_posts w; w_bridges := w_bridges w |} : World).
  assert (Hnow : (Session.in_world (lift_st (App.with_env now_ms)) : SE N) (w, s) = (Ok now, (w1, s))).
  { unfold Session.in_world, lift_st, App.with_env. by rewrite Hn. }
  set (rest := fun pending : list Message => (_ ← update (set_more (N.of_nat (length pending) =? batch)%N);
    new ← send_all pending; if (new =? 0)%N then update (set_more false) else mret ()) : SE unit).
  assert (Hrest : forall pending, asides (rest pending)) by (intros pending; unfold rest; session).
  change (exists l, log_of ((now ← Session.in_world (lift_st (App.with_env now_ms));
    pending ← Session.in_world (with_store (ask (CPending (se_uaid s) now batch))); rest pending) (w, s)).2 = log_of w ++ l /\
    reads_backlog (se_uaid s) batch l /\ l <> []).
  unfold mbind, est_bind. rewrite Hnow. unfold Session.in_world.
  destruct (world_ask (CPending (se_uaid s) now batch) w1) as (r & Hr & Hl).
  destruct (with_store (ask (CPending (se_uaid s) now batch)) w1) as [r0 w2]. cbn in Hr. subst r0.
  assert (Hw1 : log_of w1 = log_of w) by done. rewrite Hw1 in Hl. destruct r as [ms|err].
  - destruct (Hrest ms (w2, s)) as (post & Hp & Ha). exists (Called (CPending (se_uaid s) now batch) (Ok ms) :: post).
    split_and!; [|right; by exists now, (Ok ms), post|done]. rewrite Hp. cbn. cbn in Hl. by rewrite Hl, <- app_assoc.
  - exists [Called (CPending (se_uaid s) now batch) (Err err)]. split_and!; [exact Hl| |done].
    right. by exists now, (Err err), [].
Qed.

Lemma reads_backlog_app u batch l l' : l <> [] -> reads_backlog u batch l -> Forall (on_call (@aside)) l' ->
  reads_backlog u batch (l ++ l').
Proof.
  intros Hl [->|(now & r & post & -> & Hp)] Hl'; [done|]. right. exists now, r, (post ++ l'). split; [done|].
  by apply Forall_app.
Qed.
Lemma serve_reads app steps (w : World) s : se_stored s = true -> exists l,
  log_of (Session.serve app steps (w, s)).2 = log_of w ++ l /\
  reads_backlog (se_uaid s) (backlog_batch (websocket (app_cfg app))) l.
Proof.
  intros Hst. unfold Session.serve. set (uaid := se_uaid s).
  change (exists l, log_of ((_ ← send (json [("messageType", Str "hello"); ("uaid", Str uaid); ("status", Num_ 200);
                  ("use_webpush", Bool true); ("broadcasts", Object [])]);
    stored ← self se_stored; _ ← (if (stored : bool) then next_batch app else mret ()); serve_loop app steps : SE unit) (w, s)).2 =
    log_of w ++ l /\ reads_backlog uaid (backlog_batch (websocket (app_cfg app))) l).
  unfold send, send_text, send_frame. unfold mbind, est_bind. destruct (so_ok _ _).
  2:{ exists []. rewrite app_nil_r. split; [done|by left]. }
  unfold self at 1. cbn [set_socket se_stored]. rewrite Hst. set (s1 := set_socket _ s).
  destruct (next_batch_reads app w s1) as (l & Hl & Hb & Hne).
  destruct (next_batch app (w, s1)) as [[u|err] [w2 s2]]; cbn in Hl; [|by exists l].
  destruct (asides_serve_loop app steps (w2, s2)) as (l' & Hl' & Ha). exists (l ++ l').
  split; [cbn in Hl'; by rewrite Hl', Hl, <- app_assoc|]. by apply reads_backlog_app.
Qed.

(** Becoming the listener is one call. *)
Lemma drop_listener_silent app l (w : World) : log_of (drop_listener app l w).2 = log_of w.
Proof.
  destruct (drop_listener app l w) as [u w3] eqn:Hd. cbn [snd]. apply st_bind_eq in Hd as (was & w1 & H1 & Hd).
  apply with_hub_store in H1 as (_ & Hs1 & _). apply st_bind_eq in Hd as (x & w2 & H2 & H3).
  unfold with_chans in H3. apply with_hub_store in H3 as (_ & Hs3 & _).
  assert (Hs2 : w_store w2 = w_store w1) by (destruct (was : bool); [destruct (app_cluster app)|]; by injection H2 as _ <-).
  unfold log_of, log_world. by rewrite Hs3, Hs2, Hs1.
Qed.
Lemma listen_calls app ca to (w : World) : app_cluster app = Some ca -> exists r,
  log_of (listen app to w).2 = log_of w ++ [Called (CSetRoute to (cl_node_url ca)) r].
Proof.
  intros Hca. unfold listen, mbind, est_bind, lift_st.
  destruct (with_hub (Hub.register to) w) as [[id rx] w1] eqn:Hh.
  assert (Hw1 : log_of w1 = log_of w).
  { revert Hh. unfold with_hub. destruct (Hub.register to _) as [? [? ?]]. by intros [= _ <-]. }
  rewrite Hca. change (Store.set_route to (cl_node_url ca)) with (ask (CSetRoute to (cl_node_url ca))). unfold attempt.
  destruct (world_ask (CSetRoute to (cl_node_url ca)) w1) as (r & Hr & Hl). rewrite Hw1 in Hl.
  destruct (with_store (ask _) w1) as [r0 w2]. cbn in Hr. subst r0. exists r.
  destruct r as [[node|]|err]; [by destruct (decide (node <> cl_node_url ca)); exact Hl|exact Hl|].
  set (l := {| l_rx := rx |}). pose proof (drop_listener_silent app l w2) as Hd.
  destruct (drop_listener app l w2) as [u w3]. exact (eq_trans Hd Hl).
Qed.


(** [Session::run] from [listen] on. *)
Definition joined app (socket : Socket) (steps : list Step) (u : string) (stored : bool) :
    ST World (result BoxError unit * Socket) := fun w =>
  match (listener ← listen app (RUserAgent u); now ← lift_st (App.with_env instant_now); mret (listener, u, stored, now)) w with
  | (Err e, w) => ((Err e, socket), w)
  | (Ok (listener, uaid, stored, now), w) =>
      let '(r, (w, session)) := Session.serve app steps (w, new_session socket uaid stored now) in
      let '(_, w) := drop_listener app listener w in
      ((r, se_socket session), w)
  end.
Lemma joined_calls app ca socket steps u stored (w : World) : app_cluster app = Some ca -> exists r l,
  log_of (joined app socket steps u stored w).2 = log_of w ++ Called (CSetRoute (RUserAgent u) (cl_node_url ca)) r :: l /\
  (stored = true -> reads_backlog u (backlog_batch (websocket (app_cfg app))) l).
Proof.
  intros Hca. destruct (listen_calls app ca (RUserAgent u) w Hca) as (r & Hl). exists r. unfold joined.
  unfold mbind, est_bind. destruct (listen app (RUserAgent u) w) as [[lis|err] w1]; cbn [snd] in Hl.
  2:{ exists []. split; [exact Hl|by left]. }
  unfold lift_st. destruct (App.with_env instant_now w1) as [now w2] eqn:He.
  assert (Hw2 : log_of w2 = log_of w1) by (revert He; unfold App.with_env; destruct (instant_now _); by intros [= _ <-]).
  cbn [mret est_ret]. set (s0 := new_session socket u stored now).
  assert (Hserve : exists l, log_of (Session.serve app steps (w2, s0)).2 = log_of w2 ++ l /\
    (stored = true -> reads_backlog u (backlog_batch (websocket (app_cfg app))) l)).
  { destruct stored eqn:Hst.
    - destruct (serve_reads app steps w2 s0 eq_refl) as (l & Hs & Hb). by exists l.
    - destruct (safe_serve app steps (w2, s0)) as (l & Hs & _). by exists l. }
  destruct Hserve as (l & Hs & Hb). exists l. split; [|exact Hb].
  destruct (Session.serve app steps (w2, s0)) as [r2 [w3 s3]]. pose proof (drop_listener_silent app lis w3) as Hd.
  destruct (drop_listener app lis w3) as [u4 w4]. cbn [snd] in *. rewrite Hd. cbn in Hs. by rewrite Hs, Hw2, Hl, <- app_assoc.
Qed.

Definition found_by (en : Entry) : option (string * result BoxError (option UserAgent)) :=
  match en with
  | Called c r =>
      (match c in Call X return result BoxError X -> option (string * result BoxError (option UserAgent)) with
       | CUserAgent u => fun r => Some (u, r)
       | _ => fun _ => None
       end) r
  end.

(** The session of a user agent that the store knows. *)
Definition joins (ca : ClusterLink) (u : string) (batch : N) (l0 : list Entry) : Prop := exists now r1 k,
  l0 = Called (CTouchUserAgent u now) r1 :: k /\
  (k = [] \/ exists r2 l, k = Called (CSetRoute (RUserAgent u) (cl_node_url ca)) r2 :: l /\ reads_backlog u batch l).
(** The same, from the answer to the first question on. *)
Definition greeted app (socket : Socket) (steps : list Step) (known : option UserAgent) :
    ST World (result BoxError unit * Socket) := fun w =>
  match known with
  | Some {| ua_uaid := u; ua_bridge := None |} =>
      let '(now, w) := App.with_env now_ms w in
      match with_store (ask (CTouchUserAgent u now)) w with
      | (Err e, w) => ((Err e, socket), w)
      | (Ok _, w) => joined app socket steps u true w
      end
  | _ => let '(u, w) := App.with_env new_uaid w in joined app socket steps u false w
  end.
Lemma log_with_env {X} (M : ST Env X) (w : World) : log_of (App.with_env M w).2 = log_of w.
Proof. unfold App.with_env. by destruct (M _). Qed.
Lemma greeted_calls app ca socket steps known (w : World) : app_cluster app = Some ca -> exists l,
  log_of (greeted app socket steps known w).2 = log_of w ++ l /\
  match known with
  | Some {| ua_uaid := u; ua_bridge := None |} => joins ca u (backlog_batch (websocket (app_cfg app))) l
  | _ => exists to r k, l = Called (CSetRoute to (cl_node_url ca)) r :: k
  end.
Proof.
  intros Hca.
  assert (Hnew : exists l, log_of (let '(u, w) := App.with_env new_uaid w in joined app socket steps u false w).2 = log_of w ++ l /\
    exists to r k, l = Called (CSetRoute to (cl_node_url ca)) r :: k).
  { pose proof (log_with_env new_uaid w) as He. destruct (App.with_env new_uaid w) as [u w1]. cbn [snd] in He.
    destruct (joined_calls app ca socket steps u false w1 Hca) as (r & k & Hl & _). rewrite Hl, He. eauto 6. }
  destruct known as [[u [b|] seen]|]; [exact Hnew| |exact Hnew]. unfold greeted.
  pose proof (log_with_env now_ms w) as He. destruct (App.with_env now_ms w) as [now w1]. cbn [snd] in He.
  destruct (world_ask (CTouchUserAgent u now) w1) as (r & Hr & Hl).
  destruct (with_store (ask (CTouchUserAgent u now)) w1) as [r0 w2]. cbn [fst snd] in Hr, Hl. subst r0. rewrite He in Hl.
  destruct r as [t|err].
  - destruct (joined_calls app ca socket steps u true w2 Hca) as (r2 & l & Hl2 & Hb). eexists.
    rewrite Hl2, Hl, <- app_assoc. split; [done|]. exists now, (Ok t). eexists. split; [reflexivity|]. right. eauto.
  - exists [Called (CTouchUserAgent u now) (Err err)]. split; [exact Hl|]. exists now, (Err err), []. by split; [|left].
Qed.
Lemma run_greets app socket first steps uaid (w : World) : next_text first = Some (Hello uaid) ->
  Session.run app socket first steps w =
  match (match uaid with
         | Some u => if is_uaid u then with_store (ask (CUserAgent u)) else mret None
         | None => mret None
         end : EST World BoxError (option UserAgent)) w with
  | (Err e, w) => ((Err e, socket), w)
  | (Ok known, w) => greeted app socket steps known w
  end.
Proof.
  intros Hn. unfold Session.run. rewrite Hn. unfold handshake, mbind at 1, est_bind at 1.
  change (@Store.user_agent Asked asked_store) with (fun u => ask (CUserAgent u)). cbv beta.
  set (question := match uaid with
                   | Some u => if is_uaid u then with_store (ask (CUserAgent u)) else mret None
                   | None => mret None
                   end : EST World BoxError (option UserAgent)).
  destruct (question w) as [[known|e] w1]; [|done].
  assert (Hnew : match ('(uaid, stored) ← (u ← lift_st (App.with_env new_uaid); mret (u, false));
       listener ← listen app (RUserAgent uaid); now ← lift_st (App.with_env instant_now);
       mret (listener, uaid, stored, now) : EST World BoxError _) w1 with
    | (Err e, w) => ((Err e, socket), w)
    | (Ok (listener, uaid, stored, now), w) =>
        let '(r, (w, session)) := Session.serve app steps (w, new_session socket uaid stored now) in
        let '(_, w) := drop_listener app listener w in ((r, se_socket session), w)
    end = let '(u, w) := App.with_env new_uaid w1 in joined app socket steps u false w).
  { unfold joined, mbind, est_bind, lift_st. by destruct (App.with_env new_uaid w1). }
  destruct known as [[u [b|] seen]|]; [exact Hnew| |exact Hnew]. unfold greeted.
  unfold joined, mbind, est_bind, lift_st. destruct (App.with_env now_ms w1) as [now w2].
  change (@Store.touch_user_agent Asked asked_store u now) with (ask (CTouchUserAgent u now)).
  by destruct (with_store (ask (CTouchUserAgent u now)) w2) as [[t|err] w3].
Qed.

Lemma session_joins app ca socket first steps (w : World) u ua l0 : app_cluster app = Some ca ->
  ua_uaid ua = u -> ua_bridge ua = None ->
  log_of (Session.run app socket first steps w).2 = log_of w ++ Called (CUserAgent u) (Ok (Some ua)) :: l0 ->
  joins ca u (backlog_batch (websocket (app_cfg app))) l0.
Proof.
  intros Hca Hu Hb Hlog.
  assert (Hno : forall k, log_of w ++ k = log_of w ++ Called (CUserAgent u) (Ok (Some ua)) :: l0 ->
    (found_by <$> head k) = Some (Some (u, Ok (Some ua)))) by (by intros k ->%app_inv_head).
  assert (Hnone : log_of w <> log_of w ++ Called (CUserAgent u) (Ok (Some ua)) :: l0).
  { intros Hl. specialize (Hno []). rewrite app_nil_r in Hno. by specialize (Hno Hl). }
  destruct (next_text first) as [[uaid| | | | | |]|] eqn:Hn;
    try (destruct Hnone; rewrite <- Hlog; unfold Session.run; rewrite Hn; reflexivity).
  rewrite (run_greets _ _ _ _ _ _ Hn) in Hlog.
  assert (Hask : forall w1, log_of w1 = log_of w -> log_of (greeted app socket steps None w1).2 <>
    log_of w ++ Called (CUserAgent u) (Ok (Some ua)) :: l0).
  { intros w1 Hw1 Hl. destruct (greeted_calls app ca socket steps None w1 Hca) as (l & Hg & to & r & k & ->).
    rewrite Hg, Hw1 in Hl. by apply Hno in Hl. }
  destruct uaid as [u0|]; [|by destruct (Hask w)]. destruct (is_uaid u0); [|by destruct (Hask w)].
  destruct (world_ask (CUserAgent u0) w) as (r & Hr & Hl).
  destruct (with_store (ask (CUserAgent u0)) w) as [r0 w1]. cbn [fst snd] in Hr, Hl. subst r0. destruct r as [known|err].
  - destruct (greeted_calls app ca socket steps known w1 Hca) as (l & Hg & Hm). rewrite Hg, Hl, <- app_assoc in Hlog.
    pose proof (Hno _ Hlog) as Hf. injection Hf as -> ->. apply app_inv_head in Hlog. injection Hlog as ->.
    destruct ua as [u1 [b|] seen]; [done|]. cbn in Hu. subst u1. exact Hm.
  - cbn [snd] in Hlog. rewrite Hl in Hlog. by apply Hno in Hlog.
Qed.
End calls.

(** ** A message and a connection *)
Section handoff.
Context {S BW F A : Type} `{St : Store S} `{MP : Mpsc} `{B64 : Base64} `{JS : Json} `{PK : P256} `{HT : Http}
  `{HD : HttpDate} `{RH : ResponseHeaders} `{CS : ClientSerde}.
Context (view : S -> AStore) (inv : Env * S -> Prop) (laws : StoreLaws view inv).
Abbreviation World := (World Asked BW).
Abbreviation App := (App BW F A).

(** Calls in a run of the contract succeed, and users are found under their ids. *)
Definition answered (en : Entry) : Prop :=
  match en with
  | Called c r => is_ok r = true /\
      match found_by en with Some (u, Ok (Some ua)) => ua_uaid ua = u | _ => True end
  end.
Lemma contract_answered w log w' : contract w log w' -> Forall (fun te => answered te.2) log.
Proof.
  induction 1 as [w|e e' a log w _ _ _ IH|X t c x e a e' a' log w Hwf Hf _ Hst _ IH]; [constructor|done|].
  constructor; [|done]. split; [done|]. destruct c; try done. cbn in *. destruct Hst as (_ & _ & ->).
  destruct (a_uas a !! u) as [ua|] eqn:Hu; [|done]. exact (wf_uas _ Hwf _ _ Hu).
Qed.
Lemma task_entry t en log : en ∈ of_task t log -> (t, en) ∈ log.
Proof.
  unfold of_task. intros ([t' en'] & -> & [Ht Hin]%list_elem_of_filter)%list_elem_of_fmap. cbn in *. by subst t'.
Qed.

Lemma preparing_undisturbing m node l : Forall (on_call (@preparing)) l -> Forall (undisturbing m node) l.
Proof. intros Hl. eapply Forall_impl; [exact Hl|]. intros [X c r] Hc. by destruct c. Qed.
Lemma clearing_keeps m l : Forall (on_call (@clearing)) l -> Forall (on_call (@keeps_message m)) l.
Proof. intros Hl. eapply Forall_impl; [exact Hl|]. intros [X c r] Hc. by destruct c. Qed.
Lemma aside_keeps m node l : Forall (on_call (@aside)) l -> Forall (on_call (@keeps_route m node)) l.
Proof. intros Hl. eapply Forall_impl; [exact Hl|]. intros [X c r] Hc. destruct c; try done; by destruct to. Qed.

(** A session that got to its backlog. *)
Lemma joins_reads ca u batch tl rest u' now' limit r' : joins ca u batch (tl ++ rest) ->
  Called (CPending u' now' limit) r' ∈ tl -> exists t r1 r2 now r post,
  tl = Called (CTouchUserAgent u t) r1 :: Called (CSetRoute (RUserAgent u) (cl_node_url ca)) r2 ::
       Called (CPending u now batch) r :: post /\ Forall (on_call (@aside)) post.
Proof.
  set (reads := fun en => match en with Called c _ => match c with CPending _ _ _ => true | _ => false end end).
  intros (t & r1 & k & Heq & Hk) Hin.
  assert (Hr : existsb reads tl = true) by (apply existsb_exists; eexists; split; [by apply list_elem_of_In|done]).
  clear Hin. destruct tl as [|en tl]; [done|]. injection Heq as -> <-. destruct Hk as [Hk|(r2 & l & Hk & Hl)].
  { by apply app_eq_nil in Hk as [-> _]. }
  destruct tl as [|en tl]; [done|]. injection Hk as -> <-. destruct Hl as [Hl|(now & r & post & Hl & Hp)].
  { by apply app_eq_nil in Hl as [-> _]. }
  destruct tl as [|en tl]; [done|]. injection Hl as -> <-. apply Forall_app in Hp as [Hp _]. eauto 12.
Qed.

End handoff.

(** ** A late push

    The session of [talk_serde] reads its backlog on node b before the push
    on node a has called anything; each handler is answered as the small
    store answers the calls made so far. *)
Definition other_cluster : Cluster :=
  {| node_url := "http://b:9000"; token := "secret"; notify_timeout := from_secs 5 |}.
Definition redo (st : Env * State) (l : list Entry) : Env * State :=
  foldl (fun st en => match en with Called c _ => (perform c st).2 end) st l.
Definition node_world (st : Env * State) : World Asked (list (Address * BridgeMessage)) := {|
  w_env := later_env (demo_env talk_now);
  w_store := {| as_log := []; as_answer := fun X c l => (perform c (redo st l)).1; as_env := fun _ e => e |};
  w_hub := new_hub 8; w_chans := (∅, 0%N); w_tasks := []; w_http := fun _ => HttpStatus 200; w_posts := []; w_bridges := [];
|}.
Abbreviation at_b := (Session.run (demo_app (Some other_cluster)) {| so_out := []; so_ok := fun _ => true |}
  [Ok (FText "hello")] [SStop] (node_world talk_env)).
Definition late_message : Message := demo_msg "_____________________w" (Some "_____________________w").
Definition late_calls : list (nat * ACall) :=
  [(1, Some_call (CUserAgent session_ua));
   (1, Some_call (CTouchUserAgent session_ua talk_now));
   (1, Some_call (CSetRoute (RUserAgent session_ua) "http://b:9000"));
   (1, Some_call (CPending session_ua (talk_now + 1) (backlog_batch default_websocket)));
   (0, Some_call (CSubscriptionByPush session_push));
   (0, Some_call (CUserAgent session_ua));
   (0, Some_call CCreateReceiptSub);
   (0, Some_call (CInsertMessage late_message));
   (0, Some_call (CRoute (RUserAgent session_ua)))].
Definition late_log : list (nat * Entry) := (play late_calls talk_env).1.
Abbreviation at_a := (push (HT := list_http) (demo_app (Some demo_cluster)) session_push demo_headers [x61]
  (node_world (redo talk_env (of_task 1 late_log)))).

(** The handlers make exactly these calls. *)
Lemma late_request : of_task 0 late_log = log_of at_a.2.
Proof. vm_compute. reflexivity. Qed.
Lemma late_session : of_task 1 late_log ++ [] = log_of at_b.2.
Proof. vm_compute. reflexivity. Qed.
Lemma late_plays : plays MemoryProofs.view late_calls talk_env.
Proof.
  cbn [plays late_calls app fresh_for].
  repeat (split; [exact I|split; [vm_compute; reflexivity|]]).
  do 2 (split; [vm_compute; reflexivity|split; [vm_compute; reflexivity|]]).
  split; [exact I|split; [vm_compute; reflexivity|exact I]].
Qed.
Lemma late_others : Forall (fun te => te.1 = 0 \/ te.1 = 1 \/ undisturbing late_message "http://b:9000" te.2) late_log.
Proof.
  assert (H : Forall (fun te => te.1 < 2) late_log) by (apply (bool_decide_unpack _); vm_compute; exact I).
  eapply Forall_impl; [exact H|]. intros [t en] Ht. cbn in *. lia.
Qed.

(** What a session has read, and when. *)
Definition read_by (en : Entry) : option (N * list string) :=
  match en with
  | Called c r =>
      (match c in Call X return result BoxError X -> option (N * list string) with
       | CPending _ now _ => fun r => match r with Ok ms => Some (now, m_id <$> ms) | Err _ => None end
       | _ => fun _ => None
       end) r
  end.
Lemma late_read : of_task 1 late_log !! 3 ≫= read_by = Some (1001%N, [demo_id]).
Proof. vm_compute. reflexivity. Qed.
Lemma late_stored : Called (CInsertMessage late_message) (Ok ()) ∈ of_task 0 late_log.
Proof. vm_compute. do 3 right. left. Qed.
Lemma late_pending : exists r, Called (CPending session_ua (talk_now + 1) (backlog_batch default_websocket)) r ∈ of_task 1 late_log.
Proof. eexists. vm_compute. do 3 right. left. Qed.
Lemma late_hello : exists ua, head (of_task 1 late_log) = Some (Called (CUserAgent session_ua) (Ok (Some ua))) /\ ua_bridge ua = None.
Proof. eexists. vm_compute. split; reflexivity. Qed.

