(* ===== verification/BigtableRepr.v ===== *)
(** * The table that represents an abstract state

    The row keys and columns of each kind of row, when they cannot be
    confused, and which table holds an [AStore]. *)
From Stdlib Require Import Ascii.
From S2P Require Import Prelude RustStr External StoreTypes Store Headers Subscription Calls Typing Bridge Client GcpAuth BigtableWire BigtableService Bigtable BigtableTheorems BigtableRows BigtableRuns BigtableScans BigtableContents.

(** ** The row keys of well-formed values

    Well-formed ids, channels and topics hold none of the separators of row
    keys, so that a key says which value it is of, and keys of different kinds
    of rows differ. *)

(** ** Characters *)
Definition key_char (c : ascii) : bool := between 0 127 c && negb (char_is 35 c) && negb (char_is 58 c).
Definition plain (s : string) : Prop := str_all key_char s = true.

Lemma b64url_key_char c : is_b64url c = true -> key_char c = true.
Proof.
  unfold is_b64url, is_ascii_alphanumeric, is_ascii_digit, key_char, between, char_is.
  rewrite !orb_true_iff, !andb_true_iff, !negb_true_iff, !N.leb_le, !N.eqb_eq, !N.eqb_neq. lia.
Qed.
Lemma hex_key_char c : is_ascii_digit c || between 97 102 c = true -> key_char c = true.
Proof.
  unfold is_ascii_digit, key_char, between, char_is.
  rewrite !orb_true_iff, !andb_true_iff, !negb_true_iff, !N.leb_le, !N.eqb_neq. lia.
Qed.
Lemma hexdigit_key_char c : is_ascii_hexdigit c = true \/ char_is 45 c = true -> key_char c = true.
Proof.
  unfold is_ascii_hexdigit, is_ascii_digit, key_char, between, char_is.
  rewrite !orb_true_iff, !andb_true_iff, !negb_true_iff, !N.leb_le, !N.eqb_eq, !N.eqb_neq. lia.
Qed.

Lemma id_plain i : is_id i = true -> plain i.
Proof. intros [_ Hi]%is_id_spec. eapply str_all_impl; [apply b64url_key_char|done]. Qed.
Lemma uaid_plain u : is_uaid u = true -> plain u.
Proof. unfold is_uaid. intros [_ Hu]%andb_true_iff. eapply str_all_impl; [apply hex_key_char|done]. Qed.
Lemma uuid_plain i s : uuid_bytes i s = true -> plain s.
Proof.
  revert i. induction s as [|c s IH]; intros i; [done|]. cbn [uuid_bytes]. intros [Hc Hs]%andb_true_iff. unfold plain. cbn.
  apply andb_true_iff. split; [|by eapply IH]. apply hexdigit_key_char. case_match; auto.
Qed.
Lemma channel_plain c : channel_ok c -> plain c.
Proof.
  unfold channel_ok, Subscription.channel_id. destruct (_ && _) eqn:E; [|done]. intros [= Hl].
  apply andb_true_iff in E as [_ Hu]. by eapply uuid_plain.
Qed.
Lemma topic_plain t : topic_ok t -> plain t.
Proof. intros (_ & _ & Ht). eapply str_all_impl; [apply b64url_key_char|done]. Qed.
Lemma hex_plain n : plain (hex16 n).
Proof. eapply str_all_impl; [apply hex_key_char|apply hex_w_all]. Qed.
#[export] Hint Resolve id_plain uaid_plain channel_plain topic_plain hex_plain : push.

Lemma plain_no_hash s : plain s -> str_all (fun c => negb (char_is 35 c)) s = true.
Proof. apply str_all_impl. intros c. unfold key_char. rewrite !andb_true_iff. tauto. Qed.
Lemma plain_no_colon s : plain s -> str_all (fun c => negb (char_is 58 c)) s = true.
Proof. apply str_all_impl. intros c. unfold key_char. rewrite !andb_true_iff. tauto. Qed.
Lemma plain_ascii s : plain s -> ascii_only s.
Proof. apply str_all_impl. intros c. unfold key_char. rewrite !andb_true_iff. tauto. Qed.
Lemma plain_utf8 s : plain s -> utf8_valid s = true.
Proof. intros Hs. by apply utf8_ascii, plain_ascii. Qed.
Lemma ascii_app a b : ascii_only (a +:+ b) <-> ascii_only a /\ ascii_only b.
Proof. unfold ascii_only. rewrite str_all_app, andb_true_iff. done. Qed.

(** Up to a separator that neither side holds. *)
Lemma sep_inj p c a b a' b' : p c = true -> str_all (fun c => negb (p c)) a = true -> str_all (fun c => negb (p c)) a' = true ->
  a +:+ String c b = a' +:+ String c b' -> a = a' /\ b = b'.
Proof.
  intros Hc Ha Ha' Heq. pose proof (split_once_app p a c b Ha Hc) as H1. pose proof (split_once_app p a' c b' Ha' Hc) as H2.
  rewrite Heq, H2 in H1. by injection H1 as -> ->.
Qed.
Lemma hash_inj a b a' b' : plain a -> plain a' -> a +:+ "#" +:+ b = a' +:+ "#" +:+ b' -> a = a' /\ b = b'.
Proof. intros Ha Ha'. apply (sep_inj (char_is 35) "#"); [done|by apply plain_no_hash..]. Qed.
Lemma colon_inj a b a' b' : plain a -> plain a' -> a +:+ ":" +:+ b = a' +:+ ":" +:+ b' -> a = a' /\ b = b'.
Proof. intros Ha Ha'. apply (sep_inj (char_is 58) ":"); [done|by apply plain_no_colon..]. Qed.
Lemma hex16_inj n n' x y : (n <= u64_max)%N -> (n' <= u64_max)%N -> hex16 n +:+ x = hex16 n' +:+ y -> n = n' /\ x = y.
Proof.
  intros Hn Hn' Heq. apply app_inj_len in Heq as [Hh ->]; [|by unfold hex16; rewrite !length_hex_w].
  split; [|done]. apply (f_equal (from_str_radix 16)) in Hh. rewrite !parse_hex16 in Hh by done. by injection Hh.
Qed.

(** ** Keys *)
Definition ua_key (ua : UserAgent) : string := "ua#" +:+ ua_uaid ua.
Definition push_key (s : Subscription) : string := "push#" +:+ sub_push s.
Definition mid_of (m : Message) : string := "mid#" +:+ m_id m.
Definition rexp_key (m : Message) : string := "rexp#" +:+ hex16 (m_expiry m) +:+ "#" +:+ m_id m.
Definition rsub_key (r : string) : string := "rsub#" +:+ r.
Definition node_key (tn : Recipient * string) : string := route_key tn.1.

Lemma ua_key_inj a b : ua_key a = ua_key b -> ua_uaid a = ua_uaid b.
Proof. apply app_inj_l. Qed.
Lemma push_key_inj a b : push_key a = push_key b -> sub_push a = sub_push b.
Proof. apply app_inj_l. Qed.
Lemma mid_of_inj a b : mid_of a = mid_of b -> m_id a = m_id b.
Proof. apply app_inj_l. Qed.
Lemma rsub_key_inj a b : rsub_key a = rsub_key b -> a = b.
Proof. apply app_inj_l. Qed.
Lemma route_key_inj a b : route_key a = route_key b -> a = b.
Proof.
  destruct a as [u|r], b as [u'|r']; unfold route_key; try (rewrite !app_cons; by intros [=]); by intros ->%app_inj_l.
Qed.
Lemma sub_key_inj a b : plain (sub_uaid a) -> plain (sub_uaid b) -> sub_key a = sub_key b ->
  sub_uaid a = sub_uaid b /\ sub_channel_id a = sub_channel_id b.
Proof. intros Ha Hb Heq%app_inj_l. by apply hash_inj. Qed.
Lemma rexp_key_inj a b : (m_expiry a <= u64_max)%N -> (m_expiry b <= u64_max)%N -> rexp_key a = rexp_key b ->
  m_expiry a = m_expiry b /\ m_id a = m_id b.
Proof. intros Ha Hb Heq%app_inj_l. apply hex16_inj in Heq as [-> Heq]; [|done..]. split; [done|]. by apply app_inj_l in Heq. Qed.
Lemma receipt_key_inj a b : plain (r_rsub a.2) -> plain (r_rsub b.2) -> (a.1 <= u64_max)%N -> (b.1 <= u64_max)%N ->
  receipt_key a = receipt_key b -> r_rsub a.2 = r_rsub b.2 /\ a.1 = b.1.
Proof.
  intros Ha Hb Hna Hnb Heq%app_inj_l. apply hash_inj in Heq as [Hr Heq]; [|done..]. split; [done|].
  rewrite <- (app_nil_r_str (hex16 a.1)), <- (app_nil_r_str (hex16 b.1)) in Heq. by apply hex16_inj in Heq as [-> _].
Qed.

(** A message row is of one topic slot or of one message. *)
Lemma message_key_inj a b : msg_typed a -> msg_typed b -> (m_accepted a <= u64_max)%N -> (m_accepted b <= u64_max)%N ->
  message_key a = message_key b ->
  m_uaid a = m_uaid b /\ match m_topic a with
    | Some t => m_topic b = Some t /\ m_channel_id a = m_channel_id b
    | None => m_topic b = None /\ m_id a = m_id b
    end.
Proof.
  intros Ha Hb Hna Hnb. unfold message_key.
  assert (Hh : forall x y, "#t:" +:+ x = "#" +:+ "t:" +:+ x /\ "#" +:+ hex16 y +:+ x = "#" +:+ (hex16 y +:+ x)) by done.
  destruct (m_topic a) as [t|] eqn:Hta, (m_topic b) as [t'|] eqn:Htb; intros Heq%app_inj_l.
  - change ("#t:" +:+ m_channel_id a +:+ ":" +:+ t) with ("#" +:+ ("t:" +:+ m_channel_id a +:+ ":" +:+ t)) in Heq.
    change ("#t:" +:+ m_channel_id b +:+ ":" +:+ t') with ("#" +:+ ("t:" +:+ m_channel_id b +:+ ":" +:+ t')) in Heq.
    apply hash_inj in Heq as [-> Heq%app_inj_l]; [|apply uaid_plain; by apply mt_uaid..].
    apply colon_inj in Heq as [-> ->]; [|apply channel_plain; by apply mt_channel..]. done.
  - exfalso. change ("#t:" +:+ m_channel_id a +:+ ":" +:+ t) with ("#" +:+ ("t:" +:+ m_channel_id a +:+ ":" +:+ t)) in Heq.
    apply hash_inj in Heq as [_ Heq]; [|apply uaid_plain; by apply mt_uaid..].
    pose proof (hex_not_topic (m_accepted b) (m_id b)) as Hno. by rewrite <- Heq, strip_prefix_app in Hno.
  - exfalso. change ("#t:" +:+ m_channel_id b +:+ ":" +:+ t') with ("#" +:+ ("t:" +:+ m_channel_id b +:+ ":" +:+ t')) in Heq.
    apply hash_inj in Heq as [_ Heq]; [|apply uaid_plain; by apply mt_uaid..].
    pose proof (hex_not_topic (m_accepted a) (m_id a)) as Hno. by rewrite Heq, strip_prefix_app in Hno.
  - apply hash_inj in Heq as [-> Heq]; [|apply uaid_plain; by apply mt_uaid..]. split; [done|].
    by apply hex16_inj in Heq as [_ ->].
Qed.

(** ** The table of a state of the contract

    [represents past a c]: the contents [c] hold the state [a] of the storage
    contract, each kind of row under its own prefix. [past] are the messages
    inserted so far: index rows of messages that are gone may still be
    there. *)

(** ** One kind of rows *)
Section kinds.
Context {X : Type} (pfx family : string) (key : X -> string) (cols : X -> list (string * Bytes)).
Context (Hpfx : forall x, starts_with pfx (key x) = true).
Implicit Types (M : X -> Prop) (c : Contents).

(** The rows under [pfx] are those of the items satisfying [M]. *)
Record kind M c : Prop := {
  kd_item x : M x -> rows_for family key cols c x;
  kd_row k : starts_with pfx k = true -> is_Some (c !! k) -> exists x, M x /\ k = key x;
}.

Lemma kind_ext M M' c : (forall x, M x <-> M' x) -> kind M c -> kind M' c.
Proof.
  intros HM [Hi Hr]. split.
  - intros x Hx. by apply Hi, HM.
  - intros k Hk Hs. destruct (Hr k Hk Hs) as (x & Hx & ->). exists x. split; [by apply HM|done].
Qed.
Lemma kind_other_insert M c k r : starts_with pfx k = false -> kind M c -> kind M (<[ k := r ]> c).
Proof.
  intros Hk [Hi Hr]. assert (Hne : forall x, key x <> k) by (intros x Hx; specialize (Hpfx x); congruence). split.
  - intros x Hx. destruct (Hi x Hx) as (? & ? & Hc). split_and!; [done..|]. by rewrite lookup_insert_ne.
  - intros k' Hk'. rewrite lookup_insert_ne by congruence. by apply Hr.
Qed.
Lemma kind_other_delete M c k : starts_with pfx k = false -> kind M c -> kind M (base.delete k c).
Proof.
  intros Hk [Hi Hr]. assert (Hne : forall x, key x <> k) by (intros x Hx; specialize (Hpfx x); congruence). split.
  - intros x Hx. destruct (Hi x Hx) as (? & ? & Hc). split_and!; [done..|]. by rewrite lookup_delete_ne.
  - intros k' Hk'. rewrite lookup_delete_ne by congruence. by apply Hr.
Qed.
Lemma kind_insert M M' c x0 r : utf8_valid (key x0) = true -> NoDup (cols x0).*1 -> r = colsmap family (cols x0) ->
  (forall x, M' x <-> x = x0 \/ M x /\ key x <> key x0) -> kind M c -> kind M' (<[ key x0 := r ]> c).
Proof.
  intros Hu Hnd -> HM [Hi Hr]. split.
  - intros x [->|[Hx Hne]]%HM; [split_and!; [done..|apply lookup_insert_eq]|].
    destruct (Hi x Hx) as (? & ? & Hc). split_and!; [done..|]. by rewrite lookup_insert_ne.
  - intros k Hk. destruct (decide (k = key x0)) as [->|Hne]; [intros _; exists x0; split; [apply HM; by left|done]|].
    rewrite lookup_insert_ne by done. intros Hs. destruct (Hr k Hk Hs) as (x & Hx & ->). exists x. split; [|done].
    apply HM. by right.
Qed.
Lemma kind_delete M M' c k0 : (forall x, M' x <-> M x /\ key x <> k0) -> kind M c -> kind M' (base.delete k0 c).
Proof.
  intros HM [Hi Hr]. split.
  - intros x [Hx Hne]%HM. destruct (Hi x Hx) as (? & ? & Hc). split_and!; [done..|]. by rewrite lookup_delete_ne.
  - intros k Hk [r Hs]. apply lookup_delete_Some in Hs as [Hne Hs]. destruct (Hr k Hk) as (x & Hx & ->); [by eexists|].
    exists x. split; [|done]. by apply HM.
Qed.
Lemma kind_absent M c k : kind M c -> starts_with pfx k = true -> (forall x, M x -> key x <> k) -> c !! k = None.
Proof.
  intros [Hi Hr] Hk Hno. destruct (c !! k) as [r|] eqn:E; [|done]. destruct (Hr k Hk) as (x & Hx & ->); [by eexists|].
  by destruct (Hno x Hx).
Qed.
(** Every key under the prefix is of an item or of none. *)
Lemma kind_cases M c k : kind M c -> starts_with pfx k = true -> exists item,
  match item with Some x => M x /\ key x = k | None => forall x, M x -> key x <> k end.
Proof.
  intros [Hi Hr] Hk. destruct (c !! k) as [r|] eqn:E.
  - destruct (Hr k Hk) as (x & Hx & ->); [by eexists|]. by exists (Some x).
  - exists None. intros x Hx <-. destruct (Hi x Hx) as (_ & _ & Hc). congruence.
Qed.
Lemma kind_some M c x : kind M c -> M x -> c !! key x = Some (colsmap family (cols x)).
Proof. intros [Hi _] Hx. by apply Hi. Qed.
Lemma kind_iff M c x : kind M c -> (forall y, M y -> key y = key x -> M x) -> is_Some (c !! key x) <-> M x.
Proof.
  intros HK Hx. split.
  - intros Hs. destruct (kd_row _ _ HK (key x) (Hpfx x) Hs) as (y & Hy & He). by eapply Hx.
  - intros HM. rewrite (kind_some _ _ _ HK HM). by eexists.
Qed.
End kinds.

(** ** Values at their Rust types: strings are UTF-8, numbers fit. *)
Definition opt_utf8 : option string -> Prop := opt (fun s => utf8_valid s = true).
Record ua_ok (ua : UserAgent) : Prop := {
  uo_typed : ua_typed ua;
  uo_seen : (ua_last_seen ua <= u64_max)%N;
  uo_bridge b : ua_bridge ua = Some b -> utf8_valid (ba_bridge b) = true /\ utf8_valid (ba_app_id b) = true /\
    utf8_valid (ba_token b) = true;
}.
Record msg_ok (m : Message) : Prop := {
  mo_typed : msg_typed m;
  mo_ctype : opt_utf8 (m_ctype m);
  mo_cenc : opt_utf8 (m_cenc m);
  mo_accepted : (m_accepted m <= u64_max)%N;
  mo_expiry : (m_expiry m <= u64_max)%N;
}.

Lemma msg_storable m : msg_ok m -> storable m.
Proof.
  intros [[] ]. split; try done; try (by apply plain_utf8; auto with push).
  - by apply plain_no_hash, uaid_plain.
  - by apply plain_no_colon, channel_plain.
  - intros r Hr. apply plain_utf8, id_plain. auto.
Qed.
Lemma message_key_utf8 m : msg_ok m -> utf8_valid (message_key m) = true.
Proof.
  intros [[Hi Hu Hch _ Ht _ _] _ _ _ _]. apply utf8_ascii.
  change (ascii_only (message_key m)). unfold message_key.
  assert (Hua := plain_ascii _ (uaid_plain _ Hu)). assert (Hca := plain_ascii _ (channel_plain _ Hch)).
  destruct (m_topic m) as [t|]; rewrite !ascii_app; split_and!; try done; try (apply plain_ascii; auto with push).
Qed.

(** ** Columns of the kinds that have none yet *)
Definition ua_cols (ua : UserAgent) : list (string * Bytes) :=
  ("seen", as_bytes (to_string (ua_last_seen ua)))
    :: match ua_bridge ua with
       | Some b => [("bridge", as_bytes (ba_bridge b)); ("app", as_bytes (ba_app_id b));
                    ("token", as_bytes (ba_token b))]
       | None => []
       end.
Definition push_cols (s : Subscription) : list (string * Bytes) :=
  [("uaid", as_bytes (sub_uaid s)); ("ch", as_bytes (sub_channel_id s))].
Definition at_cols (m : Message) : list (string * Bytes) := [("row", as_bytes (message_key m))].
Definition rsub_cols (_ : string) : list (string * Bytes) := [("c", as_bytes "1")].
Definition node_cols (tn : Recipient * string) : list (string * Bytes) := [("node", as_bytes tn.2)].

(** ** The representation *)

(** The well-formed states. *)
Record good (a : AStore) : Prop := {
  gd_wf : a_wf a;
  gd_uas k ua : a_uas a !! k = Some ua -> ua_ok ua;
  gd_subs k sub : a_subs a !! k = Some sub -> sub_typed sub;
  gd_msgs k m : a_msgs a !! k = Some m -> msg_ok m;
  gd_queues k q : a_queues a !! k = Some q -> is_id k = true;
  gd_receipts k q n r : a_queues a !! k = Some q -> q !! n = Some r -> (n <= u64_max)%N /\ receipt_typed r;
  gd_routes to node : a_routes a !! to = Some node -> to_typed to /\ ascii_only node;
}.

Abbreviation Ms := (gmap string Message).
Definition known (ms : Ms) (m : Message) : Prop := ms !! m_id m = Some m.
Definition in_queues (qs : gmap string (gmap N Receipt)) (sr : N * Receipt) : Prop :=
  exists q, qs !! r_rsub sr.2 = Some q /\ q !! sr.1 = Some sr.2.

Abbreviation k_uas uas := (kind "ua#" D ua_key ua_cols (fun ua => uas !! ua_uaid ua = Some ua)).
Abbreviation k_subs subs := (kind "ch#" D sub_key sub_cols (fun s => subs !! (sub_uaid s, sub_channel_id s) = Some s)).
Abbreviation k_push subs := (kind "push#" D push_key push_cols (fun s => subs !! (sub_uaid s, sub_channel_id s) = Some s)).
Abbreviation k_msgs ms := (kind "msg#" M message_key message_cols (known ms)).
Abbreviation k_mids ms := (kind "mid#" M mid_of at_cols (known ms)).
Abbreviation k_rexps ms := (kind "rexp#" D rexp_key at_cols (known ms)).
Abbreviation k_rsubs qs := (kind "rsub#" D rsub_key rsub_cols (fun r => is_Some ((qs : gmap string (gmap N Receipt)) !! r))).
Abbreviation k_queues qs := (kind "rq#" D receipt_key receipt_cols (in_queues qs)).
Abbreviation k_routes rs := (kind "route#" D node_key node_cols (fun tn => (rs : gmap Recipient string) !! tn.1 = Some tn.2)).

(** Index rows lead to the messages that are there, and may be left of
    messages that are gone. *)
Record indexes (past mids rexps msgs : Ms) : Prop := {
  ix_past k m : past !! k = Some m -> m_id m = k /\ msg_ok m;
  ix_mids : mids ⊆ past;
  ix_rexps : rexps ⊆ past;
  ix_msgs : msgs ⊆ mids;
  ix_due k m : msgs !! k = Some m -> m_rsub m <> None -> rexps !! k = Some m;
}.
Record represents (past : Ms) (a : AStore) (c : Contents) : Prop := {
  rp_uas : k_uas (a_uas a) c;
  rp_subs : k_subs (a_subs a) c;
  rp_push : k_push (a_subs a) c;
  rp_msgs : k_msgs (a_msgs a) c;
  rp_index : exists mids rexps, indexes past mids rexps (a_msgs a) /\ k_mids mids c /\ k_rexps rexps c;
  rp_rsubs : k_rsubs (a_queues a) c;
  rp_queues : k_queues (a_queues a) c;
  rp_routes : k_routes (a_routes a) c;
}.

(** ** Prefixes *)
Lemma ua_pfx x : starts_with "ua#" (ua_key x) = true.
Proof. apply starts_with_spec. by eexists. Qed.
Lemma sub_pfx x : starts_with "ch#" (sub_key x) = true.
Proof. apply starts_with_spec. by eexists. Qed.
Lemma push_pfx x : starts_with "push#" (push_key x) = true.
Proof. apply starts_with_spec. by eexists. Qed.
Lemma msg_pfx x : starts_with "msg#" (message_key x) = true.
Proof. apply starts_with_spec. unfold message_key. destruct (m_topic x); by eexists. Qed.
Lemma mid_pfx x : starts_with "mid#" (mid_of x) = true.
Proof. apply starts_with_spec. by eexists. Qed.
Lemma rexp_pfx x : starts_with "rexp#" (rexp_key x) = true.
Proof. apply starts_with_spec. by eexists. Qed.
Lemma rsub_pfx x : starts_with "rsub#" (rsub_key x) = true.
Proof. apply starts_with_spec. by eexists. Qed.
Lemma receipt_pfx x : starts_with "rq#" (receipt_key x) = true.
Proof. apply starts_with_spec. by eexists. Qed.
Lemma node_pfx x : starts_with "route#" (node_key x) = true.
Proof. apply starts_with_spec. unfold node_key, route_key. destruct x.1; by eexists. Qed.
#[export] Hint Resolve starts_with_app ua_pfx sub_pfx push_pfx msg_pfx mid_pfx rexp_pfx rsub_pfx receipt_pfx node_pfx : push.

(** A key under one of the prefixes is under no other. *)
Lemma other_prefix p p' k : starts_with p k = true -> strip_prefix p p' = None -> strip_prefix p' p = None ->
  starts_with p' k = false.
Proof.
  intros [r ->]%starts_with_spec H1 H2. destruct (starts_with p' (p +:+ r)) eqn:E; [|done].
  exfalso. revert H1 H2 E. unfold starts_with. revert p'. induction p as [|x p IH]; intros [|y p']; [done..|].
  rewrite app_cons. cbn [strip_prefix]. repeat case_decide; try done; subst; try done. apply IH.
Qed.
Ltac other := first [apply kind_other_insert | apply kind_other_delete]; [auto with push|eapply other_prefix; [eauto with push|reflexivity|reflexivity]|].
