(* ===== verification/BigtableUpdates.v ===== *)
(** * Updates of a represented state

    Writing or deleting the rows of one value changes the represented state
    by that value and leaves it well-formed. *)
From Stdlib Require Import Ascii.
From S2P Require Import MemoryStore MemoryProofs Prelude RustStr External StoreTypes Store Headers Subscription Calls Typing Bridge Client GcpAuth BigtableWire BigtableService Bigtable BigtableTheorems BigtableRows BigtableRuns BigtableScans BigtableContents BigtableRepr.

(** The kinds of rows that an update does not touch. *)
Ltac rest H := destruct H as [Huas Hsubs Hpush Hmsgs (mids & rexps & Hix & Hmids & Hrexps) Hrsubs Hqs Hroutes];
  split; cbn [a_uas a_subs a_msgs a_queues a_routes set_a_uas set_a_subs set_a_msgs set_a_queues set_a_routes];
  lazymatch goal with
  | |- exists mids rexps, _ => try (exists mids, rexps; split_and!; [exact Hix|repeat other; exact Hmids|repeat other; exact Hrexps])
  | _ => try (repeat other; assumption)
  end.

(** ** User agents *)
Lemma ua_key_utf8 ua : ua_ok ua -> utf8_valid (ua_key ua) = true.
Proof. intros [[Hu _] _ _]. apply utf8_ascii, ascii_app. split; [done|]. by apply plain_ascii, uaid_plain. Qed.
Lemma ua_cols_NoDup ua : NoDup (ua_cols ua).*1.
Proof. apply (bool_decide_unpack _). unfold ua_cols. by destruct (ua_bridge ua). Qed.

Lemma rep_ua_insert past a c ua r : represents past a c -> ua_ok ua -> r = colsmap D (ua_cols ua) ->
  represents past (set_a_uas (<[ ua_uaid ua := ua ]> (a_uas a)) a) (<[ ua_key ua := r ]> c).
Proof.
  intros H Hua Hr. rest H. eapply kind_insert; [by apply ua_key_utf8|apply ua_cols_NoDup|done| |exact Huas].
  intros x. cbn. rewrite lookup_insert_Some. split.
  - intros [[_ ->]|[Hne Hx]]; [by left|right]. split; [done|]. intros Heq%ua_key_inj. congruence.
  - intros [->|[Hx Hne]]; [by left|right]. split; [|done]. intros Heq. apply Hne. unfold ua_key. by rewrite Heq.
Qed.
Lemma rep_ua_delete past a c u : represents past a c ->
  represents past (set_a_uas (base.delete u (a_uas a)) a) (base.delete ("ua#" +:+ u) c).
Proof.
  intros H. rest H. eapply kind_delete; [|exact Huas]. intros x. cbn. rewrite lookup_delete_Some. split.
  - intros [Hne Hx]. split; [done|]. intros Heq%app_inj_l. congruence.
  - intros [Hx Hne]. split; [|done]. intros ->. by apply Hne.
Qed.

(** ** Subscriptions *)
Lemma sub_key_utf8 s : sub_typed s -> utf8_valid (sub_key s) = true.
Proof.
  intros [Hu Hc _ _]. apply utf8_ascii. change (ascii_only (sub_key s)). unfold sub_key. rewrite !ascii_app.
  split_and!; [done|by apply plain_ascii, uaid_plain|done|by apply plain_ascii, channel_plain].
Qed.
Lemma push_key_utf8 s : sub_typed s -> utf8_valid (push_key s) = true.
Proof. intros [_ _ Hp _]. apply utf8_ascii, ascii_app. split; [done|]. by apply plain_ascii, id_plain. Qed.
Lemma sub_cols_NoDup s : NoDup (sub_cols s).*1.
Proof. apply (bool_decide_unpack _). unfold sub_cols. by destruct (sub_vapid s). Qed.
Lemma push_cols_NoDup s : NoDup (push_cols s).*1.
Proof. by apply (bool_decide_unpack _). Qed.

Abbreviation sub_at s := ((sub_uaid s, sub_channel_id s)).
Lemma rep_sub_insert past a c s r r' : represents past a c -> good a -> sub_typed s ->
  a_subs a !! sub_at s = None -> (forall k s', a_subs a !! k = Some s' -> sub_push s' <> sub_push s) ->
  r = colsmap D (sub_cols s) -> r' = colsmap D (push_cols s) ->
  represents past (set_a_subs (<[ sub_at s := s ]> (a_subs a)) a) (<[ push_key s := r' ]> (<[ sub_key s := r ]> c)).
Proof.
  intros H Hg Hs Hno Hfresh Hr Hr'. rest H.
  - other. eapply kind_insert; [by apply sub_key_utf8|apply sub_cols_NoDup|done| |exact Hsubs].
    intros x. cbn. rewrite lookup_insert_Some. split.
    + intros [[_ ->]|[Hne Hx]]; [by left|right]. split; [done|]. intros Heq.
      apply sub_key_inj in Heq as [Hu Hc]; [|apply uaid_plain, (gd_subs _ Hg _ _ Hx)|apply uaid_plain, Hs]. congruence.
    + intros [->|[Hx Hne]]; [by left|right]. split; [|done]. intros [=]. apply Hne. unfold sub_key. congruence.
  - eapply kind_insert; [by apply push_key_utf8|apply push_cols_NoDup|done| |other; exact Hpush].
    intros x. cbn. rewrite lookup_insert_Some. split.
    + intros [[_ ->]|[Hne Hx]]; [by left|right]. split; [done|]. intros Heq%push_key_inj. by eapply Hfresh.
    + intros [->|[Hx Hne]]; [by left|right]. split; [|done]. intros [=]. apply Hne. congruence.
Qed.
Lemma rep_sub_delete past a c s : represents past a c -> good a -> a_subs a !! sub_at s = Some s ->
  represents past (set_a_subs (base.delete (sub_at s) (a_subs a)) a) (base.delete (push_key s) (base.delete (sub_key s) c)).
Proof.
  intros H Hg Hs. pose proof (gd_subs _ Hg _ _ Hs) as Hst. rest H.
  - other. eapply kind_delete; [|exact Hsubs]. intros x. cbn. rewrite lookup_delete_Some. split.
    + intros [Hne Hx]. split; [done|]. intros Heq.
      apply sub_key_inj in Heq as [Hu Hc]; [|apply uaid_plain, (gd_subs _ Hg _ _ Hx)|apply uaid_plain, Hst]. congruence.
    + intros [Hx Hne]. split; [|done]. intros [=]. apply Hne. unfold sub_key. congruence.
  - eapply kind_delete; [|other; exact Hpush]. intros x. cbn. rewrite lookup_delete_Some. split.
    + intros [Hne Hx]. split; [done|]. intros Heq%push_key_inj. apply Hne.
      by apply (wf_push _ (gd_wf _ Hg) _ _ _ _ Hs Hx).
    + intros [Hx Hne]. split; [|done]. intros Heq. apply Hne.
      rewrite <- Heq in Hx. rewrite Hs in Hx. by injection Hx as ->.
Qed.

(** ** Routes *)
Lemma route_utf8 to : to_typed to -> utf8_valid (route_key to) = true.
Proof.
  intros Ht. apply utf8_ascii. change (ascii_only (route_key to)). destruct to as [u|r]; unfold route_key; rewrite ascii_app;
    (split; [done|]); apply plain_ascii; [by apply uaid_plain|by apply id_plain].
Qed.
Lemma rep_route_insert past a c to node r : represents past a c -> to_typed to -> r = colsmap D (node_cols (to, node)) ->
  represents past (set_a_routes (<[ to := node ]> (a_routes a)) a) (<[ route_key to := r ]> c).
Proof.
  intros H Ht Hr. change (route_key to) with (node_key (to, node)). rest H.
  eapply kind_insert; [by apply route_utf8|by apply (bool_decide_unpack _)|exact Hr| |exact Hroutes].
  intros [to' node']. cbn. rewrite lookup_insert_Some. split.
  - intros [[-> ->]|[Hne Hx]]; [by left|right]. split; [done|]. intros Heq%route_key_inj. by destruct Hne.
  - intros [[= -> ->]|[Hx Hne]]; [by left|right]. split; [|done]. intros ->. by apply Hne.
Qed.
Lemma rep_route_delete past a c to : represents past a c ->
  represents past (set_a_routes (base.delete to (a_routes a)) a) (base.delete (route_key to) c).
Proof.
  intros H. change (route_key to) with (node_key (to, "")). rest H.
  eapply kind_delete; [|exact Hroutes]. intros [to' node']. cbn. rewrite lookup_delete_Some. split.
  - intros [Hne Hx]. split; [done|]. intros Heq%route_key_inj. by destruct Hne.
  - intros [Hx Hne]. split; [|done]. intros ->. by apply Hne.
Qed.

(** ** Well-formedness *)
Lemma good_ua_insert a ua : good a -> ua_ok ua -> good (set_a_uas (<[ ua_uaid ua := ua ]> (a_uas a)) a).
Proof.
  intros [[] ? ? ? ? ? ?] Hua. split; cbn; try done; [split; cbn; try done|];
    intros k x [[<- <-]|[_ Hk]]%lookup_insert_Some; eauto.
Qed.
Lemma good_ua_delete a u : good a -> good (set_a_uas (base.delete u (a_uas a)) a).
Proof.
  intros [[] ? ? ? ? ? ?]. split; cbn; try done; [split; cbn; try done|]; intros k x [_ Hk]%lookup_delete_Some; eauto.
Qed.
Lemma good_sub_insert a s : good a -> sub_typed s -> a_subs a !! sub_at s = None ->
  (forall k s', a_subs a !! k = Some s' -> sub_push s' <> sub_push s) -> good (set_a_subs (<[ sub_at s := s ]> (a_subs a)) a).
Proof.
  intros [[] ? ? ? ? ? ?] Hs Hno Hf. split; cbn; try done; [split; cbn; try done|].
  - intros k x [[<- <-]|[_ Hk]]%lookup_insert_Some; eauto.
  - intros k1 k2 s1 s2 [[<- <-]|[_ H1]]%lookup_insert_Some [[<- <-]|[_ H2]]%lookup_insert_Some Heq; eauto; exfalso; by eapply Hf.
  - intros k x [[<- <-]|[_ Hk]]%lookup_insert_Some; eauto.
Qed.
Lemma good_subs a subs : good a -> subs ⊆ a_subs a -> good (set_a_subs subs a).
Proof.
  intros [[] ? ? ? ? ? ?] Hs. assert (Hk : forall k x, subs !! k = Some x -> a_subs a !! k = Some x) by (intros; by eapply lookup_weaken).
  split; cbn; try done; [split; cbn; try done|]; eauto.
Qed.
Lemma good_msg_insert a m : good a -> msg_ok m -> a_msgs a !! m_id m = None -> good (set_a_msgs (a_insert_message m (a_msgs a)) a).
Proof.
  intros [[] ? ? ? ? ? ?] Hm Hno.
  assert (Hk : forall k x, a_insert_message m (a_msgs a) !! k = Some x ->
    k = m_id m /\ x = m \/ a_msgs a !! k = Some x /\ forall sl, m_slot m = Some sl -> m_slot x <> Some sl).
  { intros k x. unfold a_insert_message. intros [[<- <-]|[Hne Hk]]%lookup_insert_Some; [by left|right].
    destruct (m_slot m); [|done]. apply map_lookup_filter_Some in Hk as [? Hsl]. split; [done|]. by intros ? [= <-]. }
  split; cbn; try done; [split; cbn; try done|].
  - intros k x [[-> ->]|[Hx _]]%Hk; eauto.
  - intros k1 k2 m1 m2 sl [[-> ->]|[H1 Hs1]]%Hk [[-> ->]|[H2 Hs2]]%Hk Hsl1 Hsl2; eauto; exfalso; [by eapply Hs2|by eapply Hs1].
  - intros k x [[-> ->]|[Hx _]]%Hk; eauto.
Qed.
Lemma good_msgs a ms : good a -> ms ⊆ a_msgs a -> good (set_a_msgs ms a).
Proof.
  intros [[] ? ? ? ? ? ?] Hs. assert (Hk : forall k x, ms !! k = Some x -> a_msgs a !! k = Some x) by (intros; by eapply lookup_weaken).
  split; cbn; try done; [split; cbn; try done|]; eauto.
Qed.
Lemma good_queues a qs : good a -> (forall k q, qs !! k = Some q -> is_id k = true /\
    forall n r, q !! n = Some r -> r_rsub r = k /\ (n <= u64_max)%N /\ receipt_typed r) -> good (set_a_queues qs a).
Proof.
  intros [[] ? ? ? ? ? ?] Hq. split; cbn; try done; [split; cbn; try done|..].
  - intros k q n r Hk Hr. by apply (proj2 (Hq k q Hk) n r Hr).
  - intros k q Hk. by apply (Hq k q Hk).
  - intros k q n r Hk Hr. by apply (proj2 (Hq k q Hk) n r Hr).
Qed.
Lemma good_queue a k q : good a -> a_queues a !! k = Some q -> is_id k = true /\
  forall n r, q !! n = Some r -> r_rsub r = k /\ (n <= u64_max)%N /\ receipt_typed r.
Proof.
  intros Hg Hk. split; [by eapply gd_queues|]. intros n r Hr. split; [by eapply (wf_queues _ (gd_wf _ Hg))|by eapply gd_receipts].
Qed.
Lemma good_enqueue a sr : good a -> (sr.1 <= u64_max)%N -> receipt_typed sr.2 -> good (set_a_queues (enqueue (a_queues a) sr) a).
Proof.
  intros Hg Hn Hr. apply good_queues; [done|]. intros k q. unfold enqueue.
  intros [(<- & q0 & Hk & ->)|[_ Hk]]%lookup_alter_Some; [|by apply (good_queue a)].
  destruct (good_queue _ _ _ Hg Hk) as [Hi Hall]. split; [done|]. intros n r [[<- <-]|[_ Hq]]%lookup_insert_Some; [done|by apply Hall].
Qed.
Lemma good_new_queue a r : good a -> is_id r = true -> good (set_a_queues (<[ r := ∅ ]> (a_queues a)) a).
Proof.
  intros Hg Hr. apply good_queues; [done|]. intros k q [[<- <-]|[_ Hk]]%lookup_insert_Some; [|by apply (good_queue a)].
  split; [done|]. intros n x. by rewrite lookup_empty.
Qed.
Lemma good_delete_queue a r : good a -> good (set_a_queues (base.delete r (a_queues a)) a).
Proof. intros Hg. apply good_queues; [done|]. intros k q [_ Hk]%lookup_delete_Some. by apply (good_queue a). Qed.
Lemma good_delete_receipt a r n : good a -> good (a_delete_receipt r n a).
Proof.
  intros Hg. apply good_queues; [done|]. intros k q [(<- & q0 & Hk & ->)|[_ Hk]]%lookup_alter_Some; [|by apply (good_queue a)].
  destruct (good_queue _ _ _ Hg Hk) as [Hi Hall]. split; [done|]. intros n' x [_ Hq]%lookup_delete_Some. by apply Hall.
Qed.
Lemma good_routes_ a rs : good a -> (forall to node, rs !! to = Some node -> to_typed to /\ ascii_only node) -> good (set_a_routes rs a).
Proof. intros [[] ? ? ? ? ? ?] Hr. split; cbn; try done. Qed.

(** ** Receipt queues *)
Lemma rsub_key_utf8 r : is_id r = true -> utf8_valid (rsub_key r) = true.
Proof. intros Hr. apply utf8_ascii, ascii_app. split; [done|]. by apply plain_ascii, id_plain. Qed.
Lemma receipt_key_utf8 sr : is_id (r_rsub sr.2) = true -> utf8_valid (receipt_key sr) = true.
Proof.
  intros Hr. apply utf8_ascii. change (ascii_only (receipt_key sr)). unfold receipt_key. rewrite !ascii_app.
  split_and!; [done|by apply plain_ascii, id_plain|done|by apply plain_ascii, hex_plain].
Qed.
Lemma receipt_cols_NoDup sr : NoDup (receipt_cols sr).*1.
Proof. by apply (bool_decide_unpack _). Qed.

Lemma rep_new_queue past a c r x : represents past a c -> is_id r = true -> a_queues a !! r = None ->
  x = colsmap D (rsub_cols r) ->
  represents past (set_a_queues (<[ r := ∅ ]> (a_queues a)) a) (<[ rsub_key r := x ]> c).
Proof.
  intros H Hr Hno Hx. rest H.
  - eapply kind_insert; [by apply rsub_key_utf8|by apply (bool_decide_unpack _)|done| |exact Hrsubs].
    intros k. cbn. rewrite lookup_insert_is_Some. split.
    + intros [->|[Hne Hk]]; [by left|right]. split; [done|]. intros Heq%rsub_key_inj. congruence.
    + intros [->|[Hk Hne]]; [by left|]. destruct (decide (r = k)) as [->|]; [by left|by right].
  - other. eapply kind_ext; [|exact Hqs]. intros sr. unfold in_queues. cbn. split.
    + intros (q & Hq & Hs). exists q. split; [|done]. rewrite lookup_insert_ne; [done|]. intros ->. congruence.
    + intros (q & [[_ <-]|[_ Hq]]%lookup_insert_Some & Hs); [by rewrite lookup_empty in Hs|by exists q].
Qed.

Lemma in_queues_good a sr : good a -> in_queues (a_queues a) sr ->
  (sr.1 <= u64_max)%N /\ receipt_typed sr.2 /\ plain (r_rsub sr.2).
Proof.
  intros Hg (q & Hq & Hs). destruct (gd_receipts _ Hg _ _ _ _ Hq Hs) as [? Hr]. split_and!; [done..|].
  apply id_plain, (rt_rsub _ Hr).
Qed.
Lemma rep_enqueue past a c sr r : represents past a c -> good a -> (sr.1 <= u64_max)%N -> receipt_typed sr.2 ->
  is_Some (a_queues a !! r_rsub sr.2) -> r = colsmap D (receipt_cols sr) ->
  represents past (set_a_queues (enqueue (a_queues a) sr) a) (<[ receipt_key sr := r ]> c).
Proof.
  intros H Hg Hn Hrt [q0 Hq0] Hr. rest H.
  - other. eapply kind_ext; [|exact Hrsubs]. intros k. cbn. unfold enqueue.
    destruct (decide (r_rsub sr.2 = k)) as [<-|Hne]; [|by rewrite lookup_alter_ne].
    rewrite lookup_alter_eq, Hq0. cbn. split; by eexists.
  - eapply kind_insert; [apply receipt_key_utf8, Hrt|apply receipt_cols_NoDup|done| |exact Hqs].
    intros x. unfold in_queues, enqueue. split.
    + intros (q & [(Heq & q1 & Hq & ->)|[Hne Hq]]%lookup_alter_Some & Hs).
      * apply lookup_insert_Some in Hs as [[Hn' Hr']|[Hne Hs]]; [left; destruct x, sr; cbn in *; congruence|right].
        assert (Hx : in_queues (a_queues a) x) by (by exists q1). split; [exact Hx|].
        destruct (in_queues_good _ _ Hg Hx) as (? & _ & ?).
        intros [_ ?]%receipt_key_inj; [congruence|done|by rewrite Heq|done|done].
      * right. assert (Hx : in_queues (a_queues a) x) by (by exists q). split; [exact Hx|].
        destruct (in_queues_good _ _ Hg Hx) as (? & _ & ?).
        intros [? _]%receipt_key_inj; [congruence|done|apply id_plain, Hrt|done|done].
    + intros [->|[(q & Hq & Hs) Hne]].
      * exists (<[ sr.1 := sr.2 ]> q0). rewrite lookup_alter_eq, Hq0. split; [done|apply lookup_insert_eq].
      * destruct (decide (r_rsub sr.2 = r_rsub x.2)) as [Heq|Hne2].
        -- exists (<[ sr.1 := sr.2 ]> q). rewrite Heq, lookup_alter_eq, Hq. split; [done|]. rewrite lookup_insert_ne; [done|].
           intros Heq1. apply Hne. unfold receipt_key. by rewrite Heq, Heq1.
        -- exists q. by rewrite lookup_alter_ne.
Qed.
Lemma rep_delete_receipt past a c r n : represents past a c -> good a -> is_id r = true -> (n <= u64_max)%N ->
  represents past (a_delete_receipt r n a) (base.delete ("rq#" +:+ r +:+ "#" +:+ hex16 n) c).
Proof.
  intros H Hg Hr Hn. unfold a_delete_receipt.
  set (sr := (n, {| r_rsub := r; r_msg_id := ""; r_status := 0 |}) : N * Receipt).
  change ("rq#" +:+ r +:+ "#" +:+ hex16 n) with (receipt_key sr). rest H.
  - other. eapply kind_ext; [|exact Hrsubs]. intros k. cbn.
    destruct (decide (r = k)) as [<-|Hne]; [|by rewrite lookup_alter_ne].
    rewrite lookup_alter_eq. by destruct (a_queues a !! r).
  - eapply kind_delete; [|exact Hqs]. intros x. unfold in_queues. split.
    + intros (q & [(Heq & q1 & Hq & ->)|[Hne Hq]]%lookup_alter_Some & Hs).
      * apply lookup_delete_Some in Hs as [Hne Hs].
        assert (Hx : in_queues (a_queues a) x) by (by exists q1). split; [exact Hx|].
        destruct (in_queues_good _ _ Hg Hx) as (? & _ & ?).
        intros [_ Heq1]%receipt_key_inj; [by destruct Hne|done|by apply id_plain|done|done].
      * assert (Hx : in_queues (a_queues a) x) by (by exists q). split; [exact Hx|].
        destruct (in_queues_good _ _ Hg Hx) as (? & _ & ?).
        intros [Heq1 _]%receipt_key_inj; [by destruct Hne|done|by apply id_plain|done|done].
    + intros [(q & Hq & Hs) Hne]. destruct (decide (r = r_rsub x.2)) as [Heq|Hne2].
      * exists (base.delete n q). rewrite <- Heq in Hq |- *. rewrite lookup_alter_eq, Hq. split; [done|]. rewrite lookup_delete_ne; [done|].
        intros Heq1. apply Hne. unfold receipt_key. cbn. by rewrite Heq, Heq1.
      * exists q. by rewrite lookup_alter_ne.
Qed.

(** Many rows of one kind. *)
Definition without (ks : list string) (c : Contents) : Contents := foldl (fun c k => base.delete k c) c ks.
Lemma kind_without {X} pfx family (key : X -> string) cols (P : X -> Prop) ks : forall c,
  kind pfx family key cols P c -> kind pfx family key cols (fun x => P x /\ ~ key x ∈ ks) (without ks c).
Proof.
  assert (Hind : forall c (Q : X -> Prop), kind pfx family key cols Q c ->
    kind pfx family key cols (fun x => Q x /\ ~ key x ∈ ks) (without ks c)).
  { induction ks as [|k ks IH]; intros c Q HQ; cbn [without foldl].
    - eapply kind_ext; [|exact HQ]. intros x. split; [intros Hx; split; [done|apply not_elem_of_nil]|by intros []].
    - eapply kind_ext; [|apply (IH _ (fun x => Q x /\ key x <> k)); by eapply kind_delete].
      intros x. cbn. rewrite elem_of_cons. tauto. }
  intros c. apply Hind.
Qed.
Lemma other_without {X} pfx family (key : X -> string) cols (P : X -> Prop) (Hpfx : forall x, starts_with pfx (key x) = true) ks :
  Forall (fun k => starts_with pfx k = false) ks -> forall c,
  kind pfx family key cols P c -> kind pfx family key cols P (without ks c).
Proof.
  induction 1 as [|k ks Hk Hks IH]; intros c HP; [done|]. cbn [without foldl]. apply IH. by apply kind_other_delete.
Qed.
Lemma rep_delete_queue past a c r ks : represents past a c -> good a -> is_id r = true ->
  (forall k, k ∈ ks <-> exists sr, in_queues (a_queues a) sr /\ r_rsub sr.2 = r /\ k = receipt_key sr) ->
  represents past (set_a_queues (base.delete r (a_queues a)) a) (without ks (base.delete (rsub_key r) c)).
Proof.
  intros H Hg Hr Hks.
  assert (Hall : forall p, strip_prefix "rq#" p = None -> strip_prefix p "rq#" = None ->
    Forall (fun k => starts_with p k = false) ks).
  { intros p H1 H2. apply Forall_forall. intros k (sr & _ & _ & ->)%Hks. by eapply other_prefix; [apply receipt_pfx|..]. }
  rest H; try (apply other_without; [auto with push|by apply Hall|repeat other; assumption]).
  - exists mids, rexps. split_and!; [exact Hix|..]; (apply other_without; [auto with push|by apply Hall|repeat other; assumption]).
  - apply other_without; [auto with push|by apply Hall|]. eapply kind_delete; [|exact Hrsubs]. intros k. cbn.
    rewrite lookup_delete_is_Some. split.
    + intros [Hne Hk]. split; [done|]. intros Heq%rsub_key_inj. congruence.
    + intros [Hk Hne]. split; [|done]. intros ->. by apply Hne.
  - eapply kind_ext; [|apply kind_without; other; exact Hqs]. intros x. cbv beta. rewrite Hks. unfold in_queues. split.
    + intros [(q & Hq & Hs) Hno]. exists q. split; [|done]. rewrite lookup_delete_ne; [done|]. intros Heq. apply Hno.
      exists x. split_and!; [by exists q|done|done].
    + intros (q & [Hne Hq]%lookup_delete_Some & Hs). split; [by exists q|]. intros (sr & Hsr & Heq & Hkey).
      assert (Hx : in_queues (a_queues a) x) by (by exists q).
      destruct (in_queues_good _ _ Hg Hx) as (? & _ & ?), (in_queues_good _ _ Hg Hsr) as (? & _ & ?).
      apply receipt_key_inj in Hkey as [Hkey _]; [congruence|done..].
Qed.

(** ** Messages *)
Lemma message_key_slot a b : msg_ok a -> msg_ok b -> m_id a <> m_id b ->
  message_key a = message_key b <-> m_slot b <> None /\ m_slot a = m_slot b.
Proof.
  intros Ha Hb Hne. unfold m_slot. split.
  - intros Heq. apply message_key_inj in Heq as [Hu Ht]; [|apply Ha|apply Hb|apply Ha|apply Hb].
    destruct (m_topic a) as [t|]; [|by destruct Ht]. destruct Ht as [-> Hc]. cbn. by rewrite Hu, Hc.
  - unfold message_key. destruct (m_topic a) as [t|], (m_topic b) as [t'|]; cbn; intros [Hn Heq]; try done.
    injection Heq as -> -> ->. done.
Qed.
Lemma at_cols_NoDup m : NoDup (at_cols m).*1.
Proof. by apply (bool_decide_unpack _). Qed.
Lemma mid_of_utf8 m : msg_ok m -> utf8_valid (mid_of m) = true.
Proof. intros [[Hi _ _ _ _ _ _] _ _ _ _]. apply utf8_ascii, ascii_app. split; [done|]. by apply plain_ascii, id_plain. Qed.
Lemma rexp_key_utf8 m : msg_ok m -> utf8_valid (rexp_key m) = true.
Proof.
  intros [[Hi _ _ _ _ _ _] _ _ _ _]. apply utf8_ascii. change (ascii_only (rexp_key m)). unfold rexp_key. rewrite !ascii_app.
  split_and!; [done|by apply plain_ascii, hex_plain|done|by apply plain_ascii, id_plain].
Qed.

Lemma known_id ms k m : (forall k m, ms !! k = Some m -> m_id m = k) -> ms !! k = Some m -> known ms m.
Proof. intros Hid Hk. unfold known. by rewrite (Hid _ _ Hk). Qed.
Lemma known_insert (ms : Ms) m x : known (<[ m_id m := m ]> ms) x <-> x = m \/ known ms x /\ m_id x <> m_id m.
Proof.
  unfold known. rewrite lookup_insert_Some. split.
  - intros [[_ ->]|[? ?]]; [by left|right; by split].
  - intros [->|[? ?]]; [by left|right; by split].
Qed.
Lemma known_delete (ms : Ms) id x : known (base.delete id ms) x <-> known ms x /\ m_id x <> id.
Proof. unfold known. rewrite lookup_delete_Some. split; intros [? ?]; by split. Qed.

Lemma indexes_insert past mids rexps rexps' msgs m : indexes past mids rexps msgs -> msg_ok m -> past !! m_id m = None ->
  rexps' = (if decide (m_rsub m <> None) then <[ m_id m := m ]> rexps else rexps) ->
  indexes (<[ m_id m := m ]> past) (<[ m_id m := m ]> mids) rexps' (a_insert_message m msgs).
Proof.
  intros [Hid Hmp Hrp Hmm Hdue] Hm Hpast ->.
  assert (Hnm : mids !! m_id m = None) by (by eapply lookup_weaken_None).
  assert (Hno : msgs !! m_id m = None) by (by eapply lookup_weaken_None).
  split.
  - intros k x [[<- <-]|[_ Hk]]%lookup_insert_Some; [done|by apply Hid].
  - by apply insert_mono.
  - case_decide; [by apply insert_mono|]. etrans; [done|]. by apply insert_subseteq.
  - apply map_subseteq_spec. intros k x Hk. apply a_insert_message_Some in Hk as [[-> ->]|[Hk _]];
      [apply lookup_insert_eq| |done]. rewrite lookup_insert_ne by congruence. by eapply lookup_weaken.
  - intros k x Hk Hx. apply a_insert_message_Some in Hk as [[-> ->]|[Hk _]]; [|pose proof (Hdue _ _ Hk Hx)|done].
    + rewrite decide_True by done. apply lookup_insert_eq.
    + case_decide; [|done]. rewrite lookup_insert_ne by congruence. done.
Qed.
Lemma msgs_insert a c m r : k_msgs (a_msgs a) c -> good a -> msg_ok m -> a_msgs a !! m_id m = None ->
  r = colsmap M (message_cols m) -> k_msgs (a_insert_message m (a_msgs a)) (<[ message_key m := r ]> c).
Proof.
  intros HK Hg Hm Hno Hr. eapply kind_insert; [by apply message_key_utf8|apply message_cols_NoDup|done| |exact HK].
  intros x. unfold known. rewrite a_insert_message_Some by done. split.
  - intros [[_ ->]|[Hx Hsl]]; [by left|right]. split; [done|].
    rewrite (message_key_slot x m (gd_msgs _ Hg _ _ Hx) Hm) by congruence. tauto.
  - intros [->|[Hx Hne]]; [by left|right]. split; [done|].
    rewrite (message_key_slot x m (gd_msgs _ Hg _ _ Hx) Hm) in Hne by congruence.
    destruct (decide (m_slot m = None)); [by left|right; tauto].
Qed.
Lemma mids_insert mids c m r : k_mids mids c -> msg_ok m -> r = colsmap M (at_cols m) ->
  k_mids (<[ m_id m := m ]> mids) (<[ mid_of m := r ]> c).
Proof.
  intros HK Hm Hr. eapply kind_insert; [by apply mid_of_utf8|apply at_cols_NoDup|done| |exact HK].
  intros x. rewrite known_insert. split; (intros [->|[Hx Hne]]; [by left|right; split; [done|]]).
  - by intros Heq%mid_of_inj.
  - intros Heq. apply Hne. unfold mid_of. by rewrite Heq.
Qed.
Lemma rexps_insert past mids rexps msgs c m r : k_rexps rexps c -> indexes past mids rexps msgs -> msg_ok m ->
  past !! m_id m = None -> r = colsmap D (at_cols m) -> k_rexps (<[ m_id m := m ]> rexps) (<[ rexp_key m := r ]> c).
Proof.
  intros HK Hix Hm Hpast Hr. assert (Hno : rexps !! m_id m = None) by (eapply lookup_weaken_None; [done|apply Hix]).
  eapply kind_insert; [by apply rexp_key_utf8|apply at_cols_NoDup|done| |exact HK].
  intros x. rewrite known_insert. split; (intros [->|[Hx Hne]]; [by left|right; split; [done|]]).
  - intros [_ Heq]%rexp_key_inj; [done| |apply Hm]. eapply (ix_past _ _ _ _ Hix (m_id x)). eapply lookup_weaken; [exact Hx|apply Hix].
  - unfold known in Hx. congruence.
Qed.

Lemma rep_insert past a c m r1 r2 r3 c2 : represents past a c -> good a -> msg_ok m -> past !! m_id m = None ->
  r1 = colsmap M (message_cols m) -> r2 = colsmap M (at_cols m) -> r3 = colsmap D (at_cols m) ->
  c2 = <[ mid_of m := r2 ]> (<[ message_key m := r1 ]> c) ->
  represents (<[ m_id m := m ]> past) (set_a_msgs (a_insert_message m (a_msgs a)) a)
    (if decide (m_rsub m <> None) then <[ rexp_key m := r3 ]> c2 else c2).
Proof.
  intros H Hg Hm Hpast Hr1 Hr2 Hr3 ->. pose proof (rp_index _ _ _ H) as (mids0 & rexps0 & Hix0 & Hmids0 & Hrexps0).
  assert (Hno : a_msgs a !! m_id m = None).
  { eapply lookup_weaken_None; [|apply Hix0]. eapply lookup_weaken_None; [done|apply Hix0]. }
  assert (Hk2 : k_msgs (a_insert_message m (a_msgs a)) (<[ mid_of m := r2 ]> (<[ message_key m := r1 ]> c))).
  { other. by apply msgs_insert; [apply (rp_msgs _ _ _ H)|..]. }
  assert (Hk3 : k_mids (<[ m_id m := m ]> mids0) (<[ mid_of m := r2 ]> (<[ message_key m := r1 ]> c))).
  { apply mids_insert; [|done..]. by other. }
  assert (Hk4 : k_rexps rexps0 (<[ mid_of m := r2 ]> (<[ message_key m := r1 ]> c))) by (by repeat other).
  pose proof (indexes_insert _ _ _ _ _ _ Hix0 Hm Hpast eq_refl) as Hix1. case_decide.
  - rest H; try (other; done). exists (<[ m_id m := m ]> mids0), (<[ m_id m := m ]> rexps0).
    split_and!; [done|by other|]. by eapply rexps_insert.
  - rest H; try done. by exists (<[ m_id m := m ]> mids0), rexps0.
Qed.

(** A message that is there is alone in its row. *)
Lemma message_key_alone a m x : good a -> a_msgs a !! m_id m = Some m -> a_msgs a !! m_id x = Some x ->
  message_key x = message_key m -> x = m.
Proof.
  intros Hg Hm Hx Heq. destruct (decide (m_id x = m_id m)) as [Hid|Hne]; [congruence|].
  apply message_key_slot in Heq as [Hs Heq]; [|by eapply gd_msgs..|done].
  destruct (m_slot m) as [sl|] eqn:Hsl; [|done]. destruct Hne. by eapply (wf_slot _ (gd_wf _ Hg)).
Qed.
Lemma rep_remove past a c m : represents past a c -> good a -> a_msgs a !! m_id m = Some m ->
  represents past (set_a_msgs (base.delete (m_id m) (a_msgs a)) a) (base.delete (mid_of m) (base.delete (message_key m) c)).
Proof.
  intros H Hg Hm. rest H.
  - other. eapply kind_delete; [|exact Hmsgs]. intros x. rewrite known_delete. split; (intros [Hx Hne]; split; [done|]).
    + intros Heq. apply Hne. by rewrite (message_key_alone a m x Hg Hm Hx Heq).
    + intros Heq. apply Hne. unfold known in Hx. rewrite Heq in Hx. congruence.
  - destruct Hix as [Hid Hmp Hrp Hmm Hdue]. exists (base.delete (m_id m) mids), rexps. split_and!.
    + split; [done| |done|by apply delete_mono|].
      * etrans; [apply delete_subseteq|done].
      * intros k x [_ Hk]%lookup_delete_Some. by apply Hdue.
    + eapply kind_delete; [|other; exact Hmids]. intros x. rewrite known_delete. split; (intros [Hx Hne]; split; [done|]).
      * by intros Heq%mid_of_inj.
      * intros Heq. apply Hne. unfold mid_of. by rewrite Heq.
    + repeat other. exact Hrexps.
Qed.
Lemma rep_due_delete past a c k : represents past a c -> starts_with "rexp#" k = true ->
  (forall m, a_msgs a !! m_id m = Some m -> m_rsub m <> None -> rexp_key m <> k) -> represents past a (base.delete k c).
Proof.
  intros H Hk Hno. assert (Ho : forall p, strip_prefix "rexp#" p = None -> strip_prefix p "rexp#" = None -> starts_with p k = false)
    by (intros; by eapply other_prefix).
  destruct H as [Huas Hsubs Hpush Hmsgs (mids & rexps & Hix & Hmids & Hrexps) Hrsubs Hqs Hroutes].
  split; try (apply kind_other_delete; [auto with push|by apply Ho|done]).
  exists mids, (filter (fun im => rexp_key im.2 <> k) rexps). destruct Hix as [Hid Hmp Hrp Hmm Hdue]. split_and!.
  - split; [done..| |done|].
    + etrans; [apply map_filter_subseteq|done].
    + intros i m Hi Hr. apply map_lookup_filter_Some. split; [by apply Hdue|]. cbn.
      assert (Hmi : m_id m = i). { apply (Hid i). eapply lookup_weaken; [|exact Hmp]. by eapply lookup_weaken. }
      apply Hno; [by rewrite Hmi|done].
  - by apply kind_other_delete; [auto with push|apply Ho|].
  - eapply kind_delete; [|exact Hrexps]. intros x. unfold known. by rewrite map_lookup_filter_Some.
Qed.
