(* ===== verification/BigtableRpcs.v ===== *)
(** * The calls of the adapter to the service, one by one

    An operation of [Bigtable.v] makes several calls to the service, and the
    calls of other operations, of this node or another, may come between any
    two of them. Here the service answers as it likes, so that what is shown
    of the calls an operation makes holds whatever the others do: a receipt
    for a message is written only after a conditional delete of that message
    has taken effect, once for each. *)
From S2P Require Import Prelude RustStr External StoreTypes Store Calls Concurrency Bridge Client GcpAuth BigtableWire BigtableService Bigtable BigtableTheorems BigtableRows BigtableRuns.

(** ** Calls to the service and their answers *)
Inductive Rpc : Type :=
| MutateRow (m : MutateRowRequest) (r : result BoxError unit)
| ReadRows (m : ReadRowsRequest) (r : result BoxError (list (result BoxError (list CellChunk))))
| CheckAndMutateRow (m : CheckAndMutateRowRequest) (r : result BoxError bool).

(** A service whose answers may depend on all calls before. *)
Record Wire : Type := {
  wi_log : list Rpc;
  wi_mutate : list Rpc -> MutateRowRequest -> result BoxError unit;
  wi_read : list Rpc -> ReadRowsRequest -> result BoxError (list (result BoxError (list CellChunk)));
  wi_check : list Rpc -> CheckAndMutateRowRequest -> result BoxError bool;
}.
Definition log_rpc (t : Wire) (ev : Rpc) : Wire :=
  {| wi_log := wi_log t ++ [ev]; wi_mutate := wi_mutate t; wi_read := wi_read t; wi_check := wi_check t |}.

(** Which header values the client library accepts. *)
Class HeaderValues : Type := header_value : string -> result BoxError unit.

#[export] Instance wire_rpc `{HeaderValues} : BigtableRpc Wire := {|
  mutate_row req t := let r := wi_mutate t (wi_log t) (req_message req) in
    (r, log_rpc t (MutateRow (req_message req) r));
  read_rows req t := let r := wi_read t (wi_log t) (req_message req) in
    (r, log_rpc t (ReadRows (req_message req) r));
  check_and_mutate_row req t := let r := wi_check t (wi_log t) (req_message req) in
    (r, log_rpc t (CheckAndMutateRow (req_message req) r));
  get_table _ t := (Ok (), t);
  create_table _ t := (Ok (), t);
  open_channel _ _ t := (Ok (), t);
  metadata_value := header_value;
|}.

(** ** What a call does to the message [i] and its receipts *)
Section accounts.
Context (i : string).

Definition sets_msg (mu : Mutation) : bool :=
  match mu with SetCell f q _ v => bool_decide (f = D /\ q = "msg" /\ v = as_bytes i) | DeleteFromRow => false end.
Definition sets_id (mu : Mutation) : bool :=
  match mu with SetCell f q _ v => bool_decide (f = M /\ q = "id" /\ v = as_bytes i) | DeleteFromRow => false end.
Definition one (b : bool) : nat := if b then 1 else 0.

(** It puts a receipt for [i] in a queue, or may have when it failed. *)
Definition answers (ev : Rpc) : nat :=
  match ev with
  | MutateRow m _ => one (starts_with "rq#" (mr_row_key m) && existsb sets_msg (mr_mutations m))
  | CheckAndMutateRow m _ => one (starts_with "rq#" (cm_row_key m) && existsb sets_msg (cm_true_mutations m))
  | ReadRows _ _ => 0
  end.
(** It writes a message [i], or may have. *)
Definition stores (ev : Rpc) : nat :=
  match ev with
  | MutateRow m _ => one (existsb sets_id (mr_mutations m))
  | CheckAndMutateRow m _ => one (existsb sets_id (cm_true_mutations m))
  | ReadRows _ _ => 0
  end.
(** It has found that a row holds [i], and removed the row. *)
Definition takes (ev : Rpc) : nat :=
  match ev with
  | CheckAndMutateRow m (Ok true) =>
      match cm_predicate_filter m, cm_true_mutations m with
      | Some (Chain [FamilyNameRegexFilter f; ColumnQualifierRegexFilter q; CellsPerColumnLimitFilter n;
                     ValueRegexFilter v]), [DeleteFromRow] =>
          one (bool_decide (f = M /\ q = exact "id" /\ n = 1%Z /\ v = exact i))
      | _, _ => 0
      end
  | _ => 0
  end.
Definition total (f : Rpc -> nat) (k : list Rpc) : nat := sum_list_with f k.

(** Starting with [b] removals to answer, no call of [k] answers more than
    have been made by then, and [d] are left. *)
Fixpoint settled (b : nat) (k : list Rpc) (d : nat) : Prop :=
  match k with
  | [] => d <= b
  | ev :: k => answers ev <= b /\ settled (b - answers ev + takes ev) k d
  end.

Lemma settled_weaken k : forall b b' d d', b <= b' -> d' <= d -> settled b k d -> settled b' k d'.
Proof.
  induction k as [|ev k IH]; intros b b' d d' Hb Hd; cbn; [lia|]. intros [Ha Hk].
  split; [lia|]. eapply IH; [|exact Hd|exact Hk]. lia.
Qed.
Lemma settled_app k' : forall k b c d, settled b k c -> settled c k' d -> settled b (k ++ k') d.
Proof.
  induction k as [|ev k IH]; intros b c d; cbn.
  - intros Hc Hk. by eapply settled_weaken.
  - intros [Ha Hk] Hk'. split; [done|]. by eapply IH.
Qed.
Lemma settled_prefix k' : forall k b d, settled b (k ++ k') d -> settled b k 0.
Proof.
  induction k as [|ev k IH]; intros b d; cbn; [lia|]. intros [Ha Hk]. split; [done|by eapply IH].
Qed.
Lemma settled_total k : forall b d, settled b k d -> total answers k + d <= b + total takes k.
Proof.
  induction k as [|ev k IH]; intros b d; cbn; [lia|]. intros [Ha Hk]. apply IH in Hk. unfold total in *. lia.
Qed.
End accounts.

(** ** Operations *)
Section operations.
Context `{HT : Http} `{B64 : Base64} `{JS : Json} `{RSA : Rsa} `{HO : Host} `{GS : GcpSerde}
  `{SX : StatusText} `{CB : ClientBuilder} `{HV : HeaderValues}.
Abbreviation BT X := (SM (BtWorld (T := Wire)) X).

Definition calls_of (w : Env * BtWorld (T := Wire)) : list Rpc := wi_log (g_rpc w.2).

(** Starting with [b] removals of [i] to answer, [m] leaves [d x] when it
    returns [x], whatever the service answers; and it writes [i] at most [s]
    times. *)
Definition affords {X} (i : string) (b s : nat) (m : BT X) (d : X -> nat) : Prop :=
  forall w, exists k, calls_of (m w).2 = calls_of w ++ k /\ total (stores i) k <= s /\
    settled i b k (match (m w).1 with Ok x => d x | Err _ => 0 end).
(** [m] writes no message, and answers none but those it takes off itself. *)
Definition neutral {X} (m : BT X) : Prop := forall i b, affords i b 0 m (fun _ => b).

Lemma affords_weaken {X} i b s (m : BT X) (d d' : X -> nat) :
  affords i b s m d -> (forall x, d' x <= d x) -> affords i b s m d'.
Proof.
  intros Hm Hd w. destruct (Hm w) as (k & Hk & Hn & Hs). exists k. split_and!; [done..|].
  destruct ((m w).1) as [x|e]; [|done]. by eapply settled_weaken; [|apply Hd|].
Qed.
Lemma affords_ret {X} i b s (x : X) d : d x <= b -> affords i b s (mret x : BT X) d.
Proof. intros Hd w. exists []. rewrite app_nil_r. split_and!; [done|cbn; lia|done]. Qed.
Lemma affords_bind_stores {X Y} i b s s' (m : BT X) (f : X -> BT Y) d d' :
  affords i b s m d -> (forall x, affords i (d x) s' (f x) d') -> affords i b (s + s') (m ≫= f) d'.
Proof.
  intros Hm Hf w. destruct (Hm w) as (k & Hk & Hn & Hs). unfold mbind, est_bind.
  destruct (m w) as [[x|e] w1]; cbn in *; [|exists k; split_and!; [done|lia|done]].
  destruct (Hf x w1) as (k' & Hk' & Hn' & Hs'). exists (k ++ k'). rewrite Hk', Hk, app_assoc.
  split_and!; [done| |by eapply settled_app]. unfold total in *. rewrite sum_list_with_app. lia.
Qed.
Lemma affords_bind {X Y} i b (m : BT X) (f : X -> BT Y) d d' :
  affords i b 0 m d -> (forall x, affords i (d x) 0 (f x) d') -> affords i b 0 (m ≫= f) d'.
Proof. apply (affords_bind_stores i b 0 0). Qed.
Lemma affords_then {X Y} i b s (m : BT X) (f : X -> BT Y) d :
  neutral m -> (forall x, affords i b s (f x) d) -> affords i b s (m ≫= f) d.
Proof. intros Hm. by apply (affords_bind_stores i b 0 s). Qed.
Lemma affords_assoc {X Y Z} i b s (m : BT X) (f : X -> BT Y) (g : Y -> BT Z) d :
  affords i b s ((m ≫= f) ≫= g) d -> affords i b s (x ← m; y ← f x; g y) d.
Proof.
  intros Hm w. destruct (Hm w) as (k & Hk). exists k. revert Hk. unfold mbind, est_bind.
  by destruct (m w) as [[x|e] w1].
Qed.

Lemma neutral_silent {X} (m : BT X) : (forall w, calls_of (m w).2 = calls_of w) -> neutral m.
Proof.
  intros Hm i b w. exists []. rewrite app_nil_r. split_and!; [apply Hm|done|]. destruct ((m w).1); cbn; lia.
Qed.
Lemma neutral_ret {X} (x : X) : neutral (mret x : BT X).
Proof. by apply neutral_silent. Qed.
Lemma neutral_bind {X Y} (m : BT X) (f : X -> BT Y) :
  neutral m -> (forall x, neutral (f x)) -> neutral (m ≫= f).
Proof. intros Hm Hf i b. apply affords_then; [done|]. intros x. apply Hf. Qed.
Lemma neutral_lift_result {X} (r : result BoxError X) : neutral (lift_result r : BT X).
Proof. by apply neutral_silent. Qed.
Lemma neutral_with_env {X} (m : ST Env X) : neutral (with_env m).
Proof. apply neutral_silent. intros [e g]. unfold with_env. by destruct (m e). Qed.

Context (self : BigtableStore).

(** One call to the service. *)
Lemma affords_call {X Y} i b s (x : X) (call : Req X -> EST Wire BoxError Y) (ev : X -> result BoxError Y -> Rpc) d :
  (forall q t, exists r, call q t = (r, log_rpc t (ev (req_message q) r))) ->
  (forall r, answers i (ev x r) <= b /\ stores i (ev x r) <= s) ->
  (forall y, d y <= b - answers i (ev x (Ok y)) + takes i (ev x (Ok y))) ->
  affords i b s (q ← request self x; with_rpc (call q)) d.
Proof.
  intros Hc Ha Hd w. unfold request, mbind, est_bind. destruct (authorized _ _ _ w) as [r w1] eqn:Hq.
  apply authorized_spec in Hq as (Hg & _ & Hx). unfold calls_of. rewrite <- Hg.
  destruct r as [q|e]; [|exists []; rewrite app_nil_r; split_and!; [done|cbn; lia..]].
  destruct w1 as [e g]. destruct (Hc q (g_rpc g)) as [r Hr]. rewrite Hx in Hr. unfold with_rpc. rewrite Hr.
  destruct (Ha r) as [Hr1 Hr2]. exists [ev x r]. split_and!; [done|unfold total; cbn; lia|]. split; [done|]. destruct r; [apply Hd|cbn; lia].
Qed.

(** *** The primitives *)

(** [ms] on the row [key] puts receipts for [i] in a queue. *)
Abbreviation queues_for i key ms := (one (starts_with "rq#" key && existsb (sets_msg i) ms)).

Lemma affords_mutate i b s key ms : queues_for i key ms <= b -> one (existsb (sets_id i) ms) <= s ->
  affords i b s (mutate self key ms) (fun _ => b - queues_for i key ms).
Proof.
  intros Ha Hs. apply (affords_call i b s _ _ MutateRow); [by eexists|done|]. intros y. cbn. lia.
Qed.
Lemma neutral_mutate key ms : (forall i, queues_for i key ms = 0 /\ existsb (sets_id i) ms = false) -> neutral (mutate self key ms).
Proof.
  intros Ha i b. destruct (Ha i) as [Hq Hs]. eapply affords_weaken; [apply affords_mutate|]; rewrite ?Hq, ?Hs; cbn; lia.
Qed.
Lemma neutral_delete key : neutral (delete self key).
Proof. apply neutral_mutate. intros i. cbn. by rewrite andb_false_r. Qed.
(** Only messages are written in the family [M]. *)
Lemma sets_no_id i (cols : list (string * Bytes)) now : existsb (sets_id i) ((fun cv => set_cell D cv.1 cv.2 now) <$> cols) = false.
Proof. induction cols as [|[q v] cols IH]; [done|]. cbn. by rewrite bool_decide_false by by intros []. Qed.
Lemma neutral_put key cols : starts_with "rq#" key = false -> neutral (put self key D cols).
Proof.
  intros Hk. apply neutral_bind; [apply neutral_with_env|intros now]. apply neutral_mutate. intros i.
  by rewrite Hk, sets_no_id.
Qed.

Lemma neutral_read rows : neutral (read self rows).
Proof.
  intros i b. apply affords_assoc. eapply (affords_bind i b _ _ (fun _ => b)).
  - apply (affords_call i b 0 _ _ ReadRows); [by eexists|cbn; lia|]. intros y. cbn. lia.
  - intros stream. apply affords_then; [apply neutral_lift_result|]. intros merged. by apply affords_ret.
Qed.
Lemma neutral_get key : neutral (get self key).
Proof. apply neutral_bind; [apply neutral_read|intros rows; apply neutral_ret]. Qed.
Lemma neutral_exists key : neutral (exists_ self key).
Proof. apply neutral_bind; [apply neutral_get|intros row; apply neutral_ret]. Qed.

Lemma affords_mutate_if i b key f ms d : queues_for i key ms = 0 /\ existsb (sets_id i) ms = false ->
  (forall x, d x <= b + takes i (CheckAndMutateRow {| cm_table_name := table self; cm_app_profile_id := app_profile self;
     cm_row_key := key; cm_predicate_filter := Some f; cm_true_mutations := ms |} (Ok x))) ->
  affords i b 0 (mutate_if self key f ms) d.
Proof.
  intros [Ha Hs] Hd. apply (affords_call i b 0 _ _ CheckAndMutateRow); [by eexists|cbn; rewrite Hs; cbn; lia|].
  intros x. specialize (Hd x). cbn [answers cm_row_key cm_true_mutations]. lia.
Qed.
Lemma neutral_mutate_if key f ms : (forall i, queues_for i key ms = 0 /\ existsb (sets_id i) ms = false) -> neutral (mutate_if self key f ms).
Proof. intros Ha i b. apply affords_mutate_if; [apply Ha|]. intros x. cbn. lia. Qed.

(** A removal that is answered with [true] is one of [id]. *)
Lemma affords_delete_message_row i b key id :
  affords i b 0 (delete_message_row self key id) (fun removed => b + one (removed && bool_decide (id = i))).
Proof.
  apply affords_mutate_if; [by cbn; rewrite andb_false_r|]. intros [|]; [|cbn; lia].
  cbn [andb]. case_bool_decide as Hid; [subst id|cbn; lia]. cbn. rewrite bool_decide_true by done. cbn. lia.
Qed.
Lemma affords_remove_message i b key m :
  affords i b 0 (remove_message self key m) (fun removed => b + one (removed && bool_decide (m_id m = i))).
Proof.
  eapply affords_bind; [apply affords_delete_message_row|]. intros [|]; cbn [negb].
  - apply affords_then; [apply neutral_delete|]. intros _. by apply affords_ret.
  - apply affords_ret. cbn. lia.
Qed.

(** *** Receipts *)

(** One receipt for [i] is paid for. *)
Lemma affords_enqueue_receipt i b r : one (bool_decide (r_msg_id r = i)) <= b ->
  affords i b 0 (enqueue_receipt self r) (fun _ => b - one (bool_decide (r_msg_id r = i))).
Proof.
  intros Hb. apply affords_then; [apply neutral_exists|]. intros [|]; cbn [negb]; [|apply affords_ret; lia].
  apply affords_then; [apply neutral_with_env|]. intros seq.
  assert (Hq : forall now, queues_for i ("rq#" +:+ r_rsub r +:+ "#" +:+ hex16 seq)
    ((fun cv : string * Bytes => set_cell D cv.1 cv.2 now) <$>
      [("msg", as_bytes (r_msg_id r)); ("status", as_bytes (to_string (r_status r)))]) = one (bool_decide (r_msg_id r = i))).
  { intros now. rewrite starts_with_app. cbn [fmap list_fmap set_cell existsb sets_msg fst snd andb].
    rewrite (bool_decide_false (D = D /\ "status" = "msg" /\ _)) by (by intros (_ & ? & _)). rewrite !orb_false_r. f_equal.
    apply bool_decide_ext. split; [|by intros ->]. intros (_ & _ & He). by apply (inj as_bytes). }
  eapply (affords_bind _ _ _ _ (fun _ => b - one (bool_decide (r_msg_id r = i)))).
  - apply affords_then; [apply neutral_with_env|]. intros now. eapply affords_weaken; [apply affords_mutate|]; rewrite ?Hq, ?sets_no_id; cbn; lia.
  - intros _. by apply affords_ret.
Qed.

(** The 410 of a message that was removed. *)
Lemma neutral_remove_owe key m (X : Type) (none : X) (some : option (N * Receipt) -> X) :
  neutral (removed ← remove_message self key m;
    if removed : bool then owed ← owe_410 self m; mret (some owed) else mret none).
Proof.
  intros i b. eapply affords_bind; [apply affords_remove_message|]. intros [|]; cbn [andb]; [|apply affords_ret; cbn; lia].
  eapply (affords_bind _ _ _ _ (fun _ => b)); [|intros o; by apply affords_ret].
  unfold owe_410. destruct (m_rsub m) as [rsub|]; [|apply affords_ret; lia].
  eapply (affords_bind _ _ _ _ (fun _ => b)); [|intros o; by apply affords_ret].
  eapply affords_weaken; [apply affords_enqueue_receipt|]; cbn [r_msg_id]; lia.
Qed.

(** *** The other operations *)
Create HintDb rpc discriminated.
Hint Constants Opaque : rpc.
Hint Resolve neutral_ret neutral_lift_result neutral_with_env neutral_get neutral_exists neutral_read
  neutral_delete neutral_remove_owe : rpc.
Ltac neutral :=
  lazymatch goal with
  | |- forall _, _ => intros ?; neutral
  | |- neutral (put _ _ D _) => by apply neutral_put
  | |- neutral (mutate_if _ _ _ _) => apply neutral_mutate_if; intros i; cbn; by rewrite ?andb_false_r
  | |- neutral (if ?b then _ else _) => destruct b; neutral
  | |- neutral (match ?o with _ => _ end) => destruct o; neutral
  | |- _ => first [solve [auto with rpc] | apply neutral_bind; neutral]
  end.
Lemma neutral_create_user_agent ua : neutral (create_user_agent self ua).
Proof. by apply neutral_put. Qed.
Lemma neutral_user_agent u : neutral (user_agent self u).
Proof. unfold user_agent. neutral. Qed.
Lemma neutral_touch_user_agent u now : neutral (touch_user_agent self u now).
Proof. unfold touch_user_agent. neutral. Qed.
Lemma neutral_update_bridge_token u token : neutral (update_bridge_token self u token).
Proof. unfold update_bridge_token. neutral. Qed.
Lemma neutral_channel u c : neutral (channel self u c).
Proof. unfold channel. neutral. Qed.
Lemma neutral_remove_channel c rows : neutral (remove_channel self c rows).
Proof.
  induction rows as [|[key row] rows IH]; cbn [remove_channel]; [apply neutral_ret|].
  apply neutral_bind; [neutral|]. intros here. apply neutral_bind; [exact IH|neutral].
Qed.
Hint Resolve neutral_channel neutral_remove_channel : rpc.
Lemma neutral_delete_subscription u c : neutral (delete_subscription self u c).
Proof. unfold delete_subscription. neutral. Qed.
Hint Resolve neutral_delete_subscription : rpc.
Lemma neutral_delete_channels u rows : neutral (delete_channels self u rows).
Proof.
  induction rows as [|[key row] rows IH]; cbn [delete_channels]; [apply neutral_ret|].
  apply neutral_bind; [neutral|]. intros here. apply neutral_bind; [exact IH|neutral].
Qed.
Hint Resolve neutral_delete_channels : rpc.
Lemma neutral_delete_user_agent u : neutral (delete_user_agent self u).
Proof. unfold delete_user_agent. neutral. Qed.
Lemma neutral_expire_rows cutoff rows : neutral (expire_rows self cutoff rows).
Proof.
  induction rows as [|[key row] rows IH]; cbn [expire_rows]; [apply neutral_ret|].
  destruct (strip_prefix "ua#" key); [|exact IH]. case_match; [|exact IH].
  apply neutral_bind; [apply neutral_delete_user_agent|]. intros here. apply neutral_bind; [exact IH|neutral].
Qed.
Lemma neutral_expire_user_agents cutoff : neutral (expire_user_agents self cutoff).
Proof. apply neutral_bind; [apply neutral_read|apply neutral_expire_rows]. Qed.
Lemma neutral_subscriptions u : neutral (subscriptions self u).
Proof. unfold subscriptions. neutral. Qed.
Lemma neutral_create_subscription u c vapid : neutral (create_subscription self u c vapid).
Proof. unfold create_subscription. neutral. Qed.
Lemma neutral_subscription_by_push p : neutral (subscription_by_push self p).
Proof. unfold subscription_by_push. neutral. Qed.
Lemma message_sets_id i m : existsb (sets_id i) (message_mutations m) = bool_decide (m_id m = i).
Proof.
  unfold message_mutations. rewrite existsb_app. assert (Hr : existsb (sets_id i) (omap (fun '(col, value) =>
    (fun v => set_cell M col (as_bytes v) (m_accepted m)) <$> value) [("ctype", m_ctype m); ("cenc", m_cenc m); ("rsub", m_rsub m)]) = false).
  { cbn. by destruct (m_ctype m), (m_cenc m), (m_rsub m); cbn; repeat rewrite bool_decide_false by by intros (_ & ? & _). }
  rewrite Hr, orb_false_r. cbn [existsb sets_id set_cell delete_row orb].
  repeat (rewrite (bool_decide_false (_ /\ _ = "id" /\ _)) by by intros (_ & ? & _)). rewrite !orb_false_r.
  apply bool_decide_ext. split; [|by intros ->]. intros (_ & _ & He). by apply (inj as_bytes).
Qed.
Lemma affords_insert_message i b m : affords i b (one (bool_decide (m_id m = i))) (insert_message self m) (fun _ => b).
Proof.
  assert (Hk : starts_with "rq#" (message_key m) = false) by (unfold message_key; by destruct (m_topic m)).
  unfold insert_message. rewrite <- (Nat.add_0_r (one _)). eapply (affords_bind_stores i b _ 0 _ _ (fun _ => b)).
  - eapply affords_weaken; [apply (affords_mutate i b)|]; rewrite ?Hk, ?message_sets_id; cbn; lia.
  - intros _. apply affords_then; [apply neutral_mutate; intros j; split; [done|]; cbn; by rewrite bool_decide_false by by intros (_ & ? & _)|].
    intros _. assert (Hn : forall key cols, starts_with "rq#" key = false -> affords i b 0 (put self key D cols) (fun _ => b)).
    { intros key cols Hkey. by apply neutral_put. }
    case_decide; [by apply Hn|by apply affords_ret].
Qed.
Lemma neutral_pending u now limit : neutral (pending self u now limit).
Proof. unfold pending. neutral. Qed.
Lemma neutral_locate id : neutral (locate self id).
Proof. unfold locate. neutral. Qed.
Hint Resolve neutral_locate : rpc.
Lemma neutral_message id : neutral (message self id).
Proof. unfold message. neutral. Qed.
Lemma neutral_create_receipt_sub : neutral (create_receipt_sub self).
Proof. unfold create_receipt_sub. neutral. Qed.
Lemma neutral_delete_rows keys : neutral (est_forM (delete self) keys).
Proof. induction keys as [|key keys IH]; [apply neutral_ret|]. apply neutral_bind; [apply neutral_delete|by intros _]. Qed.
Hint Resolve neutral_delete_rows : rpc.
Lemma neutral_receipt_sub_exists r : neutral (receipt_sub_exists self r).
Proof. apply neutral_exists. Qed.
Hint Resolve neutral_receipt_sub_exists : rpc.
Lemma neutral_delete_receipt_sub r : neutral (delete_receipt_sub self r).
Proof. unfold delete_receipt_sub. neutral. Qed.
Lemma neutral_queued_receipts r : neutral (queued_receipts self r).
Proof. unfold queued_receipts. neutral. Qed.
Lemma neutral_reap_row idx row : neutral (reap_row self idx row).
Proof. unfold reap_row. neutral. Qed.
Lemma neutral_reap_rows rows : neutral (reap_rows self rows).
Proof.
  induction rows as [|[idx row] rows IH]; cbn [reap_rows]; [apply neutral_ret|].
  apply neutral_bind; [apply neutral_reap_row|]. intros here. apply neutral_bind; [exact IH|neutral].
Qed.
Lemma neutral_reap now : neutral (reap self now).
Proof. apply neutral_bind; [apply neutral_read|apply neutral_reap_rows]. Qed.
Lemma neutral_set_route to node : neutral (set_route self to node).
Proof. unfold set_route. apply neutral_bind; [neutral|intros row]. apply neutral_bind; [|neutral]. apply neutral_put. by destruct to. Qed.
Lemma neutral_route to : neutral (route self to).
Proof. unfold route. neutral. Qed.
Lemma neutral_clear_route to node : neutral (clear_route self to node).
Proof. unfold clear_route. neutral. Qed.
Lemma neutral_delete_receipt r seq : neutral (delete_receipt self r seq).
Proof. apply neutral_delete. Qed.
Hint Resolve neutral_create_user_agent neutral_user_agent neutral_touch_user_agent neutral_update_bridge_token
  neutral_delete_user_agent neutral_expire_user_agents neutral_subscriptions neutral_create_subscription
  neutral_subscription_by_push neutral_pending neutral_message neutral_create_receipt_sub
  neutral_delete_receipt_sub neutral_delete_receipt neutral_queued_receipts neutral_reap neutral_set_route neutral_route neutral_clear_route : rpc.

(** The message a caller owes a receipt for. *)
Definition owed_for (i : string) (o : option Message) : nat :=
  match o with Some m => one (bool_decide (m_id m = i)) | None => 0 end.
Lemma affords_delete_message i id owner : affords i 0 0 (delete_message self id owner) (owed_for i).
Proof.
  apply affords_then; [apply neutral_locate|]. intros [[key m]|]; [|by apply affords_ret].
  destruct (negb (owned_by owner m)); [by apply affords_ret|].
  eapply affords_bind; [apply affords_remove_message|]. intros [|]; by apply affords_ret.
Qed.

(** ** Store calls *)

(** [k] is what a call on the adapter asks the service, whatever answers led
    it to [r]. *)
Definition asks {X} (c : Call X) (r : result BoxError X) (k : list Rpc) : Prop :=
  exists w w', perform (H := bigtable self) c w = (r, w') /\ calls_of w' = calls_of w ++ k.
Inductive calls_ask : list Entry -> list Rpc -> Prop :=
| ask_none : calls_ask [] []
| ask_call {X} (c : Call X) r k l ks : asks c r k -> calls_ask l ks -> calls_ask (Called c r :: l) (k ++ ks).

Lemma affords_asks {X} i b s (c : Call X) d r k : affords i b s (perform (H := bigtable self) c) d -> asks c r k ->
  total (stores i) k <= s /\ settled i b k (match r with Ok x => d x | Err _ => 0 end).
Proof.
  intros Ha (w & w' & Hp & Hk). destruct (Ha w) as (k' & Hk' & Hs). rewrite Hp in Hk', Hs. cbn in *.
  rewrite Hk in Hk'. by apply app_inv_head in Hk' as ->.
Qed.

Ltac adapter := cbn [perform bigtable
    Store.create_user_agent Store.user_agent Store.touch_user_agent Store.update_bridge_token
    Store.delete_user_agent Store.expire_user_agents Store.subscriptions Store.channel
    Store.create_subscription Store.subscription_by_push Store.delete_subscription Store.insert_message
    Store.pending Store.message Store.delete_message Store.create_receipt_sub Store.receipt_sub_exists
    Store.delete_receipt_sub Store.enqueue_receipt Store.queued_receipts Store.delete_receipt Store.reap
    Store.set_route Store.route Store.clear_route] in *.

(** How often the calls insert a message [i]. *)
Definition inserting (i : string) (l : list Entry) : nat :=
  sum_list_with (fun en => match en with Called c _ => length (filter (fun m => m_id m = i) (inserts c)) end) l.

(** A call is paid for by the debt it finds, and leaves the one it makes. *)
Lemma call_settles i d {X} (c : Call X) r k : settles d c -> asks c r k ->
  total (stores i) k <= inserting i [Called c r] /\ settled i (owed_for i d) k (owed_for i (debt_after c r)).
Proof.
  intros Hs Hk. assert (Hn : forall s, affords i 0 s (perform (H := bigtable self) c) (fun _ => 0) -> s <= inserting i [Called c r] ->
    debt_after c r = None -> total (stores i) k <= inserting i [Called c r] /\ settled i (owed_for i d) k (owed_for i (debt_after c r))).
  { intros s Ha Hin ->. eapply affords_asks in Hk as [Ht Hst]; [|exact Ha]. split; [lia|].
    eapply settled_weaken; [| |exact Hst]; [lia|]. by destruct r. }
  assert (Hn0 : neutral (perform (H := bigtable self) c) -> debt_after c r = None ->
    total (stores i) k <= inserting i [Called c r] /\ settled i (owed_for i d) k (owed_for i (debt_after c r))).
  { intros Ha. apply (Hn 0 (Ha i 0)). lia. }
  destruct c; adapter; try (apply Hn0; [solve [auto 1 with rpc]|done]).
  - apply (Hn _ (affords_insert_message i 0 m)); [|done].
    unfold inserting. cbn [sum_list_with inserts]. rewrite filter_cons, filter_nil. case_decide as Hm; [by rewrite bool_decide_true|].
    by rewrite bool_decide_false.
  - destruct (affords_asks i 0 0 (CDeleteMessage id owner) _ _ _ (affords_delete_message i id owner) Hk) as [Ht Hst].
    split; [lia|]. eapply settled_weaken; [| |exact Hst]; [lia|]. by destruct r.
  - destruct Hs as (m & st & -> & Hr & _). unfold receipt_for in Hr. destruct (m_rsub m) as [rsub|]; [|done]. injection Hr as <-.
    destruct (affords_asks i (owed_for i (Some m)) 0 (CEnqueueReceipt _) _ _ _
      (affords_enqueue_receipt i (owed_for i (Some m)) {| r_rsub := rsub; r_msg_id := m_id m; r_status := st |} (le_n _)) Hk) as [Ht Hst].
    split; [lia|]. eapply settled_weaken; [done| |exact Hst]. cbn. lia.
Qed.

(** Tasks that pay their debts are settled call by call of the service. *)
Lemma calls_settle i l k : calls_ask l k -> forall d, pays d l ->
  total (stores i) k <= inserting i l /\ settled i (owed_for i d) k 0.
Proof.
  induction 1 as [|X c r k l ks Hk _ IH]; intros d; cbn [pays]; [intros _; cbn; lia|]. intros [Hs Hp].
  destruct (call_settles i _ _ _ _ Hs Hk) as [Hn Hst], (IH _ Hp) as [Hn' Hst'].
  split; [|by eapply settled_app]. unfold total, inserting in *. rewrite sum_list_with_app. cbn in *. lia.
Qed.
End operations.
