(* ===== verification/BigtableInterleave.v ===== *)
(** * Calls to the service that interleave

    The service takes one call on a row at a time and the calls of all
    operations in any order; a call that fails may have been applied. However
    they come, no more receipts are written for a message than messages with
    its id were stored. There is no clock in this, and no operation need be
    atomic or run to its end. *)
From S2P Require Import MemoryStore MemoryProofs Prelude RustStr External StoreTypes Store Hub App Notify Headers Subscription Session Ece Vapid Response Endpoint Registration Receipts Internal Calls System Concurrency Bridge Client GcpAuth BigtableWire BigtableService Bigtable BigtableTheorems BigtableRows BigtableRuns BigtableScans BigtableContents BigtableRepr BigtableRpcs.

Section table.
Context `{RE : Re2} `{!Re2Laws}.

(** ** What the service does *)

(** The answer to a read is not looked at here. *)
Inductive rpc_step (t : Table) : Rpc -> Table -> Prop :=
| step_mutate m t' :
    collects (partial_alter (apply_row (mr_mutations m)) (mr_row_key m) t) t' -> rpc_step t (MutateRow m (Ok ())) t'
| step_mutate_failed m e t' :
    collects t t' \/ collects (partial_alter (apply_row (mr_mutations m)) (mr_row_key m) t) t' ->
    rpc_step t (MutateRow m (Err e)) t'
| step_read m r t' : collects t t' -> rpc_step t (ReadRows m r) t'
| step_check m f b t' : cm_predicate_filter m = Some f ->
    b = bool_decide (eval_filter f (cells (default ∅ (t !! cm_row_key m))) <> []) ->
    collects (if b then partial_alter (apply_row (cm_true_mutations m)) (cm_row_key m) t else t) t' ->
    rpc_step t (CheckAndMutateRow m (Ok b)) t'
| step_check_failed m e t' :
    collects t t' \/ collects (partial_alter (apply_row (cm_true_mutations m)) (cm_row_key m) t) t' ->
    rpc_step t (CheckAndMutateRow m (Err e)) t'.

(** Calls of any number of tasks, each with the number of its task. *)
Inductive rpc_run : Table -> list (nat * Rpc) -> Table -> Prop :=
| calls_nil t : rpc_run t [] t
| calls_cons n ev t t1 log t2 : rpc_step t ev t1 -> rpc_run t1 log t2 -> rpc_run t ((n, ev) :: log) t2.

(** What a service with [ServiceLaws] does is such a step. *)
Lemma service_steps {T} `{BigtableRpc T} (tbl : T -> Table) (laws : ServiceLaws tbl) :
  (forall req t t', mutate_row req t = (Ok (), t') -> rpc_step (tbl t) (MutateRow (req_message req) (Ok ())) (tbl t')) /\
  (forall req t b t' f, cm_predicate_filter (req_message req) = Some f -> check_and_mutate_row req t = (Ok b, t') ->
     rpc_step (tbl t) (CheckAndMutateRow (req_message req) (Ok b)) (tbl t')) /\
  (forall req t stream t', rr_filter (req_message req) = latest_only -> read_rows req t = (Ok stream, t') ->
     rpc_step (tbl t) (ReadRows (req_message req) (Ok stream)) (tbl t')).
Proof.
  split_and!.
  - intros req t t' Hm. apply step_mutate. by apply (law_mutate _ laws).
  - intros req t b t' f Hf Hc. destruct (law_check _ laws _ _ _ _ Hc f Hf) as [Hb Hl]. by apply (step_check _ _ f).
  - intros req t stream t' Hf Hr. apply step_read. by destruct (law_read _ laws _ _ _ _ Hr Hf).
Qed.

(** ** Rows that hold a message *)
Definition holding (i : string) (t : Table) : gset string :=
  dom (filter (fun kr : string * gmap (string * string) Bytes => kr.2 !! (M, "id") = Some (as_bytes i)) (contents t)).

Lemma elem_holding i t key : key ∈ holding i t <-> snd <$> cell t key (M, "id") = Some (as_bytes i).
Proof.
  unfold holding. rewrite elem_of_dom, contents_cell. split.
  - intros [r [Hr Hi]%map_lookup_filter_Some]. by rewrite Hr.
  - destruct (contents t !! key) as [r|] eqn:Hr; [|done]. cbn. intros Hi. exists r. by apply map_lookup_filter_Some.
Qed.
Lemma holding_collects i t t' : collects t t' -> holding i t' = holding i t.
Proof. intros Hc. unfold holding. by rewrite (contents_collects _ _ Hc). Qed.

Lemma row_after i ms : forall row : NRow, snd <$> foldl apply_newest row ms !! (M, "id") = Some (as_bytes i) ->
  snd <$> row !! (M, "id") = Some (as_bytes i) \/ existsb (sets_id i) ms = true.
Proof.
  induction ms as [|m ms IH]; intros row; cbn; [by left|]. intros [Hr|Hr]%IH; [|by rewrite Hr, orb_true_r; right].
  destruct m as [f q ts v|]; [|done]. cbn in *. unfold write_newest in Hr. rewrite lookup_insert in Hr.
  case_decide as Hfq; [|by left]. injection Hfq as -> ->. destruct (row !! (M, "id")) as [[t0 v0]|]; cbn in *;
    [case_match; [by left|]|]; injection Hr as ->; rewrite bool_decide_true by done; by right.
Qed.

Lemma holding_mutated i t ms key t' : collects (partial_alter (apply_row ms) key t) t' ->
  size (holding i t') <= size (holding i t) + one (existsb (sets_id i) ms).
Proof.
  intros Hc. assert (Hin : forall k, k ∈ holding i t' -> k ∈ holding i t \/ k = key /\ existsb (sets_id i) ms = true).
  { intros k. rewrite !elem_holding, (cell_mutated _ _ _ _ _ _ Hc). case_decide as Hk; [subst k|by left].
    intros [Hr|?]%row_after; [left|by right]. unfold cell. by destruct (ntable t !! key). }
  destruct (existsb (sets_id i) ms) eqn:He; cbn [one].
  - transitivity (size (holding i t ∪ {[ key ]})).
    + apply subseteq_size. intros k [?|[-> _]]%Hin; set_solver.
    + rewrite size_union_alt, <- (size_singleton (C := gset string) key) at 1. apply Nat.add_le_mono_l, subseteq_size. set_solver.
  - rewrite Nat.add_0_r. apply subseteq_size. by intros k [?|[_ ?]]%Hin.
Qed.

Lemma holding_deleted i t key t' : key ∈ holding i t -> collects (partial_alter (apply_row [delete_row]) key t) t' ->
  1 + size (holding i t') <= size (holding i t).
Proof.
  intros Hk Hc. rewrite <- (size_singleton (C := gset string) key), <- size_union.
  - apply subseteq_size. intros k [->%elem_of_singleton|Hin]%elem_of_union; [done|].
    apply elem_holding in Hin. rewrite (cell_mutated _ _ _ _ _ _ Hc) in Hin. case_decide; [done|by apply elem_holding].
  - intros k ->%elem_of_singleton Hin. apply elem_holding in Hin. by rewrite (cell_mutated _ _ _ _ _ _ Hc), decide_True in Hin.
Qed.

Lemma takes_filter i ev : takes i ev <> 0 -> takes i ev = 1 /\ exists m, ev = CheckAndMutateRow m (Ok true) /\
  cm_predicate_filter m = Some (column_filter M "id" (Some i)) /\ cm_true_mutations m = [delete_row].
Proof.
  unfold takes. repeat case_match; try done. subst. case_bool_decide as Hd; [|done]. destruct Hd as (-> & -> & -> & ->).
  intros _. split; [done|]. by eexists.
Qed.

(** A message that is taken off is there, and gone after. *)
Lemma step_holding i t ev t' : ascii_only i -> rpc_step t ev t' ->
  takes i ev + size (holding i t') <= size (holding i t) + stores i ev.
Proof.
  intros Hi Hs. destruct (decide (takes i ev = 0)) as [H0|H0].
  - rewrite H0, Nat.add_0_l. destruct Hs as [m t' Hc|m e t' [Hc|Hc]|m r t' Hc|m f b t' _ _ Hc|m e t' [Hc|Hc]]; cbn [stores];
      try (rewrite (holding_collects _ _ _ Hc); lia); try by eapply holding_mutated.
    destruct b; [by eapply holding_mutated|]. rewrite (holding_collects _ _ _ Hc). lia.
  - apply takes_filter in H0 as (-> & m & -> & Hf & Hms). inversion Hs as [| | |m' f b' t0 Hf' Hb Hc|]; subst.
    rewrite Hf in Hf'. injection Hf' as <-. rewrite Hms in Hc. cbn [stores]. rewrite Hms. cbn.
    rewrite Nat.add_0_r. eapply holding_deleted; [|exact Hc].
    symmetry in Hb. apply bool_decide_eq_true in Hb. apply column_filter_exact in Hb; [|done|done|by intros ? [= <-]].
    apply elem_holding. unfold cell, ntable. rewrite lookup_fmap. revert Hb. unfold visible. rewrite lookup_fmap.
    by destruct (t !! cm_row_key m).
Qed.
Lemma run_holding i t log t' : ascii_only i -> rpc_run t log t' ->
  total (takes i) log.*2 + size (holding i t') <= size (holding i t) + total (stores i) log.*2.
Proof.
  intros Hi. induction 1 as [t|n ev t t1 log t2 Hs _ IH]; cbn; [lia|].
  apply (step_holding i) in Hs; [|done]. unfold total in *. lia.
Qed.
End table.

(** ** Tasks *)
Definition task_rpcs (n : nat) (log : list (nat * Rpc)) : list Rpc := (filter (fun te => te.1 = n) log).*2.
Definition tasks_of (log : list (nat * Rpc)) : list nat := remove_dups log.*1.

Lemma task_rpcs_cons n ev log n' :
  task_rpcs n' ((n, ev) :: log) = if decide (n = n') then ev :: task_rpcs n' log else task_rpcs n' log.
Proof. unfold task_rpcs. rewrite filter_cons. cbn. by case_decide. Qed.

Lemma sum_at (f : nat -> nat) n x ns : NoDup ns -> n ∈ ns ->
  sum_list_with (fun n' => if decide (n = n') then x + f n' else f n') ns = x + sum_list_with f ns.
Proof.
  induction 1 as [|n' ns Hn Hnd IH]; [by intros ?%not_elem_of_nil|]. cbn. intros [->|Hin]%elem_of_cons.
  - rewrite decide_True by done. rewrite <- Nat.add_assoc. do 2 f_equal. clear IH. induction ns as [|k ns IH]; [done|]. cbn.
    apply not_elem_of_cons in Hn as [? ?]. apply NoDup_cons in Hnd as [? ?]. by rewrite decide_False, IH.
  - rewrite IH by done. case_decide; [by subst|lia].
Qed.
Lemma total_by_task (f : Rpc -> nat) log : forall ns, NoDup ns -> log.*1 ⊆ ns ->
  total f log.*2 = sum_list_with (fun n => total f (task_rpcs n log)) ns.
Proof.
  induction log as [|[n ev] log IH]; intros ns Hnd Hns.
  - clear. by induction ns as [|n ns IH].
  - transitivity (f ev + sum_list_with (fun n => total f (task_rpcs n log)) ns).
    { cbn. f_equal. apply IH; [done|]. set_solver. }
    rewrite <- sum_at with (n := n) by set_solver. clear. induction ns as [|n' ns IH]; [done|]. cbn [sum_list_with].
    rewrite task_rpcs_cons, IH. by case_decide.
Qed.
Lemma sum_list_with_le {X} (f g : X -> nat) l : (forall x, f x <= g x) -> sum_list_with f l <= sum_list_with g l.
Proof. intros Hfg. induction l as [|x l IH]; [done|]. cbn. specialize (Hfg x). lia. Qed.

(** C5: Any number of sessions, requests,
    streams and background tasks over one Bigtable table, their calls to the
    service in any order, each task stopped anywhere, also within an
    operation, and calls failing with or without having been applied: the
    receipts written for a message, with the rows that still hold it, are no
    more than the rows that held it at first and the times it was inserted.
    Where ids are not used twice, that is at most one receipt. *)
Theorem interleaved_receipts `{HT : Http} {B64 : Base64} {JS : Json} {RSA : Rsa} {HO : Host} {GS : GcpSerde}
    {SX : StatusText} {HV : HeaderValues} `{Re2Laws} `{MP : Mpsc} {PK : P256} {HD : HttpDate} {RH : ResponseHeaders}
    {HM : Hmac} {AS : ApiSerde} {CS : ClientSerde} {BW F A : Type} i t log t' (calls : nat -> list Entry) :
  is_id i = true -> rpc_run t log t' ->
  (forall n, exists self l ks, serves (BW := BW) (F := F) (A := A) (fun _ => True) (fun _ => True) (calls n ++ l) /\
    calls_ask self (calls n) (task_rpcs n log ++ ks)) ->
  total (answers i) log.*2 + size (holding i t') <=
  size (holding i t) + sum_list_with (fun n => inserting i (calls n)) (tasks_of log).
Proof.
  intros Hi Hrun Htasks. pose proof (run_holding i _ _ _ (plain_ascii _ (id_plain _ Hi)) Hrun) as Hh.
  assert (Htask : forall n, total (answers i) (task_rpcs n log) <= total (takes i) (task_rpcs n log) /\
    total (stores i) (task_rpcs n log) <= inserting i (calls n)).
  { intros n. destruct (Htasks n) as (self & l & ks & Hs & Hk). apply serves_pays, pays_prefix in Hs.
    destruct (calls_settle self i _ _ Hk _ Hs) as [Hin Hst]. apply settled_prefix, settled_total in Hst.
    unfold total in *. rewrite sum_list_with_app in Hin. cbn in Hst. lia. }
  assert (Hsum : forall f, total f log.*2 = sum_list_with (fun n => total f (task_rpcs n log)) (tasks_of log)).
  { intros f. apply total_by_task; [apply NoDup_remove_dups|]. intros n Hn. by apply elem_of_remove_dups. }
  pose proof (sum_list_with_le _ _ (tasks_of log) (fun n => proj1 (Htask n))).
  pose proof (sum_list_with_le _ _ (tasks_of log) (fun n => proj2 (Htask n))). rewrite !Hsum in *. lia.
Qed.
