(* ===== verification/BigtableOps.v ===== *)
(** * The operations of the adapter, one by one

    From a table that represents a state of the contract, every operation of
    the adapter answers what the contract says and leaves a table that
    represents the state it says: the operations on user agents,
    subscriptions, routes, receipts and messages that are not loops over
    rows. *)
From Stdlib Require Import Ascii.
From S2P Require Import MemoryStore MemoryProofs Prelude RustStr External StoreTypes Store Headers Subscription Registration Calls System Typing Bridge Client GcpAuth BigtableWire BigtableService Bigtable BigtableTheorems BigtableRows BigtableRuns BigtableScans BigtableContents BigtableRepr BigtableUpdates.

(** ** Decoding rows *)
Lemma rowmap_text cols q s : NoDup cols.*1 -> (q, as_bytes s) ∈ cols -> utf8_valid s = true -> text (rowmap cols) q = Some s.
Proof. intros Hnd Hin Hu. apply text_cell; [|done]. by apply rowmap_lookup. Qed.
Lemma rowmap_number cols q n : NoDup cols.*1 -> (q, as_bytes (to_string n)) ∈ cols -> (n <= u64_max)%N ->
  number (rowmap cols) q = Some n.
Proof. intros Hnd Hin Hu. apply number_cell; [|done]. by apply rowmap_lookup. Qed.
Lemma rowmap_none cols q : NoDup cols.*1 -> ~ q ∈ cols.*1 -> text (rowmap cols) q = None.
Proof.
  intros Hnd Hno. unfold text. destruct (rowmap cols !! q) as [v|] eqn:E; [|done]. apply rowmap_lookup in E; [|done].
  destruct Hno. apply list_elem_of_fmap. by exists (q, v).
Qed.

Lemma decode_ua ua : ua_ok ua -> user_agent_from_row (ua_uaid ua) (rowmap (ua_cols ua)) = ua.
Proof.
  intros [_ Hseen Hb]. unfold user_agent_from_row. pose proof (ua_cols_NoDup ua) as Hnd.
  rewrite (rowmap_number _ "seen" (ua_last_seen ua)) by (done || by left). destruct (ua_bridge ua) as [b|] eqn:E.
  - destruct (Hb _ eq_refl) as (H1 & H2 & H3).
    rewrite (rowmap_text _ "bridge" (ba_bridge b)), (rowmap_text _ "app" (ba_app_id b)), (rowmap_text _ "token" (ba_token b));
      try done; try (unfold ua_cols; rewrite E; set_solver +). destruct ua as [? ? ?], b. cbn in *. by subst.
  - rewrite (rowmap_none _ "bridge") by (done || (unfold ua_cols; rewrite E; cbn; set_solver +)). destruct ua. cbn in *. by subst.
Qed.
Lemma decode_sub s : sub_typed s -> text (rowmap (sub_cols s)) "push" = Some (sub_push s) /\ vapid_of (rowmap (sub_cols s)) = sub_vapid s.
Proof.
  intros [_ _ Hp Hv]. pose proof (sub_cols_NoDup s) as Hnd. split.
  - apply rowmap_text; [done|by left|]. by apply plain_utf8, id_plain.
  - unfold vapid_of. destruct (sub_vapid s) as [k|] eqn:E.
    + assert (Hk : rowmap (sub_cols s) !! "vapid" = Some k).
      { apply rowmap_lookup; [done|]. unfold sub_cols. rewrite E. set_solver +. }
      rewrite Hk. cbn. by rewrite decide_True by by apply Hv.
    + destruct (rowmap (sub_cols s) !! "vapid") as [k|] eqn:E2; [|done]. apply rowmap_lookup in E2; [|done].
      unfold sub_cols in E2. rewrite E in E2. apply list_elem_of_singleton in E2. discriminate E2.
Qed.
Lemma decode_message m : msg_ok m -> message_from_row (message_key m) (rowmap (message_cols m)) = Some m.
Proof.
  intros Hm. apply message_from_cols; [by apply msg_storable|]. intros col v. apply rowmap_lookup, message_cols_NoDup.
Qed.
Lemma decode_at m : msg_ok m -> text (rowmap (at_cols m)) "row" = Some (message_key m).
Proof. intros Hm. apply rowmap_text; [apply at_cols_NoDup|by left|by apply message_key_utf8]. Qed.

(** Whose rows a scan reads. *)
Lemma under_hash pfx a b r : plain a -> plain r -> starts_with ((pfx +:+ r) +:+ "#") (pfx +:+ a +:+ "#" +:+ b) = true <-> a = r.
Proof.
  intros Ha Hr. split.
  - intros [rest Heq]%starts_with_spec. rewrite !app_assoc_str in Heq. apply app_inj_l in Heq. by apply hash_inj in Heq as [-> _].
  - intros ->. rewrite !str_app_assoc3. rewrite <- (str_app_assoc3 pfx r "#"). apply starts_with_app.
Qed.

Lemma under_prefix pfx r k : starts_with ((pfx +:+ r) +:+ "#") k = true -> starts_with pfx k = true.
Proof. intros [rest ->]%starts_with_spec. rewrite !app_assoc_str. apply starts_with_app. Qed.

(** Decoding the rows of items. *)
Lemma decode_items {X} (key : X -> string) (cols : X -> list (string * Bytes)) (decode : string -> Row -> option X) (xs : list X) rows :
  (forall x, x ∈ xs -> decode (key x) (rowmap (cols x)) = Some x) -> rows ≡ₚ (fun x => (key x, rowmap (cols x))) <$> xs ->
  omap (fun '(k, r) => decode k r) rows ≡ₚ xs /\ key <$> omap (fun '(k, r) => decode k r) rows = rows.*1.
Proof.
  intros Hd Hp. rewrite (omap_pairs decode). split.
  - rewrite Hp. clear Hp. induction xs as [|x xs IH]; [done|]. cbn. rewrite (Hd x) by by left.
    f_equiv. apply IH. intros y Hy. apply Hd. by right.
  - assert (Hone : Forall (fun kr => exists x, decode kr.1 kr.2 = Some x /\ key x = kr.1) rows).
    { apply Forall_forall. intros kr Hin. rewrite Hp in Hin. apply list_elem_of_fmap in Hin as (x & -> & Hx). exists x. split; [by apply Hd|done]. }
    clear -Hone. induction Hone as [|kr rows (x & Hd & Hx) _ IH]; [done|]. cbn. by rewrite Hd, <- Hx, <- IH.
Qed.

Section ops.
Context `{HT : Http} `{B64 : Base64} {BL : Base64Laws} `{JS : Json} `{RSA : Rsa} `{HO : Host} `{GS : GcpSerde}
  `{SX : StatusText} {T : Type} `{RPC : BigtableRpc T} `{RE : Re2}.
Context (tbl : T -> Table) (laws : ServiceLaws tbl) `{!Re2Laws} (self : BigtableStore).
Implicit Types (w : Env * BtWorld (T := T)).
Abbreviation contents_of w := (wcontents tbl w) (only parsing).

(** The table represents the state [a], and the world keeps time. *)
Record holds_state (past : Ms) (a : AStore) w : Prop := {
  hs_time : in_time tbl w;
  hs_good : good a;
  hs_rep : represents past a (wcontents tbl w);
  hs_seq : (env_last_seq w.1 <= u64_max)%N;
}.

(** A call ended in a world that represents [a'], and issued no number. *)
Record ends w (past : Ms) (a : AStore) w' : Prop := {
  en_state : holds_state past a w';
  en_env : env_extends w.1 w'.1;
  en_quiet : quiet w.1 w'.1;
}.
Lemma leaves_ends past past' a a' w w' c : holds_state past a w -> leaves tbl w w' c ->
  good a' -> represents past' a' c -> ends w past' a' w'.
Proof.
  intros [_ _ _ Hs] [[He Hq] Ht <-] Hg Hr. split; [split; [done..|]|done|done]. by rewrite Hq.
Qed.
Lemma leaves_same_state past a w w' : holds_state past a w -> leaves tbl w w' (contents_of w) -> ends w past a w'.
Proof. intros Hs Hl. eapply leaves_ends; [done..|apply Hs|apply Hs]. Qed.
Lemma ends_trans w past1 a1 w1 past2 a2 w2 : ends w past1 a1 w1 -> ends w1 past2 a2 w2 -> ends w past2 a2 w2.
Proof. intros [_ He Hq] [Hs He2 Hq2]. split; [done|by etrans|]. unfold quiet in *. congruence. Qed.

(** Reading a clock, drawing octets, or issuing a number. *)
Lemma with_env_Ok {X} (m : ST Env X) w x w' : with_env m w = (Ok x, w') -> x = (m w.1).1 /\ w' = ((m w.1).2, w.2).
Proof. destruct w as [e s]. unfold with_env. cbn [fst snd]. destruct (m e) as [y e'] eqn:E. by intros [= <- <-]. Qed.
Lemma env_state past a e s e' : holds_state past a (e, s) -> env_extends e e' -> (env_last_seq e' <= u64_max)%N ->
  holds_state past a (e', s).
Proof.
  intros [[Hst Hf Hs] Hg Hr _] He Hl. pose proof (ext_clock _ _ He) as Hc. split; [|done..]. split; cbn in *.
  - intros i j. rewrite Hc. apply Hst.
  - intros i. rewrite Hc. apply Hf.
  - intros k q ts v Hcell i Hi. rewrite Hc. eapply Hs; [done|]. pose proof (ext_ticks _ _ He). lia.
Qed.
Lemma env_ends past a e s e' : holds_state past a (e, s) -> env_steps e e' -> ends (e, s) past a (e', s).
Proof.
  intros Hs [He Hq]. split; [|done..]. eapply env_state; [done..|]. rewrite Hq. apply Hs.
Qed.

(** Reading the row of an item, or finding that there is none. *)
Lemma get_item {X} pfx family (key : X -> string) cols (P : X -> Prop) (item : option X) k w o w' :
  kind pfx family key cols P (contents_of w) -> in_time tbl w -> utf8_valid k = true -> starts_with pfx k = true ->
  match item with Some x => P x /\ key x = k | None => forall x, P x -> key x <> k end ->
  get self k w = (Ok o, w') ->
  leaves tbl w w' (contents_of w) /\ o = (fun x => rowmap (cols x)) <$> item.
Proof.
  intros HK Ht Hu Hk Hitem Hget. destruct item as [x|].
  - destruct Hitem as [Hx <-]. destruct (kd_item _ _ _ _ _ _ HK x Hx) as (_ & Hnd & Hc).
    apply (get_leaves tbl laws self _ family (cols x)) in Hget as [Hl ->]; [|done..|].
    + split; [done|]. by rewrite Hc.
    + intros r Hr. congruence.
  - assert (Hno : contents_of w !! k = None) by (by eapply kind_absent).
    apply (get_leaves tbl laws self _ family []) in Hget as [Hl ->]; [|done|done|constructor|].
    + split; [done|]. by rewrite Hno.
    + intros r Hr. congruence.
Qed.

(** Reading all rows under a prefix. *)
Lemma scan_items {X} pfx family (key : X -> string) cols (P : X -> Prop) p (xs : list X) w rows w' :
  kind pfx family key cols P (contents_of w) -> in_time tbl w ->
  (forall k, starts_with (p +:+ "#") k = true -> starts_with pfx k = true) ->
  NoDup (key <$> xs) -> (forall x, x ∈ xs <-> P x /\ starts_with (p +:+ "#") (key x) = true) ->
  read self (prefix (p +:+ "#")) w = (Ok rows, w') ->
  leaves tbl w w' (contents_of w) /\ rows ≡ₚ (fun x => (key x, rowmap (cols x))) <$> xs /\
  StronglySorted (fun a b => str_ltb a b = true) rows.*1.
Proof.
  intros HK Ht Hp Hnd Hxs. apply (read_leaves tbl laws self family key cols); [done|done|..].
  - intros x [Hx _]%Hxs. by apply (kd_item _ _ _ _ _ _ HK).
  - intros k. rewrite prefix_selects. split.
    + intros [Hs Hr]. destruct (kd_row _ _ _ _ _ _ HK k (Hp k Hs) Hr) as (x & Hx & ->).
      apply list_elem_of_fmap. exists x. split; [done|]. by apply Hxs.
    + intros (x & -> & Hx)%list_elem_of_fmap. apply Hxs in Hx as [Hx Hs]. split; [done|].
      rewrite (kind_some _ _ _ _ _ _ _ HK Hx). by eexists.
Qed.

(** Writing the row of an item that had none. *)
Lemma put_new {X} pfx (key : X -> string) cols (P : X -> Prop) x w w' :
  kind pfx D key cols P (contents_of w) -> in_time tbl w -> starts_with pfx (key x) = true -> NoDup (cols x).*1 -> cols x <> [] ->
  (forall y, P y -> key y <> key x) -> put self (key x) D (cols x) w = (Ok (), w') ->
  leaves tbl w w' (<[ key x := colsmap D (cols x) ]> (contents_of w)).
Proof.
  intros HK Ht Hk Hnd Hne Hno Hput. apply (put_leaves tbl laws) in Hput; [|done..].
  assert (Hnone : contents_of w !! key x = None) by (by eapply kind_absent).
  rewrite Hnone in Hput. cbn [default] in Hput. by rewrite (right_id_L ∅ (∪)) in Hput.
Qed.

(** ** User agents *)
Lemma bt_create_user_agent past a ua w w' : holds_state past a w -> ua_ok ua -> a_uas a !! ua_uaid ua = None ->
  create_user_agent self ua w = (Ok (), w') ->
  ends w past (set_a_uas (<[ ua_uaid ua := ua ]> (a_uas a)) a) w'.
Proof.
  intros Hs Hua Hno Hp. destruct Hs as [Ht Hg Hr Hq] eqn:E. clear E.
  apply (put_new "ua#" ua_key ua_cols _ ua _ _ (rp_uas _ _ _ Hr) Ht) in Hp; [|auto with push|apply ua_cols_NoDup|done|].
  - eapply leaves_ends; [done..|by apply good_ua_insert|by apply rep_ua_insert].
  - intros y Hy Heq%ua_key_inj. congruence.
Qed.
Lemma uaid_utf8 u : is_uaid u = true -> utf8_valid ("ua#" +:+ u) = true.
Proof. intros Hu. apply utf8_ascii, ascii_app. split; [done|]. by apply plain_ascii, uaid_plain. Qed.

(** The user agent under an id, for the row under its key. *)
Lemma ua_item past a w u : holds_state past a w ->
  match a_uas a !! u with
  | Some x => a_uas a !! ua_uaid x = Some x /\ ua_key x = "ua#" +:+ u
  | None => forall x, a_uas a !! ua_uaid x = Some x -> ua_key x <> "ua#" +:+ u
  end.
Proof.
  intros [_ Hg _ _]. destruct (a_uas a !! u) as [ua|] eqn:Hu.
  - pose proof (wf_uas _ (gd_wf _ Hg) _ _ Hu) as Hid. split; [by rewrite Hid|]. unfold ua_key. by rewrite Hid.
  - intros x Hx Heq%app_inj_l. congruence.
Qed.
Lemma bt_user_agent past a u w r w' : holds_state past a w -> is_uaid u = true ->
  user_agent self u w = (Ok r, w') -> ends w past a w' /\ r = a_uas a !! u.
Proof.
  intros Hs Hu. unfold user_agent. intros (o & w1 & Hget & [= <- <-])%est_bind_Ok.
  apply (get_item "ua#" D ua_key ua_cols _ _ _ _ _ _ (rp_uas _ _ _ (hs_rep _ _ _ Hs)) (hs_time _ _ _ Hs)
    (uaid_utf8 _ Hu) (starts_with_app _ _) (ua_item _ _ _ u Hs)) in Hget as [Hl ->].
  split; [by apply leaves_same_state|]. destruct (a_uas a !! u) as [ua|] eqn:E; [|done]. cbn. f_equal.
  pose proof (wf_uas _ (gd_wf _ (hs_good _ _ _ Hs)) _ _ E) as <-. by apply decode_ua, (gd_uas _ (hs_good _ _ _ Hs) _ _ E).
Qed.

(** What a column of the row of a user agent holds. *)
Lemma ua_cell past a w u q : holds_state past a w ->
  (r ← contents_of w !! ("ua#" +:+ u); (r : gmap _ _) !! (D, q)) = (ua ← a_uas a !! u; rowmap (ua_cols ua) !! q).
Proof.
  intros Hs. pose proof (ua_item _ _ _ u Hs) as Hi. pose proof (rp_uas _ _ _ (hs_rep _ _ _ Hs)) as HK.
  destruct (a_uas a !! u) as [ua|] eqn:E.
  - destruct Hi as [Hi <-]. rewrite (kind_some _ _ _ _ _ _ _ HK Hi). apply colsmap_rowmap, ua_cols_NoDup.
  - by rewrite (kind_absent _ _ _ _ _ _ _ HK (starts_with_app _ _) Hi).
Qed.
(** Changing a column that is there. *)
Lemma ua_overwrite ua ua' q v : (q, v) ∈ ua_cols ua' -> (forall q' v', q' <> q -> (q', v') ∈ ua_cols ua <-> (q', v') ∈ ua_cols ua') ->
  {[ (D, q) := v ]} ∪ colsmap D (ua_cols ua) = colsmap D (ua_cols ua').
Proof.
  intros Hq Hother. pose proof (ua_cols_NoDup ua) as Hnd. pose proof (ua_cols_NoDup ua') as Hnd'.
  apply map_eq. intros [f q']. apply option_eq. intros v'. rewrite lookup_union_Some_raw, colsmap_lookup by done.
  rewrite lookup_singleton_Some, lookup_singleton_None, colsmap_lookup by done. split.
  - intros [[[= <- <-] <-]|[Hne [-> Hin]]]; [done|]. split; [done|]. apply Hother; [congruence|done].
  - intros [-> Hin]. destruct (decide (q' = q)) as [->|Hne].
    + left. split; [done|]. assert (Some v = Some v') as [= <-]; [|done].
      rewrite <- (proj2 (rowmap_lookup _ q v Hnd') Hq), <- (proj2 (rowmap_lookup _ q v' Hnd') Hin). done.
    + right. split; [congruence|]. split; [done|]. by apply Hother.
Qed.
Lemma bt_touch_user_agent past a u now w r w' : holds_state past a w -> is_uaid u = true -> (now <= u64_max)%N ->
  touch_user_agent self u now w = (Ok r, w') ->
  match a_uas a !! u with
  | None => r = false /\ ends w past a w'
  | Some ua => r = true /\ ends w past (set_a_uas (<[ u := {| ua_uaid := ua_uaid ua; ua_bridge := ua_bridge ua;
      ua_last_seen := now |} ]> (a_uas a)) a) w'
  end.
Proof.
  intros Hs Hu Hnow. unfold touch_user_agent. intros Hm. apply (touch_leaves tbl laws) in Hm as [Hb Hl]; [|apply Hs|done].
  rewrite (ua_cell _ _ _ _ _ Hs) in Hb. pose proof (ua_item _ _ _ u Hs) as Hi.
  destruct (a_uas a !! u) as [ua|] eqn:E; cbn [mbind option_bind] in Hb.
  - pose proof (gd_uas _ (hs_good _ _ _ Hs) _ _ E) as Hok. destruct Hi as [Hi Hkey].
    rewrite (proj2 (rowmap_lookup _ "seen" _ (ua_cols_NoDup ua)) ltac:(by left)) in Hb.
    rewrite bool_decide_true in Hb by by eexists. subst r. split; [done|].
    pose proof (wf_uas _ (gd_wf _ (hs_good _ _ _ Hs)) _ _ E) as Hid. rewrite <- Hid.
    set (ua' := {| ua_uaid := ua_uaid ua |}).
    assert (Hok' : ua_ok ua') by (destruct Hok as [[] ? ?]; by split; [split|..]).
    eapply leaves_ends; [done|exact Hl|by apply (good_ua_insert _ ua'); [apply Hs|]|].
    rewrite <- Hkey. rewrite (kind_some _ _ _ _ _ _ _ (rp_uas _ _ _ (hs_rep _ _ _ Hs)) Hi). cbn [default].
    apply (rep_ua_insert _ _ _ ua'); [apply Hs|done|]. apply ua_overwrite; [by left|].
    intros q' v' Hne. unfold ua_cols. cbn [ua_last_seen ua_bridge ua']. rewrite !elem_of_cons. naive_solver.
  - subst r. split; [done|]. by apply leaves_same_state.
Qed.
Lemma bt_update_bridge_token past a u t w r w' : holds_state past a w -> is_uaid u = true -> valid_token t = true ->
  utf8_valid t = true -> update_bridge_token self u t w = (Ok r, w') ->
  match a_uas a !! u with
  | Some {| ua_uaid := i; ua_bridge := Some b; ua_last_seen := seen |} =>
      let b := {| ba_bridge := ba_bridge b; ba_app_id := ba_app_id b; ba_token := t |} in
      r = true /\ ends w past (set_a_uas (<[ u := {| ua_uaid := i; ua_bridge := Some b; ua_last_seen := seen |} ]> (a_uas a)) a) w'
  | _ => r = false /\ ends w past a w'
  end.
Proof.
  intros Hs Hu Hvt Hut. unfold update_bridge_token. intros Hm. apply (touch_leaves tbl laws) in Hm as [Hb Hl]; [|apply Hs|done].
  rewrite (ua_cell _ _ _ _ _ Hs) in Hb. pose proof (ua_item _ _ _ u Hs) as Hi.
  destruct (a_uas a !! u) as [ua|] eqn:E; cbn [mbind option_bind] in Hb; [|subst r; split; [done|]; by apply leaves_same_state].
  pose proof (gd_uas _ (hs_good _ _ _ Hs) _ _ E) as Hok. destruct Hi as [Hi Hkey].
  destruct ua as [i [b|] seen]; cbv zeta.
  - assert (r = true) as ->.
    { rewrite Hb. apply bool_decide_true. exists (as_bytes (ba_bridge b)). apply rowmap_lookup; [apply ua_cols_NoDup|]. cbn. set_solver +. }
    split; [done|].
    pose proof (wf_uas _ (gd_wf _ (hs_good _ _ _ Hs)) _ _ E) as Hid. cbn in Hid. subst i.
    set (ua' := {| ua_uaid := u; ua_bridge := Some _; ua_last_seen := seen |}).
    assert (Hok' : ua_ok ua').
    { destruct Hok as [[Hu0 _] ? Hb0]. destruct (Hb0 _ eq_refl) as (? & ? & _). split; [split; [done|]|done|]; by intros ? [= <-]. }
    eapply leaves_ends; [done|exact Hl|by apply (good_ua_insert _ ua'); [apply Hs|]|].
    change ("ua#" +:+ u) with (ua_key {| ua_uaid := u; ua_bridge := Some b; ua_last_seen := seen |}).
    rewrite (kind_some _ _ _ _ _ _ _ (rp_uas _ _ _ (hs_rep _ _ _ Hs)) Hi). cbn [default].
    apply (rep_ua_insert _ _ _ ua'); [apply Hs|done|]. apply ua_overwrite; [cbn; set_solver +|].
    intros q' v' Hne. unfold ua_cols. cbn [ua_last_seen ua_bridge ua' ba_bridge ba_app_id ba_token]. rewrite !elem_of_cons. naive_solver.
  - assert (r = false) as ->; [|split; [done|]; by apply leaves_same_state].
    rewrite Hb. apply bool_decide_false. intros [v Hv%rowmap_lookup]; [|apply ua_cols_NoDup].
    apply list_elem_of_singleton in Hv. discriminate Hv.
Qed.

(** ** Routes *)
Lemma route_item past a w to : holds_state past a w ->
  match (fun node => (to, node)) <$> a_routes a !! to with
  | Some x => a_routes a !! x.1 = Some x.2 /\ node_key x = route_key to
  | None => forall x, a_routes a !! x.1 = Some x.2 -> node_key x <> route_key to
  end.
Proof.
  intros _. destruct (a_routes a !! to) as [node|] eqn:E; cbn; [done|]. intros x Hx Heq%route_key_inj. congruence.
Qed.
Lemma node_utf8 past a w to node : holds_state past a w -> a_routes a !! to = Some node -> utf8_valid node = true.
Proof. intros Hs Hn. apply utf8_ascii. by apply (gd_routes _ (hs_good _ _ _ Hs) _ _ Hn). Qed.
Lemma route_get past a w to o w' : holds_state past a w -> to_typed to -> get self (route_key to) w = (Ok o, w') ->
  leaves tbl w w' (contents_of w) /\ (row ← o; text row "node") = a_routes a !! to.
Proof.
  intros Hs Hto Hget.
  apply (get_item "route#" D node_key node_cols _ _ _ _ _ _ (rp_routes _ _ _ (hs_rep _ _ _ Hs)) (hs_time _ _ _ Hs)
    (route_utf8 _ Hto) (node_pfx (to, "")) (route_item _ _ _ to Hs)) in Hget as [Hl ->].
  split; [done|]. destruct (a_routes a !! to) as [node|] eqn:E; [|done]. cbn [fmap option_fmap option_map mbind option_bind].
  apply rowmap_text; [by apply (bool_decide_unpack _)|by left|by eapply node_utf8].
Qed.
Lemma bt_route past a to w r w' : holds_state past a w -> to_typed to -> route self to w = (Ok r, w') ->
  ends w past a w' /\ r = a_routes a !! to.
Proof.
  intros Hs Hto. unfold route. intros (o & w1 & Hget & [= <- <-])%est_bind_Ok.
  apply (route_get _ _ _ _ _ _ Hs Hto) in Hget as [Hl ->]. split; [by apply leaves_same_state|done].
Qed.
Lemma bt_set_route past a to node w r w' : holds_state past a w -> to_typed to -> ascii_only node ->
  set_route self to node w = (Ok r, w') ->
  ends w past (set_a_routes (<[ to := node ]> (a_routes a)) a) w' /\ r = a_routes a !! to.
Proof.
  intros Hs Hto Hn. unfold set_route. intros (o & w1 & Hget & ([] & w2 & Hput & [= <- <-])%est_bind_Ok)%est_bind_Ok.
  apply (route_get _ _ _ _ _ _ Hs Hto) in Hget as [Hl ->]. split; [|done].
  assert (Hs1 : ends w past a w1) by (by apply leaves_same_state). eapply ends_trans; [exact Hs1|].
  destruct Hs1 as [Hs1 _ _]. apply (put_leaves tbl laws) in Hput; [|apply Hs1|by apply (bool_decide_unpack _)|done].
  eapply leaves_ends; [exact Hs1|exact Hput|..].
  - apply good_routes_; [apply Hs1|]. intros t' n' [[<- <-]|[_ Hk]]%lookup_insert_Some; [done|].
    by apply (gd_routes _ (hs_good _ _ _ Hs1)).
  - apply rep_route_insert; [apply Hs1|done|].
    pose proof (route_item _ _ _ to Hs1) as Hi. pose proof (rp_routes _ _ _ (hs_rep _ _ _ Hs1)) as HK.
    destruct (a_routes a !! to) as [node0|] eqn:E.
    + change (route_key to) with (node_key (to, node0)). rewrite (kind_some _ _ _ _ _ _ (to, node0) HK E). cbn [default].
      apply colsmap_union; [by apply (bool_decide_unpack _)..|done].
    + rewrite (kind_absent _ _ _ _ _ _ (route_key to) HK (node_pfx (to, "")) Hi). cbn [default]. by rewrite (right_id_L ∅ (∪)).
Qed.
Lemma bt_clear_route past a to node w r w' : holds_state past a w -> to_typed to -> ascii_only node ->
  clear_route self to node w = (Ok r, w') ->
  ends w past (a_clear_route to node a) w' /\ r = bool_decide (a_routes a !! to = Some node).
Proof.
  intros Hs Hto Hn. unfold clear_route. intros Hm. apply (delete_if_leaves tbl laws) in Hm as [Hr Hl]; [|apply Hs|done..].
  assert (Hb : r = bool_decide (a_routes a !! to = Some node)).
  { rewrite Hr. apply bool_decide_ext. pose proof (route_item _ _ _ to Hs) as Hi.
    pose proof (rp_routes _ _ _ (hs_rep _ _ _ Hs)) as HK. destruct (a_routes a !! to) as [node0|] eqn:E.
    - change (route_key to) with (node_key (to, node0)). rewrite (kind_some _ _ _ _ _ _ (to, node0) HK E). cbn [mbind option_bind].
      rewrite colsmap_lookup by by apply (bool_decide_unpack _). unfold node_cols. rewrite list_elem_of_singleton. split.
      + intros [_ [= Heq]]. f_equal. by rewrite <- (of_as_bytes node0), <- Heq, of_as_bytes.
      + by intros [= ->].
    - rewrite (kind_absent _ _ _ _ _ _ (route_key to) HK (node_pfx (to, "")) Hi). done. }
  split; [|done]. clear Hr. subst r. unfold a_clear_route. case_bool_decide as Hc.
  - rewrite decide_True by done. eapply leaves_ends; [done|exact Hl|..]; [|by apply rep_route_delete, Hs].
    apply good_routes_; [apply Hs|]. intros t' n' [_ Hk]%lookup_delete_Some. by apply (gd_routes _ (hs_good _ _ _ Hs)).
  - rewrite decide_False by done. by apply leaves_same_state.
Qed.
End ops.
