(* ===== verification/BigtableCalls.v ===== *)
(** * The adapter's operations on single rows

    Each operation on receipts, channels and messages, from a table that
    represents an abstract state. *)
From Stdlib Require Import Ascii.
From S2P Require Import MemoryStore MemoryProofs Prelude RustStr External StoreTypes Store Headers Subscription Registration Calls System Typing Bridge Client GcpAuth BigtableWire BigtableService Bigtable BigtableTheorems BigtableRows BigtableRuns BigtableScans BigtableContents BigtableRepr BigtableUpdates BigtableOps.

(** ** Receipt subscriptions and their queues in the adapter

    From a table that represents a state of the contract, the operations on
    receipts answer what the contract says and leave a table that represents
    the state it says. *)

Lemma next_seq_bound e : ((next_seq e).1 <= u64_max)%N /\ env_last_seq (next_seq e).2 = (next_seq e).1 /\ env_extends e (next_seq e).2.
Proof.
  assert (Hw : forall n, (wrap64 n <= u64_max)%N).
  { intros n. unfold wrap64, u64_max. pose proof (N.mod_lt n (2 ^ 64) ltac:(lia)). lia. }
  unfold next_seq, now_ms. cbv beta iota zeta. split_and!; [apply N.max_lub; apply Hw|done|split; env_step].
Qed.

Section receipts.
Context `{HT : Http} `{B64 : Base64} {BL : Base64Laws} `{JS : Json} `{RSA : Rsa} `{HO : Host} `{GS : GcpSerde}
  `{SX : StatusText} {T : Type} `{RPC : BigtableRpc T} `{RE : Re2}.
Context (tbl : T -> Table) (laws : ServiceLaws tbl) `{!Re2Laws} (self : BigtableStore).
Implicit Types (w : Env * BtWorld (T := T)).
Abbreviation holds_state := (holds_state tbl) (only parsing).
Abbreviation ends := (ends tbl) (only parsing).

Lemma rsub_cols_NoDup r : NoDup (rsub_cols r).*1.
Proof. by apply (bool_decide_unpack _). Qed.

Lemma bt_create_receipt_sub past a w r w' : holds_state past a w -> a_queues a !! (new_id w.1).1 = None ->
  create_receipt_sub self w = (Ok r, w') ->
  ends w past (set_a_queues (<[ r := ∅ ]> (a_queues a)) a) w' /\ r = (new_id w.1).1.
Proof.
  intros Hs Hno. unfold create_receipt_sub. intros (id & w1 & Hid & ([] & w2 & Hput & [= <- <-])%est_bind_Ok)%est_bind_Ok.
  destruct w as [e s]. apply with_env_Ok in Hid as [-> ->]. cbn [fst snd] in *. split; [|done].
  pose proof (env_ends _ _ _ _ _ _ Hs (new_id_env e)) as He. eapply ends_trans; [exact He|].
  pose proof (en_state _ _ _ _ _ He) as Hs1. pose proof (new_id_is_id e) as Hi. set (id := (new_id e).1) in *. clearbody id.
  apply (put_new tbl laws self "rsub#" rsub_key rsub_cols _ id _ _ (rp_rsubs _ _ _ (hs_rep _ _ _ _ Hs1)) (hs_time _ _ _ _ Hs1))
    in Hput as Hl; [|auto with push|apply rsub_cols_NoDup|done|].
  - eapply leaves_ends; [exact Hs1|exact Hl|by apply good_new_queue; [apply Hs1|]|by apply rep_new_queue; [apply Hs1|..]].
  - intros y [q Hy] Heq%rsub_key_inj. congruence.
Qed.

Lemma bt_receipt_sub_exists past a r w b w' : holds_state past a w -> is_id r = true ->
  receipt_sub_exists self r w = (Ok b, w') -> ends w past a w' /\ b = bool_decide (is_Some (a_queues a !! r)).
Proof.
  intros Hs Hr. unfold receipt_sub_exists, exists_. intros (o & w1 & Hget & [= <- <-])%est_bind_Ok.
  apply (get_item tbl laws self "rsub#" D rsub_key rsub_cols _ (match a_queues a !! r with Some _ => Some r | None => None end)
    _ _ _ _ (rp_rsubs _ _ _ (hs_rep _ _ _ _ Hs)) (hs_time _ _ _ _ Hs) (rsub_key_utf8 _ Hr) (starts_with_app _ _)) in Hget as [Hl ->].
  - split; [by eapply leaves_same_state|]. by destruct (a_queues a !! r).
  - destruct (a_queues a !! r) as [q|] eqn:E; [split; [by eexists|done]|]. intros x [q Hx] Heq%rsub_key_inj. congruence.
Qed.

(** The rows of a queue. *)
Definition queue_of (a : AStore) (r : string) : list (N * Receipt) := map_to_list (default ∅ (a_queues a !! r)).
Lemma queue_items past a w r : holds_state past a w -> is_id r = true ->
  NoDup (receipt_key <$> queue_of a r) /\ Forall (queueable r) (queue_of a r) /\
  forall x, x ∈ queue_of a r <-> in_queues (a_queues a) x /\ starts_with (("rq#" +:+ r) +:+ "#") (receipt_key x) = true.
Proof.
  intros Hs Hr. set (xs := queue_of a r). pose proof (hs_good _ _ _ _ Hs) as Hg.
  assert (Hin : forall x, x ∈ xs -> in_queues (a_queues a) x /\ r_rsub x.2 = r).
  { intros [n rc] Hx. apply elem_of_map_to_list in Hx. destruct (a_queues a !! r) as [q|] eqn:E; [|done].
    pose proof (wf_queues _ (gd_wf _ Hg) _ _ _ _ E Hx) as <-. split; [by exists q|done]. }
  split_and!.
  - apply NoDup_fmap_2_strong; [|apply NoDup_map_to_list]. intros x y [Hx Hrx]%Hin [Hy Hry]%Hin Heq.
    destruct (in_queues_good _ _ Hg Hx) as (? & _ & ?), (in_queues_good _ _ Hg Hy) as (? & _ & ?).
    apply receipt_key_inj in Heq as [Hq Hn]; [|done..]. destruct Hx as (q & Hq1 & Hx), Hy as (q' & Hq2 & Hy).
    rewrite Hq, Hq2 in Hq1. injection Hq1 as ->. destruct x, y. cbn in *. congruence.
  - apply Forall_forall. intros x [Hx Hrx]%Hin. destruct (in_queues_good _ _ Hg Hx) as (? & [? Hid Hst] & ?).
    split_and!; [done..|by apply plain_utf8, id_plain|]. destruct Hst as [-> | ->]; done.
  - intros [n rc]. split.
    + intros [Hx Hrx]%Hin. split; [done|]. unfold receipt_key. apply under_hash; [|by apply id_plain|done].
      by destruct (in_queues_good _ _ Hg Hx) as (_ & _ & ?).
    + intros [Hx Hsw]. destruct (in_queues_good _ _ Hg Hx) as (_ & _ & Hp). apply under_hash in Hsw as Hq; [|done|by apply id_plain].
      destruct Hx as (q & Hq1 & Hx). cbn in *. apply elem_of_map_to_list. by rewrite <- Hq, Hq1.
Qed.

Lemma receipt_write past a w sr w' : holds_state past a w -> (sr.1 <= u64_max)%N -> receipt_typed sr.2 ->
  is_Some (a_queues a !! r_rsub sr.2) -> put self (receipt_key sr) D (receipt_cols sr) w = (Ok (), w') ->
  ends w past (set_a_queues (enqueue (a_queues a) sr) a) w'.
Proof.
  intros Hs Hn Hr Hq Hput. apply (put_leaves tbl laws) in Hput as Hl; [|apply Hs|apply receipt_cols_NoDup|done].
  eapply leaves_ends; [exact Hs|exact Hl|by apply good_enqueue; [apply Hs|..]|].
  apply rep_enqueue; [apply Hs|apply Hs|done..|].
  destruct (wcontents tbl w !! receipt_key sr) as [row|] eqn:E; cbn [default]; [|by rewrite (right_id_L ∅ (∪))].
  pose proof (rp_queues _ _ _ (hs_rep _ _ _ _ Hs)) as HK.
  destruct (kd_row _ _ _ _ _ _ HK (receipt_key sr) (receipt_pfx sr)) as (x & Hx & Heq); [by eexists|].
  rewrite Heq, (kind_some _ _ _ _ _ _ _ HK Hx) in E. injection E as <-.
  apply colsmap_union; [apply receipt_cols_NoDup..|done].
Qed.

(** A receipt is queued under the next number, unless its subscription is
    gone. *)
Lemma bt_enqueue_receipt n past a r w o w' : holds_state past a w -> receipt_typed r -> seq_room (S n) w.1 ->
  enqueue_receipt self r w = (Ok o, w') ->
  env_extends w.1 w'.1 /\ seq_room n w'.1 /\
  match a_queues a !! r_rsub r with
  | None => o = None /\ holds_state past a w' /\ quiet w.1 w'.1
  | Some _ => exists seq, o = Some seq /\ numbered w.1 [(seq, r)] w'.1 /\
      holds_state past (set_a_queues (enqueue (a_queues a) (seq, r)) a) w'
  end.
Proof.
  intros Hs Hr Hroom. unfold enqueue_receipt. intros (b & w1 & Hex & Hrest)%est_bind_Ok.
  apply (bt_receipt_sub_exists _ _ _ _ _ _ Hs (rt_rsub _ Hr)) in Hex as [[Hs1 He1 Hq1] ->].
  pose proof (seq_room_quiet _ _ _ He1 Hq1 Hroom) as Hroom1.
  destruct (a_queues a !! r_rsub r) as [q|] eqn:Hq.
  - rewrite bool_decide_true in Hrest by by eexists. cbn [negb] in Hrest.
    apply est_bind_Ok in Hrest as (seq & w2 & Hseq & ([] & w3 & Hput & [= <- <-])%est_bind_Ok).
    apply with_env_Ok in Hseq as [Hseq ->]. destruct w1 as [e1 s1]. cbn [fst snd] in *.
    destruct (next_seq_bound e1) as (Hb & Hl & He2). destruct (next_seq e1) as [sq e2] eqn:E. cbn [fst snd] in *. subst sq.
    destruct (next_seq_room _ _ _ _ Hroom1 E) as (Hroom2 & Hlt & _ & _).
    assert (Hs2 : holds_state past a (e2, s1)) by (eapply env_state; [exact Hs1|done|by rewrite Hl]).
    apply (receipt_write past a (e2, s1) (seq, r)) in Hput as [Hs3 He3 Hq3]; [|done..|by eexists]. cbn [fst] in *.
    split_and!; [by etrans; [|by etrans]|by eapply seq_room_quiet|]. exists seq. split_and!; [done| |done].
    apply numbered_one; [by rewrite <- Hq1|]. unfold quiet in Hq3. congruence.
  - rewrite bool_decide_false in Hrest by by intros []. cbn [negb] in Hrest. injection Hrest as <- <-.
    split_and!; [done|eapply seq_room_weaken; [|done]; lia|done..].
Qed.

Lemma bt_queued_receipts past a r w rs w' : holds_state past a w -> is_id r = true ->
  queued_receipts self r w = (Ok rs, w') ->
  ends w past a w' /\ StronglySorted N.lt rs.*1 /\ rs ≡ₚ map_to_list (default ∅ (a_queues a !! r)).
Proof.
  intros Hs Hr. unfold queued_receipts. intros (rows & w1 & Hread & [= <- <-])%est_bind_Ok. rewrite str_app_assoc3 in Hread.
  destruct (queue_items _ _ _ r Hs Hr) as (Hnd & Hq & Hxs).
  destruct (scan_items tbl laws self "rq#" D receipt_key receipt_cols _ ("rq#" +:+ r) _ _ _ _ (rp_queues _ _ _ (hs_rep _ _ _ _ Hs))
    (hs_time _ _ _ _ Hs) (under_prefix _ _) Hnd Hxs Hread) as (Hl & Hp & Hsort).
  apply (decode_items receipt_key receipt_cols (receipt_from_row r)) in Hp as [Hout Hkeys].
  - split_and!; [by eapply leaves_same_state| |exact Hout]. apply (queue_sorted r); [by rewrite Hout|by rewrite Hkeys].
  - intros x Hx. rewrite Forall_forall in Hq. apply receipt_decodes; [by apply Hq|]. intros q v. apply rowmap_lookup, receipt_cols_NoDup.
Qed.

Lemma bt_delete_receipt past a r n w w' : holds_state past a w -> is_id r = true -> (n <= u64_max)%N ->
  delete_receipt self r n w = (Ok (), w') -> ends w past (a_delete_receipt r n a) w'.
Proof.
  intros Hs Hr Hn Hd. apply (delete_leaves tbl laws) in Hd as Hl; [|apply Hs].
  eapply leaves_ends; [exact Hs|exact Hl|by apply good_delete_receipt, Hs|by apply rep_delete_receipt; [apply Hs|apply Hs|..]].
Qed.

(** Deleting rows one by one. *)
Lemma delete_rows ks : forall w w', in_time tbl w -> est_forM (delete self) ks w = (Ok (), w') ->
  leaves tbl w w' (without ks (wcontents tbl w)).
Proof.
  induction ks as [|k ks IH]; intros w w' Ht; cbn [est_forM].
  - intros [= <-]. by split.
  - intros ([] & w1 & Hd & Hrest)%est_bind_Ok. apply (delete_leaves tbl laws) in Hd as [He Ht1 Hc]; [|done].
    apply IH in Hrest as [He2 Ht2 Hc2]; [|done]. split; [by etrans|done|]. by rewrite Hc2, Hc.
Qed.

Lemma bt_delete_receipt_sub past a r w b w' : holds_state past a w -> is_id r = true ->
  delete_receipt_sub self r w = (Ok b, w') ->
  ends w past (set_a_queues (base.delete r (a_queues a)) a) w' /\ b = bool_decide (is_Some (a_queues a !! r)).
Proof.
  intros Hs Hr. unfold delete_receipt_sub. intros (there & w1 & Hex & Hrest)%est_bind_Ok.
  apply (bt_receipt_sub_exists _ _ _ _ _ _ Hs Hr) in Hex as [Hs1 Hthere].
  destruct (a_queues a !! r) as [q|] eqn:Hq.
  2:{ rewrite bool_decide_false in Hthere by by intros []. subst there. cbn [negb] in Hrest. injection Hrest as <- <-.
      rewrite bool_decide_false by by intros []. split; [|done]. rewrite delete_id by done. by destruct a. }
  rewrite bool_decide_true in Hthere by by eexists. subst there. cbn [negb] in Hrest.
  apply est_bind_Ok in Hrest as ([] & w2 & Hd & (rows & w3 & Hread & ([] & w4 & Hall & [= <- <-])%est_bind_Ok)%est_bind_Ok).
  rewrite bool_decide_true by by eexists. split; [|done]. eapply ends_trans; [exact Hs1|]. clear Hs. destruct Hs1 as [Hs _ _].
  apply (delete_leaves tbl laws) in Hd as Hl; [|apply Hs]. change ("rsub#" +:+ r) with (rsub_key r) in Hl.
  rewrite str_app_assoc3 in Hread. destruct (queue_items _ _ _ r Hs Hr) as (Hnd & Hqr & Hxs).
  assert (HK : kind "rq#" D receipt_key receipt_cols (in_queues (a_queues a)) (wcontents tbl w2)).
  { rewrite (lv_contents _ _ _ _ Hl). other. apply Hs. }
  destruct (scan_items tbl laws self "rq#" D receipt_key receipt_cols _ ("rq#" +:+ r) _ _ _ _ HK (lv_time _ _ _ _ Hl)
    (under_prefix _ _) Hnd Hxs Hread) as (Hl2 & Hp & _).
  apply delete_rows in Hall; [|apply Hl2]. rewrite (lv_contents _ _ _ _ Hl2), (lv_contents _ _ _ _ Hl) in Hall.
  eapply leaves_ends; [exact Hs| |by apply good_delete_queue, Hs|apply rep_delete_queue; [apply Hs|apply Hs|done|]].
  - destruct Hl as [He1 _ _], Hl2 as [He2 _ _], Hall as [He3 Ht3 Hc3]. split; [by etrans; [|by etrans]|done|exact Hc3].
  - intros k. assert (Hkeys : rows.*1 ≡ₚ receipt_key <$> map_to_list (default ∅ (a_queues a !! r))).
    { rewrite Hp, <- list_fmap_compose. done. }
    rewrite Hkeys, list_elem_of_fmap. split.
    + intros (x & -> & Hx). exists x. apply Hxs in Hx as [Hx Hsw]. split_and!; [done| |done].
      apply under_hash in Hsw; [done|by destruct (in_queues_good _ _ (hs_good _ _ _ _ Hs) Hx) as (_ & _ & ?)|by apply id_plain].
    + intros (x & Hx & Hxr & ->). exists x. split; [done|]. apply Hxs. split; [done|].
      apply under_hash; [by destruct (in_queues_good _ _ (hs_good _ _ _ _ Hs) Hx) as (_ & _ & ?)|by apply id_plain|done].
Qed.
End receipts.

(** ** Subscriptions in the adapter

    From a table that represents a state of the contract, the operations that
    make, find and list subscriptions answer what the contract says and leave
    a table that represents the state it says. *)

Section channels.
Context `{HT : Http} `{B64 : Base64} {BL : Base64Laws} `{JS : Json} `{RSA : Rsa} `{HO : Host} `{GS : GcpSerde}
  `{SX : StatusText} {T : Type} `{RPC : BigtableRpc T} `{RE : Re2}.
Context (tbl : T -> Table) (laws : ServiceLaws tbl) `{!Re2Laws} (self : BigtableStore).
Implicit Types (w : Env * BtWorld (T := T)).
Abbreviation holds_state := (holds_state tbl) (only parsing).
Abbreviation ends := (ends tbl) (only parsing).

Lemma sub_item past a w u c : holds_state past a w -> is_uaid u = true ->
  match a_subs a !! (u, c) with
  | Some x => a_subs a !! sub_at x = Some x /\ sub_key x = "ch#" +:+ u +:+ "#" +:+ c
  | None => forall x, a_subs a !! sub_at x = Some x -> sub_key x <> "ch#" +:+ u +:+ "#" +:+ c
  end.
Proof.
  intros Hs Hu. pose proof (hs_good _ _ _ _ Hs) as Hg. destruct (a_subs a !! (u, c)) as [s|] eqn:E.
  - pose proof (wf_subs _ (gd_wf _ Hg) _ _ E) as Hk. injection Hk as Hk1 Hk2. subst. by split.
  - intros x Hx Heq. change ("ch#" +:+ u +:+ "#" +:+ c) with (sub_key {| sub_uaid := u; sub_channel_id := c; sub_push := ""; sub_vapid := None |}) in Heq.
    apply sub_key_inj in Heq as [H1 H2]; [|apply uaid_plain, (gd_subs _ Hg _ _ Hx)|by apply uaid_plain]. cbn in *. congruence.
Qed.
Lemma sub_slot_utf8 u c : is_uaid u = true -> channel_ok c -> utf8_valid ("ch#" +:+ u +:+ "#" +:+ c) = true.
Proof.
  intros Hu Hc. apply utf8_ascii. change (ascii_only ("ch#" +:+ u +:+ "#" +:+ c)). rewrite !ascii_app.
  split_and!; [done|by apply plain_ascii, uaid_plain|done|by apply plain_ascii, channel_plain].
Qed.
Lemma bt_channel past a u c w r w' : holds_state past a w -> is_uaid u = true -> channel_ok c ->
  channel self u c w = (Ok r, w') -> ends w past a w' /\ r = a_subs a !! (u, c).
Proof.
  intros Hs Hu Hc. unfold channel. intros (o & w1 & Hget & Hrest)%est_bind_Ok.
  apply (get_item tbl laws self "ch#" D sub_key sub_cols _ _ _ _ _ _ (rp_subs _ _ _ (hs_rep _ _ _ _ Hs)) (hs_time _ _ _ _ Hs)
    (sub_slot_utf8 _ _ Hu Hc) (starts_with_app _ _) (sub_item _ _ _ u c Hs Hu)) in Hget as [Hl ->].
  pose proof (leaves_same_state _ _ _ _ _ Hs Hl) as He.
  destruct (a_subs a !! (u, c)) as [s|] eqn:E; cbn [fmap option_fmap option_map] in Hrest; [|by injection Hrest as <- <-].
  pose proof (gd_subs _ (hs_good _ _ _ _ Hs) _ _ E) as Hst. destruct (decode_sub s Hst) as [Hp Hv]. rewrite Hp, Hv in Hrest.
  injection Hrest as <- <-. split; [done|]. f_equal. pose proof (wf_subs _ (gd_wf _ (hs_good _ _ _ _ Hs)) _ _ E) as Hk.
  destruct s. cbn in *. congruence.
Qed.

Lemma bt_create_subscription past a u c v w r w' : holds_state past a w -> is_uaid u = true -> channel_ok c ->
  opt (fun k => length k = 65) v -> a_subs a !! (u, c) = None ->
  (forall k s, a_subs a !! k = Some s -> sub_push s <> (new_id w.1).1) ->
  create_subscription self u c v w = (Ok r, w') ->
  ends w past (set_a_subs (<[ (u, c) := r ]> (a_subs a)) a) w' /\
  r = {| sub_uaid := u; sub_channel_id := c; sub_push := (new_id w.1).1; sub_vapid := v |}.
Proof.
  intros Hs Hu Hc Hv Hno Hfresh. unfold create_subscription. cbv zeta.
  intros (push & w1 & Hid & ([] & w2 & Hput & ([] & w3 & Hput2 & [= <- <-])%est_bind_Ok)%est_bind_Ok)%est_bind_Ok.
  apply with_env_Ok in Hid as [-> ->]. destruct w as [e s]. cbn [fst snd] in *. split; [|done].
  pose proof (env_ends _ _ _ _ _ _ Hs (new_id_env e)) as He. eapply ends_trans; [exact He|].
  pose proof (en_state _ _ _ _ _ He) as Hs1. pose proof (new_id_is_id e) as Hi. set (p := (new_id e).1) in *. clearbody p.
  set (x := {| sub_uaid := u; sub_channel_id := c; sub_push := p; sub_vapid := v |}).
  assert (Hx : sub_typed x) by (split; done).
  change ("ch#" +:+ u +:+ "#" +:+ c) with (sub_key x) in Hput. change ("push#" +:+ p) with (push_key x) in Hput2.
  apply (put_new tbl laws self "ch#" sub_key sub_cols _ x _ _ (rp_subs _ _ _ (hs_rep _ _ _ _ Hs1)) (hs_time _ _ _ _ Hs1)) in Hput as Hl;
    [|auto with push|apply sub_cols_NoDup|done|].
  2:{ pose proof (sub_item _ _ _ u c Hs1 Hu) as Hitem. rewrite Hno in Hitem. exact Hitem. }
  assert (HK : k_push (a_subs a) (wcontents tbl w2)).
  { rewrite (lv_contents _ _ _ _ Hl). other. apply (rp_push _ _ _ (hs_rep _ _ _ _ Hs1)). }
  apply (put_new tbl laws self "push#" push_key push_cols _ x _ _ HK (lv_time _ _ _ _ Hl)) in Hput2 as Hl2;
    [|auto with push|apply push_cols_NoDup|done|].
  2:{ intros y Hy Heq%push_key_inj. by apply (Hfresh _ _ Hy). }
  rewrite (lv_contents _ _ _ _ Hl) in Hl2.
  pose proof (rep_sub_insert _ _ _ x _ _ (hs_rep _ _ _ _ Hs1) (hs_good _ _ _ _ Hs1) Hx Hno Hfresh eq_refl eq_refl) as Hr.
  eapply leaves_ends; [exact Hs1| |by apply (good_sub_insert _ x); [apply Hs1|..]|exact Hr].
  destruct Hl as [He1 _ _], Hl2 as [He2 Ht Hc2]. split; [by etrans|done|exact Hc2].
Qed.

Lemma decode_push s : sub_typed s ->
  text (rowmap (push_cols s)) "uaid" = Some (sub_uaid s) /\ text (rowmap (push_cols s)) "ch" = Some (sub_channel_id s).
Proof.
  intros [Hu Hc _ _]. split; (apply rowmap_text; [apply push_cols_NoDup|unfold push_cols; set_solver +|]).
  - by apply plain_utf8, uaid_plain.
  - by apply plain_utf8, channel_plain.
Qed.
Lemma bt_subscription_by_push past a p w r w' : holds_state past a w -> is_id p = true ->
  subscription_by_push self p w = (Ok r, w') ->
  ends w past a w' /\ forall sub, r = Some sub <-> sub_push sub = p /\ a_subs a !! sub_at sub = Some sub.
Proof.
  intros Hs Hp. unfold subscription_by_push. intros (o & w1 & Hget & Hrest)%est_bind_Ok.
  pose proof (hs_good _ _ _ _ Hs) as Hg.
  assert (Hutf : utf8_valid ("push#" +:+ p) = true) by (apply utf8_ascii, ascii_app; split; [done|]; by apply plain_ascii, id_plain).
  destruct (kind_cases _ _ _ _ _ _ _ (rp_push _ _ _ (hs_rep _ _ _ _ Hs)) (starts_with_app "push#" p)) as (item & Hitem).
  apply (get_item tbl laws self "push#" D push_key push_cols _ item _ _ _ _ (rp_push _ _ _ (hs_rep _ _ _ _ Hs)) (hs_time _ _ _ _ Hs)
      Hutf (starts_with_app _ _) Hitem) in Hget as [Hl ->].
  destruct item as [s|].
  - destruct Hitem as [Hx Hps%app_inj_l].
    pose proof (leaves_same_state _ _ _ _ _ Hs Hl) as He. pose proof (gd_subs _ Hg _ _ Hx) as Hst.
    destruct (decode_push s Hst) as [H1 H2]. cbn [fmap option_fmap option_map mbind option_bind] in Hrest.
    rewrite H1 in Hrest. cbn [mbind option_bind] in Hrest. rewrite H2 in Hrest. cbn [mbind option_bind] in Hrest.
    apply est_bind_Ok in Hrest as (o & w2 & Hch & [= <- <-]).
    apply (bt_channel _ _ _ _ _ _ _ (en_state _ _ _ _ _ He) (Typing.st_uaid _ Hst) (Typing.st_channel _ Hst)) in Hch as [He2 ->].
    split; [by eapply ends_trans|]. rewrite Hx. cbn [mbind option_bind]. rewrite decide_True by done. intros sub. split.
    + by intros [= <-].
    + intros [Hp2 Hsub]. f_equal. pose proof (wf_push _ (gd_wf _ Hg) _ _ _ _ Hx Hsub ltac:(congruence)) as Heq. congruence.
  - injection Hrest as <- <-. split; [by eapply leaves_same_state|]. intros sub. split; [done|]. intros [<- Hx]. by destruct (Hitem _ Hx).
Qed.

(** The rows of the subscriptions of a user agent. *)
Definition subs_of (a : AStore) (u : string) : list Subscription := filter (fun s => sub_uaid s = u) (map_to_list (a_subs a)).*2.
Lemma subs_of_elem a u s : good a -> s ∈ subs_of a u <-> a_subs a !! sub_at s = Some s /\ sub_uaid s = u.
Proof.
  intros Hg. unfold subs_of. rewrite list_elem_of_filter, elem_of_values. split.
  - intros [Hu [k Hk]]. split; [|done]. by rewrite (wf_subs _ (gd_wf _ Hg) _ _ Hk).
  - intros [Hx Hu]. split; [done|]. by eexists.
Qed.
Lemma subs_items past a w u : holds_state past a w -> is_uaid u = true ->
  NoDup (sub_key <$> subs_of a u) /\ Forall (listed u) (subs_of a u) /\
  forall x, x ∈ subs_of a u <-> a_subs a !! sub_at x = Some x /\ starts_with (("ch#" +:+ u) +:+ "#") (sub_key x) = true.
Proof.
  intros Hs Hu. pose proof (hs_good _ _ _ _ Hs) as Hg. split_and!.
  - apply NoDup_fmap_2_strong.
    + intros x y [Hx Hxu]%subs_of_elem [Hy Hyu]%subs_of_elem Heq; [|done..].
      apply sub_key_inj in Heq as [_ Hc]; [|apply uaid_plain; apply (gd_subs _ Hg _ _ Hx) || apply (gd_subs _ Hg _ _ Hy)..].
      rewrite Hxu, Hc in Hx. rewrite Hyu in Hy. congruence.
    + apply NoDup_filter. apply NoDup_fmap_2_strong; [|apply NoDup_map_to_list].
      intros [k s] [k' s'] Hk%elem_of_map_to_list Hk'%elem_of_map_to_list Heq. cbn in Heq. subst s'.
      by rewrite <- (wf_subs _ (gd_wf _ Hg) _ _ Hk), <- (wf_subs _ (gd_wf _ Hg) _ _ Hk').
  - apply Forall_forall. intros s [Hx Hxu]%subs_of_elem; [|done]. destruct (gd_subs _ Hg _ _ Hx) as [? ? ? ?].
    split_and!; [done|by apply plain_no_hash, channel_plain|by apply plain_utf8, id_plain|done].
  - intros s. rewrite subs_of_elem by done. split; (intros [Hx Hxu]; split; [done|]).
    + unfold sub_key. apply under_hash; [apply uaid_plain, (gd_subs _ Hg _ _ Hx)|by apply uaid_plain|done].
    + unfold sub_key in Hxu. apply under_hash in Hxu; [done|apply uaid_plain, (gd_subs _ Hg _ _ Hx)|by apply uaid_plain].
Qed.
Lemma bt_subscriptions past a u w r w' : holds_state past a w -> is_uaid u = true ->
  subscriptions self u w = (Ok r, w') -> ends w past a w' /\ r ≡ₚ subs_of a u.
Proof.
  intros Hs Hu. unfold subscriptions. intros (rows & w1 & Hread & [= <- <-])%est_bind_Ok. rewrite str_app_assoc3 in Hread.
  destruct (subs_items _ _ _ u Hs Hu) as (Hnd & Hq & Hxs).
  destruct (scan_items tbl laws self "ch#" D sub_key sub_cols _ ("ch#" +:+ u) _ _ _ _ (rp_subs _ _ _ (hs_rep _ _ _ _ Hs))
    (hs_time _ _ _ _ Hs) (under_prefix _ _) Hnd Hxs Hread) as (Hl & Hp & _).
  split; [by eapply leaves_same_state|].
  apply (decode_items sub_key sub_cols (sub_from_row u)) in Hp as [Hout _]; [exact Hout|].
  intros x Hx. rewrite Forall_forall in Hq. apply sub_decodes; [by apply Hq|]. intros q v. apply rowmap_lookup, sub_cols_NoDup.
Qed.
End channels.

(** ** Messages in the adapter

    From a table that represents a state of the contract, the operations that
    insert, find, list and remove messages answer what the contract says and
    leave a table that represents the state it says, index rows of messages
    that are gone included. *)

Section stored.
Context `{HT : Http} `{B64 : Base64} {BL : Base64Laws} `{JS : Json} `{RSA : Rsa} `{HO : Host} `{GS : GcpSerde}
  `{SX : StatusText} {T : Type} `{RPC : BigtableRpc T} `{RE : Re2}.
Context (tbl : T -> Table) (laws : ServiceLaws tbl) `{!Re2Laws} (self : BigtableStore).
Implicit Types (w : Env * BtWorld (T := T)).
Abbreviation holds_state := (holds_state tbl) (only parsing).
Abbreviation ends := (ends tbl) (only parsing).

Lemma bt_insert_message past a m w w' : holds_state past a w -> msg_ok m -> past !! m_id m = None ->
  insert_message self m w = (Ok (), w') ->
  ends w (<[ m_id m := m ]> past) (set_a_msgs (a_insert_message m (a_msgs a)) a) w'.
Proof.
  intros Hs Hm Hpast. unfold insert_message. cbv zeta. rewrite message_mutations_cols.
  intros ([] & w1 & Hrow & ([] & w2 & Hmid & Hrest)%est_bind_Ok)%est_bind_Ok.
  pose proof (hs_rep _ _ _ _ Hs) as Hr. pose proof (hs_good _ _ _ _ Hs) as Hg.
  pose proof (rp_index _ _ _ Hr) as (mids & rexps & Hix & Hmids & Hrexps).
  assert (Hno : a_msgs a !! m_id m = None).
  { eapply lookup_weaken_None; [|apply Hix]. eapply lookup_weaken_None; [done|apply Hix]. }
  apply (rewrite_leaves tbl laws) in Hrow as Hl1; [|apply Hs|done|apply message_cols_NoDup|done].
  apply (set_absent_leaves tbl laws self (mid_of m) M (m_accepted m) (at_cols m)) in Hmid as Hl2; [|apply Hl1|done|apply at_cols_NoDup|done|].
  2:{ rewrite (lv_contents _ _ _ _ Hl1). eapply (kind_absent _ _ mid_of at_cols (known mids)); [other; exact Hmids|auto with push|].
      intros x Hx Heq%mid_of_inj. unfold known in Hx. rewrite Heq in Hx.
      pose proof (lookup_weaken _ _ _ _ Hx (ix_mids _ _ _ _ Hix)). congruence. }
  rewrite (lv_contents _ _ _ _ Hl1) in Hl2.
  pose proof (rep_insert _ _ _ m _ _ _ _ Hr Hg Hm Hpast eq_refl eq_refl eq_refl eq_refl) as Hrep.
  assert (Hgood : good (set_a_msgs (a_insert_message m (a_msgs a)) a)) by (by apply good_msg_insert).
  case_decide.
  - change ("rexp#" +:+ hex16 (m_expiry m) +:+ "#" +:+ m_id m) with (rexp_key m) in Hrest.
    assert (HK : k_rexps rexps (wcontents tbl w2)) by (rewrite (lv_contents _ _ _ _ Hl2); by repeat other).
    apply (put_new tbl laws self "rexp#" rexp_key at_cols _ m _ _ HK (lv_time _ _ _ _ Hl2)) in Hrest as Hl3;
      [|auto with push|apply at_cols_NoDup|done|].
    + eapply leaves_ends; [exact Hs| |exact Hgood|exact Hrep].
      rewrite (lv_contents _ _ _ _ Hl2) in Hl3. destruct Hl1 as [He1 _ _], Hl2 as [He2 _ _], Hl3 as [He3 Ht Hc].
      split; [etrans; [exact He1|by etrans]|done|exact Hc].
    + intros x Hx Heq. assert (Hp : past !! m_id x = Some x) by (eapply lookup_weaken; [exact Hx|apply Hix]).
      apply rexp_key_inj in Heq as [_ Heq]; [congruence| |apply Hm]. by apply (ix_past _ _ _ _ Hix) in Hp as [_ []].
  - injection Hrest as <-. eapply leaves_ends; [exact Hs| |exact Hgood|exact Hrep].
    destruct Hl1 as [He1 _ _], Hl2 as [He2 Ht Hc]. split; [by etrans|done|exact Hc].
Qed.

(** The row under the key of a message: another message of its slot may be
    there. *)
Lemma message_get past a m k w o w' : holds_state past a w -> msg_ok m -> message_key m = k -> get self k w = (Ok o, w') ->
  leaves tbl w w' (wcontents tbl w) /\
  match o ≫= message_from_row k with
  | Some x => a_msgs a !! m_id x = Some x /\ message_key x = k
  | None => forall x, a_msgs a !! m_id x = Some x -> message_key x <> k
  end.
Proof.
  intros Hs Hm <- Hget. pose proof (rp_msgs _ _ _ (hs_rep _ _ _ _ Hs)) as HK.
  destruct (kind_cases _ _ _ _ _ _ _ HK (msg_pfx m)) as (item & Hitem).
  apply (get_item tbl laws self "msg#" M message_key message_cols _ item _ _ _ _ HK (hs_time _ _ _ _ Hs)
    (message_key_utf8 _ Hm) (msg_pfx m) Hitem) in Hget as [Hl ->].
  split; [done|]. destruct item as [x|]; [|exact Hitem]. destruct Hitem as [Hx Heq].
  cbn [fmap option_fmap option_map mbind option_bind]. rewrite <- Heq, decode_message; [done|].
  by apply (gd_msgs _ (hs_good _ _ _ _ Hs) _ _ Hx).
Qed.

Lemma bt_locate past a id w o w' : holds_state past a w -> is_id id = true -> locate self id w = (Ok o, w') ->
  ends w past a w' /\ o = (fun m => (message_key m, m)) <$> a_msgs a !! id.
Proof.
  intros Hs Hid. unfold locate. intros (idx & w1 & Hget & Hrest)%est_bind_Ok.
  pose proof (hs_rep _ _ _ _ Hs) as Hr. pose proof (hs_good _ _ _ _ Hs) as Hg.
  pose proof (rp_index _ _ _ Hr) as (mids & rexps & Hix & Hmids & _).
  assert (Hkey : forall x, mids !! m_id x = Some x -> mid_of x = "mid#" +:+ id -> m_id x = id) by (intros x _; apply app_inj_l).
  destruct (kind_cases _ _ _ _ _ _ _ Hmids (starts_with_app "mid#" id)) as (item & Hitem).
  apply (get_item tbl laws self "mid#" M mid_of at_cols _ item _ _ _ _ Hmids (hs_time _ _ _ _ Hs)) in Hget as [Hl ->];
    [|apply utf8_ascii, ascii_app; split; [done|by apply plain_ascii, id_plain]|apply starts_with_app|exact Hitem].
  pose proof (leaves_same_state _ _ _ _ _ Hs Hl) as He. destruct item as [m0|].
  2:{ injection Hrest as <- <-. split; [done|]. destruct (a_msgs a !! id) as [m|] eqn:E; [|done]. exfalso.
      assert (Hmi : m_id m = id) by (by apply (wf_msgs _ (gd_wf _ Hg))).
      apply (Hitem m); [|unfold mid_of; congruence]. unfold known. rewrite Hmi. by eapply lookup_weaken; [|apply Hix]. }
  destruct Hitem as [Hm0 Hid0%app_inj_l].
  assert (Hok0 : msg_ok m0).
  { apply (ix_past _ _ _ _ Hix (m_id m0)). eapply lookup_weaken; [exact Hm0|apply Hix]. }
  cbn [fmap option_fmap option_map mbind option_bind] in Hrest. rewrite (decode_at _ Hok0) in Hrest.
  apply est_bind_Ok in Hrest as (row & w2 & Hget & [= <- <-]).
  apply (message_get _ _ _ _ _ _ _ (en_state _ _ _ _ _ He) Hok0 eq_refl) in Hget as [Hl2 Hrow].
  split; [eapply ends_trans; [exact He|]; by eapply leaves_same_state; [apply He|]|].
  destruct (row ≫= message_from_row (message_key m0)) as [x|] eqn:Ex; cbn [mbind option_bind].
  - destruct Hrow as [Hx Heq]. case_decide as Hxi.
    + rewrite <- Hxi, Hx. cbn. by rewrite Heq.
    + destruct (a_msgs a !! id) as [m|] eqn:E; [|done]. destruct Hxi.
      assert (mids !! id = Some m) as Hmm by (by eapply lookup_weaken; [|apply Hix]).
      unfold known in Hm0. assert (m = m0) as -> by congruence. rewrite <- Hid0 in E.
      by rewrite (message_key_alone a m0 x Hg E Hx Heq).
  - destruct (a_msgs a !! id) as [m|] eqn:E; [|done]. exfalso.
    assert (mids !! id = Some m) as Hmm by (by eapply lookup_weaken; [|apply Hix]).
    unfold known in Hm0. assert (m = m0) as -> by congruence. rewrite <- Hid0 in E. by apply (Hrow m0).
Qed.
Lemma bt_message past a id w r w' : holds_state past a w -> is_id id = true -> message self id w = (Ok r, w') ->
  ends w past a w' /\ r = a_msgs a !! id.
Proof.
  intros Hs Hid. unfold message. intros (o & w1 & Hloc & [= <- <-])%est_bind_Ok.
  apply (bt_locate _ _ _ _ _ _ Hs Hid) in Hloc as [He ->]. split; [done|]. by destruct (a_msgs a !! id).
Qed.

(** Removing a message that is there. *)
Lemma bt_remove past a m w b w' : holds_state past a w -> a_msgs a !! m_id m = Some m ->
  remove_message self (message_key m) m w = (Ok b, w') ->
  b = true /\ ends w past (set_a_msgs (base.delete (m_id m) (a_msgs a)) a) w'.
Proof.
  intros Hs Hm. unfold remove_message. intros (there & w1 & Hrow & Hrest)%est_bind_Ok.
  pose proof (hs_good _ _ _ _ Hs) as Hg. pose proof (gd_msgs _ Hg _ _ Hm) as Hok.
  apply (delete_if_leaves tbl laws) in Hrow as [Hb Hl]; [|apply Hs|done|done|by apply plain_ascii, id_plain, Hok].
  rewrite (kind_some _ _ _ _ _ _ _ (rp_msgs _ _ _ (hs_rep _ _ _ _ Hs)) Hm) in Hb. cbn [mbind option_bind] in Hb.
  assert (there = true) as ->.
  { rewrite Hb. apply bool_decide_true. apply colsmap_lookup; [apply message_cols_NoDup|]. split; [done|by left]. }
  cbn [negb] in Hrest. apply est_bind_Ok in Hrest as ([] & w2 & Hmid & [= <- <-]). split; [done|].
  apply (delete_leaves tbl laws) in Hmid as Hl2; [|apply Hl]. rewrite (lv_contents _ _ _ _ Hl) in Hl2.
  eapply leaves_ends; [exact Hs| |apply good_msgs; [done|apply delete_subseteq]|by apply rep_remove; [apply Hs|..]].
  destruct Hl as [He _ _], Hl2 as [He2 Ht Hc]. split; [by etrans|done|exact Hc].
Qed.
Lemma bt_delete_message past a id owner w r w' : holds_state past a w -> is_id id = true ->
  delete_message self id owner w = (Ok r, w') ->
  ends w past match m ← a_msgs a !! id; if owned_by owner m then Some m else None with
              | Some _ => set_a_msgs (base.delete id (a_msgs a)) a
              | None => a
              end w' /\
  r = (m ← a_msgs a !! id; if owned_by owner m then Some m else None).
Proof.
  intros Hs Hid. unfold delete_message. intros (o & w1 & Hloc & Hrest)%est_bind_Ok.
  apply (bt_locate _ _ _ _ _ _ Hs Hid) in Hloc as [He ->].
  destruct (a_msgs a !! id) as [m|] eqn:E; cbn [fmap option_fmap option_map mbind option_bind] in *; [|by injection Hrest as <- <-].
  destruct (owned_by owner m); cbn [negb] in Hrest; [|by injection Hrest as <- <-].
  apply est_bind_Ok in Hrest as (b & w2 & Hrm & [= <- <-]). pose proof (wf_msgs _ (gd_wf _ (hs_good _ _ _ _ Hs)) _ _ E) as Hmi.
  apply (bt_remove _ _ _ _ _ _ (en_state _ _ _ _ _ He)) in Hrm as [-> He2]; [|by rewrite Hmi].
  rewrite Hmi in He2. split; [by eapply ends_trans|done].
Qed.

(** The rows of the messages of a user agent. *)
Definition msgs_of (a : AStore) (u : string) : list Message := filter (fun m => m_uaid m = u) (map_to_list (a_msgs a)).*2.
Lemma msgs_of_elem a u m : good a -> m ∈ msgs_of a u <-> a_msgs a !! m_id m = Some m /\ m_uaid m = u.
Proof.
  intros Hg. unfold msgs_of. rewrite list_elem_of_filter, elem_of_values. split.
  - intros [Hu [k Hk]]. split; [|done]. by rewrite (wf_msgs _ (gd_wf _ Hg) _ _ Hk).
  - intros [Hx Hu]. split; [done|]. by eexists.
Qed.
Lemma message_key_form m : exists rest, message_key m = "msg#" +:+ m_uaid m +:+ "#" +:+ rest.
Proof. unfold message_key. destruct (m_topic m) as [t|]; [by exists ("t:" +:+ m_channel_id m +:+ ":" +:+ t)|by eexists]. Qed.
Lemma msgs_items past a w u : holds_state past a w -> is_uaid u = true ->
  NoDup (message_key <$> msgs_of a u) /\ Forall msg_ok (msgs_of a u) /\
  forall x, x ∈ msgs_of a u <-> a_msgs a !! m_id x = Some x /\ starts_with (("msg#" +:+ u) +:+ "#") (message_key x) = true.
Proof.
  intros Hs Hu. pose proof (hs_good _ _ _ _ Hs) as Hg. split_and!.
  - apply NoDup_fmap_2_strong.
    + intros x y [Hx Hxu]%msgs_of_elem [Hy Hyu]%msgs_of_elem Heq; [|done..]. by apply (message_key_alone a y x).
    + apply NoDup_filter. apply NoDup_fmap_2_strong; [|apply NoDup_map_to_list].
      intros [k s] [k' s'] Hk%elem_of_map_to_list Hk'%elem_of_map_to_list Heq. cbn in Heq. subst s'.
      by rewrite <- (wf_msgs _ (gd_wf _ Hg) _ _ Hk), <- (wf_msgs _ (gd_wf _ Hg) _ _ Hk').
  - apply Forall_forall. intros s [Hx Hxu]%msgs_of_elem; [|done]. by eapply gd_msgs.
  - intros m. rewrite msgs_of_elem by done. destruct (message_key_form m) as [rest ->].
    split; (intros [Hx Hxu]; split; [done|]).
    + apply under_hash; [apply uaid_plain, (gd_msgs _ Hg _ _ Hx)|by apply uaid_plain|done].
    + apply under_hash in Hxu; [done|apply uaid_plain, (gd_msgs _ Hg _ _ Hx)|by apply uaid_plain].
Qed.
Lemma msgs_scan past a w u rows w' : holds_state past a w -> is_uaid u = true ->
  read self (prefix ("msg#" +:+ u +:+ "#")) w = (Ok rows, w') ->
  leaves tbl w w' (wcontents tbl w) /\ rows ≡ₚ (fun m => (message_key m, rowmap (message_cols m))) <$> msgs_of a u.
Proof.
  intros Hs Hu Hread. rewrite str_app_assoc3 in Hread. destruct (msgs_items _ _ _ u Hs Hu) as (Hnd & _ & Hxs).
  destruct (scan_items tbl laws self "msg#" M message_key message_cols _ ("msg#" +:+ u) _ _ _ _ (rp_msgs _ _ _ (hs_rep _ _ _ _ Hs))
    (hs_time _ _ _ _ Hs) (under_prefix _ _) Hnd Hxs Hread) as (Hl & Hp & _). done.
Qed.
Lemma bt_pending past a u now limit w r w' : holds_state past a w -> is_uaid u = true ->
  pending self u now limit w = (Ok r, w') ->
  ends w past a w' /\ exists all, StronglySorted msg_le all /\
    all ≡ₚ filter (fun m => m_uaid m = u /\ (now < m_expiry m)%N) (map_to_list (a_msgs a)).*2 /\ r = truncate limit all.
Proof.
  intros Hs Hu. unfold pending. intros (rows & w1 & Hread & [= <- <-])%est_bind_Ok.
  apply (msgs_scan _ _ _ _ _ _ Hs Hu) in Hread as [Hl Hp]. split; [by eapply leaves_same_state|].
  apply (decode_items message_key message_cols message_from_row) in Hp as [Hout _].
  - eexists. split_and!; [by apply StronglySorted_merge_sort; apply _| |done].
    rewrite merge_sort_Permutation, Hout. unfold msgs_of. rewrite list_filter_filter.
    erewrite list_filter_iff; [done|]. intros m. cbn. tauto.
  - intros m Hm. apply decode_message. apply msgs_of_elem in Hm as [Hm _]; [|apply Hs]. by eapply gd_msgs; [apply Hs|].
Qed.
End stored.
