(* ===== verification/BigtableSweeps.v ===== *)
(** * Deletions in the adapter

    The operations that are loops over rows: deleting a subscription or a user
    agent, expiring user agents, and reaping messages. Each drops exactly the
    messages the contract says, owes their receipts, and leaves a table that
    represents the state it says. *)
From Stdlib Require Import Ascii.
From S2P Require Import MemoryStore MemoryProofs Prelude RustStr External StoreTypes Store Headers Subscription Registration Calls System Typing Bridge Client GcpAuth BigtableWire BigtableService Bigtable BigtableTheorems BigtableRows BigtableRuns BigtableScans BigtableContents BigtableRepr BigtableUpdates BigtableOps BigtableCalls.

(** ** The keys that are due *)
Lemma range_prefix p h : forall k, str_leb p k = true -> str_ltb k (p +:+ h) = true -> starts_with p k = true.
Proof.
  induction p as [|c p IH]; intros k Hle Hlt; [done|]. rewrite app_cons in Hlt. destruct k as [|d k].
  { apply str_leb_le in Hle as [Hle|Hle]; [by rewrite str_ltb_nil_r in Hle|done]. }
  apply str_ltb_cons in Hlt. assert (Hle2 : (code c < code d)%N \/ c = d /\ str_leb p k = true).
  { apply str_leb_le in Hle as [[?|[? ?]]%str_ltb_cons|[= -> ->]]; [by left|right; split; [done|apply str_leb_le; by left]|].
    right. split; [done|]. apply str_leb_le. by right. }
  destruct Hlt as [Hlt|[-> Hlt]], Hle2 as [Hle2|[Heq Hle2]]; try subst; try lia. unfold starts_with. cbn. rewrite decide_True by done.
  by apply IH.
Qed.
Lemma due_selects m now : (m_expiry m <= u64_max)%N -> (now < u64_max)%N ->
  selects (range "rexp#" ("rexp#" +:+ hex16 (wrap64 (now + 1)))) (rexp_key m) <-> (m_expiry m <= now)%N.
Proof.
  intros Hm Hn. assert (Hw : wrap64 (now + 1) = (now + 1)%N).
  { unfold wrap64. apply N.mod_small. change u64_max with 18446744073709551615%N in Hn. lia. }
  rewrite Hw. unfold selects, range. cbn [row_keys row_ranges].
  assert (Hlt : str_ltb (rexp_key m) ("rexp#" +:+ hex16 (now + 1)) = true <-> (m_expiry m <= now)%N).
  { unfold rexp_key. rewrite str_ltb_prefix. unfold hex16 at 2. rewrite <- (app_nil_r_str (hex_w 16 (now + 1))). unfold hex16.
    change u64_max with 18446744073709551615%N in *. rewrite hex_w_ltb by (cbn; lia). rewrite str_ltb_nil_r. split; [intros [?|[_ ?]]; [lia|done]|]. intros. left. lia. }
  assert (Hle : str_leb "rexp#" (rexp_key m) = true).
  { unfold rexp_key. rewrite <- (app_nil_r_str "rexp#") at 1. unfold str_leb. by rewrite str_ltb_prefix, str_ltb_nil_r. }
  rewrite <- Hlt. split.
  - intros [Hin|(a & b & Hin & Ha & Hb)]; [by apply not_elem_of_nil in Hin|]. apply list_elem_of_singleton in Hin as [= -> ->]. done.
  - intros Hr. right. exists "rexp#", ("rexp#" +:+ hex16 (now + 1)). split; [by left|done].
Qed.
Lemma due_prefix now k : selects (range "rexp#" ("rexp#" +:+ hex16 (wrap64 (now + 1)))) k -> starts_with "rexp#" k = true.
Proof.
  intros [Hin|(a & b & Hin & Ha & Hb)]; [by apply not_elem_of_nil in Hin|]. apply list_elem_of_singleton in Hin as [= -> ->].
  by eapply range_prefix.
Qed.
Lemma rexp_key_id m : is_id (m_id m) = true -> rsplit_first (char_is 35) (rexp_key m) = m_id m.
Proof.
  intros Hi. unfold rexp_key. rewrite str_app_assoc3. change ("#" +:+ m_id m) with (String "#" (m_id m)).
  apply rsplit_first_app; [done|]. by apply plain_no_hash, id_plain.
Qed.

Section sweeps.
Context `{HT : Http} `{B64 : Base64} {BL : Base64Laws} `{JS : Json} `{RSA : Rsa} `{HO : Host} `{GS : GcpSerde}
  `{SX : StatusText} {T : Type} `{RPC : BigtableRpc T} `{RE : Re2}.
Context (tbl : T -> Table) (laws : ServiceLaws tbl) `{!Re2Laws} (self : BigtableStore).
Implicit Types (w : Env * BtWorld (T := T)).
Abbreviation holds_state := (holds_state tbl) (only parsing).
Abbreviation ends := (ends tbl) (only parsing).

(** A computation that drops exactly the messages in [P], and leaves room for
    numbering the receipts of the rest. *)
Record drops past a w (P : Message -> bool) (rs : list (N * Receipt)) a' w' : Prop := {
  dp_state : holds_state past a' w';
  dp_removes : removes P w.1 a rs w'.1 a';
  dp_ext : env_extends w.1 w'.1;
  dp_room : room w'.1 a';
}.
Lemma drops_ext past a w P Q rs a' w' : (forall k m, a_msgs a !! k = Some m -> P m = Q m) ->
  drops past a w P rs a' w' -> drops past a w Q rs a' w'.
Proof. intros Heq []. split; [done| |done..]. by eapply removes_ext. Qed.
Lemma drops_app past a w P rs a1 w1 Q rs' a2 w2 : drops past a w P rs a1 w1 -> drops past a1 w1 Q rs' a2 w2 ->
  drops past a w (fun m => P m || Q m) (rs ++ rs') a2 w2.
Proof. intros [] []. split; [done|by eapply removes_app|by etrans|done]. Qed.
Lemma drops_none past a w (P : Message -> bool) w' : (forall k m, a_msgs a !! k = Some m -> P m = false) ->
  ends w past a w' -> room w.1 a -> drops past a w P [] a w'.
Proof. intros Hno [Hs He Hq] Hr. split; [done|by apply removes_none|done|by eapply seq_room_quiet]. Qed.

(** What happens around a deletion without changing messages or queues. *)
Lemma drops_after past a w P rs a1 w1 a2 w2 : drops past a w P rs a1 w1 -> ends w1 past a2 w2 ->
  a_msgs a2 = a_msgs a1 -> a_queues a2 = a_queues a1 -> a_routes a2 = a_routes a1 -> drops past a w P rs a2 w2.
Proof.
  intros [Hs [Hm Hr Hn Hq Hro] He Hroom] [Hs2 He2 Hq2] Hms Hqs Hrs. split; [done| |by etrans|].
  - split; [congruence|done| |congruence..]. destruct Hn as [? Hl]. split; [done|]. unfold quiet in Hq2. congruence.
  - unfold room in *. rewrite Hms. by eapply seq_room_quiet.
Qed.
Lemma drops_before past a w w1 P rs a2 w2 : ends w past a w1 -> drops past a w1 P rs a2 w2 -> drops past a w P rs a2 w2.
Proof.
  intros [Hs He Hq] [Hs2 [Hm Hr [Hn1 Hn2] Hqs Hro] He2 Hroom]. unfold quiet in Hq.
  split; [done| |by etrans|done]. split; [done..| |done|done]. unfold numbered. by rewrite <- Hq.
Qed.
Lemma ends_room w past a w' : ends w past a w' -> room w.1 a -> room w'.1 a.
Proof. intros [_ He Hq] Hr. by eapply seq_room_quiet. Qed.

(** ** One message *)
Lemma set_queues_id a : set_a_queues (a_queues a) a = a.
Proof. by destruct a. Qed.
Lemma bt_owe_410 n past a m w o w' : holds_state past a w -> msg_ok m -> seq_room (S n) w.1 ->
  owe_410 self m w = (Ok o, w') ->
  snd <$> o = owed_410 (a_queues a) m /\ numbered w.1 (option_list o) w'.1 /\ env_extends w.1 w'.1 /\ seq_room n w'.1 /\
  holds_state past (set_a_queues (enqueue_all (a_queues a) (option_list o)) a) w'.
Proof.
  intros Hs Hm Hroom. unfold owe_410, owed_410, receipt_for. destruct (m_rsub m) as [rsub|] eqn:Hr; cbn [fmap option_fmap option_map mbind option_bind].
  2:{ intros [= <- <-]. cbn. rewrite set_queues_id. split_and!; [done|by apply numbered_nil|done|eapply seq_room_weaken; [|done]; lia|done]. }
  intros (sq & w1 & Henq & [= <- <-])%est_bind_Ok.
  apply (bt_enqueue_receipt tbl laws self n past a) in Henq as (He & Hroom2 & Hcase); [|done| |done].
  2:{ split; cbn; [apply (mt_rsub _ (mo_typed _ Hm) _ Hr)|apply (mt_id _ (mo_typed _ Hm))|by right]. }
  cbn [r_rsub] in *. destruct (a_queues a !! rsub) as [q|] eqn:Hq.
  - destruct Hcase as (seq & -> & Hn & Hs1). cbn. by split_and!.
  - destruct Hcase as (-> & Hs1 & Hqu). cbn. rewrite set_queues_id. split_and!; [done|by apply numbered_nil|done..].
Qed.

(** Removing a message and owing its receipt. *)
Lemma bt_remove_owe past a m w rs w' : holds_state past a w -> a_msgs a !! m_id m = Some m -> room w.1 a ->
  (removed ← remove_message self (message_key m) m;
   if removed : bool then owed ← owe_410 self m; mret (option_list owed) else mret []) w = (Ok rs, w') ->
  exists a', drops past a w (fun x => bool_decide (m_id x = m_id m)) rs a' w' /\
    a_uas a' = a_uas a /\ a_subs a' = a_subs a.
Proof.
  intros Hs Hm Hroom (b & w1 & Hrm & Hrest)%est_bind_Ok. pose proof (hs_good _ _ _ _ Hs) as Hg.
  apply (bt_remove tbl laws self _ _ _ _ _ _ Hs Hm) in Hrm as [-> [Hs1 He1 Hq1]].
  apply est_bind_Ok in Hrest as (o & w2 & Howe & [= <- <-]).
  unfold room in Hroom. rewrite <- (insert_delete_id (a_msgs a) (m_id m) m Hm), map_size_insert_None in Hroom by apply lookup_delete_eq.
  apply (bt_owe_410 _ _ _ _ _ _ _ Hs1 (gd_msgs _ Hg _ _ Hm) (seq_room_quiet _ _ _ He1 Hq1 Hroom)) in Howe as (Ho & Hn & He2 & Hr2 & Hs2).
  eexists. split; [|split; [|]]; [split; [exact Hs2| |by etrans|done]|done|done].
  apply removes_one; [by apply (wf_msgs _ (gd_wf _ Hg))|done|done|done| |done|done].
  unfold numbered in *. unfold quiet in Hq1. by rewrite <- Hq1.
Qed.

(** ** Deleting a subscription *)
Abbreviation msg_row m := (message_key m, rowmap (message_cols m)).
Lemma bt_remove_channel past c ms : forall a w rs w', holds_state past a w -> room w.1 a -> NoDup (m_id <$> ms) ->
  (forall m, m ∈ ms -> a_msgs a !! m_id m = Some m) ->
  remove_channel self c ((fun m => msg_row m) <$> ms) w = (Ok rs, w') ->
  exists a', drops past a w (fun m => bool_decide (m_channel_id m = c /\ m_id m ∈ m_id <$> ms)) rs a' w' /\
    a_uas a' = a_uas a /\ a_subs a' = a_subs a.
Proof.
  induction ms as [|m ms IH]; intros a w rs w' Hs Hroom Hnd Hms.
  { intros [= <- <-]. exists a. split; [|done]. apply drops_none; [|by split|done].
    intros k m _. apply bool_decide_eq_false. intros [_ []%not_elem_of_nil]. }
  pose proof (hs_good _ _ _ _ Hs) as Hg. assert (Hm : a_msgs a !! m_id m = Some m) by (apply Hms; by left).
  rewrite fmap_cons in Hnd. apply NoDup_cons in Hnd as [Hnin Hnd].
  cbn [fmap list_fmap remove_channel]. rewrite decode_message by by eapply gd_msgs.
  intros (here & w1 & Hhere & (rest & w2 & Hrest & [= <- <-])%est_bind_Ok)%est_bind_Ok.
  assert (Hstep : exists a1, drops past a w (fun x => bool_decide (m_channel_id x = c /\ m_id x = m_id m)) here a1 w1 /\
    a_uas a1 = a_uas a /\ a_subs a1 = a_subs a).
  { case_decide as Hc.
    - apply (bt_remove_owe _ _ _ _ _ _ Hs Hm Hroom) in Hhere as (a1 & Hd & Hua & Hsu). exists a1. split; [|done].
      eapply drops_ext; [|exact Hd]. intros k x Hk. apply bool_decide_ext. split; [|tauto]. intros Hid. split; [|done].
      assert (m_id x = k) as <- by (by apply (wf_msgs _ (gd_wf _ Hg))). congruence.
    - injection Hhere as <- <-. exists a. split; [|done]. apply drops_none; [|by split|done].
      intros k x Hk. apply bool_decide_eq_false. intros [Hxc Hid].
      assert (m_id x = k) as <- by (by apply (wf_msgs _ (gd_wf _ Hg))). congruence. }
  destruct Hstep as (a1 & Hd1 & Hua1 & Hsu1).
  destruct (IH a1 w1 rest w2) as (a2 & Hd2 & Hua2 & Hsu2); [apply Hd1|apply Hd1|done| |exact Hrest|].
  - intros x Hx. rewrite (rm_msgs _ _ _ _ _ _ (dp_removes _ _ _ _ _ _ _ Hd1)), map_lookup_filter_Some. split; [apply Hms; by right|].
    apply bool_decide_eq_false. intros [_ Heq]. apply Hnin. rewrite <- Heq. by apply list_elem_of_fmap_2.
  - exists a2. split; [|split; congruence]. eapply drops_ext; [|by eapply drops_app]. intros k x _. cbv beta.
    apply eq_bool_prop_intro. rewrite orb_True, !bool_decide_spec. cbn [fmap list_fmap]. rewrite elem_of_cons. tauto.
Qed.

Lemma msgs_of_ids past a w u : holds_state past a w -> is_uaid u = true -> NoDup (m_id <$> msgs_of a u).
Proof.
  intros Hs Hu. pose proof (hs_good _ _ _ _ Hs) as Hg. destruct (msgs_items tbl _ _ _ _ Hs Hu) as (Hnd & _ & _).
  apply NoDup_fmap_2_strong; [|by eapply NoDup_fmap_1].
  intros x y [Hx _]%msgs_of_elem [Hy _]%msgs_of_elem Heq; [|done..]. congruence.
Qed.
(** The rows of the subscription itself. *)
Lemma bt_delete_channel past a s w w' : holds_state past a w -> a_subs a !! sub_at s = Some s ->
  (_ ← delete self (sub_key s); delete self (push_key s)) w = (Ok (), w') ->
  ends w past (set_a_subs (base.delete (sub_at s) (a_subs a)) a) w'.
Proof.
  intros Hs Hsub ([] & w1 & Hd1 & Hd2)%est_bind_Ok.
  apply (delete_leaves tbl laws) in Hd1 as Hl1; [|apply Hs]. apply (delete_leaves tbl laws) in Hd2 as Hl2; [|apply Hl1].
  rewrite (lv_contents _ _ _ _ Hl1) in Hl2.
  eapply leaves_ends; [exact Hs| |apply good_subs; [apply Hs|apply delete_subseteq]|by apply rep_sub_delete; [apply Hs|apply Hs|]].
  destruct Hl1 as [He1 _ _], Hl2 as [He2 Ht Hc]. split; [by etrans|done|exact Hc].
Qed.
Lemma bt_delete_subscription past a u c w rs w' : holds_state past a w -> is_uaid u = true -> channel_ok c -> room w.1 a ->
  delete_subscription self u c w = (Ok rs, w') ->
  match a_subs a !! (u, c) with
  | None => rs = [] /\ ends w past a w'
  | Some _ => exists a', drops past a w (fun m => bool_decide (m_owner m = (u, c))) rs a' w' /\
      a_uas a' = a_uas a /\ a_subs a' = base.delete (u, c) (a_subs a)
  end.
Proof.
  intros Hs Hu Hc Hroom. unfold delete_subscription. intros (o & w1 & Hch & Hrest)%est_bind_Ok.
  apply (bt_channel tbl laws self _ _ _ _ _ _ _ Hs Hu Hc) in Hch as [He ->].
  destruct (a_subs a !! (u, c)) as [s|] eqn:E; [|by injection Hrest as <- <-].
  apply est_bind_Ok in Hrest as (rows & w2 & Hread & Hrest).
  apply (msgs_scan tbl laws self _ _ _ _ _ _ (en_state _ _ _ _ _ He) Hu) in Hread as [Hl Hp].
  assert (He2 : ends w past a w2) by (eapply ends_trans; [exact He|eapply leaves_same_state; [apply He|done]]).
  apply Permutation_map_inv in Hp as (ms & -> & Hms).
  apply est_bind_Ok in Hrest as (rcs & w3 & Hloop & ([] & w4 & Hd1 & ([] & w5 & Hd2 & [= <- <-])%est_bind_Ok)%est_bind_Ok).
  pose proof (hs_good _ _ _ _ Hs) as Hg. pose proof (wf_subs _ (gd_wf _ Hg) _ _ E) as Hk. injection Hk as Hk1 Hk2.
  destruct (bt_remove_channel past c ms a w2 rcs w3) as (a1 & Hd & Hua & Hsu);
    [apply He2|by eapply ends_room| | |exact Hloop|].
  - rewrite <- Hms. by eapply msgs_of_ids.
  - intros m Hm. rewrite <- Hms in Hm. by apply msgs_of_elem in Hm as [? _].
  - exists (set_a_subs (base.delete (u, c) (a_subs a1)) a1). cbn. rewrite Hsu. split; [|done].
    eapply drops_ext; [|eapply drops_before; [exact He2|]; eapply drops_after; [exact Hd| |done..]].
    + intros k m Hkm. apply bool_decide_ext. unfold m_owner. rewrite <- Hms, list_elem_of_fmap.
      pose proof (wf_msgs _ (gd_wf _ Hg) _ _ Hkm) as Hid. split.
      * intros [Hmc (x & Hxid & Hx)]. apply msgs_of_elem in Hx as [Hx Hxu]; [|done]. rewrite <- Hxid, Hid in Hx. congruence.
      * intros [= <- <-]. split; [done|]. exists m. split; [done|]. apply msgs_of_elem; [done|]. split; [congruence|done].
    + assert ((u, c) = sub_at s) as Hat by (subst; done). rewrite Hat, <- Hsu. apply bt_delete_channel; [apply Hd|by rewrite Hsu, <- Hat|].
      unfold mbind, est_bind. unfold sub_key, push_key. rewrite Hk1, Hk2. by rewrite Hd1.
Qed.

(** ** Deleting user agents *)
Abbreviation sub_row s := (sub_key s, rowmap (sub_cols s)).
Lemma sub_key_channel s : channel_ok (sub_channel_id s) -> rsplit_first (char_is 35) (sub_key s) = sub_channel_id s.
Proof.
  intros Hc. unfold sub_key. rewrite str_app_assoc3. change ("#" +:+ sub_channel_id s) with (String "#" (sub_channel_id s)).
  apply rsplit_first_app; [done|]. by apply plain_no_hash, channel_plain.
Qed.
Lemma bt_delete_channels past u ss : forall a w rs w', holds_state past a w -> is_uaid u = true -> room w.1 a ->
  NoDup ((fun s => sub_at s) <$> ss) -> (forall s, s ∈ ss -> a_subs a !! sub_at s = Some s /\ sub_uaid s = u) ->
  delete_channels self u ((fun s => sub_row s) <$> ss) w = (Ok rs, w') ->
  exists a', drops past a w (fun m => bool_decide (m_owner m ∈ (fun s => sub_at s) <$> ss)) rs a' w' /\
    a_uas a' = a_uas a /\ a_subs a' = filter (fun ks => ks.1 ∉ (fun s => sub_at s) <$> ss) (a_subs a).
Proof.
  induction ss as [|s ss IH]; intros a w rs w' Hs Hu Hroom Hnd Hss.
  { intros [= <- <-]. exists a. split; [|split; [done|]].
    - apply drops_none; [|by split|done]. intros k m _. apply bool_decide_eq_false. by intros []%not_elem_of_nil.
    - symmetry. apply map_filter_id. intros k x _. apply not_elem_of_nil. }
  rewrite fmap_cons in Hnd. apply NoDup_cons in Hnd as [Hnin Hnd]. destruct (Hss s) as [Hsub Hsu]; [by left|].
  pose proof (gd_subs _ (hs_good _ _ _ _ Hs) _ _ Hsub) as Hst.
  cbn [fmap list_fmap delete_channels]. rewrite sub_key_channel by apply Hst.
  intros (here & w1 & Hhere & (rest & w2 & Hrest & [= <- <-])%est_bind_Ok)%est_bind_Ok.
  apply bt_delete_subscription with (a := a) (past := past) in Hhere; [|done|done|apply Hst|done].
  rewrite <- Hsu, Hsub in Hhere. destruct Hhere as (a1 & Hd1 & Hua1 & Hsu1).
  destruct (IH a1 w1 rest w2) as (a2 & Hd2 & Hua2 & Hsu2); [apply Hd1|done|apply Hd1|done| |exact Hrest|].
  - intros x Hx. destruct (Hss x) as [Hx1 Hx2]; [by right|]. split; [|done]. rewrite Hsu1. apply lookup_delete_Some. split; [|done].
    intros Heq. apply Hnin. rewrite Heq. by apply (list_elem_of_fmap_2 (fun s => sub_at s)).
  - exists a2. split; [|split; [congruence|]].
    + eapply drops_ext; [|by eapply drops_app]. intros k x _. cbv beta.
      apply eq_bool_prop_intro. rewrite orb_True, !bool_decide_spec. cbn [fmap list_fmap]. by rewrite elem_of_cons.
    + rewrite Hsu2, Hsu1. apply map_eq. intros k. apply option_eq. intros x.
      rewrite !map_lookup_filter_Some, lookup_delete_Some. cbn [fmap list_fmap fst]. rewrite not_elem_of_cons. naive_solver.
Qed.
Lemma bt_delete_user_agent past a u w rs w' : holds_state past a w -> is_uaid u = true -> room w.1 a ->
  delete_user_agent self u w = (Ok rs, w') ->
  exists a', drops past a w (of_user_agent a u) rs a' w' /\ a_uas a' = base.delete u (a_uas a) /\
    a_subs a' = filter (fun ks => ks.1.1 <> u) (a_subs a).
Proof.
  intros Hs Hu Hroom. unfold delete_user_agent. intros (rows & w1 & Hread & (rcs & w2 & Hloop & ([] & w3 & Hdel & [= <- <-])%est_bind_Ok)%est_bind_Ok)%est_bind_Ok.
  rewrite str_app_assoc3 in Hread. pose proof (hs_good _ _ _ _ Hs) as Hg.
  destruct (subs_items tbl _ _ _ u Hs Hu) as (Hnd & _ & Hxs).
  destruct (scan_items tbl laws self "ch#" D sub_key sub_cols _ ("ch#" +:+ u) _ _ _ _ (rp_subs _ _ _ (hs_rep _ _ _ _ Hs))
    (hs_time _ _ _ _ Hs) (under_prefix _ _) Hnd Hxs Hread) as (Hl & Hp & _).
  pose proof (leaves_same_state _ _ _ _ _ Hs Hl) as He. apply Permutation_map_inv in Hp as (ss & -> & Hss).
  assert (Hat : forall k, k ∈ (fun s => sub_at s) <$> ss <-> is_Some (a_subs a !! k) /\ k.1 = u).
  { intros [k1 k2]. rewrite list_elem_of_fmap. cbn. split.
    - intros (s & [= -> ->] & Hin). rewrite <- Hss in Hin. apply subs_of_elem in Hin as [Hin Hsu]; [|done]. split; [by eexists|done].
    - intros [[s Hk] ->]. pose proof (wf_subs _ (gd_wf _ Hg) _ _ Hk) as Heq. exists s. split; [done|].
      rewrite <- Hss. apply subs_of_elem; [done|]. split; [congruence|]. by injection Heq. }
  destruct (bt_delete_channels past u ss a w1 rcs w2) as (a1 & Hd & Hua & Hsu);
    [apply He|done|by eapply ends_room| | |exact Hloop|].
  - apply NoDup_fmap_2_strong; [|rewrite <- Hss; by eapply NoDup_fmap_1].
    intros x y Hx Hy Heq. rewrite <- Hss in Hx, Hy. apply subs_of_elem in Hx as [Hx _]; [|done]. apply subs_of_elem in Hy as [Hy _]; [|done].
    congruence.
  - intros s Hin. rewrite <- Hss in Hin. by apply subs_of_elem in Hin.
  - apply (delete_leaves tbl laws) in Hdel as Hl2; [|apply Hd].
    exists (set_a_uas (base.delete u (a_uas a1)) a1). cbn. rewrite Hua. split; [|split; [done|]].
    + eapply drops_ext; [|eapply drops_before; [exact He|]; eapply drops_after; [exact Hd| |done..]].
      * intros k m _. cbv beta. unfold of_user_agent. apply eq_bool_prop_intro. rewrite andb_True, !bool_decide_spec, Hat.
        unfold m_owner. cbn. tauto.
      * rewrite <- Hua. eapply leaves_ends; [apply Hd|exact Hl2|by apply good_ua_delete, Hd|by apply rep_ua_delete, Hd].
    + rewrite Hsu. apply map_filter_ext. intros k x Hk. cbn. rewrite Hat. split; [|tauto]. intros Hno Hku. apply Hno. split; [by eexists|done].
Qed.

(** ** Expiring user agents *)
Abbreviation ua_row ua := (ua_key ua, rowmap (ua_cols ua)).
Definition gone (cutoff : N) (us : list UserAgent) : list string := ua_uaid <$> filter (fun ua => (ua_last_seen ua < cutoff)%N) us.
Lemma gone_cons cutoff ua us : gone cutoff (ua :: us) =
  if decide (ua_last_seen ua < cutoff)%N then ua_uaid ua :: gone cutoff us else gone cutoff us.
Proof. unfold gone. rewrite filter_cons. by case_decide. Qed.
Lemma gone_elem cutoff us u : u ∈ gone cutoff us -> u ∈ ua_uaid <$> us.
Proof.
  unfold gone. intros (ua & -> & [_ Hin]%list_elem_of_filter)%list_elem_of_fmap. by apply list_elem_of_fmap_2.
Qed.
Lemma bt_expire_rows past cutoff us : forall a w r w', holds_state past a w -> room w.1 a -> NoDup (ua_uaid <$> us) ->
  (forall ua, ua ∈ us -> a_uas a !! ua_uaid ua = Some ua) ->
  expire_rows self cutoff ((fun ua => ua_row ua) <$> us) w = (Ok r, w') ->
  exists a', drops past a w (fun m => bool_decide (m_uaid m ∈ gone cutoff us) && of_user_agent a (m_uaid m) m) r.2 a' w' /\
    a_uas a' = filter (fun ku => ku.1 ∉ gone cutoff us) (a_uas a) /\
    a_subs a' = filter (fun ks => ks.1.1 ∉ gone cutoff us) (a_subs a) /\ r.1 = N.of_nat (length (gone cutoff us)).
Proof.
  induction us as [|ua us IH]; intros a w r w' Hs Hroom Hnd Hus.
  { intros [= <- <-]. exists a. split_and!; [|symmetry; apply map_filter_id; intros k x _; apply not_elem_of_nil..|done].
    apply drops_none; [|by split|done]. intros k m _. by rewrite bool_decide_false by apply not_elem_of_nil. }
  rewrite fmap_cons in Hnd. apply NoDup_cons in Hnd as [Hnin Hnd].
  assert (Hua : a_uas a !! ua_uaid ua = Some ua) by (apply Hus; by left).
  pose proof (gd_uas _ (hs_good _ _ _ _ Hs) _ _ Hua) as Hok.
  cbn [fmap list_fmap expire_rows]. unfold ua_key at 1. rewrite strip_prefix_app, decode_ua by done. rewrite gone_cons.
  assert (Hrest : forall ua', ua' ∈ us -> a_uas a !! ua_uaid ua' = Some ua' /\ ua_uaid ua' <> ua_uaid ua).
  { intros ua' Hin. split; [apply Hus; by right|]. intros Heq. apply Hnin. rewrite <- Heq. by apply list_elem_of_fmap_2. }
  destruct (N.ltb_spec (ua_last_seen ua) cutoff) as [Hlt|Hge].
  2:{ rewrite decide_False by lia. intros Hloop. apply (IH _ _ _ _ Hs Hroom Hnd) in Hloop; [done|]. intros ua' Hin. by apply Hrest. }
  rewrite decide_True by done. intros (here & w1 & Hhere & ([n rest] & w2 & Hloop & [= <- <-])%est_bind_Ok)%est_bind_Ok.
  apply bt_delete_user_agent with (a := a) (past := past) in Hhere as (a1 & Hd1 & Hua1 & Hsu1); [|done|apply Hok|done].
  destruct (IH a1 w1 (n, rest) w2) as (a2 & Hd2 & Hua2 & Hsu2 & Hn); [apply Hd1|apply Hd1|done| |exact Hloop|].
  - intros ua' Hin. rewrite Hua1. apply lookup_delete_Some. destruct (Hrest _ Hin). by split.
  - exists a2. cbn [fst snd] in *. split_and!.
    + eapply drops_ext; [|by eapply drops_app]. intros k m Hk. cbv beta.
      apply eq_bool_prop_intro. unfold of_user_agent. rewrite orb_True, !andb_True, !bool_decide_spec, elem_of_cons.
      rewrite Hsu1. unfold is_Some. setoid_rewrite map_lookup_filter_Some. unfold m_owner. cbn.
      destruct (decide (m_uaid m = ua_uaid ua)); naive_solver.
    + rewrite Hua2, Hua1. apply map_eq. intros k. apply option_eq. intros x.
      rewrite !map_lookup_filter_Some, lookup_delete_Some, not_elem_of_cons. cbn. naive_solver.
    + rewrite Hsu2, Hsu1, map_filter_filter. apply map_filter_ext. intros k x _. cbn. rewrite not_elem_of_cons. tauto.
    + cbn [length]. lia.
Qed.
Lemma bt_expire_user_agents past a cutoff w r w' : holds_state past a w -> room w.1 a ->
  expire_user_agents self cutoff w = (Ok r, w') ->
  exists a', drops past a w (fun m => stale a cutoff (m_uaid m) && of_user_agent a (m_uaid m) m) r.2 a' w' /\
    a_uas a' = filter (fun ku => stale a cutoff ku.1 = false) (a_uas a) /\
    a_subs a' = filter (fun ks => stale a cutoff ks.1.1 = false) (a_subs a) /\
    r.1 = N.of_nat (size (filter (fun ku => stale a cutoff ku.1 = true) (a_uas a))).
Proof.
  intros Hs Hroom. unfold expire_user_agents. intros (rows & w1 & Hread & Hloop)%est_bind_Ok.
  pose proof (hs_good _ _ _ _ Hs) as Hg. set (xs := (map_to_list (a_uas a)).*2).
  assert (Hxs : forall ua, ua ∈ xs <-> a_uas a !! ua_uaid ua = Some ua).
  { intros ua. unfold xs. rewrite elem_of_values. split; [|by eexists]. intros [k Hk]. by rewrite (wf_uas _ (gd_wf _ Hg) _ _ Hk). }
  assert (Hids : NoDup (ua_uaid <$> xs)).
  { apply NoDup_fmap_2_strong.
    - intros x y Hx%Hxs Hy%Hxs Heq. congruence.
    - apply NoDup_fmap_2_strong; [|apply NoDup_map_to_list].
      intros [k s] [k' s'] Hk%elem_of_map_to_list Hk'%elem_of_map_to_list Heq. cbn in Heq. subst s'.
      by rewrite <- (wf_uas _ (gd_wf _ Hg) _ _ Hk), <- (wf_uas _ (gd_wf _ Hg) _ _ Hk'). }
  assert (Hkeys : NoDup (ua_key <$> xs)).
  { apply NoDup_fmap_2_strong; [|by eapply NoDup_fmap_1]. intros x y Hx%Hxs Hy%Hxs Heq%ua_key_inj. congruence. }
  assert (Hitems : forall x, x ∈ xs <-> a_uas a !! ua_uaid x = Some x /\ starts_with ("ua" +:+ "#") (ua_key x) = true).
  { intros x. rewrite Hxs. split; [|by intros []]. intros Hx. split; [done|]. apply ua_pfx. }
  destruct (scan_items tbl laws self "ua#" D ua_key ua_cols _ "ua" xs w rows w1 (rp_uas _ _ _ (hs_rep _ _ _ _ Hs))
    (hs_time _ _ _ _ Hs) (fun k H => H) Hkeys Hitems Hread) as (Hl & Hp & _).
  pose proof (leaves_same_state _ _ _ _ _ Hs Hl) as He. apply Permutation_map_inv in Hp as (us & -> & Hus).
  destruct (bt_expire_rows past cutoff us a w1 r w') as (a1 & Hd & Hua & Hsu & Hn);
    [apply He|by eapply ends_room|by rewrite <- Hus|intros ua Hin; rewrite <- Hus in Hin; by apply Hxs|exact Hloop|].
  assert (Hgone : forall u, u ∈ gone cutoff us <-> stale a cutoff u = true).
  { intros u. unfold gone, stale. rewrite <- Hus, list_elem_of_fmap. split.
    - intros (ua & -> & [Hlt Hin]%list_elem_of_filter). apply Hxs in Hin. rewrite Hin. by apply N.ltb_lt.
    - destruct (a_uas a !! u) as [ua|] eqn:E; [|done]. intros Hlt%N.ltb_lt. exists ua.
      rewrite (wf_uas _ (gd_wf _ Hg) _ _ E). split; [done|]. apply list_elem_of_filter. split; [done|]. apply elem_of_values. eauto. }
  assert (Hlen : length (gone cutoff us) = size (filter (fun ku => stale a cutoff ku.1 = true) (a_uas a))).
  { unfold gone. rewrite length_fmap, <- Hus. unfold xs. rewrite <- length_map_to_list, <- (length_fmap snd), <- map_filter_values.
    do 3 f_equal. apply map_filter_ext. intros k ua Hk. unfold stale. cbn. rewrite Hk. by rewrite N.ltb_lt. }
  exists a1. split_and!; [| | |by rewrite Hn, Hlen].
  - eapply drops_ext; [|by eapply drops_before]. intros k m _. cbv beta. f_equal. apply eq_bool_prop_intro.
    by rewrite bool_decide_spec, Hgone, Is_true_true.
  - rewrite Hua. apply map_filter_ext. intros k x _. cbn. by rewrite Hgone, not_true_iff_false.
  - rewrite Hsu. apply map_filter_ext. intros k x _. cbn. by rewrite Hgone, not_true_iff_false.
Qed.

(** ** Reaping *)
Abbreviation due_row m := (rexp_key m, rowmap (at_cols m)).

(** A message whose index row is there is in the table, or gone. *)
Lemma past_known past a m x : represents past a x -> past !! m_id m = Some m -> forall y, a_msgs a !! m_id m = Some y -> y = m.
Proof.
  intros Hr Hp y Hy. destruct (rp_index _ _ _ Hr) as (mids & rexps & Hix & _).
  assert (past !! m_id m = Some y); [|congruence]. eapply lookup_weaken; [|apply Hix]. by eapply lookup_weaken; [|apply Hix].
Qed.
Lemma bt_reap_row past a m w rs w' : holds_state past a w -> past !! m_id m = Some m -> room w.1 a ->
  reap_row self (rexp_key m) (rowmap (at_cols m)) w = (Ok rs, w') ->
  exists a', drops past a w (fun x => bool_decide (m_id x = m_id m)) rs a' w' /\ a_uas a' = a_uas a /\ a_subs a' = a_subs a.
Proof.
  intros Hs Hp Hroom. pose proof (hs_rep _ _ _ _ Hs) as Hr. pose proof (hs_good _ _ _ _ Hs) as Hg.
  assert (Hok : msg_ok m) by (destruct (rp_index _ _ _ Hr) as (? & ? & Hix & _); by apply (ix_past _ _ _ _ Hix (m_id m))).
  pose proof (past_known _ _ _ _ Hr Hp) as Honly.
  unfold reap_row. cbv zeta. rewrite rexp_key_id by apply Hok. rewrite decode_at by done.
  intros (rcs & w1 & Hbody & ([] & w2 & Hdel & [= <- <-])%est_bind_Ok)%est_bind_Ok.
  assert (Hstep : exists a1, drops past a w (fun x => bool_decide (m_id x = m_id m)) rcs a1 w1 /\
    a_uas a1 = a_uas a /\ a_subs a1 = a_subs a).
  { apply est_bind_Ok in Hbody as (row & w0 & Hget & Hbody).
    apply (message_get tbl laws self _ _ m _ _ _ _ Hs Hok eq_refl) in Hget as [Hl Hrow].
    pose proof (leaves_same_state _ _ _ _ _ Hs Hl) as He.
    destruct (row ≫= message_from_row (message_key m)) as [x|].
    - destruct Hrow as [Hx Hkey]. case_decide as Hxi.
      + rewrite Hxi in Hx. pose proof (Honly _ Hx) as ->.
        apply (bt_remove_owe _ _ _ _ _ _ (en_state _ _ _ _ _ He) Hx (ends_room _ _ _ _ He Hroom)) in Hbody as (a1 & Hd & ?).
        exists a1. split; [|done]. by eapply drops_before.
      + injection Hbody as <- <-. exists a. split; [|done]. apply drops_none; [|done..].
        intros k y Hy. apply bool_decide_eq_false. intros Hid. pose proof (wf_msgs _ (gd_wf _ Hg) _ _ Hy) as Hk.
        rewrite <- Hk, Hid in Hy. pose proof (Honly _ Hy) as ->. by rewrite (message_key_alone a m x Hg Hy Hx Hkey) in Hxi.
    - injection Hbody as <- <-. exists a. split; [|done]. apply drops_none; [|done..].
      intros k y Hy. apply bool_decide_eq_false. intros Hid. pose proof (wf_msgs _ (gd_wf _ Hg) _ _ Hy) as Hk.
      rewrite <- Hk, Hid in Hy. pose proof (Honly _ Hy) as ->. by apply (Hrow m). }
  destruct Hstep as (a1 & Hd & Hua & Hsu). exists a1. split; [|done].
  eapply drops_after; [exact Hd| |done..]. apply (delete_leaves tbl laws) in Hdel as Hl; [|apply Hd].
  eapply leaves_ends; [apply Hd|exact Hl|apply Hd|]. apply rep_due_delete; [apply Hd|apply rexp_pfx|].
  intros x Hx _ [_ Hid]%rexp_key_inj; [|by eapply gd_msgs; [apply Hd|]|apply Hok].
  rewrite (rm_msgs _ _ _ _ _ _ (dp_removes _ _ _ _ _ _ _ Hd)) in Hx. apply map_lookup_filter_Some in Hx as [_ Hno].
  by apply bool_decide_eq_false in Hno.
Qed.
Lemma bt_reap_rows past ms : forall a w rs w', holds_state past a w -> room w.1 a ->
  (forall m, m ∈ ms -> past !! m_id m = Some m) ->
  reap_rows self ((fun m => due_row m) <$> ms) w = (Ok rs, w') ->
  exists a', drops past a w (fun x => bool_decide (m_id x ∈ m_id <$> ms)) rs a' w' /\ a_uas a' = a_uas a /\ a_subs a' = a_subs a.
Proof.
  induction ms as [|m ms IH]; intros a w rs w' Hs Hroom Hms.
  { intros [= <- <-]. exists a. split; [|done]. apply drops_none; [|by split|done].
    intros k m _. apply bool_decide_eq_false, not_elem_of_nil. }
  cbn [fmap list_fmap reap_rows]. intros (here & w1 & Hhere & (rest & w2 & Hrest & [= <- <-])%est_bind_Ok)%est_bind_Ok.
  destruct (bt_reap_row past a m w here w1 Hs) as (a1 & Hd1 & Hua1 & Hsu1); [apply Hms; by left|done|exact Hhere|].
  destruct (IH a1 w1 rest w2) as (a2 & Hd2 & Hua2 & Hsu2); [apply Hd1|apply Hd1| |exact Hrest|].
  - intros x Hx. apply Hms. by right.
  - exists a2. split; [|split; congruence]. eapply drops_ext; [|by eapply drops_app]. intros k x _. cbv beta.
    apply eq_bool_prop_intro. by rewrite orb_True, !bool_decide_spec, elem_of_cons.
Qed.

Lemma bt_reap past a now w rs w' : holds_state past a w -> room w.1 a -> (now < u64_max)%N ->
  reap self now w = (Ok rs, w') ->
  exists P a', (forall m, P m = true -> (m_expiry m <= now)%N) /\
    (forall m, (m_expiry m <= now)%N -> m_rsub m <> None -> P m = true) /\
    drops past a w P rs a' w' /\ a_uas a' = a_uas a /\ a_subs a' = a_subs a.
Proof.
  intros Hs Hroom Hnow. unfold reap. cbv zeta. intros (rows & w1 & Hread & Hloop)%est_bind_Ok.
  pose proof (hs_rep _ _ _ _ Hs) as Hr. destruct (rp_index _ _ _ Hr) as (mids & rexps & Hix & Hmids & Hrexps).
  assert (Hpast : forall k m, rexps !! k = Some m -> m_id m = k /\ msg_ok m).
  { intros k m Hk. apply (ix_past _ _ _ _ Hix). eapply lookup_weaken; [exact Hk|apply Hix]. }
  set (xs := filter (fun m => (m_expiry m <= now)%N) (map_to_list rexps).*2).
  assert (Hxs : forall m, m ∈ xs <-> known rexps m /\ (m_expiry m <= now)%N).
  { intros m. unfold xs, known. rewrite list_elem_of_filter, elem_of_values. split.
    - intros [? [k Hk]]. split; [|done]. by destruct (Hpast _ _ Hk) as [-> _].
    - intros [? ?]. split; [done|]. by eexists. }
  assert (Hnd : NoDup (rexp_key <$> xs)).
  { apply NoDup_fmap_2_strong.
    - intros x y [Hx _]%Hxs [Hy _]%Hxs Heq. unfold known in *. destruct (Hpast _ _ Hx) as [_ Hox], (Hpast _ _ Hy) as [_ Hoy].
      apply rexp_key_inj in Heq as [_ Hid]; [congruence|apply Hox|apply Hoy].
    - apply NoDup_filter, NoDup_fmap_2_strong; [|apply NoDup_map_to_list].
      intros [k s] [k' s'] Hk%elem_of_map_to_list Hk'%elem_of_map_to_list Heq. cbn in Heq. subst s'.
      by rewrite <- (proj1 (Hpast _ _ Hk)), <- (proj1 (Hpast _ _ Hk')). }
  assert (Hrows : forall x, x ∈ xs -> rows_for D rexp_key at_cols (wcontents tbl w) x).
  { intros x [Hx _]%Hxs. by apply (kd_item _ _ _ _ _ _ Hrexps). }
  assert (Hsel : forall k, selects (range "rexp#" ("rexp#" +:+ hex16 (wrap64 (now + 1)))) k /\ is_Some (wcontents tbl w !! k) <->
    k ∈ rexp_key <$> xs).
  { intros k. rewrite list_elem_of_fmap. split.
    - intros [Hk Hsome]. pose proof (due_prefix _ _ Hk) as Hpk. destruct (kd_row _ _ _ _ _ _ Hrexps k Hpk Hsome) as (m & Hm & ->).
      exists m. split; [done|]. apply Hxs. split; [done|]. apply due_selects; [apply (Hpast _ _ Hm)|done|done].
    - intros (m & -> & [Hm Hle]%Hxs). split; [apply due_selects; [apply (Hpast _ _ Hm)|done|done]|].
      rewrite (kind_some _ _ _ _ _ _ _ Hrexps Hm). by eexists. }
  destruct (read_leaves tbl laws self D rexp_key at_cols _ xs w rows w1 (hs_time _ _ _ _ Hs) Hnd Hrows Hsel Hread) as (Hl & Hp & _).
  pose proof (leaves_same_state _ _ _ _ _ Hs Hl) as He. apply Permutation_map_inv in Hp as (ms & -> & Hms).
  destruct (bt_reap_rows past ms a w1 rs w') as (a1 & Hd & Hua & Hsu); [apply He|by eapply ends_room| |exact Hloop|].
  { intros m Hm. rewrite <- Hms in Hm. apply Hxs in Hm as [Hm _]. eapply lookup_weaken; [exact Hm|apply Hix]. }
  exists (fun m => bool_decide (m_expiry m <= now)%N && (bool_decide (m_rsub m <> None) || bool_decide (m_id m ∈ m_id <$> ms))), a1.
  split_and!; [| | |done..].
  - intros m [Hm%bool_decide_eq_true _]%andb_true_iff. done.
  - intros m Hle Hrs. by rewrite (bool_decide_true _ Hle), (bool_decide_true _ Hrs).
  - eapply drops_ext; [|by eapply drops_before]. intros k m Hk. cbv beta. apply eq_bool_prop_intro.
    rewrite andb_True, orb_True, !bool_decide_spec, <- Hms. pose proof (wf_msgs _ (gd_wf _ (hs_good _ _ _ _ Hs)) _ _ Hk) as Hid.
    assert (Hin : m_id m ∈ m_id <$> xs -> (m_expiry m <= now)%N).
    { intros (x & Hxid & [Hx Hle]%Hxs)%list_elem_of_fmap. unfold known in Hx.
      assert (m = x) as ->; [|done]. eapply (past_known _ _ _ _ Hr); [eapply lookup_weaken; [exact Hx|apply Hix]|]. by rewrite <- Hxid, Hid. }
    split; [tauto|]. intros [Hle [Hrs|?]]; [|done]. apply list_elem_of_fmap. exists m. split; [done|]. apply Hxs. split; [|done].
    unfold known. rewrite Hid. by apply (ix_due _ _ _ _ Hix).
Qed.
End sweeps.
