(* ===== verification/BigtableRefines.v ===== *)
(** * The adapter keeps the storage contract

    Every call that succeeds on a table that represents a state of the
    contract is a step of the contract, and every run of calls a run of it,
    from well-formed arguments and with ids that are not drawn twice. An
    operation is one step here, though only the writes to one row of it are
    atomic; [BigtableInterleave.v] takes the calls to the service apart. *)
From Stdlib Require Import Ascii.
From S2P Require Import MemoryStore MemoryProofs Prelude RustStr External StoreTypes Store Hub App Notify Headers Subscription Session Ece Vapid Response Endpoint Registration Receipts Internal Calls System Concurrency Typing Bridge Client GcpAuth BigtableWire BigtableService Bigtable BigtableTheorems BigtableRows BigtableRuns BigtableScans BigtableContents BigtableRepr BigtableUpdates BigtableOps BigtableCalls BigtableSweeps.

(** The arguments are values of their Rust types: strings are UTF-8 and numbers
    fit 64 bits. Node names are ASCII, and the time to reap at is not the
    last one. *)
Definition call_rust {X} (c : Call X) : Prop :=
  match c with
  | CCreateUserAgent ua => ua_ok ua
  | CTouchUserAgent _ now => (now <= u64_max)%N
  | CUpdateBridgeToken _ t => utf8_valid t = true
  | CInsertMessage m => msg_ok m
  | CDeleteReceipt _ seq => (seq <= u64_max)%N
  | CReap now => (now < u64_max)%N
  | CSetRoute _ node | CClearRoute _ node => ascii_only node
  | _ => True
  end.

Definition past_after {X} (c : Call X) (past : Ms) : Ms := foldr (fun m past => <[ m_id m := m ]> past) past (inserts c).
Lemma past_after_new {X} (c : Call X) past ms : NoDup (m_id <$> inserts c ++ ms) ->
  (forall m, m ∈ inserts c ++ ms -> past !! m_id m = None) -> forall m, m ∈ ms -> past_after c past !! m_id m = None.
Proof.
  rewrite fmap_app. intros (_ & Hnd & _)%NoDup_app Hnew m Hm.
  assert (Hm2 : past !! m_id m = None) by (apply Hnew, elem_of_app; by right).
  unfold past_after. destruct c; cbn; try exact Hm2. rewrite lookup_insert_ne; [done|].
  intros Heq. apply (Hnd (m_id m0)); [by left|]. rewrite Heq. by apply list_elem_of_fmap_2.
Qed.

Section refines.
Context `{HT : Http} `{B64 : Base64} {BL : Base64Laws} `{JS : Json} `{RSA : Rsa} `{HO : Host} `{GS : GcpSerde}
  `{SX : StatusText} {T : Type} `{RPC : BigtableRpc T} `{RE : Re2}.
Context (tbl : T -> Table) (laws : ServiceLaws tbl) `{!Re2Laws} (self : BigtableStore).
Implicit Types (w : Env * BtWorld (T := T)).
Abbreviation holds_state := (holds_state tbl) (only parsing).
Abbreviation ends := (ends tbl) (only parsing).

(** New ids have no rows, and numbers can be issued for all rows. *)
Definition rows_fresh {X} (c : Call X) w : Prop :=
  let rows := wcontents tbl w in
  match c with
  | CCreateUserAgent ua => rows !! ua_key ua = None
  | CCreateSubscription u ch _ => rows !! ("ch#" +:+ u +:+ "#" +:+ ch) = None /\ rows !! ("push#" +:+ (new_id w.1).1) = None
  | CCreateReceiptSub => rows !! rsub_key (new_id w.1).1 = None
  | CDeleteUserAgent _ | CExpireUserAgents _ | CDeleteSubscription _ _ | CReap _ => seq_room (size rows) w.1
  | CEnqueueReceipt _ => seq_room 1 w.1
  | _ => True
  end.

(** There are at least as many rows as messages. *)
Lemma messages_le_rows past a w : holds_state past a w -> size (a_msgs a) <= size (wcontents tbl w).
Proof.
  intros Hs. pose proof (hs_good _ _ _ _ Hs) as Hg. set (ms := (map_to_list (a_msgs a)).*2).
  assert (Hms : forall m, m ∈ ms <-> a_msgs a !! m_id m = Some m).
  { intros m. unfold ms. rewrite elem_of_values. split; [|by eexists]. intros [k Hk]. by rewrite (wf_msgs _ (gd_wf _ Hg) _ _ Hk). }
  assert (Hnd : NoDup (message_key <$> ms)).
  { apply NoDup_fmap_2_strong; [intros x y Hx%Hms Hy%Hms Heq; by apply (message_key_alone a y x)|].
    apply NoDup_fmap_2_strong; [|apply NoDup_map_to_list].
    intros [k s] [k' s'] Hk%elem_of_map_to_list Hk'%elem_of_map_to_list Heq. cbn in Heq. subst s'.
    by rewrite <- (wf_msgs _ (gd_wf _ Hg) _ _ Hk), <- (wf_msgs _ (gd_wf _ Hg) _ _ Hk'). }
  transitivity (size (list_to_set (C := gset string) (message_key <$> ms))).
  - rewrite size_list_to_set by done. unfold ms. by rewrite !length_fmap, length_map_to_list.
  - rewrite <- size_dom. apply subseteq_size. intros k. rewrite elem_of_list_to_set, elem_of_dom. intros (m & -> & Hm%Hms)%list_elem_of_fmap.
    rewrite (kind_some _ _ _ _ _ _ _ (rp_msgs _ _ _ (hs_rep _ _ _ _ Hs)) Hm). by eexists.
Qed.

(** What the missing rows say of the state. *)
Lemma rows_fresh_for {X} (c : Call X) past a w : holds_state past a w -> rows_fresh c w ->
  (forall m, m ∈ inserts c -> past !! m_id m = None) -> fresh_for w.1 a c.
Proof.
  intros Hs Hf Hnew. pose proof (hs_rep _ _ _ _ Hs) as Hr. pose proof (hs_good _ _ _ _ Hs) as Hg.
  assert (Hroom : seq_room (size (wcontents tbl w)) w.1 -> room w.1 a).
  { apply seq_room_weaken. by eapply messages_le_rows. }
  destruct c; cbn in *; try done; try by apply Hroom.
  - destruct Hf as [Hf1 Hf2]. split.
    + destruct (a_subs a !! (u, c)) as [s|] eqn:E; [|done]. pose proof (wf_subs _ (gd_wf _ Hg) _ _ E) as Hk.
      rewrite <- Hk in E. pose proof (kind_some _ _ _ _ _ _ s (rp_subs _ _ _ Hr) E) as Hrow.
      injection Hk as <- <-. unfold sub_key in Hrow. congruence.
    + intros k s E Hp. pose proof (wf_subs _ (gd_wf _ Hg) _ _ E) as Hk. rewrite <- Hk in E.
      pose proof (kind_some _ _ _ _ _ _ s (rp_push _ _ _ Hr) E) as Hrow. unfold push_key in Hrow. rewrite Hp in Hrow. congruence.
  - destruct (rp_index _ _ _ Hr) as (mids & rexps & Hix & _). eapply lookup_weaken_None; [|apply Hix].
    eapply lookup_weaken_None; [|apply Hix]. apply Hnew. by left.
  - destruct (a_queues a !! (new_id w.1).1) as [q|] eqn:E; [|done].
    assert (is_Some (a_queues a !! (new_id w.1).1)) as Hq by by eexists.
    pose proof (kind_some _ _ _ _ _ _ _ (rp_rsubs _ _ _ Hr) Hq) as Hrow. congruence.
Qed.

(** A call is a step of the contract. *)
Lemma bigtable_step {X} (c : Call X) past a w (x : X) w' : holds_state past a w ->
  call_typed c -> call_rust c -> rows_fresh c w -> (forall m, m ∈ inserts c -> past !! m_id m = None) ->
  perform (H := bigtable self) c w = (Ok x, w') ->
  exists a', holds_state (past_after c past) a' w' /\ env_extends w.1 w'.1 /\ a_step c w.1 a x w'.1 a'.
Proof.
  intros Hs Hty Hru Hfr Hnew Hp. pose proof (rows_fresh_for c _ _ _ Hs Hfr Hnew) as Hfresh.
  destruct c; cbn in Hty, Hru, Hfresh, Hp; cbn [past_after inserts foldr a_step];
    try (lazymatch type of x with unit => destruct x end).
  - assert (Hno : a_uas a !! ua_uaid ua = None).
    { destruct (a_uas a !! ua_uaid ua) as [ua'|] eqn:E; [|done]. pose proof (wf_uas _ (gd_wf _ (hs_good _ _ _ _ Hs)) _ _ E) as Hid.
      rewrite <- Hid in E. pose proof (kind_some _ _ _ _ _ _ _ (rp_uas _ _ _ (hs_rep _ _ _ _ Hs)) E) as Hrow.
      unfold ua_key in Hrow. rewrite Hid in Hrow. cbn in Hfr. unfold ua_key in Hfr. congruence. }
    apply (bt_create_user_agent tbl laws self _ _ _ _ _ Hs Hru Hno) in Hp as [? ? ?]. by eexists.
  - apply (bt_user_agent tbl laws self _ _ _ _ _ _ Hs Hty) in Hp as [[? ? ?] ?]. by eexists.
  - apply (bt_touch_user_agent tbl laws self _ _ _ _ _ _ _ Hs Hty Hru) in Hp. destruct (a_uas a !! u) as [ua|].
    + destruct Hp as [-> [? ? ?]]. eexists. split_and!; [done..|]. exists now. split; [by left|done].
    + destruct Hp as [-> [? ? ?]]. by eexists.
  - destruct Hty as [Hu Ht]. apply (bt_update_bridge_token tbl laws self _ _ _ _ _ _ _ Hs Hu Ht Hru) in Hp.
    destruct (a_uas a !! u) as [[i [b|] seen]|]; destruct Hp as [-> [? ? ?]]; by eexists.
  - apply (bt_delete_user_agent tbl laws self _ _ _ _ _ _ Hs Hty Hfresh) in Hp as (a' & [? ? ? ?] & ? & ?). by exists a'.
  - apply (bt_expire_user_agents tbl laws self _ _ _ _ _ _ Hs Hfresh) in Hp as (a' & [? ? ? ?] & ? & ? & ?). by exists a'.
  - apply (bt_subscriptions tbl laws self _ _ _ _ _ _ Hs Hty) in Hp as [[? ? ?] ?]. by eexists.
  - destruct Hty as [Hu Hc]. apply (bt_channel tbl laws self _ _ _ _ _ _ _ Hs Hu Hc) in Hp as [[? ? ?] ?]. by eexists.
  - destruct Hty as (Hu & Hc & Hv), Hfresh as [Hf1 Hf2].
    apply (bt_create_subscription tbl laws self _ _ _ _ _ _ _ _ Hs Hu Hc Hv Hf1 Hf2) in Hp as [[? ? ?] ?]. by eexists.
  - apply (bt_subscription_by_push tbl laws self _ _ _ _ _ _ Hs Hty) in Hp as [[? ? ?] ?]. by eexists.
  - destruct Hty as [Hu Hc]. apply (bt_delete_subscription tbl laws self _ _ _ _ _ _ _ Hs Hu Hc Hfresh) in Hp.
    destruct (a_subs a !! (u, c)) as [s|].
    + destruct Hp as (a' & [? ? ? ?] & ? & ?). by exists a'.
    + destruct Hp as (-> & [? ? ?]). by eexists.
  - apply (bt_insert_message tbl laws self _ _ _ _ _ Hs Hru) in Hp as [? ? ?]; [by eexists|]. apply Hnew. by left.
  - apply (bt_pending tbl laws self _ _ _ _ _ _ _ _ Hs Hty) in Hp as [[? ? ?] ?]. by eexists.
  - apply (bt_message tbl laws self _ _ _ _ _ _ Hs Hty) in Hp as [[? ? ?] ?]. by eexists.
  - destruct Hty as [Hi _]. apply (bt_delete_message tbl laws self _ _ _ _ _ _ _ Hs Hi) in Hp as [[? ? ?] ?]. by eexists.
  - apply (bt_create_receipt_sub tbl laws self _ _ _ _ _ Hs Hfresh) in Hp as [[? ? ?] ?]. by eexists.
  - apply (bt_receipt_sub_exists tbl laws self _ _ _ _ _ _ Hs Hty) in Hp as [[? ? ?] ?]. by eexists.
  - apply (bt_delete_receipt_sub tbl laws self _ _ _ _ _ _ Hs Hty) in Hp as [[? ? ?] ?]. by eexists.
  - apply (bt_enqueue_receipt tbl laws self 0 _ _ _ _ _ _ Hs Hty Hfresh) in Hp as (He & _ & Hp).
    destruct (a_queues a !! r_rsub r) as [q|].
    + destruct Hp as (seq & -> & Hn & ?). eexists. split_and!; [done..|]. by exists seq.
    + destruct Hp as (-> & ? & ?). by eexists.
  - apply (bt_queued_receipts tbl laws self _ _ _ _ _ _ Hs Hty) in Hp as [[? ? ?] ?]. by eexists.
  - apply (bt_delete_receipt tbl laws self _ _ _ _ _ _ Hs Hty Hru) in Hp as [? ? ?]. by eexists.
  - apply (bt_reap tbl laws self _ _ _ _ _ _ Hs Hfresh Hru) in Hp as (P & a' & ? & ? & [? ? ? ?] & ? & ?).
    exists a'. split_and!; [done..|]. by exists P.
  - apply (bt_set_route tbl laws self _ _ _ _ _ _ _ Hs Hty Hru) in Hp as [[? ? ?] ?]. by eexists.
  - apply (bt_route tbl laws self _ _ _ _ _ _ Hs Hty) in Hp as [[? ? ?] ?]. by eexists.
  - apply (bt_clear_route tbl laws self _ _ _ _ _ _ _ Hs Hty Hru) in Hp as [[? ? ?] ?]. by eexists.
Qed.

(** ** Runs *)

(** Calls of any tasks one after the other, while the clocks move on. *)
Inductive rows_run : Env * BtWorld (T := T) -> list (nat * Entry) -> Env * BtWorld (T := T) -> Prop :=
| rr_nil w : rows_run w [] w
| rr_env e e' g log w : env_extends e e' -> quiet e e' -> rows_run (e', g) log w -> rows_run (e, g) log w
| rr_call {X} t (c : Call X) (x : X) w w1 log w2 :
    rows_fresh c w -> perform (H := bigtable self) c w = (Ok x, w1) -> rows_run w1 log w2 ->
    rows_run w ((t, Called c (Ok x)) :: log) w2.

Definition entry_rust (en : Entry) : Prop := match en with Called c _ => call_rust c end.
Definition past_of (log : list (nat * Entry)) (past : Ms) : Ms := foldl (fun past te => match te.2 with Called c _ => past_after c past end) past log.

Lemma good_typed a : good a -> store_typed a.
Proof.
  intros [Hwf Hu Hs Hm Hqk Hq Hr]. split.
  - intros k ua Hk. by apply (Hu _ _ Hk).
  - done.
  - intros k m Hk. by apply (Hm _ _ Hk).
  - intros k q Hk. split; [by eapply Hqk|]. intros n r Hn. by apply (Hq _ _ _ _ Hk Hn).
  - intros to node Hk. by apply (Hr _ _ Hk).
Qed.

Lemma run_contract w log w' : rows_run w log w' -> forall past a, holds_state past a w ->
  (forall t, keeps True (of_task t log)) -> Forall (fun te => entry_rust te.2) log ->
  NoDup (m_id <$> inserted_in log) -> (forall m, m ∈ inserted_in log -> past !! m_id m = None) ->
  exists a', contract (w.1, a) log (w'.1, a') /\ holds_state (past_of log past) a' w'.
Proof.
  induction 1 as [w|e e' g log w He Hq _ IH|X t c x w w1 log w2 Hf Hp _ IH]; intros past a Hs Hk Hru Hnd Hnew.
  - exists a. split; [apply ct_nil|done].
  - destruct (IH past a) as (a' & Hc & Hs'); [|done..|].
    + eapply env_state; [exact Hs|done|]. unfold quiet in Hq. rewrite Hq. apply Hs.
    + exists a'. split; [|done]. by eapply ct_env.
  - apply Forall_cons in Hru as [Hr1 Hru]. unfold inserted_in in Hnd, Hnew. cbn [fmap list_fmap concat snd] in Hnd, Hnew.
    assert (Hnd2 : NoDup (m_id <$> concat ((fun te => match te.2 with Called c _ => inserts c end) <$> log))).
    { rewrite fmap_app in Hnd. by apply NoDup_app in Hnd as (_ & _ & ?). }
    assert (Hty : call_typed c).
    { specialize (Hk t). rewrite of_task_cons, decide_True in Hk by done. by destruct Hk. }
    assert (Hnew1 : forall m, m ∈ inserts c -> past !! m_id m = None) by (intros m Hm; apply Hnew, elem_of_app; by left).
    destruct (bigtable_step c past a w x w1 Hs Hty Hr1 Hf Hnew1 Hp) as (a1 & Hs1 & He1 & Hst).
    pose proof (rows_fresh_for c _ _ _ Hs Hf Hnew1) as Hfr. pose proof (gd_wf _ (hs_good _ _ _ _ Hs)) as Hwf.
    destruct (step_typed _ _ _ _ _ _ Hwf Hst (good_typed _ (hs_good _ _ _ _ Hs)) Hty) as [_ Hx].
    destruct (IH (past_after c past) a1 Hs1) as (a2 & Hc & Hs2).
    + intros t'. specialize (Hk t'). rewrite of_task_cons in Hk. case_decide; [|done]. destruct Hk as [_ Hk]. by apply Hk.
    + done.
    + done.
    + by apply past_after_new.
    + exists a2. split; [|exact Hs2]. destruct w as [e g], w1 as [e1 g1]. cbn [fst] in *. by eapply ct_call.
Qed.

Lemma typed_keeps l : Forall (fun en => match en with Called c _ => call_typed c end) l -> keeps True l.
Proof. induction 1 as [|[X c r] l Hc _ IH]; [done|]. by split. Qed.
Definition entry_args (en : Entry) : Prop := match en with Called c _ => call_typed c /\ call_rust c end.

(** C2: On a table that holds a state of the storage contract, any sequence of
    successful calls on the Bigtable adapter is a sequence of steps of the
    contract with the same answers, and the table then holds the resulting
    state. That covers every operation of the [Store] trait, the loops of
    [delete_user_agent], [expire_user_agents] and [reap] included. *)
Theorem bigtable_refines past a w log w' : holds_state past a w -> rows_run w log w' ->
  Forall (fun te => entry_args te.2) log ->
  NoDup (m_id <$> inserted_in log) -> (forall m, m ∈ inserted_in log -> past !! m_id m = None) ->
  exists a', contract (w.1, a) log (w'.1, a') /\ holds_state (past_of log past) a' w'.
Proof.
  intros Hs Hrun Hargs. apply run_contract; [done..| |].
  - intros t. apply typed_keeps. unfold of_task. apply Forall_forall.
    intros en ([t' [X c r]] & -> & [_ Hin]%list_elem_of_filter)%list_elem_of_fmap. rewrite Forall_forall in Hargs. apply (Hargs _ Hin).
  - eapply Forall_impl; [exact Hargs|]. by intros [t' [X c r]] [_ ?].
Qed.

(** An empty table holds the empty state. *)
Definition empty_state : AStore := {| a_uas := ∅; a_subs := ∅; a_msgs := ∅; a_queues := ∅; a_routes := ∅ |}.
Lemma kind_empty {X} pfx family (key : X -> string) cols (P : X -> Prop) : (forall x, ~ P x) -> kind pfx family key cols P ∅.
Proof. intros HP. split; [by intros x Hx%HP|]. intros k _ [r Hr]. by rewrite lookup_empty in Hr. Qed.
Lemma empty_holds w : wtable tbl w = ∅ -> steady w.1 -> clock_fits w.1 -> (env_last_seq w.1 <= u64_max)%N ->
  holds_state ∅ empty_state w.
Proof.
  intros Ht Hst Hf Hl. assert (Hc : wcontents tbl w = ∅) by (unfold wcontents; by rewrite Ht). split; [| | |done].
  - split; [done..|]. intros k q ts v. rewrite Ht. unfold cell, ntable. by rewrite lookup_fmap, lookup_empty.
  - assert (Hn : forall K `{Countable K} V (k : K) (v : V), (∅ : gmap K V) !! k = Some v -> False).
    { intros * Hk. by rewrite lookup_empty in Hk. }
    split; [split|..]; cbn; repeat first [intros []%Hn | intro].
  - rewrite Hc. split; try (apply kind_empty; intros x; cbn; unfold known; by rewrite lookup_empty).
    + exists ∅, ∅. split_and!; [|apply kind_empty; intros x; unfold known; by rewrite lookup_empty..].
      split; cbn; [intros k m; by rewrite lookup_empty|done..|intros k m; by rewrite lookup_empty].
    + apply kind_empty. intros x (q & Hq & _). cbn in Hq. by rewrite lookup_empty in Hq.
Qed.
End refines.
