(* ===== verification/BigtableTalk.v ===== *)
(** * Two sessions over a Bigtable table

    Concrete runs of the adapter on the service of [BigtableDemo.v]: one that
    makes most calls of the [Store] trait, and the two sessions of
    [TaskExamples.v] on a table filled by the adapter, with two deletions that
    overlap. *)
From Stdlib Require Import Ascii.
From S2P Require Import Instances Demo PlatformDemo MemoryStore MemoryProofs Prelude RustStr External Octets StoreTypes Store Hub App Notify Headers Subscription Session Ece Vapid Response Endpoint Registration Receipts Internal Calls System Concurrency Typing TaskExamples Bridge Client GcpAuth BigtableWire BigtableService Bigtable BigtableTheorems BigtableRows BigtableRuns BigtableDemo BigtableScans BigtableContents BigtableRepr BigtableRpcs BigtableInterleave BigtableUpdates BigtableOps BigtableCalls BigtableSweeps BigtableRefines.

Abbreviation BW := (Env * BtWorld (T := Table))%type.
Definition bt_store : BigtableStore := {| table := "t"; auth := None; app_profile := "" |}.
Definition bt_world (ms : N) : BW :=
  (demo_env ms, {| g_sent := []; g_reply := fun _ => Err "closed"; g_token := None; g_rpc := ∅ |}).
Abbreviation bt_play := (play (St := bigtable bt_store)) (only parsing).

(** ** A schedule on the adapter *)
Definition well_formed X (c : Call X) : Prop := call_typed c /\ call_rust c.
Definition scheduled (ok : forall X, Call X -> Prop) (tc : nat * ACall) : Prop := match tc.2 with Some_call c => ok _ c end.
Lemma play_entries (ok : forall X, Call X -> Prop) schedule : forall w, Forall (scheduled ok) schedule ->
  Forall (fun te => match te.2 with Called c _ => ok _ c end) (bt_play schedule w).1.
Proof.
  induction schedule as [|[t [X c]] schedule IH]; intros w; [constructor|]. intros [Hc Hs]%Forall_cons. cbn.
  destruct (perform c w) as [r w1]. specialize (IH w1 Hs). destruct (play schedule w1) as [log w2]. by constructor.
Qed.
Lemma play_inserted schedule : forall w,
  inserted_in (bt_play schedule w).1 = concat ((fun tc => match tc.2 with Some_call c => inserts c end) <$> schedule).
Proof.
  induction schedule as [|[t [X c]] schedule IH]; intros w; [done|]. cbn.
  destruct (perform c w) as [r w1]. specialize (IH w1). destruct (play schedule w1) as [log w2]. cbn in *.
  unfold inserted_in in *. cbn. by rewrite IH.
Qed.

(** Deciding that a schedule is a run: the calls succeed, and what has to be
    fresh is. *)
Definition enough (n : nat) (w : BW) : bool := (N.of_nat n <? 2 ^ 50)%N && (env_last_seq w.1 <? 2 ^ 60)%N.
Definition fresh_b {X} (c : Call X) (w : BW) : bool :=
  let rows := wcontents clean w in
  match c with
  | CCreateUserAgent ua => bool_decide (rows !! ua_key ua = None)
  | CCreateSubscription u ch _ =>
      bool_decide (rows !! ("ch#" +:+ u +:+ "#" +:+ ch) = None) && bool_decide (rows !! ("push#" +:+ (new_id w.1).1) = None)
  | CCreateReceiptSub => bool_decide (rows !! rsub_key (new_id w.1).1 = None)
  | CDeleteUserAgent _ | CExpireUserAgents _ | CDeleteSubscription _ _ | CReap _ => enough (size rows) w
  | CEnqueueReceipt _ => enough 1 w
  | _ => true
  end.
Fixpoint ready_b (schedule : list (nat * ACall)) (w : BW) : bool :=
  match schedule with
  | [] => true
  | (_, Some_call c) :: schedule =>
      let '(r, w') := perform (H := bigtable bt_store) c w in fresh_b c w && is_ok r && ready_b schedule w'
  end.

Definition demo_clock (w : BW) : Prop := exists ms, (ms < 2 ^ 50)%N /\ forall i, env_clock w.1 i = (ms + N.min (N.of_nat i) 1000)%N.
Lemma enough_room (n : nat) (w : BW) : demo_clock w -> enough n w = true -> seq_room n w.1.
Proof. intros (ms & Hms & Hc) [Hn%N.ltb_lt Hl%N.ltb_lt]%andb_true_iff. by apply (demo_seq_room ms). Qed.
Lemma fresh_sound {X} (c : Call X) (w : BW) : demo_clock w -> fresh_b c w = true -> rows_fresh clean c w.
Proof.
  intros Hc Hf. destruct c; cbn in *; try exact I; try (by apply enough_room); rewrite ?andb_true_iff, ?bool_decide_eq_true in Hf; exact Hf.
Qed.
Definition scheduled_inserts (schedule : list (nat * ACall)) : list Message :=
  concat ((fun tc => match tc.2 with Some_call c => inserts c end) <$> schedule).
Lemma ready_run schedule : forall past a (w : BW), holds_state clean past a w -> demo_clock w ->
  Forall (scheduled well_formed) schedule -> NoDup (m_id <$> scheduled_inserts schedule) ->
  (forall m, m ∈ scheduled_inserts schedule -> past !! m_id m = None) -> ready_b schedule w = true ->
  rows_run clean bt_store w (bt_play schedule w).1 (bt_play schedule w).2 /\
  exists past' a', holds_state clean past' a' (bt_play schedule w).2.
Proof.
  induction schedule as [|[t [X c]] schedule IH]; intros past a w Hs Hcl; [intros _ _ _ _; split; [apply rr_nil|by exists past, a]|].
  intros [[Hty Hru] Hargs]%Forall_cons Hnd Hnew. cbn [ready_b play]. unfold scheduled_inserts in Hnd, Hnew. cbn [fmap list_fmap concat snd] in Hnd, Hnew.
  destruct (perform c w) as [r w'] eqn:Hr. intros [[Hf Hok]%andb_true_iff Hready]%andb_true_iff. destruct r as [x|]; [|done].
  pose proof (fresh_sound c w Hcl Hf) as Hfr.
  destruct (bigtable_step clean toy_service bt_store c past a w x w' Hs Hty Hru Hfr) as (a' & Hs' & He & _); [|exact Hr|].
  { intros m Hm. apply Hnew, elem_of_app. by left. }
  assert (Hrun : rows_run clean bt_store w' (bt_play schedule w').1 (bt_play schedule w').2 /\
    exists past' a', holds_state clean past' a' (bt_play schedule w').2).
  { apply (IH (past_after c past) a'); [done| |done| | |done].
    - destruct Hcl as (ms & Hms & Hcl). exists ms. split; [done|]. intros i. rewrite (ext_clock _ _ He). apply Hcl.
    - rewrite fmap_app in Hnd. by apply NoDup_app in Hnd as (_ & _ & ?).
    - by apply past_after_new. }
  destruct (play schedule w') as [log w2]. destruct Hrun as [Hrun Hend]. split; [by eapply rr_call|exact Hend].
Qed.

(** ** Filling a table *)
Definition ua_session : UserAgent := {| ua_uaid := session_ua; ua_bridge := None; ua_last_seen := 5 |}.
Definition ua_bridged : UserAgent := {| ua_uaid := bridged_ua;
  ua_bridge := Some {| ba_bridge := "fcm"; ba_app_id := "app"; ba_token := "device" |}; ua_last_seen := 5 |}.
Definition fill_calls : list ACall :=
  [Some_call (CCreateUserAgent ua_session); Some_call (CCreateUserAgent ua_bridged);
   Some_call (CCreateSubscription session_ua demo_channel None);
   Some_call (CCreateSubscription bridged_ua demo_channel None);
   Some_call CCreateReceiptSub;
   Some_call (CInsertMessage (demo_msg demo_id (Some demo_rsub)));
   Some_call (CSetRoute (RUserAgent session_ua) "http://b:9000");
   Some_call (CEnqueueReceipt demo_receipt)].
Definition fill_schedule : list (nat * ACall) := pair 2 <$> fill_calls.

Lemma demo_msg_ok : msg_ok (demo_msg demo_id (Some demo_rsub)).
Proof.
  split; [apply msg_b_sound; vm_compute; reflexivity| | |done|done]; intros x Hx; [discriminate Hx|].
  injection Hx as <-. reflexivity.
Qed.
Lemma ua_session_ok : ua_ok ua_session.
Proof. split; [apply ua_b_sound; vm_compute; reflexivity|done|done]. Qed.
Lemma ua_bridged_ok : ua_ok ua_bridged.
Proof. split; [apply ua_b_sound; vm_compute; reflexivity|done|]. by intros b [= <-]. Qed.
Lemma fill_args (t : nat) : Forall (scheduled well_formed) (pair t <$> fill_calls).
Proof.
  assert (Hu : is_uaid session_ua = true /\ is_uaid bridged_ua = true /\ channel_ok demo_channel) by (vm_compute; done).
  destruct Hu as (Hu1 & Hu2 & Hc). repeat apply Forall_cons_2; [..|constructor]; unfold scheduled, well_formed; cbn.
  - split; [apply ua_session_ok|apply ua_session_ok].
  - split; [apply ua_bridged_ok|apply ua_bridged_ok].
  - by split.
  - by split.
  - done.
  - split; [apply demo_msg_ok|apply demo_msg_ok].
  - by split.
  - split; [apply receipt_b_sound; vm_compute; reflexivity|done].
Qed.

Definition filled_at (ms : N) : BW := (bt_play fill_schedule (bt_world ms)).2.
(** ** A run of every call *)
Definition topic_message (id : string) : Message := {|
  m_id := id; m_uaid := session_ua; m_channel_id := demo_channel; m_push := session_push; m_topic := Some "news";
  m_body := [x61]; m_ctype := None; m_cenc := Some "aes128gcm"; m_ttl := 60;
  m_urgency := Normal; m_accepted := 1000; m_expiry := 3000; m_rsub := Some demo_rsub;
|}.
Definition other_channel : string := "11111111-2222-3333-4444-666666666666".
Definition more_calls : list ACall :=
  [Some_call (CUserAgent session_ua); Some_call (CTouchUserAgent session_ua 7);
   Some_call (CUpdateBridgeToken bridged_ua "token"); Some_call (CSubscriptions session_ua);
   Some_call (CChannel session_ua demo_channel); Some_call (CSubscriptionByPush session_push);
   Some_call (CInsertMessage (topic_message "aaaaaaaaaaaaaaaaaaaaaa"));
   Some_call (CInsertMessage (topic_message "bbbbbbbbbbbbbbbbbbbbbb"));
   Some_call (CPending session_ua 1001 10); Some_call (CMessage "aaaaaaaaaaaaaaaaaaaaaa");
   Some_call (CReap 5000); Some_call (CReceiptSubExists demo_rsub); Some_call (CQueuedReceipts demo_rsub);
   Some_call (CDeleteReceipt demo_rsub 1); Some_call (CRoute (RUserAgent session_ua));
   Some_call (CClearRoute (RUserAgent session_ua) "http://b:9000");
   Some_call (CCreateSubscription session_ua other_channel None);
   Some_call (CDeleteSubscription session_ua other_channel);
   Some_call (CExpireUserAgents 6); Some_call (CDeleteUserAgent session_ua);
   Some_call (CDeleteMessage demo_id None); Some_call (CDeleteReceiptSub demo_rsub)].
Definition all_calls : list (nat * ACall) := pair 0 <$> fill_calls ++ more_calls.

Lemma topic_message_ok id : is_id id = true -> msg_ok (topic_message id).
Proof.
  intros Hi. assert (Hrest : is_uaid session_ua && channel_b demo_channel && is_id session_push && topic_b "news" && is_id demo_rsub = true)
    by (vm_compute; reflexivity).
  rewrite !andb_true_iff in Hrest. destruct Hrest as ((((Hu & Hc) & Hp) & Ht) & Hr).
  split; [split; [done|done|by apply channel_b_sound|done| |done|]| | |done|done]; cbn; intros x [= <-]; [by apply topic_b_sound|done..].
Qed.
Lemma all_args : Forall (scheduled well_formed) all_calls.
Proof.
  assert (Hu : is_uaid session_ua = true /\ is_uaid bridged_ua = true /\ channel_ok demo_channel /\ channel_ok other_channel /\
    is_id session_push = true /\ is_id demo_rsub = true /\ is_id demo_id = true /\ valid_token "token" = true /\
    is_id "aaaaaaaaaaaaaaaaaaaaaa" = true /\ is_id "bbbbbbbbbbbbbbbbbbbbbb" = true) by (vm_compute; done).
  destruct Hu as (Hu1 & Hu2 & Hc1 & Hc2 & Hp & Hr & Hi & Ht & Ha & Hb). unfold all_calls. rewrite fmap_app. apply Forall_app. split.
  - apply fill_args.
  - repeat apply Forall_cons_2; [..|constructor]; unfold scheduled, well_formed; cbn [fst snd call_typed call_rust];
      try (split; [done|done]); try (split; [split|]; done); try (split; apply topic_message_ok; done).
Qed.
Lemma all_ready : ready_b all_calls (bt_world 1000) = true.
Proof. vm_compute. reflexivity. Qed.

Lemma bt_world_holds ms : (ms < 2 ^ 50)%N -> holds_state clean ∅ empty_state (bt_world ms).
Proof.
  change (2 ^ 50)%N with 1125899906842624%N. intros Hms. apply empty_holds; [reflexivity| | |cbn; lia].
  - intros i j Hij. cbn. lia.
  - intros i. cbn. change (2 ^ 63)%N with 9223372036854775808%N. lia.
Qed.
Lemma bt_world_clock ms : (ms < 2 ^ 50)%N -> demo_clock (bt_world ms).
Proof. intros Hms. exists ms. by split. Qed.

Definition all_log : list (nat * Entry) := (bt_play all_calls (bt_world 1000)).1.
Lemma all_inserted : inserted_in all_log = [demo_msg demo_id (Some demo_rsub);
  topic_message "aaaaaaaaaaaaaaaaaaaaaa"; topic_message "bbbbbbbbbbbbbbbbbbbbbb"].
Proof. unfold all_log. by rewrite play_inserted. Qed.
Lemma all_run : rows_run clean bt_store (bt_world 1000) all_log (bt_play all_calls (bt_world 1000)).2.
Proof.
  apply (ready_run all_calls ∅ empty_state); [by apply bt_world_holds|by apply bt_world_clock|exact all_args| | |exact all_ready].
  - apply (bool_decide_unpack _). vm_compute. exact I.
  - intros m _. apply lookup_empty.
Qed.
(** Among others, the reaper finds the two messages with a topic: one is gone
    already. *)
Lemma bigtable_refines_witness : length all_log = 30 /\ exists a',
  contract ((bt_world 1000).1, empty_state) all_log ((bt_play all_calls (bt_world 1000)).2.1, a').
Proof.
  split; [vm_compute; reflexivity|].
  destruct (bigtable_refines clean toy_service bt_store ∅ empty_state (bt_world 1000) all_log _ (bt_world_holds 1000 eq_refl) all_run)
    as (a' & Hc & _).
  - exact (play_entries well_formed all_calls (bt_world 1000) all_args).
  - rewrite all_inserted. apply (bool_decide_unpack _). vm_compute. exact I.
  - intros m _. apply lookup_empty.
  - exists a'. exact Hc.
Defined.

(** The table of the two sessions, filled by the adapter. *)
Definition filled_world : BW := (bt_play fill_schedule (bt_world 988)).2.

(** ** Two deletions that overlap

    The two sessions of [TaskExamples.v] over one Bigtable table: both have
    found the message before either removes its row. *)

#[export] Instance demo_header_values : HeaderValues := fun _ => Ok ().

(** ** Calls answered from tables

    The [n]th call to the service is answered as the [n]th table has it. *)
Definition plain_req {X} (m : X) : Req X := Build_Req [] m.
Definition snap (ts : list Table) : Wire := {|
  wi_log := [];
  wi_mutate := fun log m => (mutate_row (plain_req m) (nth (length log) ts ∅)).1;
  wi_read := fun log m => (read_rows (plain_req m) (nth (length log) ts ∅)).1;
  wi_check := fun log m => (check_and_mutate_row (plain_req m) (nth (length log) ts ∅)).1;
|}.
Definition snap_world (e : Env) (ts : list Table) : Env * BtWorld (T := Wire) :=
  (e, {| g_sent := []; g_reply := fun _ => Err "closed"; g_token := None; g_rpc := snap ts |}).
Definition asked (e : Env) (ts : list Table) (c : ACall) : Entry * list Rpc :=
  match c with
  | Some_call c => let '(r, w) := perform (H := bigtable bt_store) c (snap_world e ts) in (Called c r, calls_of w)
  end.
Fixpoint asked_all (l : list (Env * list Table * ACall)) : list Entry * list Rpc :=
  match l with
  | [] => ([], [])
  | (e, ts, c) :: l => let '(en, k) := asked e ts c in let '(ens, ks) := asked_all l in (en :: ens, k ++ ks)
  end.
Lemma asked_all_ask l : calls_ask bt_store (asked_all l).1 (asked_all l).2.
Proof.
  induction l as [|[[e ts] [X c]] l IH]; cbn; [constructor|].
  destruct (perform c (snap_world e ts)) as [r w] eqn:Hp. destruct (asked_all l) as [ens ks]. constructor; [|exact IH].
  exists (snap_world e ts), w. by split.
Qed.

(** A log whose changes are those of the small service. *)
Fixpoint replay (t : Table) (log : list (nat * Rpc)) : option Table :=
  match log with
  | [] => Some t
  | (_, ReadRows _ _) :: log => replay t log
  | (_, MutateRow m (Ok ())) :: log =>
      match mutate_row (plain_req m) t with (Ok (), t) => replay t log | _ => None end
  | (_, CheckAndMutateRow m (Ok b)) :: log =>
      if decide (cm_predicate_filter m = None) then None
      else match check_and_mutate_row (plain_req m) t with
           | (Ok b', t) => if decide (b' = b) then replay t log else None
           | _ => None
           end
  | _ => None
  end.
Lemma replay_run log : forall t t', replay t log = Some t' -> rpc_run (clean t) log (clean t').
Proof.
  destruct (service_steps clean toy_service) as (Hmut & Hchk & _).
  induction log as [|[n ev] log IH]; intros t t' Hr; [injection Hr as <-; constructor|].
  destruct ev as [m [[]|e]|m r|m [b|e]]; cbn [replay] in Hr; try done.
  - destruct (mutate_row (plain_req m) t) as [[[]|e] t1] eqn:Hm; [|done]. econstructor; [by apply (Hmut (plain_req m))|by apply IH].
  - econstructor; [apply step_read, collects_refl|by apply IH].
  - case_decide as Hf; [done|]. destruct (cm_predicate_filter m) as [f|] eqn:Hf'; [|done].
    destruct (check_and_mutate_row (plain_req m) t) as [[b'|e] t1] eqn:Hc; [|done]. case_decide; [subst b'|done].
    econstructor; [|by apply IH]. by apply (Hchk (plain_req m) t b t1 f).
Qed.

(** ** The two sessions *)
Definition after (t : Table) (log : list Rpc) : Table := default ∅ (replay t (pair 0 <$> log)).
Definition env_at (n : nat) : Env := (bt_play (take n talk_schedule) filled_world).2.1.
Definition call_at (n : nat) : ACall := default (Some_call CCreateReceiptSub) (snd <$> talk_schedule !! n).
Definition on (ts : list Table) (n : nat) : Env * list Table * ACall := (env_at n, ts, call_at n).

(** The table as it is after the first session's note of the time, after the
    second's, after the removal of the row, and after that of its index. *)
Definition t0 : Table := g_rpc filled_world.2.
Definition t1 : Table := after t0 (asked_all [on [t0] 2]).2.
Definition t2 : Table := after t1 (asked_all [on [t1] 3]).2.
Definition t3 : Table := after t2 (take 3 (asked_all [on [t2; t2; t2] 6]).2).
Definition t4 : Table := after t2 (asked_all [on [t2; t2; t2] 6]).2.
Definition first_session := asked_all [on [t0] 0; on [t0] 2; on [t2] 4; on [t2; t2; t2; t3] 6; on [t4; t4] 8].
Definition second_session := asked_all [on [t0] 1; on [t1] 3; on [t2] 5; on [t2; t2; t3] 7].
Definition overlap : list (nat * Rpc) :=
  let a n := pair 0 <$> option_list (first_session.2 !! n) in
  let b n := pair 1 <$> option_list (second_session.2 !! n) in
  a 0 ++ b 0 ++ a 1 ++ b 1 ++ a 2 ++ b 2 ++ a 3 ++ b 3 ++ a 4 ++ b 4 ++ a 5 ++ b 5 ++ a 6 ++ a 7 ++ a 8.

Lemma first_calls : first_session.1 = of_task 0 talk_log /\ task_rpcs 0 overlap = first_session.2.
Proof. split; vm_compute; reflexivity. Qed.
Lemma second_calls : second_session.1 = of_task 1 talk_log /\ task_rpcs 1 overlap = second_session.2.
Proof. split; vm_compute; reflexivity. Qed.
Lemma no_other_calls n : task_rpcs (S (S n)) overlap = [].
Proof.
  assert (Hall : Forall (fun te => te.1 < 2) overlap) by (apply (bool_decide_unpack _); vm_compute; exact I).
  unfold task_rpcs. rewrite filter_none; [done|]. intros te Hin. rewrite Forall_forall in Hall. apply Hall in Hin. lia.
Qed.
Lemma session_calls n : calls_ask bt_store (of_task n talk_log) (task_rpcs n overlap ++ []).
Proof.
  rewrite app_nil_r. destruct n as [|[|n]].
  - destruct first_calls as [<- ->]. apply asked_all_ask.
  - destruct second_calls as [<- ->]. apply asked_all_ask.
  - rewrite no_other_calls, talk_others. constructor.
Qed.
Lemma overlap_replays : is_Some (replay t0 overlap).
Proof. apply (bool_decide_unpack _). vm_compute. exact I. Qed.
Lemma overlap_counts : total (answers demo_id) overlap.*2 = 1 /\ size (holding demo_id (clean t0)) = 1 /\
  sum_list_with (fun n => inserting demo_id (of_task n talk_log)) (tasks_of overlap) = 0.
Proof. split_and!; vm_compute; reflexivity. Qed.

(** One receipt, and no row that holds the message any more. *)
Lemma interleaved_receipts_witness :
  total (answers demo_id) overlap.*2 = 1 /\ exists t', rpc_run (clean t0) overlap t' /\ size (holding demo_id t') = 0.
Proof.
  destruct overlap_counts as (Ha & Hs & Hn), overlap_replays as [t' Ht']. split; [done|]. exists (clean t').
  pose proof (replay_run _ _ _ Ht') as Hrun. split; [done|].
  pose proof (interleaved_receipts demo_id (clean t0) overlap (clean t') (fun n => of_task n talk_log) eq_refl Hrun
    (fun n => ex_intro _ bt_store (ex_intro _ [] (ex_intro _ [] (conj (talk_serves n) (session_calls n)))))) as H.
  cbv beta in H. rewrite Ha, Hs, Hn in H. lia.
Defined.
